(* ===== verification/_CoqProject ===== *)
-Q . S2P
Prelude.v
Io.v
Service.v
Parse.v
Common.v
Crypto.v
Sha256Ref.v
FsverityCommon.v
MerkleSpec.v
Content.v
Builder.v
File.v
Verifier.v
VerifierFaults.v
Editor.v
EditorConc.v
EditorRace.v
VirtFd.v
FdServer.v
FdServerSpec.v
RemoteFile.v
FuseFs.v
Frames.v
AuthfsSpec.v
AuthfsSafety.v
AuthfsMain.v
Compos.v
JailTrace.v
ComposRun.v
ZipInode.v
ZipFuse.v
ZipTyped.v
ZipTests.v
ZipClient.v
VmSync.v
VirtManager.v
VirtSpec.v
VmTool.v
UnitTests.v
DigestTests.v
