(* ===== verification/Prelude.v ===== *)
(** * Verification of the Android virtualization module

    The repository holds the programs that let Android run and talk to
    protected virtual machines.  They are, under src/:

    - authfs: a FUSE file system inside the VM.  It shows files that an
      untrusted host stores, and checks what it reads against fs-verity Merkle
      trees; for writable files it keeps a private Merkle tree of its own.
    - authfs/fd_server: the host's side, a Binder service over a fixed set of
      file descriptors, the storage that authfs does not trust.
    - compos: pvm_exec (host), compsvc and compsvc_worker (VM), which pass
      descriptors through fd_server and authfs to run a compilation task.
    - zipfuse: a read-only FUSE file system over a zip archive.
    - virtmanager and vm: the Binder service that starts crosvm, hands out
      references to VMs and ends a VM with its last reference; and its command
      line tool.

    ** Files

    - [Prelude]: outcomes of Rust code ([Ok], [Err], [Panic], and [NoFuel] for a
      loop whose end depends on its environment), the state-passing monad [M],
      machine integers that panic or wrap as the build profile says
      ([Profile]), slices, the tactics and the lemmas on them.
    - [Io], [Parse]: what the sources use of std::io, libc, str::parse and
      str::split.  [Service]: registering a Binder service, mounting and the
      FUSE message loop, as the [main] functions use them.
    - [Common]: authfs/src/common.rs.  [Crypto]: crypto.rs and auth.rs.
      [Sha256Ref]: a concrete SHA-256 for the witnesses.
    - [FsverityCommon]: fsverity/common.rs and sys.rs.  [Builder]: builder.rs.
      [Verifier]: verifier.rs.  [VerifierFaults]: its reads over a damaged
      tree.  [Editor]: editor.rs.  [EditorConc]: concurrent calls of its
      [write_at], interleaved where the lock is released.  [EditorRace]: the
      same with calls of [resize], and with the lock poisoned by a panic.
      [File]: file.rs, local_file.rs and the in-memory store of editor.rs's
      tests.
    - [MerkleSpec], [Content]: the specifications these are proved against:
      fs-verity's tree and digest of a content; a file as a list of bytes.
    - [VirtFd]: the Binder interface IVirtFdService, as a type class.
      [FdServer]: fd_server/src (main.rs, fsverity.rs), an instance of it.
      [FdServerSpec]: what it promises, a map from numbers to contents.
      [RemoteFile]: remote_file.rs, a client of it.
    - [FuseFs]: fusefs.rs, the FUSE handlers.  [AuthfsSafety]: a small program
      logic for computations that do not panic, and the reads.  [Frames]: which
      part of the world a handler touches.  [AuthfsSpec]: the abstract file
      system that the handlers implement.  [AuthfsMain]: authfs/src/main.rs, the
      options and the pool of files.
    - [Compos]: modules [PvmExec], [CompSvc] and [Worker] for the programs of
      compos/src.  [JailTrace]: the processes that they start and end.
      [ComposRun]: a whole request, from pvm_exec's command line through
      fd_server and the worker to the files of authfs.
    - [ZipInode]: zipfuse/src/inode.rs.  [ZipFuse]: zipfuse/src/main.rs.
      [ZipTyped]: the types of its open buffers.  [ZipClient]: the mounted
      archive as a program sees it (the tests of main.rs).
    - [VmSync]: vm/src/sync.rs.  [VirtManager]: virtmanager/src.  [VirtSpec]: the
      registry of VMs that it implements.  [VmTool]: the rest of vm/src.
    - [ZipTests], [UnitTests], [DigestTests]: the unit tests of the repository,
      translated like the code they test and shown to pass on the model, those
      that compare digests exactly when the digests in them are fs-verity's.

    ** How the code is modelled

    A Rust function is a Rocq function with the same name where possible
    ([Type_method] for methods whose name is used twice).  [Result] and the
    [?] operator are the error monad, a panic is an outcome of its own, and an
    interior-mutable field, a file or the server behind Binder is a world that
    the state monad passes on; the world is returned on every path, so an error
    does not undo earlier effects.  Traits are type classes: [ReadByChunk] and
    [RandomWrite] (file.rs), [Authenticator] (auth.rs), [IVirtFdService] (AIDL).
    What a client may assume of an implementation is a class of laws of its own:
    [BufferTyped] and [FillsPrefix] are what Rust's types or the reader's code
    give for every storage, honest or not; [reads_content] and [StoresContent]
    describe an honest one.  The security theorems use only the former; the
    functional ones use the latter, which is proved of the in-memory store and
    of the remote file over fd_server over [PosixFile] files.

    Code outside the repository is a parameter: BoringSSL's SHA-256
    ([Sha256Ffi], with the contract [Sha256Spec]), regular files ([OsFile],
    [PosixFile]), the fs-verity ioctl ([VerityIoctl]), the descriptor table
    ([FdTable]), the zip library (the record [zip_file]), HashMap's iteration
    order and the fuse crate's Dirent ([ZipEnv]), minijail ([Minijail]), the
    clock and the files of the worker ([WorkerOs], [WorkerFiles]), Binder's
    service manager ([ServiceManager]), the fuse crate ([FuseLib]), crosvm's
    process and the JSON parser ([StartEnv]), the writer of the zip library in
    the tests ([ZipRoundTrip]).

    No theorem assumes that SHA-256 has no collisions (it has): integrity is
    stated as "the authentic bytes, or this run exhibits two different blocks
    with the same hash", with the colliding block among those that the storage
    served in this very run.

    ** What the theorems show

    - Merkle trees: the digest that authfs computes of the leaves is the
      kernel's digest of the content; the tree walk of the verifier visits the
      hash pages that fs-verity defines, without overflow up to 2^61 bytes.
    - Verified reads: an accepted chunk is authentic or exhibits a collision,
      over any storage and any tree; over honest storage every chunk is served.
      The same through the FUSE handlers and through fd_server.  A damaged page
      of the tree fails the chunks below it and no others; and whatever the
      service answers, a FUSE read returns a count or an error and never panics.
    - Verified writes: over any storage the private tree stays the tree of what
      the client wrote, or a collision is exhibited; over an honest store any
      history of writes and resizes leaves exactly the written content and its
      fs-verity digest.  The same over fd_server, and read-after-write through
      the FUSE handlers.  Calls of [write_at] and [resize] that run at the same
      time change, in every interleaving of their lock acquisitions, one plain
      file step by step, whose tree the editor keeps: over any storage, up to a
      collision and to what the storage serves for a truncated chunk; over an
      honest store the plain file is the stored one and the recorded size agrees
      when all have returned, and writes alone return and blend their bytes.  A
      lock that a panic has poisoned stops every later request.
    - The mounted authfs: over fd_server with regular files, every history of
      FUSE requests gets the answers of an abstract file system whose read-only
      nodes are constants and whose writable nodes are byte lists, and leaves
      the served files with the contents that it ends with.
    - fd_server: no request changes a file that is not served for writing;
      requests are validated on every branch; its command line round-trips; and
      over regular files it refines an abstract map from numbers to contents,
      request by request and for every history.
    - compos: descriptors keep their numbers from the request to authfs; the
      wait for the mount ends; the files that the task of a request sees are the
      caller's descriptors, served by fd_server and with the content they had;
      whatever the task does with them, it gets the answers of the abstract file
      system, inputs stay as they were and each output holds what was written;
      on every path, error or not, the worker ends authfs and pvm_exec ends
      fd_server; and the task is started only after authfs was seen at the mount
      point, with the descriptors that opening its files there gave.
    - zipfuse: the inode table is exactly the archive's tree; an open handle
      serves its entry's bytes in every history of requests; lookups find
      exactly the archive's paths; a directory listing is complete, without
      repetition, for every buffer size; a buffer is always of the inode and the
      kind it is keyed by; and a program that stats, reads or lists any path of
      a mounted archive sees the archive, whose modes agree with its entries and
      whose names fit in memory.
    - virtmanager: it refines a registry that maps numbers to VMs, in every
      interleaving and for every history, and a VM that has ended never runs
      again; as a step system with an inductive invariant:
      CIDs are never reused, a VM is killed exactly when nobody refers to it, the
      listing is complete, registered callbacks are called, debug methods are
      restricted, command lines are injective.
    - vm: a thread that waits on the flag returns only after it was raised, and
      every waiting thread returns once it has been raised, in every schedule,
      with spurious wake-ups; [vm run] returns when the VM has died after its
      callback was registered; a VM that was started detached is the manager's
      alone, and is ended by [vm stop], which touches no other VM.
    - Where the code does not do what its documentation or its purpose says,
      a theorem states what it does (the manifest lists them as findings): a
      debug assertion that rejects every multi-leaf tree, one-block files,
      truncation without verification, the size after a short write, the leaf
      after a failed truncation, a lock that a resize during a write poisons,
      unverified reads of writable files, buffers that are never released, callbacks that
      are registered too late, and others.

    ** Fuel and bounds

    [chunks] and the chunk iterator have exact fuel (the length; [csi_fuel], one
    step per byte and one more).  [write_all_at] takes fuel because a store may
    accept zero bytes for ever; over a store that makes progress, the length of
    the buffer and one more is proved to be enough.  The wait for authfs polls
    until a deadline, and the number of polls to the deadline is proved to be
    enough for any clock that advances with a sleep.  The listing client of
    zipfuse takes one request per entry and one more, and its reading client one
    per byte and one more.  Six steps for every thread are enough for a raised
    flag to wake them all.

    ** What is not modelled

    The logger and the option-parsing libraries (a [main] takes the parsed
    options); the kernel behind a mount, the Binder transport and the body of
    the message loops, which are parameters; the C++ microdroid signature tool,
    the Java tests and the build files.  Of the unit tests, the harness that mounts
    an archive is left out (its checks run over the handlers); the
    digests that the tests of authfs compare with are evaluated for a few inputs
    only, since SHA-256 on large ones is slow in the kernel.  Mutexes are
    modelled as atomic operations; the finer interleaving is modelled where
    threads communicate or take a lock several times, in [VirtManager],
    [VmSync], [EditorConc] and [EditorRace].  The references that clients hand to
    virtmanager are to VMs of its own; histories of zipfuse do not stop at a
    request that panics. *)

From stdpp Require Export base list numbers gmap strings pretty.
From Stdlib Require Export ZArith Lia.

#[global] Open Scope Z_scope.

(** ** Outcomes of Rust code

    A Rust call returns normally, returns an error through [Result] or
    [Option::ok_or], panics (failed [assert!], [unwrap], slice bound, checked
    arithmetic), or, for a loop whose termination depends on its environment,
    exhausts the fuel of its model. *)

Inductive outcome (E A : Type) : Type :=
| Ok (a : A)
| Err (e : E)
| Panic
| NoFuel.
Arguments Ok {E A} a.
Arguments Err {E A} e.
Arguments Panic {E A}.
Arguments NoFuel {E A}.

#[export] Instance outcome_ret {E} : MRet (outcome E) := λ A a, Ok a.
#[export] Instance outcome_bind {E} : MBind (outcome E) := λ A B f m,
  match m with
  | Ok a => f a
  | Err e => Err e
  | Panic => Panic
  | NoFuel => NoFuel
  end.
#[export] Instance outcome_fmap {E} : FMap (outcome E) := λ A B f m,
  match m with
  | Ok a => Ok (f a)
  | Err e => Err e
  | Panic => Panic
  | NoFuel => NoFuel
  end.

(** [Result::map_err], also the implicit [From] conversion of the [?] operator. *)
Definition map_err {E E' A} (f : E -> E') (m : outcome E A) : outcome E' A :=
  match m with
  | Ok a => Ok a
  | Err e => Err (f e)
  | Panic => Panic
  | NoFuel => NoFuel
  end.

(** [Option::ok_or] and [Option::unwrap]/[expect]. *)
Definition ok_or {E A} (e : E) (o : option A) : outcome E A :=
  match o with Some a => Ok a | None => Err e end.
Definition unwrap {E A} (o : option A) : outcome E A :=
  match o with Some a => Ok a | None => Panic end.

(** [assert!]. *)
Definition assert_ {E} (b : bool) : outcome E unit :=
  if b then Ok () else Panic.
(** [assert_eq!]. *)
Definition assert_eq {E A} `{EqDecision A} (a b : A) : outcome E unit := assert_ (bool_decide (a = b)).

(** ** State passing

    [M W E A] is a computation that reads and updates the world [W] (the
    backing files, the server behind binder, an interior-mutable field) and
    may fail.  The world is returned on every path: an error does not undo
    what was done before it. *)
Definition M (W E A : Type) : Type := W -> outcome E A * W.

#[export] Instance M_ret {W E} : MRet (M W E) := λ A a w, (Ok a, w).
#[export] Instance M_bind {W E} : MBind (M W E) := λ A B f m w,
  match m w with
  | (Ok a, w') => f a w'
  | (Err e, w') => (Err e, w')
  | (Panic, w') => (Panic, w')
  | (NoFuel, w') => (NoFuel, w')
  end.

Definition lift {W E A} (m : outcome E A) : M W E A := λ w, (m, w).
Definition fail {W E A} (e : E) : M W E A := λ w, (Err e, w).
Definition get {W E} : M W E W := λ w, (Ok w, w).
Definition put {W E} (w : W) : M W E unit := λ _, (Ok (), w).
Definition map_errM {W E E' A} (f : E -> E') (m : M W E A) : M W E' A :=
  λ w, let '(r, w') := m w in (map_err f r, w').

(** [match m { Ok(a) => .., Err(e) => .. }]: the result as a value. *)
Definition tryM {W E E' A} (m : M W E A) : M W E' (E + A) := λ w,
  match m w with
  | (Ok a, w') => (Ok (inr a), w')
  | (Err e, w') => (Ok (inl e), w')
  | (Panic, w') => (Panic, w')
  | (NoFuel, w') => (NoFuel, w')
  end.

(** [scopeguard::guard]: [release] runs when the scope of [body] is left, by a
    value, an error or a panic; its own result is not used. *)
Definition guard {W E E' A} (release : M W E' unit) (body : M W E A) : M W E A := λ w,
  match body w with
  | (NoFuel, w') => (NoFuel, w')
  | (r, w') => (r, (release w').2)
  end.

(** [Iterator::map(..).collect::<Result<Vec<_>, _>>()] with effects. *)
Fixpoint collectM {W E A B} (f : A -> M W E B) (l : list A) : M W E (list B) :=
  match l with
  | [] => mret []
  | x :: l' => y ← f x; ys ← collectM f l'; mret (y :: ys)
  end.

(** Runs a computation on one component of a pair of states. *)
Definition on_fst {W T E A} (m : M T E A) : M (T * W) E A :=
  λ '(t, w), let '(r, t') := m t in (r, (t', w)).
Definition on_snd {W T E A} (m : M W E A) : M (T * W) E A :=
  λ '(t, w), let '(r, w') := m w in (r, (t, w')).

(** ** Build profile

    Whether [debug_assert!] is compiled in and whether integer overflow
    panics are options of the Rust compiler; every model below is stated for
    each choice of the two. *)
Class Profile := {
  debug_assertions : bool;
  overflow_checks : bool
}.

Definition debug_profile : Profile :=
  {| debug_assertions := true; overflow_checks := true |}.
Definition release_profile : Profile :=
  {| debug_assertions := false; overflow_checks := false |}.

Definition debug_assert `{Profile} {E} (b : bool) : outcome E unit :=
  if debug_assertions then assert_ b else Ok ().

(** ** Machine integers

    Unsigned and signed integers are [Z] values in range; an operation whose
    result leaves the range panics or wraps, as the profile says. *)
Definition fits (w : Z) (x : Z) : bool := (0 <=? x) && (x <? 2 ^ w).
Definition checked_u `{Profile} {E} (w : Z) (x : Z) : outcome E Z :=
  if fits w x then Ok x
  else if overflow_checks then Panic
  else Ok (x mod 2 ^ w).

Definition add_u64 `{Profile} {E} (a b : Z) : outcome E Z := checked_u 64 (a + b).
Definition sub_u64 `{Profile} {E} (a b : Z) : outcome E Z := checked_u 64 (a - b).
Definition mul_u64 `{Profile} {E} (a b : Z) : outcome E Z := checked_u 64 (a * b).
Definition div_u64 {E} (a b : Z) : outcome E Z :=
  if b =? 0 then Panic else Ok (a / b).
Definition rem_u64 {E} (a b : Z) : outcome E Z :=
  if b =? 0 then Panic else Ok (a mod b).

(** [u64::pow]: repeated multiplication, each step checked. *)
Fixpoint pow_u64_nat `{Profile} {E} (b : Z) (n : nat) : outcome E Z :=
  match n with
  | O => Ok 1
  | S n' => p ← pow_u64_nat b n'; mul_u64 p b
  end.
Definition pow_u64 `{Profile} {E} (b x : Z) : outcome E Z :=
  pow_u64_nat b (Z.to_nat x).

Definition u64_MAX : Z := 2 ^ 64 - 1.
Definition u32_MAX : Z := 2 ^ 32 - 1.
Definition i64_MAX : Z := 2 ^ 63 - 1.
Definition i32_MAX : Z := 2 ^ 31 - 1.

Definition saturating_sub (a b : Z) : Z := Z.max 0 (a - b).
Definition saturating_add_u64 (a b : Z) : Z := Z.min u64_MAX (a + b).

(** [as] casts. *)
Definition as_u32 (x : Z) : Z := x mod 2 ^ 32.
Definition as_u64 (x : Z) : Z := x mod 2 ^ 64.
Definition as_signed (w : Z) (x : Z) : Z :=
  let y := x mod 2 ^ w in if y <? 2 ^ (w - 1) then y else y - 2 ^ w.
Definition as_i32 (x : Z) : Z := as_signed 32 x.
Definition as_i64 (x : Z) : Z := as_signed 64 x.

(** [i64::try_from] of a [u64] and [u64::try_from] of a signed integer. *)
Definition try_i64 {E} (e : E) (x : Z) : outcome E Z :=
  if x <=? i64_MAX then Ok x else Err e.
Definition try_unsigned {E} (e : E) (x : Z) : outcome E Z :=
  if 0 <=? x then Ok x else Err e.

(** [u64::leading_zeros]. *)
Definition bit_length (x : Z) : Z := if x =? 0 then 0 else Z.log2 x + 1.
Definition leading_zeros_u64 (x : Z) : Z := 64 - bit_length x.

(** ** Bytes and slices *)
Abbreviation byte := Z (only parsing).
Abbreviation bytes := (list Z) (only parsing).
Abbreviation len l := (Z.of_nat (length l)).

Definition zeros (n : Z) : bytes := replicate (Z.to_nat n) 0.

(** [&l[a..b]], [&l[..b]] and [&l[a..]]. *)
Definition subrange {A} (l : list A) (a b : Z) : list A :=
  take (Z.to_nat (b - a)) (drop (Z.to_nat a) l).
Definition slice {E A} (l : list A) (a b : Z) : outcome E (list A) :=
  if (0 <=? a) && (a <=? b) && (b <=? len l) then Ok (subrange l a b) else Panic.
Definition slice_to {E A} (l : list A) (b : Z) : outcome E (list A) := slice l 0 b.
Definition slice_from {E A} (l : list A) (a : Z) : outcome E (list A) :=
  slice l a (len l).

(** [dst[..src.len()].copy_from_slice(src)], the destination being long enough. *)
Definition copy_prefix {E A} (dst src : list A) : outcome E (list A) :=
  if len src <=? len dst then Ok (src ++ drop (length src) dst) else Panic.

(** [Vec::get] and indexing by an unsigned integer. *)
Definition zlookup {A} (l : list A) (i : Z) : option A :=
  if i <? 0 then None else l !! Z.to_nat i.

(** [slice::chunks]: consecutive runs of [n] elements, the last one shorter. *)
Fixpoint chunks_fuel {A} (fuel n : nat) (l : list A) : list (list A) :=
  match fuel, l with
  | S fuel', _ :: _ => take n l :: chunks_fuel fuel' n (drop n l)
  | _, _ => []
  end.
Definition chunks {A} (n : nat) (l : list A) : list (list A) :=
  chunks_fuel (length l) n l.

(** [uN::to_le_bytes]. *)
Fixpoint le_bytes (n : nat) (x : Z) : bytes :=
  match n with
  | O => []
  | S n' => x mod 256 :: le_bytes n' (x / 256)
  end.

(** [Iterator::try_fold] over a list. *)
Fixpoint try_fold {W E A B} (f : A -> B -> M W E A) (acc : A) (l : list B) : M W E A :=
  match l with
  | [] => mret acc
  | x :: l' => acc' ← f acc x; try_fold f acc' l'
  end.

(** [Iterator::map(..).collect::<Result<Vec<_>, _>>()]. *)
Fixpoint try_map {E A B} (f : A -> outcome E B) (l : list A) : outcome E (list B) :=
  match l with
  | [] => Ok []
  | x :: l' => y ← f x; ys ← try_map f l'; Ok (y :: ys)
  end.

(** ** Hint databases and tactics *)
Create HintDb rust.

(** Reduces a bind whose first computation is known. *)
Lemma bind_Ok {E A B} (a : A) (f : A -> outcome E B) : (Ok a ≫= f) = f a.
Proof. reflexivity. Qed.
Lemma bind_Err {E A B} (e : E) (f : A -> outcome E B) : (Err e ≫= f) = Err e.
Proof. reflexivity. Qed.
Lemma bind_Panic {E A B} (f : A -> outcome E B) : (Panic ≫= f) = Panic.
Proof. reflexivity. Qed.
Lemma mret_Ok {E A} (a : A) : mret (M := outcome E) a = Ok a.
Proof. reflexivity. Qed.

Lemma bind_inv {E A B} (m : outcome E A) (f : A -> outcome E B) b :
  (m ≫= f) = Ok b -> ∃ a, m = Ok a ∧ f a = Ok b.
Proof. destruct m; naive_solver. Qed.
Lemma map_err_inv {E E' A} (g : E -> E') (m : outcome E A) a :
  map_err g m = Ok a -> m = Ok a.
Proof. destruct m; naive_solver. Qed.

Lemma M_bind_eq {W E A B} (m : M W E A) (f : A -> M W E B) w :
  (m ≫= f) w = match m w with
               | (Ok a, w') => f a w'
               | (Err e, w') => (Err e, w')
               | (Panic, w') => (Panic, w')
               | (NoFuel, w') => (NoFuel, w')
               end.
Proof. reflexivity. Qed.
Lemma M_bind_Ok {W E A B} (m : M W E A) (f : A -> M W E B) w a w' :
  m w = (Ok a, w') -> (m ≫= f) w = f a w'.
Proof. intros H. by rewrite M_bind_eq, H. Qed.
Lemma M_bind_Err {W E A B} (m : M W E A) (f : A -> M W E B) w e w' :
  m w = (Err e, w') -> (m ≫= f) w = (Err e, w').
Proof. intros H. by rewrite M_bind_eq, H. Qed.
Lemma M_bind_lift {W E A B} (m : outcome E A) (f : A -> M W E B) w a :
  m = Ok a -> (lift m ≫= f) w = f a w.
Proof. by intros ->. Qed.
Lemma M_bind_inv {W E A B} (m : M W E A) (f : A -> M W E B) w b w'' :
  (m ≫= f) w = (Ok b, w'') -> ∃ a w', m w = (Ok a, w') ∧ f a w' = (Ok b, w'').
Proof. rewrite M_bind_eq. destruct (m w) as [[] ?]; naive_solver. Qed.
Lemma map_errM_inv {W E E' A} (g : E -> E') (m : M W E A) w a w' :
  map_errM g m w = (Ok a, w') -> m w = (Ok a, w').
Proof. unfold map_errM. destruct (m w) as [[] ?]; naive_solver. Qed.
Lemma lift_inv {W E A} (m : outcome E A) (w : W) r w' :
  lift m w = (r, w') -> m = r ∧ w = w'.
Proof. unfold lift. naive_solver. Qed.

(** A computation only moves the world along [R], whatever its result. *)
Definition preserves {W E A} (R : W -> W -> Prop) (m : M W E A) : Prop := ∀ w, R w (m w).2.

Section Preserves.
Context {W : Type} (R : W -> W -> Prop) `{!PreOrder R}.

Lemma preserves_lift {E A} (m : outcome E A) : preserves R (lift m).
Proof. intros w. simpl. reflexivity. Qed.
Lemma preserves_mret {E A} (a : A) : preserves R (mret (M := M W E) a).
Proof. intros w. simpl. reflexivity. Qed.
Lemma preserves_fail {E A} (e : E) : preserves R (fail (A := A) e).
Proof. intros w. simpl. reflexivity. Qed.
Lemma preserves_bind {E A B} (m : M W E A) (f : A -> M W E B) :
  preserves R m -> (∀ a, preserves R (f a)) -> preserves R (m ≫= f).
Proof.
  intros Hm Hf w. rewrite M_bind_eq. specialize (Hm w).
  destruct (m w) as [[a| | |] w']; [|done..]. etrans; [exact Hm|apply Hf].
Qed.
Lemma preserves_bind_lift {E A B} (m : outcome E A) (f : A -> M W E B) :
  (∀ a, m = Ok a -> preserves R (f a)) -> preserves R (lift m ≫= f).
Proof. intros Hf w. rewrite M_bind_eq. cbn [lift]. destruct m; cbn; [by apply Hf|reflexivity..]. Qed.
Lemma preserves_map_errM {E E' A} (g : E -> E') (m : M W E A) :
  preserves R m -> preserves R (map_errM g m).
Proof. intros Hm w. specialize (Hm w). unfold map_errM. by destruct (m w). Qed.
Lemma preserves_tryM {E E' A} (m : M W E A) : preserves R m -> preserves R (tryM (E' := E') m).
Proof. intros Hm w. specialize (Hm w). unfold tryM. by destruct (m w) as [[] ?]. Qed.
End Preserves.

(** [frame]: a goal [preserves R m] by the structure of [m]. *)
Ltac frame_step :=
  match goal with
  | |- preserves _ (lift _) => apply preserves_lift; typeclasses eauto
  | |- preserves _ (mret _) => apply preserves_mret; typeclasses eauto
  | |- preserves _ (fail _) => apply preserves_fail; typeclasses eauto
  | |- preserves _ (map_errM _ _) => apply preserves_map_errM
  | |- preserves _ (tryM _) => apply preserves_tryM
  | |- preserves _ (lift _ ≫= _) => apply preserves_bind_lift; [typeclasses eauto|intros ? ?]
  | |- preserves _ (_ ≫= _) => apply preserves_bind; [typeclasses eauto| |intros ?]
  | |- preserves _ (match ?x with _ => _ end) => destruct x eqn:?
  | |- preserves _ _ => solve [eauto]
  end.
Ltac frame := repeat frame_step.

Lemma try_fold_app {W E A B} (f : A -> B -> M W E A) acc (l1 l2 : list B) w :
  try_fold f acc (l1 ++ l2) w = (try_fold f acc l1 ≫= λ a, try_fold f a l2) w.
Proof.
  revert acc w. induction l1 as [|x l1 IH]; intros acc w; [done|].
  cbn [try_fold app]. rewrite !M_bind_eq. destruct (f acc x w) as [[] ?]; [|done..].
  rewrite IH. rewrite M_bind_eq. done.
Qed.

Lemma try_map_Ok {E A B} (f : A -> outcome E B) (g : A -> B) l :
  (∀ x, x ∈ l -> f x = Ok (g x)) -> try_map f l = Ok (g <$> l).
Proof.
  induction l as [|x l IH]; intros Hf; [done|]. cbn [try_map].
  rewrite Hf by set_solver. rewrite bind_Ok, IH by set_solver. done.
Qed.

(** [bstep] runs the model through computations whose result is known;
    [binv H] splits a successful run recorded in [H] into its steps. *)
Ltac bstep := repeat first
  [ rewrite bind_Ok | rewrite bind_Err | rewrite bind_Panic
  | erewrite M_bind_lift by eassumption
  | erewrite M_bind_Ok by eassumption ].
Ltac binv H :=
  let Hn := fresh "H" in
  lazymatch type of H with
  | (_ ≫= _) = Ok _ =>
      apply bind_inv in H; destruct H as (? & Hn & H); binv Hn; binv H
  | (_ ≫= _) _ = (Ok _, _) =>
      apply M_bind_inv in H; destruct H as (? & ? & Hn & H); binv Hn; binv H
  | lift _ _ = (Ok _, _) => apply lift_inv in H; destruct H as [H ?]; subst; binv H
  | map_errM _ _ _ = (Ok _, _) => apply map_errM_inv in H; binv H
  | map_err _ _ = Ok _ => apply map_err_inv in H; binv H
  | mret _ = Ok _ => unfold mret, outcome_ret in H; binv H
  | mret _ _ = (Ok _, _) => unfold mret, M_ret in H; binv H
  | Ok _ = Ok _ => injection H as H; subst
  | (Ok _, _) = (Ok _, _) => injection H as H ?; subst
  | _ => idtac
  end.

(** ** Machine-integer lemmas *)
Lemma fits_spec w x : fits w x = true <-> 0 <= x < 2 ^ w.
Proof. unfold fits. rewrite andb_true_iff, Z.leb_le, Z.ltb_lt. done. Qed.
Lemma checked_u_ok `{Profile} {E} w x : 0 <= x < 2 ^ w -> checked_u (E := E) w x = Ok x.
Proof. intros Hx. unfold checked_u. by rewrite (proj2 (fits_spec w x)). Qed.
Lemma add_u64_ok `{Profile} {E} a b : 0 <= a + b < 2 ^ 64 -> add_u64 (E := E) a b = Ok (a + b).
Proof. apply checked_u_ok. Qed.
Lemma sub_u64_ok `{Profile} {E} a b : 0 <= a - b < 2 ^ 64 -> sub_u64 (E := E) a b = Ok (a - b).
Proof. apply checked_u_ok. Qed.
Lemma mul_u64_ok `{Profile} {E} a b : 0 <= a * b < 2 ^ 64 -> mul_u64 (E := E) a b = Ok (a * b).
Proof. apply checked_u_ok. Qed.
Lemma mul_u64_overflow `{Profile} {E} a b :
  overflow_checks = true -> 2 ^ 64 <= a * b -> mul_u64 (E := E) a b = Panic.
Proof.
  intros Hov Hab. unfold mul_u64, checked_u. replace (fits 64 (a * b)) with false; [by rewrite Hov|].
  symmetry. unfold fits. apply andb_false_iff. right. apply Z.ltb_ge. done.
Qed.
Lemma div_u64_ok {E} a b : b <> 0 -> div_u64 (E := E) a b = Ok (a / b).
Proof. intros Hb. unfold div_u64. by rewrite (proj2 (Z.eqb_neq b 0)). Qed.
Lemma rem_u64_ok {E} a b : b <> 0 -> rem_u64 (E := E) a b = Ok (a mod b).
Proof. intros Hb. unfold rem_u64. by rewrite (proj2 (Z.eqb_neq b 0)). Qed.
Lemma pow_u64_nat_ok `{Profile} {E} b n :
  1 <= b -> b ^ Z.of_nat n < 2 ^ 64 -> pow_u64_nat (E := E) b n = Ok (b ^ Z.of_nat n).
Proof.
  intros Hb. induction n as [|n IH]; intros Hlt; [done|]. cbn [pow_u64_nat].
  rewrite Nat2Z.inj_succ, Z.pow_succ_r in Hlt |- * by lia.
  assert (0 < b ^ Z.of_nat n) by (apply Z.pow_pos_nonneg; lia).
  rewrite IH, bind_Ok, mul_u64_ok by nia. f_equal. lia.
Qed.
Lemma pow_u64_ok `{Profile} {E} b x :
  1 <= b -> 0 <= x -> b ^ x < 2 ^ 64 -> pow_u64 (E := E) b x = Ok (b ^ x).
Proof.
  intros Hb Hx Hlt. unfold pow_u64. rewrite pow_u64_nat_ok; rewrite ?Z2Nat.id; done.
Qed.
Lemma debug_assert_ok `{Profile} {E} b : b = true -> debug_assert (E := E) b = Ok ().
Proof. intros ->. unfold debug_assert. by destruct debug_assertions. Qed.
Lemma as_signed_small w x : 0 < w -> 0 <= x < 2 ^ (w - 1) -> as_signed w x = x.
Proof.
  intros Hw Hx. unfold as_signed.
  assert (2 ^ w = 2 * 2 ^ (w - 1)) by (rewrite <- Z.pow_succ_r by lia; f_equal; lia).
  rewrite Z.mod_small by lia. by rewrite (proj2 (Z.ltb_lt _ _)) by lia.
Qed.

(** ** Rounded-up division, the arithmetic shared by the Merkle tree files *)
Definition cdiv (a b : Z) : Z := (a + b - 1) / b.

Lemma cdiv_le a b k : 0 < b -> (cdiv a b <= k <-> a <= k * b).
Proof.
  intros Hb. unfold cdiv. split; intros Hk.
  - pose proof (Z.mul_succ_div_gt (a + b - 1) b Hb). nia.
  - enough ((a + b - 1) / b < k + 1) by lia. apply Z.div_lt_upper_bound; nia.
Qed.
Lemma cdiv_lt a b k : 0 < b -> (k < cdiv a b <-> k * b < a).
Proof. intros Hb. pose proof (cdiv_le a b k Hb). lia. Qed.
Lemma cdiv_unique a b k :
  0 < b -> (∀ j, k <= j <-> a <= j * b) -> cdiv a b = k.
Proof.
  intros Hb Hk. pose proof (Hk k). pose proof (Hk (cdiv a b)).
  pose proof (cdiv_le a b k Hb). pose proof (cdiv_le a b (cdiv a b) Hb). lia.
Qed.
Lemma cdiv_cdiv a b c : 0 < b -> 0 < c -> cdiv (cdiv a b) c = cdiv a (b * c).
Proof.
  intros Hb Hc. apply cdiv_unique; [done|]. intros j.
  rewrite cdiv_le, cdiv_le by nia. split; intros; nia.
Qed.
Lemma cdiv_pos a b : 0 < b -> 0 < a -> 0 < cdiv a b.
Proof. intros Hb Ha. apply cdiv_lt; lia. Qed.
Lemma cdiv_nonneg a b : 0 < b -> 0 <= a -> 0 <= cdiv a b.
Proof. intros Hb Ha. apply Z.div_pos; lia. Qed.
Lemma cdiv_0 b : 0 < b -> cdiv 0 b = 0.
Proof. intros Hb. unfold cdiv. apply Z.div_small. lia. Qed.
Lemma cdiv_1_r a : cdiv a 1 = a.
Proof. unfold cdiv. rewrite Z.div_1_r. lia. Qed.
Lemma cdiv_mul a b : 0 < b -> cdiv (a * b) b = a.
Proof. intros Hb. apply cdiv_unique; [done|]. intros j. nia. Qed.

(** ** Lists and slices *)
Lemma length_zeros n : length (zeros n) = Z.to_nat n.
Proof. apply length_replicate. Qed.
Lemma zeros_app a b : 0 <= a -> 0 <= b -> zeros (a + b) = zeros a ++ zeros b.
Proof. intros. unfold zeros. rewrite <- replicate_add. f_equal. lia. Qed.

Lemma length_subrange {A} (l : list A) a b :
  0 <= a <= b -> b <= len l -> length (subrange l a b) = Z.to_nat (b - a).
Proof. intros. unfold subrange. rewrite length_take, length_drop. lia. Qed.
Lemma slice_ok {E A} (l : list A) a b :
  0 <= a <= b -> b <= len l -> slice (E := E) l a b = Ok (subrange l a b).
Proof.
  intros. unfold slice. rewrite !(proj2 (Z.leb_le _ _)) by lia. done.
Qed.
Lemma slice_inv {E A} (l : list A) a b r :
  slice (E := E) l a b = Ok r -> 0 <= a <= b ∧ b <= len l ∧ r = subrange l a b.
Proof.
  unfold slice. destruct (0 <=? a) eqn:?, (a <=? b) eqn:?, (b <=? len l) eqn:?;
    simpl; naive_solver lia.
Qed.
Lemma subrange_0 {A} (l : list A) b : subrange l 0 b = take (Z.to_nat b) l.
Proof. unfold subrange. by rewrite Z.sub_0_r, drop_0. Qed.
Lemma subrange_full {A} (l : list A) b : len l <= b -> subrange l 0 b = l.
Proof. intros. rewrite subrange_0. apply take_ge. lia. Qed.
Lemma lookup_subrange {A} (l : list A) a b (i : nat) :
  0 <= a <= b -> Z.of_nat i < b - a -> subrange l a b !! i = l !! (Z.to_nat a + i)%nat.
Proof. intros. unfold subrange. by rewrite lookup_take_lt, lookup_drop by lia. Qed.
Lemma copy_prefix_ok {E A} (dst src : list A) :
  (length src <= length dst)%nat ->
  copy_prefix (E := E) dst src = Ok (src ++ drop (length src) dst).
Proof. intros. unfold copy_prefix. by rewrite (proj2 (Z.leb_le _ _)) by lia. Qed.
Lemma zlookup_nat {A} (l : list A) i : 0 <= i -> zlookup l i = l !! Z.to_nat i.
Proof. intros. unfold zlookup. by rewrite (proj2 (Z.ltb_ge _ _)). Qed.

Lemma chunks_fuel_lookup {A} fuel n (l : list A) (i : nat) :
  (0 < n)%nat -> (length l <= fuel)%nat ->
  chunks_fuel fuel n l !! i =
    if decide (i * n < length l)%nat then Some (take n (drop (i * n) l)) else None.
Proof.
  intros Hn. revert l i. induction fuel as [|fuel IH]; intros l i Hl.
  - destruct l; simpl in Hl; [|lia]. by rewrite decide_False by (simpl; lia).
  - destruct l as [|x l]; [by rewrite decide_False by (simpl; lia)|].
    cbn [chunks_fuel]. destruct i as [|i].
    + rewrite decide_True by (simpl; lia). done.
    + cbn [lookup list_lookup]. rewrite IH by (rewrite length_drop; simpl in *; lia).
      rewrite length_drop, drop_drop.
      replace (n + i * n)%nat with (S i * n)%nat by lia.
      by repeat case_decide; [..|]; try lia.
Qed.
Lemma chunks_lookup {A} n (l : list A) (i : nat) :
  (0 < n)%nat ->
  chunks n l !! i =
    if decide (i * n < length l)%nat then Some (take n (drop (i * n) l)) else None.
Proof. intros. by apply chunks_fuel_lookup. Qed.
Lemma chunks_lookup_Some {A} n (l : list A) (i : nat) :
  (0 < n)%nat -> (i * n < length l)%nat ->
  chunks n l !! i = Some (take n (drop (i * n) l)).
Proof. intros. by rewrite chunks_lookup, decide_True. Qed.
Lemma len_chunks {A} n (l : list A) :
  (0 < n)%nat -> len (chunks n l) = cdiv (len l) (Z.of_nat n).
Proof.
  intros Hn. symmetry. apply cdiv_unique; [lia|]. intros j.
  destruct (decide (j < 0)) as [Hj|Hj]; [nia|].
  pose proof (chunks_lookup n l (Z.to_nat j) Hn) as Hlk. split; intros Hle.
  - rewrite lookup_ge_None_2 in Hlk by lia. case_decide; [done|]. nia.
  - case_decide as Hd; [nia|]. apply lookup_ge_None in Hlk. lia.
Qed.
Lemma chunks_nil {A} n : chunks n (@nil A) = [].
Proof. reflexivity. Qed.
Lemma chunks_elem_length {A} n (l c : list A) :
  (0 < n)%nat -> c ∈ chunks n l -> (0 < length c <= n)%nat.
Proof.
  intros Hn Hc. apply list_elem_of_lookup in Hc as [i Hi].
  rewrite chunks_lookup in Hi by done. case_decide; simplify_eq.
  rewrite length_take, length_drop. lia.
Qed.

Lemma length_le_bytes n x : length (le_bytes n x) = n.
Proof. revert x. induction n; intros; simpl; auto. Qed.
Lemma le_bytes_inj n x y :
  0 <= x < 256 ^ Z.of_nat n -> 0 <= y < 256 ^ Z.of_nat n ->
  le_bytes n x = le_bytes n y -> x = y.
Proof.
  revert x y. induction n as [|n IH]; intros x y Hx Hy; [simpl in *; lia|].
  rewrite Nat2Z.inj_succ, Z.pow_succ_r in Hx, Hy by lia.
  cbn [le_bytes]. intros [= Hm Ht].
  apply IH in Ht; [|split; [apply Z.div_pos | apply Z.div_lt_upper_bound]; lia..].
  rewrite (Z.div_mod x 256), (Z.div_mod y 256) by lia. lia.
Qed.
