(* ===== verification/Io.v ===== *)
(** * std::io, libc and the fuse crate's data as the sources use them

    io::Error and errno constants, struct stat64, the reply and request streams
    of a FUSE request. *)

From S2P Require Import Prelude.

Inductive ErrorKind := Other | InvalidData | InvalidInput | UnexpectedEof.

(** [io::Error::from_raw_os_error] and [io::Error::new]. *)
Inductive io_error :=
| RawOs (errno : Z)
| IoNew (kind : ErrorKind) (message : string).

#[export] Instance ErrorKind_eq_dec : EqDecision ErrorKind.
Proof. solve_decision. Defined.
#[export] Instance io_error_eq_dec : EqDecision io_error.
Proof. solve_decision. Defined.

(** [io::Error::raw_os_error]. *)
Definition raw_os_error (e : io_error) : option Z :=
  match e with RawOs n => Some n | IoNew _ _ => None end.

(** Values of the Linux ABI. *)
Definition ENOENT : Z := 2.
Definition EIO : Z := 5.
Definition EBADF : Z := 9.
Definition EACCES : Z := 13.
Definition EINVAL : Z := 22.
Definition EFBIG : Z := 27.
Definition ENOSYS : Z := 38.
Definition ENODATA : Z := 61.
Definition EOVERFLOW : Z := 75.

(** The fields of struct stat64 that the code sets; the others are zeroed. *)
Record stat64 := {
  st_ino : Z; st_mode : Z; st_dev : Z; st_nlink : Z; st_uid : Z; st_gid : Z; st_rdev : Z;
  st_size : Z; st_blksize : Z; st_blocks : Z
}.

Definition S_IFDIR : Z := 0x4000.
Definition S_IFREG : Z := 0x8000.
Definition S_IRUSR : Z := 0x100.
Definition S_IWUSR : Z := 0x80.
Definition S_IXUSR : Z := 0x40.

(** [fuse::filesystem::Entry], durations in nanoseconds. *)
Record Entry := {
  en_inode : Z; en_generation : Z; en_attr : stat64; en_entry_timeout : Z; en_attr_timeout : Z
}.

(** [io::Write::write] of the reply and [io::Read::read_exact] of the request. *)
Class IoWrite (O : Type) := io_write : bytes -> M O io_error Z.
Class IoRead (I : Type) := io_read_exact : Z -> M I io_error bytes.

(** A reply that takes every byte, such as a [Vec<u8>]. *)
#[export] Instance vec_write : IoWrite bytes := λ b o, (Ok (len b), o ++ b).
