(* ===== verification/Service.v ===== *)
(** * Registering with binder and mounting FUSE

    What the [main] functions use of the binder and fuse crates: the service
    manager, the thread pool, mount(2) through [fuse::mount] and the message
    loop.  They are parameters of the programs, over the world. *)

From S2P Require Import Prelude Io.

(** [binder::add_service] and [ProcessState::join_thread_pool], which comes
    back only when the pool ends. *)
Class ServiceManager (W S : Type) := {
  add_service : string -> S -> M W Z unit;
  join_thread_pool : M W Z unit
}.

(** [binder::get_interface] followed by [expect]: the service of that name, if
    the service manager has one. *)
Definition get_interface {E S} (registered : option S) : outcome E S := unwrap registered.

Definition MS_RDONLY : Z := 1.
Definition MS_NOSUID : Z := 2.
Definition MS_NODEV : Z := 4.
Definition S_IXGRP : Z := 0x8.
Definition S_IXOTH : Z := 0x1.

Inductive MountOption :=
| MountFD (fd : Z) | RootMode (mode : Z) | AllowOther | UserId (uid : Z) | GroupId (gid : Z) | MaxRead (n : Z).
#[export] Instance MountOption_eq_dec : EqDecision MountOption.
Proof. solve_decision. Defined.

(** /dev/fuse, [fuse::mount] and [fuse::worker::start_message_loop]; the loop
    takes two sizes and the file system to serve. *)
Class FuseLib (W Fs : Type) := {
  open_dev_fuse : M W io_error Z;
  fuse_mount : string -> string -> Z -> list MountOption -> M W io_error unit;
  start_message_loop : Z -> Z -> Z -> Fs -> M W io_error unit
}.

(** [Result::expect]. *)
Definition expectM {W E E' A} (m : M W E A) : M W E' A := λ w,
  match m w with
  | (Ok a, w') => (Ok a, w')
  | (Err _, w') | (Panic, w') => (Panic, w')
  | (NoFuel, w') => (NoFuel, w')
  end.

(** The mode of the root directory that both file systems are mounted with. *)
Definition root_mode : Z := Z.lor (Z.lor (Z.lor S_IFDIR S_IXUSR) S_IXGRP) S_IXOTH.
