(* ===== verification/Parse.v ===== *)
(** * Rust's integer parsing and string splitting, as the command lines use them

    [parse_u64] and [parse_i32] are [str::parse] (an optional sign, then one or
    more decimal digits, an error on overflow); [split_on] is [str::split] and
    [splitn] is [str::splitn].  The round-trip lemmas relate them to the decimal
    printing of [format!("{}")], which is stdpp's [pretty]. *)

From S2P Require Import Prelude.
From Stdlib Require Import Ascii String.
#[local] Open Scope Z_scope.

Definition COLON : ascii := ":".
Definition COMMA : ascii := ",".

Definition digit_of (c : ascii) : option Z :=
  let n := Z.of_nat (nat_of_ascii c) in
  if (48 <=? n) && (n <=? 57) then Some (n - 48) else None.

(** The digits of the rest of the string, most significant first. *)
Fixpoint parse_digits (acc : Z) (s : string) : option Z :=
  match s with
  | EmptyString => Some acc
  | String c s' => d ← digit_of c; parse_digits (10 * acc + d) s'
  end.
Definition parse_nat (s : string) : option Z :=
  match s with EmptyString => None | _ => parse_digits 0 s end.

Definition strip_plus (s : string) : string :=
  match s with String "+" s' => s' | _ => s end.

Definition parse_u64 (s : string) : option Z :=
  n ← parse_nat (strip_plus s);
  if n <=? u64_MAX then Some n else None.

Definition parse_i32 (s : string) : option Z :=
  n ← match s with
      | String "-" s' => n ← parse_nat s'; Some (- n)
      | _ => parse_nat (strip_plus s)
      end;
  if (- 2 ^ 31 <=? n) && (n <=? i32_MAX) then Some n else None.

(** [str::split(sep)]: always at least one piece. *)
Fixpoint split_on (sep : ascii) (s : string) : list string :=
  match s with
  | EmptyString => [EmptyString]
  | String c s' =>
      if Ascii.eqb c sep then EmptyString :: split_on sep s'
      else match split_on sep s' with
           | piece :: rest => String c piece :: rest
           | [] => [String c EmptyString]
           end
  end.

(** [pieces.join(sep)]. *)
Fixpoint join (sep : ascii) (l : list string) : string :=
  match l with
  | [] => EmptyString
  | [s] => s
  | s :: l' => String.append s (String sep (join sep l'))
  end.

Fixpoint no_char (sep : ascii) (s : string) : bool :=
  match s with
  | EmptyString => true
  | String c s' => negb (Ascii.eqb c sep) && no_char sep s'
  end.

(** ** Lemmas *)
Lemma split_on_nonempty sep s : split_on sep s <> [].
Proof. destruct s; simpl; [done|]. repeat case_match; done. Qed.
Lemma split_on_app sep s t :
  no_char sep s = true ->
  split_on sep (String.append s (String sep t)) = s :: split_on sep t.
Proof.
  induction s as [|c s IH]; simpl; intros Hs.
  - by rewrite Ascii.eqb_refl.
  - apply andb_true_iff in Hs as [Hc Hs]. apply negb_true_iff in Hc. by rewrite Hc, IH.
Qed.
Lemma split_on_none sep s : no_char sep s = true -> split_on sep s = [s].
Proof.
  induction s as [|c s IH]; simpl; intros Hs; [done|].
  apply andb_true_iff in Hs as [Hc Hs]. apply negb_true_iff in Hc. by rewrite Hc, IH.
Qed.
Lemma split_join sep l :
  l <> [] -> Forall (λ s, no_char sep s = true) l -> split_on sep (join sep l) = l.
Proof.
  intros Hne Hl. induction Hl as [|s l Hs Hl IH]; [done|]. destruct l as [|s' l].
  - by apply split_on_none.
  - cbn [join]. rewrite split_on_app by done. f_equal. by apply IH.
Qed.

Lemma digit_of_pretty (x : N) :
  (x < 10)%N -> digit_of (pretty_N_char x) = Some (Z.of_N x).
Proof.
  intros Hx. assert (x ∈ [0; 1; 2; 3; 4; 5; 6; 7; 8; 9]%N) as Hin.
  { destruct x as [|p]; [set_solver|].
    do 4 (destruct p; try lia; try set_solver). }
  rewrite !elem_of_cons in Hin. destruct_or!; subst; try done. by apply elem_of_nil in Hin.
Qed.

Lemma parse_digits_append acc n s :
  0 <= acc -> (0 < n)%N ->
  ∃ k, 0 <= k ∧ parse_digits acc (pretty_N_go n s) = parse_digits (acc * 10 ^ k + Z.of_N n) s.
Proof.
  revert s. induction (N.lt_wf_0 n) as [n _ IH]; intros s Ha Hn.
  rewrite pretty_N_go_step by done.
  assert (n `mod` 10 < 10)%N as Hd by (by apply N.mod_lt).
  pose proof (N.div_mod n 10 ltac:(lia)) as Hdm.
  destruct (decide (n `div` 10 = 0)%N) as [Hz|Hz].
  - exists 1. split; [lia|]. rewrite Hz, pretty_N_go_0. cbn [parse_digits].
    rewrite digit_of_pretty by done. simpl. f_equal. lia.
  - destruct (IH (n `div` 10)%N) with (s := String (pretty_N_char (n `mod` 10)) s) as (k & Hk & Hp);
      [apply N.div_lt; lia|done|lia|].
    exists (k + 1). split; [lia|]. rewrite Hp. cbn [parse_digits]. rewrite digit_of_pretty by done.
    simpl. f_equal. rewrite Z.pow_add_r by lia. lia.
Qed.

(** Printed numbers consist of digits, at least one. *)
Fixpoint digits_only (s : string) : bool :=
  match s with
  | EmptyString => true
  | String c s' => bool_decide (is_Some (digit_of c)) && digits_only s'
  end.

Lemma pretty_go_digits n s : digits_only s = true -> digits_only (pretty_N_go n s) = true.
Proof.
  revert s. induction (N.lt_wf_0 n) as [n _ IH]; intros s Hs.
  destruct (decide (n = 0)%N) as [->|]; [by rewrite pretty_N_go_0|].
  rewrite pretty_N_go_step by lia. apply IH; [apply N.div_lt; lia|]. cbn [digits_only].
  rewrite Hs, digit_of_pretty by (by apply N.mod_lt). by rewrite bool_decide_true.
Qed.
Lemma pretty_N_digits (n : N) : digits_only (pretty n) = true.
Proof. unfold pretty, pretty_N. case_decide; [done|]. by apply pretty_go_digits. Qed.

Lemma parse_digits_pretty (n : N) : parse_digits 0 (pretty n) = Some (Z.of_N n).
Proof.
  unfold pretty, pretty_N. case_decide; [by subst|].
  destruct (parse_digits_append 0 n "") as (k & Hk & Hp); [lia|lia|]. by rewrite Hp.
Qed.
Lemma pretty_N_nonempty (n : N) : pretty n <> EmptyString.
Proof.
  intros He. destruct (decide (n = 0)%N) as [->|Hn]; [done|].
  pose proof (parse_digits_pretty n) as Hp. rewrite He in Hp. simpl in Hp. injection Hp as Hp. lia.
Qed.
Lemma parse_nat_pretty (n : N) : parse_nat (pretty n) = Some (Z.of_N n).
Proof.
  rewrite <- parse_digits_pretty. unfold parse_nat. pose proof (pretty_N_nonempty n).
  by destruct (pretty n).
Qed.

Lemma digits_only_head c s : digits_only (String c s) = true -> is_Some (digit_of c).
Proof. cbn [digits_only]. rewrite andb_true_iff. intros [Hc _]. by apply bool_decide_eq_true in Hc. Qed.
Lemma strip_plus_digits s : digits_only s = true -> strip_plus s = s.
Proof.
  intros Hs. destruct s as [|c s]; [done|]. apply digits_only_head in Hs as [d Hd].
  destruct c as [[] [] [] [] [] [] [] []]; first [done | discriminate Hd].
Qed.
Lemma digits_only_no_char sep s :
  digit_of sep = None -> digits_only s = true -> no_char sep s = true.
Proof.
  intros Hsep. induction s as [|c s IH]; [done|]. cbn [digits_only no_char].
  rewrite !andb_true_iff. intros [Hc Hs]. split; [|by apply IH]. apply bool_decide_eq_true in Hc.
  apply negb_true_iff, Ascii.eqb_neq. intros ->. rewrite Hsep in Hc. by destruct Hc.
Qed.

Lemma parse_u64_pretty (n : N) : Z.of_N n <= u64_MAX -> parse_u64 (pretty n) = Some (Z.of_N n).
Proof.
  intros Hn. unfold parse_u64. rewrite strip_plus_digits by apply pretty_N_digits.
  rewrite parse_nat_pretty. simpl. by rewrite (proj2 (Z.leb_le _ _)).
Qed.
Lemma parse_i32_pretty (n : N) : Z.of_N n <= i32_MAX -> parse_i32 (pretty n) = Some (Z.of_N n).
Proof.
  intros Hn. unfold parse_i32. pose proof (pretty_N_digits n) as Hd.
  assert (∀ A (f g : string -> A), match pretty n with String "-" s' => f s' | _ => g (pretty n) end
            = g (pretty n)) as Hm.
  { intros A f g. destruct (pretty n) as [|c s]; [done|]. apply digits_only_head in Hd as [d Hd].
    destruct c as [[] [] [] [] [] [] [] []]; first [done | discriminate Hd]. }
  rewrite (Hm (option Z) (λ s', n ← parse_nat s'; Some (- n)) (λ s, parse_nat (strip_plus s))).
  rewrite strip_plus_digits, parse_nat_pretty by done. simpl.
  by assert ((- 2 ^ 31 <=? Z.of_N n) && (Z.of_N n <=? i32_MAX) = true) as -> by lia.
Qed.
Lemma pretty_N_no_char sep (n : N) : digit_of sep = None -> no_char sep (pretty n) = true.
Proof. intros. apply digits_only_no_char; [done|apply pretty_N_digits]. Qed.

(** ** [CStr::to_str]: the UTF-8 check, and the string *)
Definition utf8_cont (b : Z) : bool := (0x80 <=? b) && (b <=? 0xBF).
Definition in_range (lo hi b : Z) : bool := (lo <=? b) && (b <=? hi).

(** Well-formed byte sequences (Unicode, table 3-7). *)
Fixpoint utf8_valid (s : bytes) : bool :=
  match s with
  | [] => true
  | b0 :: s0 =>
      if in_range 0 0x7F b0 then utf8_valid s0
      else match s0 with
           | [] => false
           | b1 :: s1 =>
               if in_range 0xC2 0xDF b0 then utf8_cont b1 && utf8_valid s1
               else match s1 with
                    | [] => false
                    | b2 :: s2 =>
                        if ((b0 =? 0xE0) && in_range 0xA0 0xBF b1)
                           || ((in_range 0xE1 0xEC b0 || in_range 0xEE 0xEF b0) && utf8_cont b1)
                           || ((b0 =? 0xED) && in_range 0x80 0x9F b1)
                        then utf8_cont b2 && utf8_valid s2
                        else match s2 with
                             | [] => false
                             | b3 :: s3 =>
                                 (((b0 =? 0xF0) && in_range 0x90 0xBF b1)
                                  || (in_range 0xF1 0xF3 b0 && utf8_cont b1)
                                  || ((b0 =? 0xF4) && in_range 0x80 0x8F b1))
                                 && utf8_cont b2 && utf8_cont b3 && utf8_valid s3
                             end
                    end
           end
  end.

Fixpoint string_of_bytes (s : bytes) : string :=
  match s with
  | [] => EmptyString
  | b :: s' => String (ascii_of_nat (Z.to_nat b)) (string_of_bytes s')
  end.
Fixpoint bytes_of_string (s : string) : bytes :=
  match s with
  | EmptyString => []
  | String c s' => Z.of_nat (nat_of_ascii c) :: bytes_of_string s'
  end.

Definition to_str (name : bytes) : option string :=
  if utf8_valid name then Some (string_of_bytes name) else None.

Lemma string_bytes_string s : string_of_bytes (bytes_of_string s) = s.
Proof. induction s as [|c s IH]; [done|]. simpl. by rewrite Nat2Z.id, ascii_nat_embedding, IH. Qed.
Lemma digits_utf8 s : digits_only s = true -> utf8_valid (bytes_of_string s) = true.
Proof.
  induction s as [|c s IH]; [done|]. intros Hs. pose proof (digits_only_head _ _ Hs) as [d Hd].
  cbn [digits_only] in Hs. apply andb_true_iff in Hs as [_ Hs]. cbn [bytes_of_string utf8_valid].
  unfold digit_of in Hd. destruct ((48 <=? _) && _) eqn:Hb; [|done].
  assert (in_range 0 127 (Z.of_nat (nat_of_ascii c)) = true) as -> by (unfold in_range; lia). by apply IH.
Qed.
Lemma to_str_pretty (n : N) : to_str (bytes_of_string (pretty n)) = Some (pretty n).
Proof. unfold to_str. by rewrite digits_utf8, string_bytes_string by apply pretty_N_digits. Qed.

Lemma pretty_Z_nonneg (z : Z) : 0 <= z -> pretty z = pretty (Z.to_N z).
Proof. destruct z; [done|done|lia]. Qed.
