(* ===== verification/Common.v ===== *)
(** * authfs/src/common.rs: chunk size, rounded-up division, ChunkedSizeIter

    The iterator that cuts a byte range at chunk boundaries drives both the
    read path ([fusefs.rs]) and the write path ([editor.rs]) of authfs.  The
    loops over it are modelled as the code runs them, one [next] per
    iteration, so that an overflow in [next] happens after the earlier
    iterations had their effect; [fold_chunks_plan] and [for_chunks_plan] then
    replace them by a loop over a list when no overflow is possible. *)

From S2P Require Import Prelude.

Definition CHUNK_SIZE : Z := 4096.
Abbreviation CHUNK := (Z.to_nat CHUNK_SIZE).

Definition divide_roundup `{Profile} {E} (dividend divisor : Z) : outcome E Z :=
  t ← add_u64 dividend divisor;
  t ← sub_u64 t 1;
  div_u64 t divisor.

Record ChunkedSizeIter := {
  csi_remaining : Z;
  csi_offset : Z;
  csi_alignment : Z
}.

Definition csi_new (remaining offset alignment : Z) : ChunkedSizeIter :=
  {| csi_remaining := remaining; csi_offset := offset; csi_alignment := alignment |}.

Definition csi_next `{Profile} {E} (self : ChunkedSizeIter)
    : outcome E (option (Z * Z) * ChunkedSizeIter) :=
  if csi_remaining self =? 0 then Ok (None, self)
  else
    r ← rem_u64 (csi_offset self) (csi_alignment self);
    room ← sub_u64 (csi_alignment self) r;
    let chunk_data_size := Z.min (csi_remaining self) room in
    let retval := (csi_offset self, chunk_data_size) in
    offset' ← add_u64 (csi_offset self) chunk_data_size;
    Ok (Some retval,
        {| csi_remaining := saturating_sub (csi_remaining self) chunk_data_size;
           csi_offset := offset';
           csi_alignment := csi_alignment self |}).

(** [Iterator::collect]. *)
Fixpoint csi_collect `{Profile} {E} (fuel : nat) (it : ChunkedSizeIter)
    : outcome E (list (Z * Z)) :=
  match fuel with
  | O => NoFuel
  | S fuel' =>
      '(item, it') ← csi_next it;
      match item with
      | None => Ok []
      | Some p => ps ← csi_collect fuel' it'; Ok (p :: ps)
      end
  end.

(** [Iterator::try_fold] over the iterator. *)
Fixpoint fold_chunks `{Profile} {W E A} (fuel : nat) (it : ChunkedSizeIter)
    (body : A -> Z * Z -> M W E A) (acc : A) : M W E A :=
  match fuel with
  | O => lift NoFuel
  | S fuel' =>
      '(item, it') ← lift (csi_next it);
      match item with
      | None => mret acc
      | Some p => acc' ← body acc p; fold_chunks fuel' it' body acc'
      end
  end.

(** [for item in iter { body }], where [Some v] is a [return v] of the body. *)
Fixpoint for_chunks `{Profile} {W E R} (fuel : nat) (it : ChunkedSizeIter)
    (body : Z * Z -> M W E (option R)) : M W E (option R) :=
  match fuel with
  | O => lift NoFuel
  | S fuel' =>
      '(item, it') ← lift (csi_next it);
      match item with
      | None => mret None
      | Some p =>
          r ← body p;
          match r with
          | Some v => mret (Some v)
          | None => for_chunks fuel' it' body
          end
      end
  end.

(** Each iteration consumes at least one byte. *)
Definition csi_fuel (remaining : Z) : nat := S (Z.to_nat remaining).

(** ** The list of chunks, as a specification *)
Fixpoint plan_fuel (fuel : nat) (remaining offset al : Z) : list (Z * Z) :=
  match fuel with
  | O => []
  | S fuel' =>
      if remaining <=? 0 then []
      else
        let s := Z.min remaining (al - offset mod al) in
        (offset, s) :: plan_fuel fuel' (remaining - s) (offset + s) al
  end.
Definition plan (remaining offset al : Z) : list (Z * Z) :=
  plan_fuel (Z.to_nat remaining) remaining offset al.

(** [tiles al o ps e]: the pieces [ps] cut [o, e) at the multiples of [al]. *)
Inductive tiles (al : Z) : Z -> list (Z * Z) -> Z -> Prop :=
| tiles_nil o : tiles al o [] o
| tiles_cons o s ps e :
    0 < s <= al -> o / al = (o + s - 1) / al ->
    (ps <> [] -> (o + s) mod al = 0) ->
    tiles al (o + s) ps e -> tiles al o ((o, s) :: ps) e.

Fixpoint for_list {W E R} (body : Z * Z -> M W E (option R)) (ps : list (Z * Z))
    : M W E (option R) :=
  match ps with
  | [] => mret None
  | p :: ps' =>
      r ← body p;
      match r with Some v => mret (Some v) | None => for_list body ps' end
  end.

(** ** Lemmas *)
Lemma divide_roundup_ok `{Profile} {E} a b :
  0 <= a -> 0 < b -> a + b < 2 ^ 64 -> divide_roundup (E := E) a b = Ok (cdiv a b).
Proof.
  intros. unfold divide_roundup.
  rewrite add_u64_ok, bind_Ok, sub_u64_ok, bind_Ok, div_u64_ok by lia. done.
Qed.

Lemma csi_next_ok `{Profile} {E} rem off al :
  0 < rem -> 0 <= off -> 0 < al < 2 ^ 64 -> off + rem < 2 ^ 64 ->
  let s := Z.min rem (al - off mod al) in
  csi_next (E := E) (csi_new rem off al) =
    Ok (Some (off, s), csi_new (rem - s) (off + s) al) ∧ 0 < s <= rem.
Proof.
  intros Hrem Hoff Hal Hsum s. pose proof (Z.mod_pos_bound off al).
  assert (0 < s <= rem) as Hs by lia. split; [|done].
  unfold csi_next, csi_new. cbn [csi_remaining csi_offset csi_alignment].
  rewrite (proj2 (Z.eqb_neq rem 0)), rem_u64_ok, bind_Ok by lia.
  rewrite sub_u64_ok, bind_Ok, add_u64_ok, bind_Ok by lia.
  unfold saturating_sub. fold s. by rewrite Z.max_r by lia.
Qed.

Lemma csi_next_done `{Profile} {E} off al :
  csi_next (E := E) (csi_new 0 off al) = Ok (None, csi_new 0 off al).
Proof. reflexivity. Qed.

Lemma plan_fuel_enough f1 f2 rem off al :
  0 < al -> rem <= Z.of_nat f1 -> rem <= Z.of_nat f2 ->
  plan_fuel f1 rem off al = plan_fuel f2 rem off al.
Proof.
  intros Hal. revert f2 rem off. induction f1 as [|f1 IH]; intros f2 rem off H1 H2.
  - destruct f2; [done|]. simpl. by rewrite (proj2 (Z.leb_le _ _)) by lia.
  - destruct f2; simpl; destruct (rem <=? 0) eqn:Hr; [done|lia|done|].
    f_equal. pose proof (Z.mod_pos_bound off al). apply IH; lia.
Qed.
Lemma plan_nil rem off al : rem <= 0 -> plan rem off al = [].
Proof. intros. unfold plan. by replace (Z.to_nat rem) with O by lia. Qed.
Lemma plan_cons rem off al :
  0 < rem -> 0 < al ->
  let s := Z.min rem (al - off mod al) in
  plan rem off al = (off, s) :: plan (rem - s) (off + s) al.
Proof.
  intros Hrem Hal s. unfold plan at 1. pose proof (Z.mod_pos_bound off al).
  destruct (Z.to_nat rem) eqn:Hn; [lia|]. simpl. rewrite (proj2 (Z.leb_gt _ _)) by lia.
  fold s. f_equal. apply plan_fuel_enough; lia.
Qed.

(** An induction principle that follows the iterator. *)
Lemma plan_ind (al : Z) (P : Z -> Z -> Prop) :
  0 < al ->
  (∀ off, P 0 off) ->
  (∀ rem off, 0 < rem -> let s := Z.min rem (al - off mod al) in
     0 < s <= rem -> P (rem - s) (off + s) -> P rem off) ->
  ∀ rem off, 0 <= rem -> P rem off.
Proof.
  intros Hal H0 HS rem off Hrem. revert off. pattern rem.
  apply Zlt_0_ind; [|done]. clear rem Hrem. intros rem IH Hrem off.
  destruct (decide (rem = 0)) as [->|]; [done|].
  pose proof (Z.mod_pos_bound off al). apply HS; [lia|lia|]. apply IH; lia.
Qed.

Lemma plan_tiles rem off al :
  0 <= rem -> 0 < al -> tiles al off (plan rem off al) (off + rem).
Proof.
  intros Hrem Hal. revert rem off Hrem. apply (plan_ind al); [done|..].
  - intros off. rewrite plan_nil, Z.add_0_r by lia. constructor.
  - intros rem off Hrem s Hs IH. rewrite plan_cons by done. fold s.
    assert (Hsdef : s = Z.min rem (al - off mod al)) by done. clearbody s.
    pose proof (Z.mod_pos_bound off al). pose proof (Z.div_mod off al).
    constructor; [lia|..].
    + apply (Z.div_unique _ _ _ (off mod al + s - 1)); lia.
    + intros Hne. replace s with (al - off mod al).
      2: { destruct (decide (rem - s <= 0)); [by rewrite plan_nil in Hne by done|lia]. }
      replace (off + (al - off mod al)) with ((off / al + 1) * al) by lia.
      apply Z.mod_mul. lia.
    + by replace (off + rem) with (off + s + (rem - s)) by lia.
Qed.

Lemma csi_collect_plan `{Profile} {E} fuel rem off al :
  0 <= rem < Z.of_nat fuel -> 0 <= off -> 0 < al < 2 ^ 64 -> off + rem < 2 ^ 64 ->
  csi_collect (E := E) fuel (csi_new rem off al) = Ok (plan rem off al).
Proof.
  revert rem off. induction fuel as [|fuel IH]; intros rem off Hf Hoff Hal Hsum; [lia|].
  cbn [csi_collect]. destruct (decide (rem = 0)) as [->|].
  - by rewrite csi_next_done, bind_Ok, plan_nil by lia.
  - destruct (csi_next_ok (E := E) rem off al) as [-> Hs]; [lia..|].
    rewrite bind_Ok, IH, bind_Ok by lia. by rewrite (plan_cons rem off) by lia.
Qed.

Lemma fold_chunks_plan `{Profile} {W E A} fuel rem off al (body : A -> Z * Z -> M W E A) acc w :
  0 <= rem < Z.of_nat fuel -> 0 <= off -> 0 < al < 2 ^ 64 -> off + rem < 2 ^ 64 ->
  fold_chunks fuel (csi_new rem off al) body acc w = try_fold body acc (plan rem off al) w.
Proof.
  revert rem off acc w. induction fuel as [|fuel IH]; intros rem off acc w Hf Hoff Hal Hsum; [lia|].
  cbn [fold_chunks]. destruct (decide (rem = 0)) as [->|].
  - by rewrite csi_next_done, plan_nil by lia.
  - destruct (csi_next_ok (E := E) rem off al) as [Hn Hs]; [lia..|].
    erewrite M_bind_lift by exact Hn. rewrite (plan_cons rem off) by lia. cbn [try_fold].
    rewrite !M_bind_eq. destruct (body _ _ _) as [[] ?]; [|done..]. apply IH; lia.
Qed.

Lemma for_chunks_plan `{Profile} {W E R} fuel rem off al (body : Z * Z -> M W E (option R)) w :
  0 <= rem < Z.of_nat fuel -> 0 <= off -> 0 < al < 2 ^ 64 -> off + rem < 2 ^ 64 ->
  for_chunks fuel (csi_new rem off al) body w = for_list body (plan rem off al) w.
Proof.
  revert rem off w. induction fuel as [|fuel IH]; intros rem off w Hf Hoff Hal Hsum; [lia|].
  cbn [for_chunks]. destruct (decide (rem = 0)) as [->|].
  - by rewrite csi_next_done, plan_nil by lia.
  - destruct (csi_next_ok (E := E) rem off al) as [Hn Hs]; [lia..|].
    erewrite M_bind_lift by exact Hn. rewrite (plan_cons rem off) by lia. cbn [for_list].
    rewrite !M_bind_eq. destruct (body _ _) as [[[v|]| | |] ?]; [done| |done..].
    apply IH; lia.
Qed.
