(* ===== verification/Crypto.v ===== *)
(** * authfs/src/crypto.rs and authfs/src/auth.rs

    The hash function is BoringSSL's, called through its C interface: the
    three functions are a parameter ([Sha256Ffi]), and what the code relies on
    is the contract [Sha256Spec]: a context that absorbed the concatenation of
    the updates finalises to its 32-byte digest. *)

From S2P Require Import Prelude Io Common.

(** ** crypto.rs *)
Inductive CryptoError := Unexpected (what : string).

(** The foreign functions; the integer is the C return value. *)
Class Sha256Ffi := {
  SHA256_CTX : Type;
  SHA256_Init : SHA256_CTX * Z;
  SHA256_Update : SHA256_CTX -> bytes -> SHA256_CTX * Z;
  SHA256_Final : SHA256_CTX -> bytes * SHA256_CTX * Z
}.

Definition HASH_SIZE : Z := 32.
Abbreviation HASH := (Z.to_nat HASH_SIZE).

Definition HASH_OF_4096_ZEROS : bytes := [
  0xad; 0x7f; 0xac; 0xb2; 0x58; 0x6f; 0xc6; 0xe9; 0x66; 0xc0; 0x04; 0xd7; 0xd1; 0xd1; 0x6b;
  0x02; 0x4f; 0x58; 0x05; 0xff; 0x7c; 0xb4; 0x7c; 0x7a; 0x85; 0xda; 0xbd; 0x8b; 0x48; 0x89;
  0x2c; 0xa7].

(** [[u8; HASH_SIZE]]: the length is a type in the source. *)
Abbreviation Sha256Hash := bytes (only parsing).

Record Sha256Hasher `{Sha256Ffi} := { ctx : SHA256_CTX }.

Definition hasher_new `{Sha256Ffi} : outcome CryptoError Sha256Hasher :=
  let '(c, retval) := SHA256_Init in
  if retval =? 0 then Err (Unexpected "SHA256_Init") else Ok {| ctx := c |}.

Definition hasher_update `{Sha256Ffi} (data : bytes) (self : Sha256Hasher)
    : outcome CryptoError Sha256Hasher :=
  let '(c, retval) := SHA256_Update (ctx self) data in
  if retval =? 0 then Err (Unexpected "SHA256_Update") else Ok {| ctx := c |}.

Fixpoint hasher_update_from `{Sha256Ffi} (iter : list bytes) (self : Sha256Hasher)
    : outcome CryptoError Sha256Hasher :=
  match iter with
  | [] => Ok self
  | data :: iter' => self' ← hasher_update data self; hasher_update_from iter' self'
  end.

Definition hasher_finalize `{Sha256Ffi} (self : Sha256Hasher)
    : outcome CryptoError Sha256Hash :=
  let '(md, _, retval) := SHA256_Final (ctx self) in
  if retval =? 0 then Err (Unexpected "SHA256_Final") else Ok md.

(** ** auth.rs *)
Class Authenticator (A : Type) :=
  verify : A -> bytes -> bytes -> outcome io_error bool.

Record FakeAuthenticator := { should_allow : bool }.

Definition always_succeed : FakeAuthenticator := {| should_allow := true |}.
Definition always_fail : FakeAuthenticator := {| should_allow := false |}.

#[export] Instance FakeAuthenticator_verify : Authenticator FakeAuthenticator :=
  λ self _signature_pem _signed_data, Ok (should_allow self).

(** ** Contract of the foreign hash functions *)
Class Sha256Spec `{Sha256Ffi} := {
  sha256 : bytes -> bytes;
  absorbed : SHA256_CTX -> bytes -> Prop;
  sha256_init : SHA256_Init.2 <> 0 ∧ absorbed SHA256_Init.1 [];
  sha256_update c m d :
    absorbed c m -> (SHA256_Update c d).2 <> 0 ∧ absorbed (SHA256_Update c d).1 (m ++ d);
  sha256_final c m :
    absorbed c m -> ∃ c' r, SHA256_Final c = (sha256 m, c', r) ∧ r <> 0;
  sha256_length m : length (sha256 m) = HASH;
  sha256_of_4096_zeros : sha256 (zeros 4096) = HASH_OF_4096_ZEROS
}.

(** ** Lemmas: a hasher is the list of bytes it absorbed *)
Section Hasher.
Context `{Sha256Spec}.

Definition hashes (h : Sha256Hasher) (m : bytes) : Prop := absorbed (ctx h) m.

Lemma hasher_new_ok : ∃ h, hasher_new = Ok h ∧ hashes h [].
Proof.
  destruct sha256_init as [Hnz Habs]. unfold hasher_new.
  destruct SHA256_Init as [c r]. simpl in *.
  rewrite (proj2 (Z.eqb_neq _ _)) by done. by eexists.
Qed.
Lemma hasher_update_ok h m d :
  hashes h m -> ∃ h', hasher_update d h = Ok h' ∧ hashes h' (m ++ d).
Proof.
  intros Hm. destruct (sha256_update _ _ d Hm) as [Hr Habs]. unfold hasher_update.
  destruct (SHA256_Update (ctx h) d) as [c r]. simpl in *.
  rewrite (proj2 (Z.eqb_neq _ _)) by done. by eexists.
Qed.
Lemma hasher_update_from_ok h m ds :
  hashes h m -> ∃ h', hasher_update_from ds h = Ok h' ∧ hashes h' (m ++ concat ds).
Proof.
  revert h m. induction ds as [|d ds IH]; intros h m Hm; cbn [hasher_update_from].
  - exists h. by rewrite app_nil_r.
  - destruct (hasher_update_ok h m d Hm) as (h1 & -> & H1). rewrite bind_Ok.
    destruct (IH h1 (m ++ d) H1) as (h2 & -> & H2). exists h2. split; [done|].
    simpl. by rewrite app_assoc.
Qed.
Lemma hasher_finalize_ok h m : hashes h m -> hasher_finalize h = Ok (sha256 m).
Proof.
  intros Hm. destruct (sha256_final _ _ Hm) as (c' & r & Hf & Hr).
  unfold hasher_finalize. rewrite Hf. by rewrite (proj2 (Z.eqb_neq _ _)).
Qed.

End Hasher.

(** Runs a chain [new()?.update(..)?. ... .finalize()?] to its digest. *)
Ltac hash_step :=
  match goal with
  | |- context [hasher_new] =>
      let h := fresh "h" in let E := fresh "E" in let Hh := fresh "Hh" in
      destruct hasher_new_ok as (h & E & Hh); rewrite E; rewrite bind_Ok; clear E
  | Hh : hashes ?h ?m |- context [hasher_update ?d ?h] =>
      let h' := fresh "h" in let E := fresh "E" in let Hh' := fresh "Hh" in
      destruct (hasher_update_ok h m d Hh) as (h' & E & Hh'); rewrite E, bind_Ok; clear E Hh
  | Hh : hashes ?h ?m |- context [hasher_update_from ?d ?h] =>
      let h' := fresh "h" in let E := fresh "E" in let Hh' := fresh "Hh" in
      destruct (hasher_update_from_ok h m d Hh) as (h' & E & Hh'); rewrite E, bind_Ok; clear E Hh
  | Hh : hashes ?h ?m |- context [hasher_finalize ?h] =>
      rewrite (hasher_finalize_ok h m Hh)
  end.
Ltac hash_run := repeat hash_step.

(** [lia] with the sizes of the format as numbers. *)
Ltac clia := unfold CHUNK_SIZE, HASH_SIZE in *; lia.
