(* ===== verification/Sha256Ref.v ===== *)
(** * A concrete SHA-256, used to instantiate the foreign hash functions

    The theorems hold for every implementation of [Sha256Ffi] that meets
    [Sha256Spec].  This file gives one, a direct transcription of FIPS 180-4
    whose context is the list of absorbed bytes, so that witnesses can run the
    models, and checks the repository's own test values against it. *)

From S2P Require Import Prelude Io Crypto.

Module Sha256.

Definition mask32 : Z := 0xffffffff.
Definition add32 (a b : Z) : Z := Z.land (a + b) mask32.
Definition rotr (n x : Z) : Z :=
  Z.lor (Z.shiftr x n) (Z.land (Z.shiftl x (32 - n)) mask32).
Definition bsig0 x := Z.lxor (rotr 2 x) (Z.lxor (rotr 13 x) (rotr 22 x)).
Definition bsig1 x := Z.lxor (rotr 6 x) (Z.lxor (rotr 11 x) (rotr 25 x)).
Definition ssig0 x := Z.lxor (rotr 7 x) (Z.lxor (rotr 18 x) (Z.shiftr x 3)).
Definition ssig1 x := Z.lxor (rotr 17 x) (Z.lxor (rotr 19 x) (Z.shiftr x 10)).
Definition ch x y z := Z.lxor z (Z.land x (Z.lxor y z)).
Definition maj x y z := Z.lor (Z.land x y) (Z.land z (Z.lor x y)).

(** The constants are defined as the standard defines them: the first 32 bits
    of the fractional parts of the cube (and square) roots of the first
    primes. *)
Definition is_prime (n : nat) : bool :=
  forallb (λ d, negb (n mod d =? 0)%nat) (seq 2 (n - 2)).
Definition primes : list Z := Z.of_nat <$> List.filter is_prime (seq 2 310).
(** The greatest [r + x] with [x < 2 ^ bits] whose cube is at most [n]. *)
Fixpoint cube_root (bits : nat) (n r : Z) : Z :=
  match bits with
  | O => r
  | S b => let r' := r + 2 ^ Z.of_nat b in cube_root b n (if r' ^ 3 <=? n then r' else r)
  end.
Definition K : list Z :=
  Eval vm_compute in (λ p, Z.land (cube_root 36 (p * 2 ^ 96) 0) mask32) <$> take 64 primes.

Record words := W8 { wa : Z; wb : Z; wc : Z; wd : Z; we : Z; wf : Z; wg : Z; wh : Z }.

Definition H0 : words :=
  Eval vm_compute in
  match (λ p, Z.land (Z.sqrt (p * 2 ^ 64)) mask32) <$> take 8 primes with
  | [a; b; c; d; e; f; g; h] => W8 a b c d e f g h
  | _ => W8 0 0 0 0 0 0 0 0
  end.

Definition round (s : words) (k w : Z) : words :=
  let '(W8 a b c d e f g h) := s in
  let t1 := add32 h (bsig1 e + ch e f g + k + w) in
  let t2 := bsig0 a + maj a b c in
  W8 (add32 t1 t2) a b c (add32 d t1) e f g.

(** The message schedule as a sliding window of sixteen words. *)
Definition next_word (win : list Z) : Z :=
  match win with
  | [w0; w1; _; _; _; _; _; _; _; w9; _; _; _; _; w14; _] =>
      add32 (ssig1 w14 + w9) (ssig0 w1 + w0)
  | _ => 0
  end.
Fixpoint rounds (ks : list Z) (win : list Z) (s : words) : words :=
  match ks, win with
  | k :: ks', w :: win' => rounds ks' (win' ++ [next_word win]) (round s k w)
  | _, _ => s
  end.

Definition add_words (x y : words) : words :=
  let '(W8 a b c d e f g h) := x in
  let '(W8 a' b' c' d' e' f' g' h') := y in
  W8 (add32 a a') (add32 b b') (add32 c c') (add32 d d')
     (add32 e e') (add32 f f') (add32 g g') (add32 h h').

Definition be_word (l : list Z) : Z := fold_left (λ acc b, acc * 256 + b) l 0.
Definition block (s : words) (b : list Z) : words :=
  add_words s (rounds K (be_word <$> chunks 4 b) s).

Fixpoint be_bytes (n : nat) (x : Z) (acc : list Z) : list Z :=
  match n with O => acc | S n' => be_bytes n' (x / 256) (x mod 256 :: acc) end.
Definition pad (m : bytes) : bytes :=
  m ++ 0x80 :: zeros ((55 - len m) mod 64) ++ be_bytes 8 (len m * 8) [].

Definition digest (m : bytes) : bytes :=
  let '(W8 a b c d e f g h) := fold_left block (chunks 64 (pad m)) H0 in
  concat ((λ x, be_bytes 4 x []) <$> [a; b; c; d; e; f; g; h]).

Lemma be_bytes_length n x acc : length (be_bytes n x acc) = (n + length acc)%nat.
Proof. revert x acc. induction n; intros; [done|]. simpl. rewrite IHn. simpl. lia. Qed.
Lemma digest_length m : length (digest m) = HASH.
Proof. unfold digest. by destruct (fold_left _ _ _). Qed.

End Sha256.

#[export] Instance ref_ffi : Sha256Ffi := {
  SHA256_CTX := list Z;
  SHA256_Init := ([], 1);
  SHA256_Update c d := (c ++ d, 1);
  SHA256_Final c := (Sha256.digest c, c, 1)
}.

Lemma ref_zeros : Sha256.digest (zeros 4096) = HASH_OF_4096_ZEROS.
Proof. vm_compute. reflexivity. Qed.

Lemma ref_init : (SHA256_Init (Sha256Ffi := ref_ffi)).2 <> 0 ∧ (SHA256_Init (Sha256Ffi := ref_ffi)).1 = [].
Proof. done. Qed.
Lemma ref_update (c m : list Z) d :
  c = m -> (SHA256_Update (Sha256Ffi := ref_ffi) c d).2 <> 0 ∧ (SHA256_Update (Sha256Ffi := ref_ffi) c d).1 = m ++ d.
Proof. by intros ->. Qed.
Lemma ref_final (c m : list Z) :
  c = m -> ∃ c' r, SHA256_Final (Sha256Ffi := ref_ffi) c = (Sha256.digest m, c', r) ∧ r <> 0.
Proof. intros ->. by eexists _, _. Qed.

#[export] Instance ref_spec : Sha256Spec (H := ref_ffi) := {
  sha256 := Sha256.digest;
  absorbed c m := c = m;
  sha256_init := ref_init;
  sha256_update := ref_update;
  sha256_final := ref_final;
  sha256_length := Sha256.digest_length;
  sha256_of_4096_zeros := ref_zeros
}.
