(* ===== verification/FsverityCommon.v ===== *)
(** * authfs/src/fsverity/sys.rs and authfs/src/fsverity/common.rs

    Height of the Merkle tree, the fs-verity descriptor and its digest, and
    the error type of the fsverity modules. *)

From S2P Require Import Prelude Io Common Crypto.

(** ** sys.rs *)
Definition FS_VERITY_MAGIC : bytes := [0x46; 0x53; 0x56; 0x65; 0x72; 0x69; 0x74; 0x79]. (* FSVerity *)
Definition FS_VERITY_VERSION : Z := 1.
Definition FS_VERITY_HASH_ALG_SHA256 : Z := 1.
Definition FS_VERITY_LOG_BLOCKSIZE : Z := 12.

(** ** common.rs *)
Inductive FsverityError :=
| BadSignature
| InsufficientData (got : Z)
| CannotVerify
| FsIo (e : io_error)
| UnexpectedCryptoError (e : CryptoError)
| InvalidState.

Definition log128_ceil `{Profile} {E} (num : Z) : outcome E (option Z) :=
  if num =? 0 then Ok None
  else
    m ← sub_u64 num 1;
    bits ← sub_u64 64 (leading_zeros_u64 m);
    q ← divide_roundup bits 7;
    Ok (Some q).

Definition merkle_tree_height `{Profile} {E} (data_size : Z) : outcome E (option Z) :=
  let hashes_per_node := CHUNK_SIZE / HASH_SIZE in
  node_span ← mul_u64 hashes_per_node CHUNK_SIZE;
  hash_pages ← divide_roundup data_size node_span;
  log128_ceil hash_pages.

Definition build_fsverity_digest `{Sha256Ffi} (root_hash : Sha256Hash) (file_size : Z)
    : outcome CryptoError Sha256Hash :=
  h ← hasher_new;
  h ← hasher_update (le_bytes 1 FS_VERITY_VERSION) h;
  h ← hasher_update (le_bytes 1 FS_VERITY_HASH_ALG_SHA256) h;
  h ← hasher_update (le_bytes 1 FS_VERITY_LOG_BLOCKSIZE) h;
  h ← hasher_update (le_bytes 1 0) h;
  h ← hasher_update (le_bytes 4 0) h;
  h ← hasher_update (le_bytes 8 file_size) h;
  h ← hasher_update root_hash h;
  h ← hasher_update (zeros 32) h;
  h ← hasher_update (zeros 32) h;
  h ← hasher_update (zeros 32) h;
  h ← hasher_update (zeros 32) h;
  h ← hasher_update (zeros 32) h;
  h ← hasher_update (zeros 32) h;
  h ← hasher_update (zeros 16) h;
  hasher_finalize h.

(** ** Specifications *)

(** [struct fsverity_descriptor] of linux/fsverity.h, 256 bytes. *)
Definition fsverity_descriptor (root_hash : bytes) (file_size : Z) : bytes :=
  [FS_VERITY_VERSION; FS_VERITY_HASH_ALG_SHA256; FS_VERITY_LOG_BLOCKSIZE; 0] ++
  zeros 4 ++ le_bytes 8 file_size ++ root_hash ++ zeros 208.

(** The height that [merkle_tree_height] computes, on unbounded integers. *)
Definition tree_height (data_size : Z) : Z :=
  cdiv (bit_length (cdiv data_size (128 * CHUNK_SIZE) - 1)) 7.

(** ** Lemmas *)
Lemma bit_length_le x k : 0 <= x -> 0 <= k -> (bit_length x <= k <-> x < 2 ^ k).
Proof.
  intros Hx Hk. unfold bit_length. case_match eqn:E.
  - apply Z.eqb_eq in E as ->. split; [intros _; apply Z.pow_pos_nonneg; lia|lia].
  - apply Z.eqb_neq in E. pose proof (Z.log2_lt_pow2 x k). lia.
Qed.
Lemma bit_length_nonneg x : 0 <= bit_length x.
Proof. unfold bit_length. case_match; [lia|]. pose proof (Z.log2_nonneg x). lia. Qed.

Lemma pow128 k : 0 <= k -> 128 ^ k = 2 ^ (7 * k).
Proof. intros. change 128 with (2 ^ 7). by rewrite <- Z.pow_mul_r by lia. Qed.

Lemma log128_le n k :
  1 <= n -> 0 <= k -> (cdiv (bit_length (n - 1)) 7 <= k <-> n <= 128 ^ k).
Proof.
  intros Hn Hk. rewrite cdiv_le, bit_length_le, pow128 by lia.
  rewrite (Z.mul_comm k 7). lia.
Qed.

Lemma log128_ceil_ok `{Profile} {E} n :
  1 <= n < 2 ^ 64 -> log128_ceil (E := E) n = Ok (Some (cdiv (bit_length (n - 1)) 7)).
Proof.
  intros Hn. unfold log128_ceil. rewrite (proj2 (Z.eqb_neq _ _)) by lia.
  rewrite sub_u64_ok, bind_Ok by lia. unfold leading_zeros_u64.
  pose proof (bit_length_nonneg (n - 1)).
  assert (bit_length (n - 1) <= 64) by (apply (bit_length_le (n - 1) 64); lia).
  rewrite sub_u64_ok, bind_Ok by lia.
  replace (64 - (64 - bit_length (n - 1))) with (bit_length (n - 1)) by lia.
  by rewrite divide_roundup_ok by lia.
Qed.

Lemma tree_height_le n k :
  0 < n -> 0 <= k -> (tree_height n <= k <-> n <= CHUNK_SIZE * 128 ^ (k + 1)).
Proof.
  intros Hn Hk. unfold tree_height.
  assert (0 < cdiv n (128 * CHUNK_SIZE)) by (apply cdiv_pos; clia).
  rewrite log128_le, cdiv_le by clia.
  rewrite Z.pow_add_r, Z.pow_1_r by lia. clia.
Qed.
Lemma tree_height_nonneg n : 0 < n -> 0 <= tree_height n.
Proof. intros. apply cdiv_nonneg; [lia|]. apply bit_length_nonneg. Qed.

Lemma merkle_tree_height_ok `{Profile} {E} n :
  0 < n -> n + 128 * CHUNK_SIZE < 2 ^ 64 ->
  merkle_tree_height (E := E) n = Ok (Some (tree_height n)).
Proof.
  intros Hn Hmax. unfold merkle_tree_height.
  change (CHUNK_SIZE / HASH_SIZE) with 128. unfold tree_height.
  rewrite mul_u64_ok, bind_Ok by clia.
  rewrite divide_roundup_ok, bind_Ok by clia.
  assert (0 < cdiv n (128 * CHUNK_SIZE)) by (apply cdiv_pos; clia).
  rewrite log128_ceil_ok; [done|]. split; [lia|].
  enough (cdiv n (128 * CHUNK_SIZE) <= n) by clia.
  apply cdiv_le; clia.
Qed.

Lemma build_fsverity_digest_ok `{Sha256Spec} root n :
  build_fsverity_digest root n = Ok (sha256 (fsverity_descriptor root n)).
Proof.
  unfold build_fsverity_digest. hash_run. do 2 f_equal.
  unfold fsverity_descriptor. rewrite <- !app_assoc. reflexivity.
Qed.

Lemma fsverity_descriptor_inj root root' n n' :
  length root = HASH -> length root' = HASH ->
  0 <= n < 2 ^ 64 -> 0 <= n' < 2 ^ 64 ->
  fsverity_descriptor root n = fsverity_descriptor root' n' -> root = root' ∧ n = n'.
Proof.
  intros Hr Hr' Hn Hn' Heq. unfold fsverity_descriptor in Heq.
  apply app_inv_head, app_inv_head in Heq.
  apply app_inj_1 in Heq as [Hle Heq]; [|by rewrite !length_le_bytes].
  apply app_inj_1 in Heq as [-> _]; [|congruence].
  split; [done|]. by apply (le_bytes_inj 8) in Hle.
Qed.
