(* ===== verification/MerkleSpec.v ===== *)
(** * The fs-verity Merkle tree, as an abstract specification

    What Linux fs-verity defines, for SHA-256 and 4096-byte blocks without
    salt: leaf hashes of the zero-padded data blocks, hash blocks of 128
    hashes, levels up to a single root, and the on-disk order of the levels
    (root level first).  [Builder] and [Verifier] are both proved against it. *)

From S2P Require Import Prelude Io Common Crypto FsverityCommon.
From Equations Require Import Equations.

Definition HASH_PER_PAGE : Z := CHUNK_SIZE / HASH_SIZE.
Abbreviation PER_PAGE := (Z.to_nat HASH_PER_PAGE).

(** A block padded with zeros to the chunk size. *)
Definition pad_chunk (c : bytes) : bytes := c ++ zeros (CHUNK_SIZE - len c).

(** The hash block that holds the hashes [hs]. *)
Definition page (hs : list bytes) : bytes := pad_chunk (concat hs).
Definition pages (hs : list bytes) : list bytes := page <$> chunks PER_PAGE hs.

Lemma HASH_PER_PAGE_eq : HASH_PER_PAGE = 128.
Proof. reflexivity. Qed.
(** [lia] with the sizes of the tree format as numbers. *)
Ltac mlia := rewrite ?HASH_PER_PAGE_eq in *; clia.

(** ** Generic lemmas on padding and pages *)
Lemma length_pad_chunk c : len c <= CHUNK_SIZE -> length (pad_chunk c) = CHUNK.
Proof. intros. unfold pad_chunk. rewrite length_app, length_zeros. lia. Qed.
Lemma pad_chunk_full c : len c = CHUNK_SIZE -> pad_chunk c = c.
Proof.
  intros Hc. unfold pad_chunk. rewrite Hc, Z.sub_diag. apply app_nil_r.
Qed.

Lemma len_concat_uniform {A} (n : nat) (ls : list (list A)) :
  Forall (λ l, length l = n) ls -> length (concat ls) = (length ls * n)%nat.
Proof. induction 1; simpl; [done|]. rewrite length_app. lia. Qed.
Lemma concat_uniform_lookup {A} (n : nat) (ls : list (list A)) j l :
  Forall (λ l, length l = n) ls -> ls !! j = Some l ->
  take n (drop (j * n) (concat ls)) = l.
Proof.
  intros Hf. revert j. induction Hf as [|l' ls Hl' Hf IH]; intros j Hj; [done|].
  destruct j as [|j]; cbn [concat Nat.mul]; [injection Hj as ->|].
  - rewrite drop_0, take_app_le, take_ge by lia. done.
  - rewrite drop_app_ge by lia.
    replace (n + j * n - length l')%nat with (j * n)%nat by lia. by apply IH.
Qed.

(** Hash lists whose entries are digests. *)
Definition digests (hs : list bytes) : Prop := Forall (λ h, length h = HASH) hs.

Lemma digests_take hs n : digests hs -> digests (take n hs).
Proof. apply Forall_take. Qed.
Lemma digests_drop hs n : digests hs -> digests (drop n hs).
Proof. apply Forall_drop. Qed.
#[export] Hint Resolve digests_take digests_drop : rust.

Lemma length_page hs :
  digests hs -> len hs <= HASH_PER_PAGE -> length (page hs) = CHUNK.
Proof.
  intros Hd Hl. apply length_pad_chunk. rewrite HASH_PER_PAGE_eq in Hl.
  rewrite (len_concat_uniform HASH) by done. clia.
Qed.
Lemma page_lookup hs j h :
  digests hs -> hs !! j = Some h ->
  subrange (page hs) (HASH_SIZE * Z.of_nat j) (HASH_SIZE * Z.of_nat j + HASH_SIZE) = h.
Proof.
  intros Hd Hj. unfold subrange, page, pad_chunk.
  pose proof (lookup_lt_Some _ _ _ Hj). pose proof (len_concat_uniform HASH hs Hd).
  rewrite <- (concat_uniform_lookup HASH hs j h) by done.
  replace (Z.to_nat (HASH_SIZE * Z.of_nat j)) with (j * HASH)%nat by clia.
  replace (HASH_SIZE * Z.of_nat j + HASH_SIZE - HASH_SIZE * Z.of_nat j) with HASH_SIZE by lia.
  rewrite drop_app_le by clia. rewrite take_app_le; [done|].
  rewrite length_drop. clia.
Qed.

Lemma len_pages hs : len (pages hs) = cdiv (len hs) HASH_PER_PAGE.
Proof. unfold pages. rewrite length_fmap, len_chunks by (rewrite HASH_PER_PAGE_eq; lia). done. Qed.
Lemma pages_lookup hs (i : nat) :
  (i * PER_PAGE < length hs)%nat ->
  pages hs !! i = Some (page (take PER_PAGE (drop (i * PER_PAGE) hs))).
Proof.
  intros Hi. unfold pages. rewrite list_lookup_fmap, chunks_lookup_Some; [done| |done].
  rewrite HASH_PER_PAGE_eq. lia.
Qed.
Lemma pages_length hs : digests hs -> Forall (λ p, length p = CHUNK) (pages hs).
Proof.
  intros Hd. apply Forall_lookup. intros i p Hp. unfold pages in Hp.
  rewrite list_lookup_fmap, chunks_lookup in Hp by (rewrite HASH_PER_PAGE_eq; lia).
  case_decide; simplify_eq/=. apply length_page; [auto with rust|].
  rewrite length_take. mlia.
Qed.

(** Where the hash number [k] is stored: page [k / 128], at 32 * (k mod 128). *)
Lemma pages_hash hs (k : nat) h :
  digests hs -> hs !! k = Some h ->
  ∃ p, pages hs !! (k / PER_PAGE)%nat = Some p ∧ length p = CHUNK ∧
       subrange p (HASH_SIZE * Z.of_nat (k mod PER_PAGE))
                  (HASH_SIZE * Z.of_nat (k mod PER_PAGE) + HASH_SIZE) = h.
Proof.
  intros Hd Hk. pose proof (lookup_lt_Some _ _ _ Hk).
  pose proof (Nat.div_mod_eq k PER_PAGE). set (i := (k / PER_PAGE)%nat) in *.
  assert (k mod PER_PAGE < PER_PAGE)%nat by (apply Nat.mod_upper_bound; rewrite HASH_PER_PAGE_eq; lia).
  assert (pages hs !! i = Some (page (take PER_PAGE (drop (i * PER_PAGE) hs)))) as Hp
    by (apply pages_lookup; lia).
  eexists. split; [exact Hp|]. split.
  - by apply (Forall_lookup_1 _ _ _ _ (pages_length hs Hd) Hp).
  - apply page_lookup; [auto with rust|].
    rewrite lookup_take_lt, lookup_drop by lia. rewrite <- Hk. f_equal. lia.
Qed.

(** ** The tree *)
Section Tree.
Context `{Sha256Spec}.

Definition leaf_hash (c : bytes) : bytes := sha256 (pad_chunk c).
Definition leaf_hashes (data : bytes) : list bytes := leaf_hash <$> chunks CHUNK data.
Definition level_up (hs : list bytes) : list bytes := sha256 <$> pages hs.

(** [level x leaves]: the hashes at level [x], the leaves being level 0. *)
Fixpoint level (x : nat) (leaves : list bytes) : list bytes :=
  match x with O => leaves | S x' => level_up (level x' leaves) end.

Lemma level_up_shrinks a b hs :
  (length (level_up (a :: b :: hs)) < length (a :: b :: hs))%nat.
Proof.
  unfold level_up. rewrite length_fmap. apply Nat2Z.inj_lt. rewrite len_pages.
  set (l := a :: b :: hs). assert (2 <= len l) by (simpl; lia).
  enough (cdiv (len l) HASH_PER_PAGE <= len l - 1) by lia.
  rewrite HASH_PER_PAGE_eq. apply cdiv_le; lia.
Qed.

(** The root hash of the file with these leaf hashes, as the kernel defines
    it: zeros for an empty file, the only leaf of a one-block file, otherwise
    the root of the level above. *)
Equations? fsverity_root (hs : list bytes) : bytes by wf (length hs) lt :=
  fsverity_root [] := zeros HASH_SIZE;
  fsverity_root [h] := h;
  fsverity_root (a :: b :: hs') := fsverity_root (level_up (a :: b :: hs')).
Proof. apply (level_up_shrinks a b). Qed.

Lemma fsverity_root_nil : fsverity_root [] = zeros HASH_SIZE.
Proof. by simp fsverity_root. Qed.
Lemma fsverity_root_one h : fsverity_root [h] = h.
Proof. by simp fsverity_root. Qed.

Definition fsverity_digest (data : bytes) : bytes :=
  sha256 (fsverity_descriptor (fsverity_root (leaf_hashes data)) (len data)).

Lemma digests_level_up hs : digests (level_up hs).
Proof. apply Forall_fmap, Forall_true. intros. apply sha256_length. Qed.
Lemma digests_leaf_hashes data : digests (leaf_hashes data).
Proof. apply Forall_fmap, Forall_true. intros. apply sha256_length. Qed.
Lemma digests_level x leaves : digests leaves -> digests (level x leaves).
Proof. destruct x; [done|]. intros. apply digests_level_up. Qed.
#[local] Hint Resolve digests_level_up digests_leaf_hashes digests_level : rust.

Lemma len_level_up hs : len (level_up hs) = cdiv (len hs) HASH_PER_PAGE.
Proof. unfold level_up. by rewrite length_fmap, len_pages. Qed.
Lemma len_level x leaves : len (level x leaves) = cdiv (len leaves) (128 ^ Z.of_nat x).
Proof.
  induction x as [|x IH]; cbn [level].
  - by rewrite cdiv_1_r.
  - rewrite len_level_up, IH, HASH_PER_PAGE_eq, cdiv_cdiv by lia.
    f_equal. rewrite Nat2Z.inj_succ, Z.pow_succ_r by lia. lia.
Qed.
Lemma len_leaf_hashes data : len (leaf_hashes data) = cdiv (len data) CHUNK_SIZE.
Proof. unfold leaf_hashes. rewrite length_fmap, len_chunks by clia. f_equal. Qed.

(** A hash of level [x] and the page that holds it. *)
Lemma level_page x leaves (k : nat) h :
  digests leaves -> level x leaves !! k = Some h ->
  ∃ p, pages (level x leaves) !! (k / PER_PAGE)%nat = Some p ∧ length p = CHUNK ∧
       level (S x) leaves !! (k / PER_PAGE)%nat = Some (sha256 p) ∧
       subrange p (HASH_SIZE * Z.of_nat (k mod PER_PAGE))
                  (HASH_SIZE * Z.of_nat (k mod PER_PAGE) + HASH_SIZE) = h.
Proof.
  intros Hd Hk. destruct (pages_hash (level x leaves) k h) as (p & Hp & Hl & Hs);
    [auto with rust|done|].
  exists p. split_and!; [done|done| |done].
  cbn [level]. unfold level_up. by rewrite list_lookup_fmap, Hp.
Qed.

(** The recursion of [fsverity_root] climbs the levels one by one. *)
Lemma fsverity_root_level x leaves :
  (∀ y : nat, (y < x)%nat -> 2 <= len (level y leaves)) ->
  fsverity_root leaves = fsverity_root (level x leaves).
Proof.
  induction x as [|x IH]; intros Hy; [done|].
  rewrite IH by (intros; apply Hy; lia). cbn [level].
  assert (2 <= len (level x leaves)) as H2 by (apply Hy; lia).
  destruct (level x leaves) as [|a [|b hs]]; [simpl in H2; lia..|]. by simp fsverity_root.
Qed.

Lemma fsverity_root_top x leaves h :
  (∀ y : nat, (y < x)%nat -> 2 <= len (level y leaves)) ->
  level x leaves = [h] -> fsverity_root leaves = h.
Proof. intros Hy Hx. rewrite (fsverity_root_level x), Hx by done. by simp fsverity_root. Qed.

(** ** The tree as a file: root level first, leaf level last *)
Definition dump_pages (h : nat) (leaves : list bytes) : list bytes :=
  concat ((λ x, pages (level x leaves)) <$> reverse (seq 0 (S h))).
Definition merkle_dump (h : nat) (leaves : list bytes) : bytes :=
  concat (dump_pages h leaves).

End Tree.

#[export] Hint Resolve digests_level_up digests_leaf_hashes digests_level : rust.
