(* ===== verification/Content.v ===== *)
(** * File contents: bytes, blocks, writes and resizes, as a specification

    A file is a list of bytes.  Two files with the same bytes, reading zero
    beyond the end, have the same zero-padded blocks; every lemma on the leaf
    hashes of an updated file goes through that observation ([block_ext]). *)

From S2P Require Import Prelude Io Common Crypto FsverityCommon MerkleSpec.

Definition byte_at (data : bytes) (i : nat) : Z := default 0 (data !! i).

(** The [i]-th block of the file, padded with zeros to the chunk size. *)
Definition block (data : bytes) (i : nat) : bytes :=
  (λ j, byte_at data (i * CHUNK + j)) <$> seq 0 CHUNK.

(** pwrite(2): bytes between the old end and the offset read as zeros; an
    empty write changes nothing. *)
Definition write_bytes (data : bytes) (off : nat) (buf : bytes) : bytes :=
  match buf with
  | [] => data
  | _ => take off (data ++ replicate off 0) ++ buf ++ drop (off + length buf) data
  end.

(** ftruncate(2). *)
Definition resize_bytes (data : bytes) (n : nat) : bytes := resize n 0 data.

(** ** Bytes *)
Lemma byte_at_lt data i : (i < length data)%nat -> data !! i = Some (byte_at data i).
Proof. intros Hi. unfold byte_at. by destruct (lookup_lt_is_Some_2 data i Hi) as [x ->]. Qed.
Lemma byte_at_ge data i : (length data <= i)%nat -> byte_at data i = 0.
Proof. intros Hi. unfold byte_at. by rewrite lookup_ge_None_2. Qed.
Lemma byte_at_app d1 d2 i :
  byte_at (d1 ++ d2) i =
    if decide (i < length d1)%nat then byte_at d1 i else byte_at d2 (i - length d1).
Proof. unfold byte_at. case_decide; [by rewrite lookup_app_l|by rewrite lookup_app_r by lia]. Qed.
Lemma byte_at_zeros n i : byte_at (replicate n 0) i = 0.
Proof.
  unfold byte_at. destruct (replicate n 0 !! i) eqn:E; [|done].
  by apply lookup_replicate in E as [-> _].
Qed.
Lemma byte_at_take data n i :
  byte_at (take n data) i = if decide (i < n)%nat then byte_at data i else 0.
Proof.
  unfold byte_at. case_decide; [by rewrite lookup_take_lt|by rewrite lookup_take_ge by lia].
Qed.
Lemma byte_at_drop data n i : byte_at (drop n data) i = byte_at data (n + i).
Proof. unfold byte_at. by rewrite lookup_drop. Qed.

Lemma byte_at_ext d1 d2 :
  length d1 = length d2 -> (∀ i, byte_at d1 i = byte_at d2 i) -> d1 = d2.
Proof.
  intros Hl He. apply list_eq. intros i. destruct (decide (i < length d1)%nat).
  - rewrite !byte_at_lt by lia. by rewrite He.
  - by rewrite !lookup_ge_None_2 by lia.
Qed.

Lemma byte_at_pad_chunk c i : byte_at (pad_chunk c) i = byte_at c i.
Proof.
  unfold pad_chunk, zeros. rewrite byte_at_app, byte_at_zeros. case_decide; [done|].
  by rewrite byte_at_ge by lia.
Qed.

Lemma length_write_bytes data off buf :
  buf <> [] -> length (write_bytes data off buf) = Nat.max (length data) (off + length buf).
Proof.
  intros Hne. unfold write_bytes. destruct buf as [|b buf]; [done|].
  rewrite !length_app, length_take, length_drop, length_app, length_replicate. lia.
Qed.
Lemma byte_at_write data off buf i :
  byte_at (write_bytes data off buf) i =
    if decide (off <= i < off + length buf)%nat then byte_at buf (i - off) else byte_at data i.
Proof.
  unfold write_bytes. destruct buf as [|b buf]; [by rewrite decide_False by (simpl; lia)|].
  rewrite byte_at_app, length_take, length_app, length_replicate.
  rewrite Nat.min_l by lia. rewrite byte_at_take, byte_at_app, byte_at_zeros.
  destruct (decide (i < off)%nat).
  - rewrite (decide_False (P := (off <= i < _)%nat)) by lia.
    case_decide; [done|]. by rewrite byte_at_ge by lia.
  - rewrite byte_at_app. case_decide.
    + by rewrite decide_True by lia.
    + rewrite decide_False by lia. rewrite byte_at_drop. f_equal. lia.
Qed.

Lemma length_resize_bytes data n : length (resize_bytes data n) = n.
Proof. apply length_resize. Qed.
Lemma byte_at_resize data n i :
  byte_at (resize_bytes data n) i = if decide (i < n)%nat then byte_at data i else 0.
Proof.
  unfold resize_bytes. rewrite resize_spec, byte_at_app, byte_at_take, length_take, byte_at_zeros.
  repeat case_decide; try lia; try done. by rewrite byte_at_ge by lia.
Qed.

(** ** Blocks *)
Lemma length_block data i : length (block data i) = CHUNK.
Proof. unfold block. by rewrite length_fmap, length_seq. Qed.
Lemma byte_at_block data i j :
  (j < CHUNK)%nat -> byte_at (block data i) j = byte_at data (i * CHUNK + j).
Proof.
  intros Hj. unfold block. unfold byte_at at 1.
  rewrite list_lookup_fmap, lookup_seq_lt by done. done.
Qed.
Lemma block_ext d1 d2 i :
  (∀ j, (j < CHUNK)%nat -> byte_at d1 (i * CHUNK + j) = byte_at d2 (i * CHUNK + j)) ->
  block d1 i = block d2 i.
Proof.
  intros He. unfold block. apply list_fmap_ext. intros k j Hj.
  apply lookup_seq in Hj as [-> Hj]. by apply He.
Qed.
Lemma block_unique c data i :
  length c = CHUNK ->
  (∀ j, (j < CHUNK)%nat -> byte_at c j = byte_at data (i * CHUNK + j)) -> c = block data i.
Proof.
  intros Hl Hc. apply byte_at_ext; [by rewrite length_block|]. intros j.
  destruct (decide (j < CHUNK)%nat).
  - by rewrite byte_at_block, Hc.
  - by rewrite !byte_at_ge by (rewrite ?length_block; lia).
Qed.
Lemma pad_chunk_block data i :
  pad_chunk (take CHUNK (drop (i * CHUNK) data)) = block data i.
Proof.
  apply block_unique.
  - apply length_pad_chunk. rewrite length_take. clia.
  - intros j Hj. by rewrite byte_at_pad_chunk, byte_at_take, decide_True, byte_at_drop.
Qed.
Lemma block_zero data i :
  (length data <= i * CHUNK)%nat -> block data i = zeros CHUNK_SIZE.
Proof.
  intros Hl. symmetry. apply block_unique; [apply length_zeros|].
  intros j Hj. unfold zeros. rewrite byte_at_zeros, byte_at_ge by lia. done.
Qed.

(** ** Leaf hashes through blocks *)
Section LeafHashes.
Context `{Sha256Spec}.

(** Every block of the file, as it is hashed. *)
Definition blocks (data : bytes) : list bytes :=
  block data <$> seq 0 (length (leaf_hashes data)).

(** Two different byte strings of the given lists have the same hash.  The
    lists are those of a concrete run, so that the statement names the pair
    the run would have to contain. *)
Definition collision (xs ys : list bytes) : Prop :=
  ∃ x y, x ∈ xs ∧ y ∈ ys ∧ x <> y ∧ sha256 x = sha256 y.

Lemma leaf_hashes_lookup data (i : nat) :
  leaf_hashes data !! i =
    if decide (i * CHUNK < length data)%nat then Some (sha256 (block data i)) else None.
Proof.
  unfold leaf_hashes. rewrite list_lookup_fmap, chunks_lookup by clia.
  case_decide; [|done]. simpl. unfold leaf_hash. by rewrite pad_chunk_block.
Qed.
Lemma leaf_hashes_unique hs data :
  len hs = cdiv (len data) CHUNK_SIZE ->
  (∀ i h, hs !! i = Some h -> h = sha256 (block data i)) -> hs = leaf_hashes data.
Proof.
  intros Hl He. apply list_eq. intros i. rewrite leaf_hashes_lookup.
  destruct (hs !! i) as [h|] eqn:Hi.
  - pose proof (lookup_lt_Some _ _ _ Hi). rewrite (He _ _ Hi), decide_True; [done|].
    assert (Z.of_nat i * CHUNK_SIZE < len data) by (apply cdiv_lt; clia). clia.
  - apply lookup_ge_None in Hi. rewrite decide_False; [done|].
    assert (len data <= Z.of_nat i * CHUNK_SIZE) by (apply cdiv_le; clia). clia.
Qed.

Lemma leaf_hashes_block data i h :
  leaf_hashes data !! i = Some h -> h = sha256 (block data i).
Proof. rewrite leaf_hashes_lookup. case_decide; naive_solver. Qed.

Lemma elem_of_blocks data (i : nat) :
  (i * CHUNK < length data)%nat -> block data i ∈ blocks data.
Proof.
  intros Hi. unfold blocks. apply list_elem_of_fmap. exists i. split; [done|].
  apply elem_of_seq. split; [lia|]. apply lookup_lt_is_Some_1.
  rewrite leaf_hashes_lookup, decide_True; [by eexists|done].
Qed.

Lemma collision_app_l xs xs' ys : collision xs' ys -> collision (xs ++ xs') ys.
Proof. intros (x & y & Hx & Hy). exists x, y. rewrite elem_of_app. tauto. Qed.

(** A write that stays within block [i] changes that block alone. *)
Lemma block_write_other data off buf (i k : nat) :
  (i * CHUNK <= off)%nat -> (off + length buf <= S i * CHUNK)%nat -> k <> i ->
  block (write_bytes data off buf) k = block data k.
Proof.
  intros Hlo Hhi Hne. apply block_ext. intros j Hj. rewrite byte_at_write.
  rewrite decide_False; [done|]. intros [? ?]. assert (k < i ∨ S i <= k)%nat as [Hk|Hk] by lia; nia.
Qed.
Lemma block_write_same data (i o : nat) buf :
  (o + length buf <= CHUNK)%nat ->
  take o (block data i) ++ buf ++ drop (o + length buf) (block data i) =
    block (write_bytes data (i * CHUNK + o) buf) i.
Proof.
  intros Hl. apply block_unique.
  - rewrite !length_app, length_take, length_drop, length_block. lia.
  - intros j Hj. rewrite byte_at_write, !byte_at_app, byte_at_take, byte_at_drop, length_take, length_block.
    rewrite Nat.min_l by lia. repeat case_decide; try lia.
    + by rewrite byte_at_block.
    + f_equal. lia.
    + rewrite byte_at_block by lia. f_equal. lia.
Qed.

End LeafHashes.
