(* ===== verification/Builder.v ===== *)
(** * authfs/src/fsverity/builder.rs: MerkleLeaves

    The private Merkle tree that authfs keeps for a writable file: the leaf
    hashes and the file size; the upper levels are computed on demand.
    [represents] relates it to the content it stands for, and
    [calculate_fsverity_digest] is proved to be the kernel's digest of that
    content ([MerkleSpec.fsverity_digest]). *)

From S2P Require Import Prelude Io Common Crypto FsverityCommon MerkleSpec Content Sha256Ref.

Record MerkleLeaves := {
  leaves : list Sha256Hash;
  ml_file_size : Z
}.

Definition hash_all_pages `{Profile} `{Sha256Ffi} (source : list Sha256Hash)
    : outcome CryptoError (list Sha256Hash) :=
  try_map (λ chunk,
    missing ← sub_u64 HASH_PER_PAGE (len chunk);
    padding_bytes ← mul_u64 missing HASH_SIZE;
    h ← hasher_new;
    h ← hasher_update_from chunk h;
    h ← hasher_update (zeros padding_bytes) h;
    hasher_finalize h) (chunks PER_PAGE source).

Definition ml_new : MerkleLeaves := {| leaves := []; ml_file_size := 0 |}.

Definition file_size (self : MerkleLeaves) : Z := ml_file_size self.

Definition ml_resize `{Profile} {E} (self : MerkleLeaves) (new_file_size : Z)
    : outcome E MerkleLeaves :=
  leaves_size ← divide_roundup new_file_size CHUNK_SIZE;
  Ok {| leaves := resize (Z.to_nat leaves_size) HASH_OF_4096_ZEROS (leaves self);
        ml_file_size := new_file_size |}.

Definition update_hash `{Profile} {E} (self : MerkleLeaves) (index : Z)
    (hash : Sha256Hash) (size_at_least : Z) : outcome E MerkleLeaves :=
  next ← add_u64 index 1;
  let ls :=
    if len (leaves self) <? next
    then resize (Z.to_nat next) HASH_OF_4096_ZEROS (leaves self)
    else leaves self in
  ls' ← (if index <? len ls then Ok (<[Z.to_nat index := hash]> ls) else Panic);
  Ok {| leaves := ls';
        ml_file_size :=
          if size_at_least >? ml_file_size self then size_at_least else ml_file_size self |}.

Definition is_index_valid (self : MerkleLeaves) (index : Z) : bool :=
  index <? len (leaves self).

Definition is_consistent (self : MerkleLeaves) (index : Z) (hash : Sha256Hash) : bool :=
  match zlookup (leaves self) index with
  | Some element => bool_decide (element = hash)
  | None => false
  end.

(** [(1..=level).try_fold(second_level, |source, _| hash_all_pages(&source))]. *)
Fixpoint fold_levels `{Profile} `{Sha256Ffi} (n : nat) (source : list Sha256Hash)
    : outcome CryptoError (list Sha256Hash) :=
  match n with
  | O => Ok source
  | S n' => source' ← hash_all_pages source; fold_levels n' source'
  end.

Definition calculate_root_hash `{Profile} `{Sha256Ffi} (self : MerkleLeaves)
    : outcome FsverityError Sha256Hash :=
  match leaves self with
  | [] =>
      _ ← debug_assert (ml_file_size self =? 0);
      Ok (zeros HASH_SIZE)
  | [leaf] =>
      _ ← debug_assert ((ml_file_size self <=? CHUNK_SIZE) && (ml_file_size self >? 0));
      Ok leaf
  | _ =>
      let n := len (leaves self) in
      _ ← (if debug_assertions then
             d ← sub_u64 (ml_file_size self) 1;
             q ← div_u64 d CHUNK_SIZE;
             assert_ (q =? n)
           else Ok ());
      size_for_equivalent ← mul_u64 n CHUNK_SIZE;
      height ← merkle_tree_height size_for_equivalent;
      level ← unwrap height;
      second_level ← map_err UnexpectedCryptoError (hash_all_pages (leaves self));
      hashes ← map_err UnexpectedCryptoError (fold_levels (Z.to_nat level) second_level);
      match hashes with
      | [h] => Ok h
      | _ => Err InvalidState
      end
  end.

Definition calculate_fsverity_digest `{Profile} `{Sha256Ffi} (self : MerkleLeaves)
    : outcome FsverityError Sha256Hash :=
  root_hash ← calculate_root_hash self;
  map_err UnexpectedCryptoError (build_fsverity_digest root_hash (ml_file_size self)).

(** ** What the leaves stand for *)
Section Represents.
Context `{Profile} `{Sha256Spec}.

(** The tree of the file with content [data]. *)
Definition represents (t : MerkleLeaves) (data : bytes) : Prop :=
  leaves t = leaf_hashes data ∧ ml_file_size t = len data.

(** The leaves present are those of [data], as far as they go. *)
Definition leaves_match (hs : list bytes) (data : bytes) : Prop :=
  ∀ i h, hs !! i = Some h -> h = sha256 (block data i).

Lemma hash_all_pages_ok source :
  digests source -> hash_all_pages source = Ok (level_up source).
Proof.
  intros Hd. unfold hash_all_pages, level_up, pages. rewrite <- list_fmap_compose.
  apply try_map_Ok. intros c Hc.
  assert (digests c ∧ len c <= HASH_PER_PAGE) as [Hdc Hlc].
  { apply list_elem_of_lookup in Hc as [i Hi]. rewrite chunks_lookup in Hi by mlia.
    case_decide; simplify_eq. split; [auto with rust|]. rewrite length_take. mlia. }
  rewrite sub_u64_ok, bind_Ok, mul_u64_ok, bind_Ok by mlia. hash_run.
  do 2 f_equal. unfold page, pad_chunk. simpl. do 2 f_equal.
  rewrite (len_concat_uniform HASH) by done. f_equal. mlia.
Qed.

Lemma fold_levels_ok n x ls :
  digests ls -> fold_levels n (level x ls) = Ok (level (n + x) ls).
Proof.
  intros Hd. revert x. induction n as [|n IH]; intros x; [done|]. cbn [fold_levels].
  rewrite hash_all_pages_ok, bind_Ok by auto with rust.
  change (level_up (level x ls)) with (level (S x) ls). rewrite IH. do 2 f_equal. lia.
Qed.

(** Levels below the top have at least two hashes, the top has one. *)
Lemma levels_below_top ls (y : nat) :
  2 <= len ls -> Z.of_nat y <= tree_height (len ls * CHUNK_SIZE) -> 2 <= len (level y ls).
Proof.
  intros Hn Hy. rewrite len_level.
  enough (1 < cdiv (len ls) (128 ^ Z.of_nat y)) by lia.
  apply cdiv_lt; [lia|]. rewrite Z.mul_1_l.
  destruct y as [|y]; [simpl; lia|].
  pose proof (tree_height_le (len ls * CHUNK_SIZE) (Z.of_nat y)) as Hh.
  rewrite Nat2Z.inj_succ. replace (Z.succ (Z.of_nat y)) with (Z.of_nat y + 1) by lia.
  set (q := 128 ^ (Z.of_nat y + 1)) in *. clia.
Qed.
Lemma level_top ls :
  2 <= len ls ->
  ∃ h, level (S (Z.to_nat (tree_height (len ls * CHUNK_SIZE)))) ls = [h].
Proof.
  intros Hn. set (x := S _). assert (len (level x ls) = 1) as Hl.
  { rewrite len_level. pose proof (tree_height_nonneg (len ls * CHUNK_SIZE)).
    pose proof (tree_height_le (len ls * CHUNK_SIZE) (Z.of_nat x - 1)) as Hh.
    replace (Z.of_nat x - 1 + 1) with (Z.of_nat x) in Hh by lia.
    assert (0 < cdiv (len ls) (128 ^ Z.of_nat x)) by (apply cdiv_pos; lia).
    enough (cdiv (len ls) (128 ^ Z.of_nat x) <= 1) by lia.
    apply cdiv_le; [lia|]. set (q := 128 ^ Z.of_nat x) in *. clia. }
  destruct (level x ls) as [|h [|? ?]]; simpl in Hl; [lia|by exists h|lia].
Qed.

Lemma calculate_root_hash_ok t :
  debug_assertions = false -> digests (leaves t) ->
  len (leaves t) * CHUNK_SIZE + 128 * CHUNK_SIZE < 2 ^ 64 ->
  calculate_root_hash t = Ok (fsverity_root (leaves t)).
Proof.
  intros Hdbg Hd Hmax. unfold calculate_root_hash, debug_assert. rewrite Hdbg.
  set (ls := leaves t) in *.
  destruct (decide (2 <= len ls)) as [Hn|Hn].
  2: { destruct ls as [|a [|b l]]; simpl in Hn; [..|lia];
       by rewrite ?fsverity_root_nil, ?fsverity_root_one. }
  assert (fsverity_root ls = (level (S (Z.to_nat (tree_height (len ls * CHUNK_SIZE)))) ls) !!! O) as ->.
  { destruct (level_top ls Hn) as [h Hh]. rewrite Hh. eapply fsverity_root_top; [|exact Hh].
    intros y Hy. apply levels_below_top; [done|].
    pose proof (tree_height_nonneg (len ls * CHUNK_SIZE)). clia. }
  destruct (level_top ls Hn) as [h Hh].
  destruct ls as [|a [|b l]] eqn:Els; [simpl in Hn; lia..|]. rewrite <- Els in *.
  rewrite bind_Ok, mul_u64_ok, bind_Ok by clia.
  rewrite merkle_tree_height_ok, bind_Ok by clia. cbn [unwrap]. rewrite bind_Ok.
  rewrite hash_all_pages_ok by done. cbn [map_err]. rewrite bind_Ok.
  change (level_up ls) with (level 1 ls). rewrite fold_levels_ok by done. cbn [map_err].
  rewrite bind_Ok. replace (_ + 1)%nat with (S (Z.to_nat (tree_height (len ls * CHUNK_SIZE)))) by lia.
  by rewrite Hh.
Qed.

Lemma represents_digests t data : represents t data -> digests (leaves t).
Proof. intros [-> _]. auto with rust. Qed.
Lemma represents_match t data : represents t data -> leaves_match (leaves t) data.
Proof. intros [-> _] i h. apply leaf_hashes_block. Qed.
Lemma represents_len t data : represents t data -> len (leaves t) = cdiv (len data) CHUNK_SIZE.
Proof. intros [-> _]. apply len_leaf_hashes. Qed.
Lemma represents_new : represents ml_new [].
Proof. done. Qed.

(** Leaves that a shorter tree does not have yet are those of zero blocks. *)
Lemma resize_match hs data (n : nat) :
  leaves_match hs data -> (length data <= length hs * CHUNK)%nat ->
  leaves_match (resize n HASH_OF_4096_ZEROS hs) data.
Proof.
  intros Hm Hl i h Hi. rewrite resize_spec in Hi.
  apply lookup_app_Some in Hi as [Hi|[Hge Hi]].
  - rewrite lookup_take in Hi. case_decide; [|done]. by apply Hm.
  - apply lookup_replicate in Hi as [-> Hi]. rewrite length_take in Hge, Hi.
    rewrite block_zero; [by rewrite <- sha256_of_4096_zeros|]. clia.
Qed.

Lemma ml_resize_ok {E} t n :
  0 <= n -> n + CHUNK_SIZE < 2 ^ 64 ->
  ml_resize (E := E) t n =
    Ok {| leaves := resize (Z.to_nat (cdiv n CHUNK_SIZE)) HASH_OF_4096_ZEROS (leaves t);
          ml_file_size := n |}.
Proof. intros. unfold ml_resize. by rewrite divide_roundup_ok by clia. Qed.

Lemma update_hash_ok {E} t index hash sz :
  0 <= index -> index + 1 < 2 ^ 64 ->
  update_hash (E := E) t index hash sz =
    Ok {| leaves := <[Z.to_nat index := hash]>
            (resize (Nat.max (length (leaves t)) (Z.to_nat (index + 1)))
               HASH_OF_4096_ZEROS (leaves t));
          ml_file_size := Z.max sz (ml_file_size t) |}.
Proof.
  intros. unfold update_hash. rewrite add_u64_ok, bind_Ok by lia.
  assert (Hsz : (if sz >? ml_file_size t then sz else ml_file_size t) = Z.max sz (ml_file_size t)).
  { destruct (sz >? ml_file_size t) eqn:E'; lia. }
  rewrite Hsz. destruct (len (leaves t) <? index + 1) eqn:Hlt.
  - rewrite Nat.max_r by lia. rewrite length_resize, (proj2 (Z.ltb_lt _ _)) by lia. done.
  - rewrite Nat.max_l by lia. rewrite resize_all, (proj2 (Z.ltb_lt _ _)) by lia. done.
Qed.

(** Replacing one leaf, where only that block of the content changed. *)
Lemma update_hash_match hs data data' (index n : nat) hash :
  leaves_match hs data -> (length data <= length hs * CHUNK)%nat ->
  hash = sha256 (block data' index) ->
  (∀ i, i <> index -> block data' i = block data i) ->
  leaves_match (<[index := hash]> (resize n HASH_OF_4096_ZEROS hs)) data'.
Proof.
  intros Hm Hl -> Hother i h Hi. destruct (decide (i = index)) as [->|Hne].
  - by apply list_lookup_insert_Some in Hi as [(_ & -> & _)|[? _]].
  - rewrite list_lookup_insert_ne in Hi by done. rewrite Hother by done.
    by eapply resize_match.
Qed.

Lemma represents_intro t data :
  leaves_match (leaves t) data -> len (leaves t) = cdiv (len data) CHUNK_SIZE ->
  ml_file_size t = len data -> represents t data.
Proof. intros Hm Hl Hs. split; [|done]. by apply leaf_hashes_unique. Qed.

(** Truncating or extending the tree, when the leaves kept are those of the
    resized content. *)
Lemma ml_resize_represents {E} t data n :
  0 <= n -> n + CHUNK_SIZE < 2 ^ 64 ->
  leaves_match (take (Z.to_nat (cdiv n CHUNK_SIZE)) (leaves t)) (resize_bytes data (Z.to_nat n)) ->
  len data <= len (leaves t) * CHUNK_SIZE ->
  ∃ t', ml_resize (E := E) t n = Ok t' ∧ represents t' (resize_bytes data (Z.to_nat n)).
Proof.
  intros Hn Hmax Hm Hl. rewrite ml_resize_ok by done. eexists; split; [done|].
  pose proof (cdiv_nonneg n CHUNK_SIZE).
  apply represents_intro; cbn [leaves ml_file_size].
  - intros i h Hi. rewrite resize_spec in Hi.
    apply lookup_app_Some in Hi as [Hi|[Hge Hi]]; [by apply Hm|].
    apply lookup_replicate in Hi as [-> Hi]. rewrite length_take in Hge, Hi.
    rewrite <- sha256_of_4096_zeros. f_equal. change 4096 with CHUNK_SIZE.
    apply block_unique; [apply length_zeros|]. intros j Hj.
    unfold zeros. rewrite byte_at_zeros, byte_at_resize. case_decide; [|done].
    rewrite byte_at_ge; [done|]. clia.
  - rewrite length_resize, length_resize_bytes, !Z2Nat.id; clia.
  - rewrite length_resize_bytes. lia.
Qed.

Lemma ml_resize_grow {E} t data n :
  represents t data -> len data <= n -> n + CHUNK_SIZE < 2 ^ 64 ->
  ∃ t', ml_resize (E := E) t n = Ok t' ∧ represents t' (resize_bytes data (Z.to_nat n)).
Proof.
  intros Hr Hle Hmax. pose proof (represents_len t data Hr) as Hl.
  apply ml_resize_represents; [lia|done| |].
  - intros i h Hi. rewrite lookup_take in Hi. case_decide; [|done].
    rewrite (represents_match _ _ Hr i h Hi). f_equal. apply block_ext. intros j Hj.
    rewrite byte_at_resize. case_decide; [done|]. by rewrite byte_at_ge by lia.
  - rewrite Hl. apply cdiv_le; clia.
Qed.

Lemma calculate_digest_ok t data :
  debug_assertions = false -> represents t data -> len data + 2 ^ 20 < 2 ^ 64 ->
  calculate_fsverity_digest t = Ok (fsverity_digest data).
Proof.
  intros Hdbg Hr Hmax. unfold calculate_fsverity_digest.
  assert (len (leaves t) * CHUNK_SIZE < len data + CHUNK_SIZE) as Hb.
  { rewrite (represents_len t data Hr). unfold cdiv.
    pose proof (Z.mul_div_le (len data + CHUNK_SIZE - 1) CHUNK_SIZE). clia. }
  rewrite calculate_root_hash_ok, bind_Ok by (try done; try clia; by eapply represents_digests).
  rewrite build_fsverity_digest_ok. destruct Hr as [-> ->]. done.
Qed.
End Represents.

(** ** Claims *)

(** C5: in a build without debug assertions, the digest that [MerkleLeaves]
    computes is the fs-verity digest of the content it stands for, for every
    file size up to the range where the size arithmetic fits in 64 bits; in
    particular the number of levels derived from the tree height always ends
    in a single root hash, and no error or panic occurs. *)
Theorem calculate_fsverity_digest_refines `{Profile} `{Sha256Spec} t data :
  debug_assertions = false -> represents t data -> len data + 2 ^ 20 < 2 ^ 64 ->
  calculate_fsverity_digest t = Ok (fsverity_digest data).
Proof. apply calculate_digest_ok. Qed.

Definition tree_of `{Sha256Spec} (data : bytes) : MerkleLeaves :=
  {| leaves := leaf_hashes data; ml_file_size := len data |}.

Lemma calculate_fsverity_digest_refines_witness :
  calculate_fsverity_digest (H := release_profile) (tree_of [1; 2; 3]) =
    Ok (fsverity_digest [1; 2; 3]).
Proof.
  apply (calculate_fsverity_digest_refines (H := release_profile) (tree_of [1; 2; 3]) [1; 2; 3]);
    [reflexivity|split; reflexivity|simpl; lia].
Defined.

(** C34: with debug assertions compiled in, computing the root hash of any
    consistent tree with more than one leaf panics: the assertion on line 113
    compares the number of leaves with the index of the last chunk, which is
    one less. *)
Theorem debug_assert_rejects_multi_leaf `{Profile} `{Sha256Spec} t data :
  debug_assertions = true -> represents t data ->
  CHUNK_SIZE < len data -> len data < 2 ^ 64 ->
  calculate_root_hash t = Panic.
Proof.
  intros Hdbg Hr Hlo Hhi. unfold calculate_root_hash, debug_assert. rewrite Hdbg.
  pose proof (represents_len t data Hr) as Hl. destruct Hr as [_ Hsz].
  assert (1 < len (leaves t)) by (rewrite Hl; apply cdiv_lt; clia).
  assert (((len data - 1) / CHUNK_SIZE =? len (leaves t)) = false) as Hne.
  { apply Z.eqb_neq. rewrite Hl. unfold cdiv.
    replace (len data + CHUNK_SIZE - 1) with (len data - 1 + 1 * CHUNK_SIZE) by lia.
    rewrite Z.div_add by clia. lia. }
  destruct (leaves t) as [|a [|b l]] eqn:El; [simpl in *; lia..|]. rewrite <- El in *.
  rewrite Hsz, sub_u64_ok, bind_Ok, div_u64_ok, bind_Ok by clia. by rewrite Hne.
Qed.

Lemma debug_assert_rejects_multi_leaf_witness :
  calculate_root_hash (H := debug_profile) (tree_of (zeros 5000)) = Panic.
Proof.
  apply (debug_assert_rejects_multi_leaf (H := debug_profile) (tree_of (zeros 5000)) (zeros 5000));
    [reflexivity|split; reflexivity|rewrite length_zeros; clia|rewrite length_zeros; lia].
Defined.

(** growing the tree keeps it the tree of the content, extended with
    zeros: the hashes it fills in are those of zero blocks, and the leaf of
    the old, partial last block is still right because blocks are hashed with
    zero padding. *)
Theorem resize_grows_with_zeros `{Profile} `{Sha256Spec} t data n :
  represents t data -> len data <= n -> n + CHUNK_SIZE < 2 ^ 64 ->
  ∃ t', ml_resize (E := FsverityError) t n = Ok t' ∧
        represents t' (data ++ zeros (n - len data)).
Proof.
  intros Hr Hle Hmax. destruct (ml_resize_grow (E := FsverityError) t data n Hr Hle Hmax) as (t' & -> & Hr').
  exists t'. split; [done|]. unfold resize_bytes in Hr'. rewrite resize_ge in Hr' by lia.
  replace (Z.to_nat n - length data)%nat with (Z.to_nat (n - len data)) in Hr' by lia. done.
Qed.

Lemma resize_grows_with_zeros_witness :
  ∃ t', ml_resize (H := debug_profile) (E := FsverityError) (tree_of [7]) 12188 = Ok t' ∧
        represents t' ([7] ++ zeros (12188 - 1)).
Proof.
  apply (resize_grows_with_zeros (H := debug_profile) (tree_of [7]) [7] 12188);
    [split; reflexivity|simpl; lia|clia].
Defined.

(** ** Test values of builder.rs, computed with the reference SHA-256 *)
Module Tests.

(** [generate_fsverity_digest_sequentially]. *)
Fixpoint fill `{Profile} `{Sha256Ffi} (index : Z) (cs : list bytes) (tree : MerkleLeaves)
    : outcome FsverityError MerkleLeaves :=
  match cs with
  | [] => Ok tree
  | chunk :: cs' =>
      hash ← map_err UnexpectedCryptoError
        (h ← hasher_new;
         h ← hasher_update chunk h;
         h ← hasher_update (zeros (CHUNK_SIZE - len chunk)) h;
         hasher_finalize h);
      tree' ← update_hash tree index hash (CHUNK_SIZE * index + len chunk);
      fill (index + 1) cs' tree'
  end.
Definition generate_fsverity_digest_sequentially `{Profile} `{Sha256Ffi} (test_data : bytes)
    : outcome FsverityError Sha256Hash :=
  tree ← fill 0 (chunks CHUNK test_data) ml_new;
  calculate_fsverity_digest tree.

Example merkle_tree_empty_file :
  generate_fsverity_digest_sequentially (H := release_profile) [] =
    Ok [0x3d; 0x24; 0x8c; 0xa5; 0x42; 0xa2; 0x4f; 0xc6; 0x2d; 0x1c; 0x43; 0xb9; 0x16; 0xea;
        0xe5; 0x01; 0x68; 0x78; 0xe2; 0x53; 0x3c; 0x88; 0x23; 0x84; 0x80; 0xb2; 0x61; 0x28;
        0xa1; 0xf1; 0xaf; 0x95].
Proof. vm_compute. reflexivity. Qed.

Example merkle_tree_4097_ones :
  generate_fsverity_digest_sequentially (H := release_profile) (replicate (Z.to_nat 4097) 1) =
    Ok [0x29; 0x01; 0xb8; 0x49; 0xfd; 0xa2; 0xd9; 0x1e; 0x39; 0x29; 0x52; 0x45; 0x61; 0xc4;
        0xa4; 0x7e; 0x77; 0xbb; 0x64; 0x73; 0x43; 0x19; 0x75; 0x95; 0x07; 0xb2; 0x02; 0x9f;
        0x18; 0xb9; 0xcc; 0x52].
Proof. vm_compute. reflexivity. Qed.

End Tests.
