(* ===== verification/File.v ===== *)
(** * authfs/src/file.rs and authfs/src/file/local_file.rs

    The two traits of authfs, [ReadByChunk] and [RandomWrite], as type
    classes over a world [W] and a handle type [F]; the default method
    [write_all_at]; the local reader; and the contracts that clients are
    proved against: [BufferTyped] (what Rust's types already guarantee of any
    implementation), [reads_content] and [StoresContent] (an honest one).

    [std::fs::File] is the operating system's: its methods are the class
    [OsFile], and [PosixFile] is what a regular file does with them. *)

From S2P Require Import Prelude Io Common Crypto FsverityCommon MerkleSpec Content.

(** ** Operating-system files *)
Class OsFile (W File : Type) := {
  metadata_len : File -> M W io_error Z;
  read_exact_at : File -> Z -> Z -> M W io_error bytes;
  file_write_at : File -> bytes -> Z -> M W io_error Z;
  set_len : File -> Z -> M W io_error unit;
  (** a full buffer is returned, of the length asked for *)
  read_exact_len f n off w d w' :
    0 <= n -> read_exact_at f n off w = (Ok d, w') -> len d = n
}.

Class PosixFile (W File : Type) `{OsFile W File} := {
  file_content : W -> File -> bytes;
  posix_len f w : metadata_len f w = (Ok (len (file_content w f)), w);
  posix_read f n off w :
    0 <= n -> 0 <= off -> (n = 0 ∨ off + n <= len (file_content w f)) ->
    read_exact_at f n off w = (Ok (subrange (file_content w f) off (off + n)), w);
  posix_write f buf off w :
    buf <> [] -> 0 <= off -> off + len buf <= i64_MAX ->
    ∃ n w', file_write_at f buf off w = (Ok n, w') ∧ 0 < n <= len buf ∧
      file_content w' f =
        write_bytes (file_content w f) (Z.to_nat off) (take (Z.to_nat n) buf);
  posix_set_len f n w :
    0 <= n <= i64_MAX ->
    ∃ w', set_len f n w = (Ok (), w') ∧
      file_content w' f = resize_bytes (file_content w f) (Z.to_nat n);
  (** reading changes no file; writing changes no other file, whatever the result *)
  posix_read_frame f n off w r w' :
    read_exact_at f n off w = (r, w') -> ∀ g, file_content w' g = file_content w g;
  posix_write_frame f buf off w r w' :
    file_write_at f buf off w = (r, w') -> ∀ g, g <> f -> file_content w' g = file_content w g;
  posix_set_len_frame f n w r w' :
    set_len f n w = (r, w') -> ∀ g, g <> f -> file_content w' g = file_content w g
}.

(** ** file.rs: the traits *)

(** [[u8; CHUNK_SIZE]]: the length is a type in the source. *)
Abbreviation ChunkBuffer := bytes (only parsing).

(** [read_chunk f chunk_index buf] returns the size read and the buffer, which
    the source passes as [&mut]. *)
Class ReadByChunk (W F : Type) :=
  read_chunk : F -> Z -> ChunkBuffer -> M W io_error (Z * ChunkBuffer).

Class RandomWrite (W F : Type) := {
  write_at : F -> bytes -> Z -> M W io_error Z;
  resize_to : F -> Z -> M W io_error unit
}.

(** The default method [write_all_at]: [fuel] bounds the number of calls of
    [write_at]. *)
Fixpoint write_all_loop `{Profile} {W F} `{RandomWrite W F} (fuel : nat) (f : F)
    (buf : bytes) (input_offset output_offset : Z) : M W io_error unit :=
  match fuel with
  | O => lift NoFuel
  | S fuel' =>
      if input_offset <? len buf then
        rest ← lift (slice_from buf input_offset);
        size ← write_at f rest output_offset;
        input_offset' ← lift (add_u64 input_offset size);
        output_offset' ← lift (add_u64 output_offset size);
        write_all_loop fuel' f buf input_offset' output_offset'
      else mret ()
  end.
Definition write_all_at `{Profile} {W F} `{RandomWrite W F} (fuel : nat) (f : F)
    (buf : bytes) (offset : Z) : M W io_error unit :=
  write_all_loop fuel f buf 0 offset.

(** ** local_file.rs *)
Record LocalFileReader (File : Type) := { lf_file : File; lf_size : Z }.
Arguments lf_file {File}. Arguments lf_size {File}.

Definition LocalFileReader_new {W File} `{OsFile W File} (file : File)
    : M W io_error (LocalFileReader File) :=
  size ← metadata_len file;
  mret {| lf_file := file; lf_size := size |}.

Definition LocalFileReader_len {File} (self : LocalFileReader File) : Z := lf_size self.

Definition LocalFileReader_read_chunk `{Profile} {W File} `{OsFile W File}
    (self : LocalFileReader File) (chunk_index : Z) (buf : ChunkBuffer)
    : M W io_error (Z * ChunkBuffer) :=
  start ← lift (mul_u64 chunk_index CHUNK_SIZE);
  if start >=? lf_size self then mret (0, buf)
  else
    bound ← lift (add_u64 start CHUNK_SIZE);
    let end_ := Z.min (lf_size self) bound in
    read_size ← lift (sub_u64 end_ start);
    _ ← lift (debug_assert (read_size <=? len buf));
    _ ← lift (slice_to buf read_size);
    data ← read_exact_at (lf_file self) read_size start;
    mret (read_size, data ++ drop (length data) buf).

#[export] Instance LocalFileReader_ReadByChunk `{Profile} {W File} `{OsFile W File}
    : ReadByChunk W (LocalFileReader File) := LocalFileReader_read_chunk.

(** ** Contracts between the traits and their clients *)

(** The buffer keeps its type; true of every implementation. *)
Class BufferTyped (W F : Type) `{ReadByChunk W F} :=
  read_chunk_typed f i buf w n buf' w' :
    length buf = CHUNK -> read_chunk f i buf w = (Ok (n, buf'), w') -> length buf' = CHUNK.

(** Only the part of the buffer that the returned size counts is written. *)
Class FillsPrefix (W F : Type) `{ReadByChunk W F} :=
  read_chunk_fills f i buf w n buf' w' :
    length buf = CHUNK -> read_chunk f i buf w = (Ok (n, buf'), w') ->
    0 <= n <= CHUNK_SIZE ∧ drop (Z.to_nat n) buf' = drop (Z.to_nat n) buf.

(** The [i]-th chunk of a file, shorter at the end, empty beyond it. *)
Definition chunk_of (data : bytes) (i : Z) : bytes :=
  subrange data (i * CHUNK_SIZE) (i * CHUNK_SIZE + CHUNK_SIZE).

(** [f] serves the file [data] in the world [w]. *)
Definition reads_content {W F} `{ReadByChunk W F} (f : F) (w : W) (data : bytes) : Prop :=
  ∀ i buf, 0 <= i -> i * CHUNK_SIZE < len data -> length buf = CHUNK ->
    read_chunk f i buf w =
      (Ok (len (chunk_of data i), chunk_of data i ++ drop (length (chunk_of data i)) buf), w).

(** An honest, working store. *)
Class StoresContent (W F : Type) `{ReadByChunk W F} `{RandomWrite W F} := {
  content : W -> F -> bytes;
  stored_max : Z;
  (** the longest buffer one call accepts *)
  write_max : Z;
  store_ok : W -> F -> Prop;
  write_max_chunk : CHUNK_SIZE <= write_max;
  stored_read f w :
    store_ok w f -> len (content w f) <= stored_max -> reads_content f w (content w f);
  stored_write f buf off w :
    store_ok w f -> buf <> [] -> len buf <= write_max ->
    0 <= off -> off + len buf <= stored_max ->
    ∃ n w', write_at f buf off w = (Ok n, w') ∧ 0 < n <= len buf ∧ store_ok w' f ∧
      content w' f = write_bytes (content w f) (Z.to_nat off) (take (Z.to_nat n) buf);
  stored_resize f n w :
    store_ok w f -> 0 <= n <= stored_max ->
    ∃ w', resize_to f n w = (Ok (), w') ∧ store_ok w' f ∧
      content w' f = resize_bytes (content w f) (Z.to_nat n)
}.

(** A chunk at or past the end: an error, or the buffer as it was. *)
Class ReadsPastEnd (W F : Type) `{StoresContent W F} :=
  read_past_end f i buf w :
    store_ok w f -> 0 <= i -> len (content w f) <= i * CHUNK_SIZE -> i * CHUNK_SIZE <= stored_max ->
    length buf = CHUNK ->
    (∃ e, read_chunk f i buf w = (Err e, w)) ∨ ∃ n, read_chunk f i buf w = (Ok (n, buf), w).

(** ** Lemmas *)
Lemma length_chunk_of data i : 0 <= i -> (length (chunk_of data i) <= CHUNK)%nat.
Proof. intros. unfold chunk_of, subrange. rewrite length_take. clia. Qed.
Lemma len_chunk_of data i :
  0 <= i -> len (chunk_of data i) = Z.max 0 (Z.min CHUNK_SIZE (len data - i * CHUNK_SIZE)).
Proof. intros. unfold chunk_of, subrange. rewrite length_take, length_drop. clia. Qed.
Lemma chunk_of_eq data (i : nat) :
  chunk_of data (Z.of_nat i) = take CHUNK (drop (i * CHUNK) data).
Proof. unfold chunk_of, subrange. f_equal; [clia|]. f_equal. clia. Qed.
Lemma pad_chunk_of data (i : nat) : pad_chunk (chunk_of data (Z.of_nat i)) = block data i.
Proof. by rewrite chunk_of_eq, pad_chunk_block. Qed.
Lemma chunk_of_over_zeros data (i : nat) :
  chunk_of data (Z.of_nat i) ++ drop (length (chunk_of data (Z.of_nat i))) (zeros CHUNK_SIZE)
    = block data i.
Proof.
  rewrite <- pad_chunk_of. unfold pad_chunk, zeros. rewrite drop_replicate. f_equal. f_equal. lia.
Qed.

Lemma write_bytes_app data off b1 b2 :
  b1 <> [] -> b2 <> [] ->
  write_bytes (write_bytes data off b1) (off + length b1) b2 = write_bytes data off (b1 ++ b2).
Proof.
  intros H1 H2. assert (b1 ++ b2 <> []) by (by destruct b1).
  apply byte_at_ext.
  - rewrite !length_write_bytes, length_app by done. lia.
  - intros i. rewrite !byte_at_write, byte_at_app, length_app.
    destruct b1 as [|x b1]; [done|]. simpl length.
    repeat case_decide; try lia; try done. f_equal. lia.
Qed.

Section WriteAll.
Context `{Profile} {W F : Type} `{StoresContent W F}.

Lemma write_all_loop_ok fuel f buf (k : nat) off w :
  store_ok w f -> (k <= length buf)%nat -> len buf - Z.of_nat k < Z.of_nat fuel -> 0 <= off -> len buf <= write_max ->
  off + len buf <= stored_max -> off + len buf < 2 ^ 64 ->
  ∃ w', write_all_loop fuel f buf (Z.of_nat k) (off + Z.of_nat k) w = (Ok (), w') ∧ store_ok w' f ∧
        content w' f = write_bytes (content w f) (Z.to_nat off + k) (drop k buf).
Proof.
  revert k w. induction fuel as [|fuel IH]; intros k w Hok Hk Hf Hoff Hwm Hmax H64; [lia|].
  cbn [write_all_loop]. destruct (Z.of_nat k <? len buf) eqn:Hlt.
  2: { exists w. split_and!; [done|done|]. by rewrite drop_ge by lia. }
  apply Z.ltb_lt in Hlt.
  assert (Hs : slice_from (E := io_error) buf (Z.of_nat k) = Ok (drop k buf)).
  { unfold slice_from. rewrite slice_ok by lia. f_equal. unfold subrange.
    rewrite Nat2Z.id. apply take_ge. rewrite length_drop. lia. }
  assert (Hne : drop k buf <> []) by (intros He; apply (f_equal length) in He; rewrite length_drop in He; simpl in He; lia).
  destruct (stored_write f (drop k buf) (off + Z.of_nat k) w) as (n & w1 & Hw & Hn & Hok1 & Hc);
    [done|done|rewrite length_drop; lia|lia|rewrite length_drop; lia|]. rewrite length_drop in Hn.
  erewrite M_bind_lift by exact Hs. erewrite M_bind_Ok by exact Hw.
  erewrite M_bind_lift by (apply add_u64_ok; lia).
  erewrite M_bind_lift by (apply add_u64_ok; lia).
  replace (Z.of_nat k + n) with (Z.of_nat (k + Z.to_nat n)) by lia.
  replace (off + Z.of_nat k + n) with (off + Z.of_nat (k + Z.to_nat n)) by lia.
  destruct (IH (k + Z.to_nat n)%nat w1) as (w2 & -> & Hok2 & Hc2); [done|lia..|].
  exists w2. split_and!; [done|done|]. rewrite Hc2, Hc.
  replace (Z.to_nat (off + Z.of_nat k)) with (Z.to_nat off + k)%nat by lia.
  rewrite <- (take_drop (Z.to_nat n) (drop k buf)) at 2. rewrite drop_drop.
  assert (length (take (Z.to_nat n) (drop k buf)) = Z.to_nat n) as Hl
    by (rewrite length_take, length_drop; lia).
  destruct (drop (k + Z.to_nat n) buf) as [|x xs] eqn:E; [by rewrite app_nil_r|].
  rewrite <- write_bytes_app by (try done; intros He; rewrite He in Hl; simpl in Hl; lia).
  f_equal. lia.
Qed.
End WriteAll.

Lemma LocalFileReader_typed `{Profile} {W File} `{OsFile W File} :
  BufferTyped W (LocalFileReader File).
Proof.
  intros f i buf w n buf' w' Hb Hr. unfold read_chunk, LocalFileReader_ReadByChunk in Hr.
  unfold LocalFileReader_read_chunk in Hr. apply M_bind_inv in Hr as (start & w1 & Hs & Hr).
  apply lift_inv in Hs as [Hs <-]. destruct (start >=? lf_size f); [by binv Hr|].
  binv Hr. match goal with H : slice_to _ _ = Ok _ |- _ => apply slice_inv in H as (? & ? & _) end.
  match goal with H : read_exact_at _ _ _ _ = _ |- _ => apply read_exact_len in H; [|lia] end.
  rewrite length_app, length_drop. lia.
Qed.
#[export] Existing Instance LocalFileReader_typed.

Lemma LocalFileReader_fills `{Profile} {W File} `{OsFile W File} :
  FillsPrefix W (LocalFileReader File).
Proof.
  intros f i buf w n buf' w' Hb Hr. unfold read_chunk, LocalFileReader_ReadByChunk in Hr.
  unfold LocalFileReader_read_chunk in Hr. apply M_bind_inv in Hr as (start & w1 & Hs & Hr).
  apply lift_inv in Hs as [Hs <-]. destruct (start >=? lf_size f); [binv Hr; split; [clia|done]|].
  binv Hr. match goal with H : slice_to _ _ = Ok _ |- _ => apply slice_inv in H as (? & ? & _) end.
  match goal with H : read_exact_at _ _ _ _ = _ |- _ => apply read_exact_len in H as Hl; [|lia] end.
  split; [clia|]. rewrite drop_app_length' by lia. f_equal. lia.
Qed.
#[export] Existing Instance LocalFileReader_fills.

(** A local reader of an unchanged regular file serves its content. *)
Lemma LocalFileReader_reads `{Profile} {W File} `{PosixFile W File} (f : LocalFileReader File) w :
  lf_size f = len (file_content w (lf_file f)) -> lf_size f <= i64_MAX ->
  reads_content f w (file_content w (lf_file f)).
Proof.
  intros Hsz Hmax i buf Hi0 Hi Hbuf.
  unfold read_chunk, LocalFileReader_ReadByChunk, LocalFileReader_read_chunk.
  set (data := file_content w (lf_file f)) in *. pose proof (len_chunk_of data i) as Hlc.
  erewrite M_bind_lift by (apply mul_u64_ok; unfold i64_MAX in *; clia).
  replace (i * CHUNK_SIZE >=? lf_size f) with false by clia.
  erewrite M_bind_lift by (apply add_u64_ok; unfold i64_MAX in *; clia).
  erewrite M_bind_lift by (apply sub_u64_ok; unfold i64_MAX in *; clia).
  set (n := Z.min (lf_size f) (i * CHUNK_SIZE + CHUNK_SIZE) - i * CHUNK_SIZE).
  assert (n = len (chunk_of data i)) as Hn by clia.
  erewrite M_bind_lift by (apply debug_assert_ok; apply Z.leb_le; clia).
  erewrite M_bind_lift by (apply slice_ok; clia).
  erewrite M_bind_Ok by (apply posix_read; fold data; clia).
  fold data. replace (subrange data (i * CHUNK_SIZE) (i * CHUNK_SIZE + n)) with (chunk_of data i).
  { by rewrite Hn. }
  unfold chunk_of, subrange. apply byte_at_ext.
  - rewrite !length_take, !length_drop. clia.
  - intros j. rewrite !byte_at_take, !byte_at_drop. repeat case_decide; try done.
    + rewrite byte_at_ge; [done|clia].
    + clia.
Qed.

(** ** The in-memory store of the tests of editor.rs *)
Record InMemoryEditor := { im_data : bytes; im_fail_read : bool }.

Definition InMemoryEditor_new : InMemoryEditor := {| im_data := []; im_fail_read := false |}.

Definition InMemoryEditor_write_at `{Profile} (_ : unit) (buf : bytes) (offset : Z)
    : M InMemoryEditor io_error Z :=
  w ← get;
  end_ ← lift (add_u64 offset (len buf));
  let data := if end_ >? len (im_data w) then resize (Z.to_nat end_) 0 (im_data w) else im_data w in
  _ ← lift (slice data offset end_);
  _ ← put {| im_data := take (Z.to_nat offset) data ++ buf ++ drop (Z.to_nat end_) data;
             im_fail_read := im_fail_read w |};
  mret (len buf).

Definition InMemoryEditor_resize (_ : unit) (size : Z) : M InMemoryEditor io_error unit :=
  w ← get;
  put {| im_data := resize (Z.to_nat size) 0 (im_data w); im_fail_read := im_fail_read w |}.

Definition InMemoryEditor_read_chunk (_ : unit) (chunk_index : Z) (buf : ChunkBuffer)
    : M InMemoryEditor io_error (Z * ChunkBuffer) :=
  w ← get;
  if im_fail_read w then fail (IoNew Other "test!")
  else
    chunk ← lift (ok_or (IoNew InvalidInput
                      (String.append "read_chunk out of bound: index " (pretty chunk_index)))
                    (zlookup (chunks CHUNK (im_data w)) chunk_index));
    buf' ← lift (copy_prefix buf chunk);
    mret (len chunk, buf').

#[export] Instance InMemoryEditor_ReadByChunk : ReadByChunk InMemoryEditor unit :=
  InMemoryEditor_read_chunk.
#[export] Instance InMemoryEditor_RandomWrite `{Profile} : RandomWrite InMemoryEditor unit := {
  write_at := InMemoryEditor_write_at;
  resize_to := InMemoryEditor_resize
}.

Lemma InMemoryEditor_typed : BufferTyped InMemoryEditor unit.
Proof.
  intros f i buf w n buf' w' Hb Hr. unfold read_chunk, InMemoryEditor_ReadByChunk, InMemoryEditor_read_chunk in Hr.
  apply M_bind_inv in Hr as (w0 & w1 & [= <- <-] & Hr). destruct (im_fail_read w); [done|].
  binv Hr. unfold copy_prefix in *. case_match eqn:E; simplify_eq.
  rewrite length_app, length_drop. lia.
Qed.
#[export] Existing Instance InMemoryEditor_typed.

Lemma InMemoryEditor_reads f w :
  im_fail_read w = false -> reads_content f w (im_data w).
Proof.
  intros Hok i buf Hi0 Hi Hb. unfold read_chunk, InMemoryEditor_ReadByChunk, InMemoryEditor_read_chunk.
  erewrite M_bind_Ok by reflexivity. rewrite Hok. pose proof (length_chunk_of (im_data w) i Hi0).
  assert (zlookup (chunks CHUNK (im_data w)) i = Some (chunk_of (im_data w) i)) as Hc.
  { rewrite zlookup_nat, chunks_lookup_Some by clia. rewrite <- (Z2Nat.id i), chunk_of_eq by lia.
    by rewrite Nat2Z.id. }
  erewrite M_bind_lift by (by rewrite Hc). by erewrite M_bind_lift by (apply copy_prefix_ok; lia).
Qed.

Lemma InMemoryEditor_writes `{Profile} f buf off w :
  buf <> [] -> 0 <= off -> off + len buf <= i64_MAX ->
  write_at (RandomWrite := InMemoryEditor_RandomWrite) f buf off w =
    (Ok (len buf), {| im_data := write_bytes (im_data w) (Z.to_nat off) buf; im_fail_read := im_fail_read w |}).
Proof.
  intros Hne Hoff Hmax. assert (0 < len buf) by (destruct buf; [done|simpl; lia]).
  cbn [write_at InMemoryEditor_RandomWrite]. unfold InMemoryEditor_write_at.
  erewrite M_bind_Ok by reflexivity. unfold i64_MAX in *.
  erewrite M_bind_lift by (apply add_u64_ok; lia).
  set (data := if _ >? _ then _ else _).
  assert (off + len buf <= len data ∧ ∀ i, byte_at data i = byte_at (im_data w) i) as [Hl Hb].
  { subst data. destruct (off + len buf >? len (im_data w)) eqn:E; [|by split; [lia|]].
    rewrite length_resize. split; [lia|]. intros i.
    change (resize ?n 0 ?d) with (resize_bytes d n). rewrite byte_at_resize. case_decide; [done|].
    by rewrite byte_at_ge by lia. }
  assert (len data = Z.max (len (im_data w)) (off + len buf)).
  { subst data. destruct (off + len buf >? len (im_data w)) eqn:E; rewrite ?length_resize; lia. }
  erewrite M_bind_lift by (apply slice_ok; lia).
  assert (take (Z.to_nat off) data ++ buf ++ drop (Z.to_nat (off + len buf)) data
    = write_bytes (im_data w) (Z.to_nat off) buf) as ->; [|done].
  apply byte_at_ext.
  - rewrite length_write_bytes by done. rewrite !length_app, length_take, length_drop. lia.
  - intros i. rewrite byte_at_write, !byte_at_app, byte_at_take, byte_at_drop, length_take, !Hb.
    rewrite Nat.min_l by lia. repeat case_decide; try lia; try done; f_equal; lia.
Qed.

#[export] Program Instance InMemoryEditor_stores `{Profile} : StoresContent InMemoryEditor unit := {
  content w _ := im_data w;
  stored_max := i64_MAX;
  write_max := i64_MAX;
  store_ok w _ := im_fail_read w = false
}.
Next Obligation. intros. unfold i64_MAX. clia. Qed.
Next Obligation. intros. by apply InMemoryEditor_reads. Qed.
Next Obligation.
  intros ? f buf off w Hok Hne Hwm Hoff Hmax. assert (0 < len buf) by (destruct buf; [done|simpl; lia]).
  eexists _, _. split; [by apply InMemoryEditor_writes|]. split_and!; [lia|lia|done|]. by rewrite Nat2Z.id, (take_ge buf) by lia.
Qed.
Next Obligation. intros. by eexists. Qed.

#[export] Instance InMemoryEditor_past_end `{Profile} : ReadsPastEnd InMemoryEditor unit.
Proof.
  intros f i buf w Hok Hi Hlen _ _. left. cbn in Hok, Hlen. unfold read_chunk, InMemoryEditor_ReadByChunk, InMemoryEditor_read_chunk.
  rewrite M_bind_eq. cbn [get]. rewrite Hok, M_bind_eq. rewrite zlookup_nat by done.
  rewrite chunks_lookup by clia. case_decide; [clia|by eexists].
Qed.

(** ** Regular files in memory, an instance of the operating system's files *)
Definition mem_content (w : gmap Z bytes) (f : Z) : bytes := default [] (w !! f).
Definition mem_read (f n off : Z) : M (gmap Z bytes) io_error bytes := λ w,
  if (0 <=? off) && ((n =? 0) || (off + n <=? len (mem_content w f)))
  then (Ok (subrange (mem_content w f) off (off + n)), w)
  else (Err (IoNew UnexpectedEof "failed to fill whole buffer"), w).
Definition mem_write (f : Z) (buf : bytes) (off : Z) : M (gmap Z bytes) io_error Z := λ w,
  (Ok (len buf), <[f := write_bytes (mem_content w f) (Z.to_nat off) buf]> w).
Definition mem_set_len (f n : Z) : M (gmap Z bytes) io_error unit := λ w,
  (Ok (), <[f := resize_bytes (mem_content w f) (Z.to_nat n)]> w).

Lemma mem_read_len f n off w d w' :
  0 <= n -> mem_read f n off w = (Ok d, w') -> len d = n.
Proof.
  intros Hn. unfold mem_read. destruct ((0 <=? off) && _) eqn:Hb; [|done].
  intros [= <- <-]. unfold subrange. rewrite length_take, length_drop. lia.
Qed.
#[export] Instance mem_os : OsFile (gmap Z bytes) Z := {
  metadata_len f w := (Ok (len (mem_content w f)), w);
  read_exact_at := mem_read;
  file_write_at := mem_write;
  set_len := mem_set_len;
  read_exact_len := mem_read_len
}.

Lemma mem_content_insert w f d g :
  mem_content (<[f := d]> w) g = if decide (f = g) then d else mem_content w g.
Proof. unfold mem_content. rewrite lookup_insert. by case_decide. Qed.

#[export] Program Instance mem_posix : PosixFile (gmap Z bytes) Z := {
  file_content := mem_content
}.
Next Obligation. done. Qed.
Next Obligation.
  intros f n off w Hn Hoff Hb. cbn. unfold mem_read.
  by assert ((0 <=? off) && ((n =? 0) || (off + n <=? len (mem_content w f))) = true) as -> by lia.
Qed.
Next Obligation.
  intros f buf off w Hne Hoff Hmax. assert (0 < len buf) by (destruct buf; [done|simpl; lia]).
  eexists _, _. split; [reflexivity|]. split; [lia|].
  rewrite mem_content_insert, decide_True, Nat2Z.id, take_ge by lia. done.
Qed.
Next Obligation.
  intros f n w Hn. eexists. split; [reflexivity|]. by rewrite mem_content_insert, decide_True.
Qed.
Next Obligation.
  intros f n off w r w' Hr g. cbn in Hr. unfold mem_read in Hr. case_match; by simplify_eq.
Qed.
Next Obligation.
  intros f buf off w r w' [= <- <-] g Hg. by rewrite mem_content_insert, decide_False.
Qed.
Next Obligation.
  intros f n w r w' [= <- <-] g Hg. by rewrite mem_content_insert, decide_False.
Qed.

(** ** Claims *)

(** on a store that makes progress, [write_all_at] returns after at most
    one [write_at] per byte, and the file then holds the whole buffer at the
    offset, whatever the sizes of the partial writes. *)
Theorem write_all_at_complete `{Profile} {W F} `{StoresContent W F} fuel f buf off w :
  store_ok w f -> len buf < Z.of_nat fuel -> 0 <= off -> len buf <= write_max ->
  off + len buf <= stored_max -> off + len buf < 2 ^ 64 ->
  ∃ w', write_all_at fuel f buf off w = (Ok (), w') ∧ store_ok w' f ∧
        content w' f = write_bytes (content w f) (Z.to_nat off) buf.
Proof.
  intros Hok Hf Hoff Hwm Hmax H64.
  destruct (write_all_loop_ok fuel f buf 0 off w) as (w' & Hw & Hok' & Hc); [done|lia..|].
  exists w'. rewrite Z.add_0_r in Hw. rewrite drop_0, Nat.add_0_r in Hc. done.
Qed.

Section Witness1.
#[local] Existing Instance debug_profile.
Lemma write_all_at_complete_witness :
  ∃ w', write_all_at 6 () [1; 2; 3; 4; 5] 3 InMemoryEditor_new = (Ok (), w') ∧
        store_ok w' () ∧ content w' () = write_bytes [] (Z.to_nat 3) [1; 2; 3; 4; 5].
Proof.
  refine (write_all_at_complete 6 () [1; 2; 3; 4; 5] 3 InMemoryEditor_new _ _ _ _ _ _);
    [reflexivity|simpl; lia|lia|vm_compute; discriminate|vm_compute; discriminate|simpl; lia].
Defined.
End Witness1.

(** [write_all_at] has no case for a write that stores nothing: on a store
    whose [write_at] keeps answering 0 it never returns, for any bound on the
    number of calls. *)
Theorem write_all_at_zero_write_diverges `{Profile} {W F} `{RandomWrite W F} fuel f buf off w :
  buf <> [] -> 0 <= off < 2 ^ 64 ->
  (∀ rest, write_at f rest off w = (Ok 0, w)) ->
  write_all_at fuel f buf off w = (NoFuel, w).
Proof.
  intros Hne Hoff Hw. assert (0 < len buf) by (destruct buf; [done|simpl; lia]).
  unfold write_all_at. induction fuel as [|fuel IH]; [done|]. cbn [write_all_loop].
  rewrite (proj2 (Z.ltb_lt _ _)) by done.
  erewrite M_bind_lift by (apply slice_ok; lia). erewrite M_bind_Ok by apply Hw.
  erewrite M_bind_lift by (apply add_u64_ok; lia).
  erewrite M_bind_lift by (apply add_u64_ok; lia). by rewrite !Z.add_0_r.
Qed.

(** A store that accepts nothing, e.g. a full device behind the server. *)
Definition full_store : RandomWrite unit unit := {|
  write_at _ _ _ := mret 0;
  resize_to _ _ := mret ()
|}.
Lemma write_all_at_zero_write_diverges_witness :
  write_all_at (H := release_profile) (H0 := full_store) 1000 () [1; 2; 3] 4096 () = (NoFuel, ()).
Proof.
  apply (write_all_at_zero_write_diverges (H := release_profile) (H0 := full_store) 1000 () [1; 2; 3] 4096 ());
    [discriminate|lia|reflexivity].
Defined.
