(* ===== verification/Verifier.v ===== *)
(** * authfs/src/fsverity/verifier.rs: VerifiedFileReader

    The reader that checks every chunk it returns against the Merkle tree of
    the file.  Both the file and the tree come from untrusted storage, so the
    model leaves the two [ReadByChunk] implementations arbitrary.  The security
    statement is explicit about hash collisions: a chunk that is accepted is
    the authentic one, or the run itself exhibits two different blocks, one
    served by the storage and one of the authentic tree, with the same hash. *)

From S2P Require Import Prelude Io Common Crypto FsverityCommon MerkleSpec Content Builder File Sha256Ref.

Definition ZEROS : bytes := zeros CHUNK_SIZE.

Definition SIZE_OF_FSVERITY_FORMATTED_DIGEST_SHA256 : Z := 12 + HASH_SIZE.

Abbreviation HashBuffer := bytes (only parsing).

Definition hash_with_padding `{Profile} `{Sha256Ffi} (chunk : bytes) (pad_to : Z)
    : outcome CryptoError HashBuffer :=
  padding_size ← sub_u64 pad_to (len chunk);
  h ← hasher_new;
  h ← hasher_update chunk h;
  padding ← slice_to ZEROS padding_size;
  h ← hasher_update padding h;
  hasher_finalize h.

(** The closure of the first [map] of [fsverity_walk]: size of the level and
    offset of the hash in it. *)
Definition walk_level `{Profile} {E} (chunk_index file_size : Z) (x : Z) : outcome E (Z * Z) :=
  let hashes_per_node := CHUNK_SIZE / HASH_SIZE in
  leaves_per_hash ← pow_u64 hashes_per_node x;
  leaves_size_per_hash ← mul_u64 CHUNK_SIZE leaves_per_hash;
  leaves_size_per_node ← mul_u64 leaves_size_per_hash hashes_per_node;
  nodes_at_level ← divide_roundup file_size leaves_size_per_node;
  level_size ← mul_u64 nodes_at_level CHUNK_SIZE;
  q ← div_u64 chunk_index leaves_per_hash;
  offset_in_level ← mul_u64 q HASH_SIZE;
  Ok (level_size, offset_in_level).

(** The [map], [scan], [map] pipeline over the levels, root first. *)
Fixpoint root_to_leaf_steps `{Profile} {E} (chunk_index file_size : Z)
    (xs : list nat) (level_offset : Z) : outcome E (list (Z * Z)) :=
  match xs with
  | [] => Ok []
  | x :: xs' =>
      '(level_size, offset_in_level) ← walk_level chunk_index file_size (Z.of_nat x);
      let this_level_offset := level_offset in
      level_offset' ← add_u64 level_offset level_size;
      global_hash_offset ← add_u64 this_level_offset offset_in_level;
      rest ← root_to_leaf_steps chunk_index file_size xs' level_offset';
      Ok ((global_hash_offset / CHUNK_SIZE, global_hash_offset mod CHUNK_SIZE) :: rest)
  end.

(** The steps of [fsverity_walk], from the leaf to the root: chunk of the tree
    to read, and offset of the child's hash in it. *)
Definition fsverity_walk `{Profile} (chunk_index file_size : Z)
    : outcome FsverityError (list (Z * Z)) :=
  _ ← debug_assert (CHUNK_SIZE / HASH_SIZE =? 128);
  height ← merkle_tree_height file_size;
  max_level ← unwrap height;
  steps ← root_to_leaf_steps chunk_index file_size
            (reverse (seq 0 (S (Z.to_nat (as_u32 max_level))))) 0;
  Ok (reverse steps).

(** One step of the fold of [verity_check]: the chunk of the tree is read when
    the iterator is advanced. *)
Definition check_step `{Profile} `{Sha256Ffi} {W T} `{ReadByChunk W T} (merkle_tree : T)
    (actual_hash : HashBuffer) (step : Z * Z) : M W FsverityError HashBuffer :=
  let '(chunk_index, hash_offset_in_chunk) := step in
  '(_, merkle_chunk) ← map_errM FsIo (read_chunk merkle_tree chunk_index (zeros CHUNK_SIZE));
  expected_hash ← lift (slice merkle_chunk hash_offset_in_chunk (hash_offset_in_chunk + HASH_SIZE));
  if bool_decide (actual_hash = expected_hash)
  then lift (map_err UnexpectedCryptoError (hash_with_padding merkle_chunk CHUNK_SIZE))
  else fail CannotVerify.

Definition verity_check `{Profile} `{Sha256Ffi} {W T} `{ReadByChunk W T} (chunk : bytes)
    (chunk_index file_size : Z) (merkle_tree : T) : M W FsverityError HashBuffer :=
  _ ← lift (assert_ (negb (file_size =? 0)));
  chunk_hash ← lift (map_err UnexpectedCryptoError (hash_with_padding chunk CHUNK_SIZE));
  steps ← lift (fsverity_walk chunk_index file_size);
  try_fold (check_step merkle_tree) chunk_hash steps.

Definition build_fsverity_formatted_digest `{Sha256Ffi} (root_hash : HashBuffer) (file_size : Z)
    : outcome CryptoError bytes :=
  digest ← build_fsverity_digest root_hash file_size;
  Ok (FS_VERITY_MAGIC ++ le_bytes 2 FS_VERITY_HASH_ALG_SHA256 ++ le_bytes 2 HASH_SIZE ++ digest).

Record VerifiedFileReader (F T : Type) := {
  vf_chunked_file : F;
  vf_file_size : Z;
  vf_merkle_tree : T;
  vf_root_hash : HashBuffer
}.
Arguments vf_chunked_file {F T}. Arguments vf_file_size {F T}.
Arguments vf_merkle_tree {F T}. Arguments vf_root_hash {F T}.

Definition VerifiedFileReader_new `{Sha256Ffi} {W F T A} `{ReadByChunk W T} `{Authenticator A}
    (authenticator : A) (chunked_file : F) (file_size : Z) (sig : bytes) (merkle_tree : T)
    : M W FsverityError (VerifiedFileReader F T) :=
  '(size, buf) ← map_errM FsIo (read_chunk merkle_tree 0 (zeros CHUNK_SIZE));
  if negb (len buf =? size) then fail (InsufficientData size)
  else
    root_hash ← lift (map_err UnexpectedCryptoError
      (h ← hasher_new; h ← hasher_update buf h; hasher_finalize h));
    formatted_digest ← lift (map_err UnexpectedCryptoError
      (build_fsverity_formatted_digest root_hash file_size));
    valid ← lift (map_err FsIo (verify authenticator sig formatted_digest));
    if (valid : bool)
    then mret {| vf_chunked_file := chunked_file; vf_file_size := file_size;
                 vf_merkle_tree := merkle_tree; vf_root_hash := root_hash |}
    else fail BadSignature.

Definition VerifiedFileReader_read_chunk `{Profile} `{Sha256Ffi} {W F T}
    `{ReadByChunk W F} `{ReadByChunk W T} (self : VerifiedFileReader F T)
    (chunk_index : Z) (buf : ChunkBuffer) : M W io_error (Z * ChunkBuffer) :=
  '(size, buf) ← read_chunk (vf_chunked_file self) chunk_index buf;
  chunk ← lift (slice_to buf size);
  root_hash ← map_errM (λ _, RawOs EIO)
    (verity_check chunk chunk_index (vf_file_size self) (vf_merkle_tree self));
  if bool_decide (root_hash = vf_root_hash self) then mret (size, buf) else fail (RawOs EIO).

#[export] Instance VerifiedFileReader_ReadByChunk `{Profile} `{Sha256Ffi} {W F T}
    `{ReadByChunk W F} `{ReadByChunk W T} : ReadByChunk W (VerifiedFileReader F T) :=
  VerifiedFileReader_read_chunk.

(** ** The walk in closed form *)

(** Largest file for which the walk's arithmetic fits in 64 bits. *)
Definition MAX_VERIFIED_SIZE : Z := 2 ^ 61.

(** Number of pages at a level. *)
Definition nodes (n : Z) (x : nat) : Z := cdiv n (CHUNK_SIZE * 128 ^ (Z.of_nat x + 1)).

(** First page of level [x] in the file of a tree with levels [0 .. m-1]. *)
Fixpoint level_start (n : Z) (m x : nat) : Z :=
  match m with
  | O => 0
  | S m' => if (x =? m')%nat then 0 else nodes n m' + level_start n m' x
  end.

Definition hash_index (i x : nat) : nat := (i / 128 ^ x)%nat.
Definition step_of (i x : nat) (start : Z) : Z * Z :=
  (start + Z.of_nat (hash_index i x / PER_PAGE)%nat,
   HASH_SIZE * Z.of_nat (hash_index i x mod PER_PAGE)%nat).
Definition walk_steps (n : Z) (i m : nat) : list (Z * Z) :=
  (λ x, step_of i x (level_start n m x)) <$> seq 0 m.

Lemma hash_with_padding_ok `{Profile} `{Sha256Spec} c :
  len c <= CHUNK_SIZE -> hash_with_padding c CHUNK_SIZE = Ok (sha256 (pad_chunk c)).
Proof.
  intros Hc. unfold hash_with_padding. rewrite sub_u64_ok, bind_Ok by clia.
  hash_step. hash_step. unfold slice_to, ZEROS.
  rewrite slice_ok, bind_Ok by (rewrite ?length_zeros; clia). hash_run.
  do 2 f_equal. unfold pad_chunk. cbn [app]. f_equal. rewrite subrange_0. unfold zeros.
  rewrite take_replicate. f_equal. clia.
Qed.
Lemma hash_full_page `{Profile} `{Sha256Spec} p :
  length p = CHUNK -> hash_with_padding p CHUNK_SIZE = Ok (sha256 p).
Proof. intros Hp. rewrite hash_with_padding_ok, pad_chunk_full by clia. done. Qed.

Lemma hash_index_S i x : hash_index i (S x) = (hash_index i x / PER_PAGE)%nat.
Proof.
  unfold hash_index. rewrite Nat.pow_succ_r', Nat.Div0.div_div. f_equal. mlia.
Qed.
Lemma hash_index_0 i : hash_index i 0 = i.
Proof. unfold hash_index. simpl. apply Nat.div_1_r. Qed.

Lemma nodes_bounds n x :
  0 < n <= MAX_VERIFIED_SIZE -> 0 < nodes n x <= 2 ^ 42.
Proof.
  intros Hn. unfold nodes. assert (128 ^ (Z.of_nat x + 1) >= 128).
  { rewrite Z.pow_add_r by lia. assert (0 < 128 ^ Z.of_nat x) by lia. lia. }
  split; [apply cdiv_pos; clia|]. apply cdiv_le; [clia|].
  unfold MAX_VERIFIED_SIZE in *. clia.
Qed.

Lemma walk_level_ok `{Profile} {E} i n x :
  0 < n <= MAX_VERIFIED_SIZE -> (x <= 6)%nat -> Z.of_nat i * CHUNK_SIZE < n ->
  walk_level (E := E) (Z.of_nat i) n (Z.of_nat x) =
    Ok (nodes n x * CHUNK_SIZE, Z.of_nat (hash_index i x) * HASH_SIZE).
Proof.
  intros Hn Hx Hi. unfold walk_level. change (CHUNK_SIZE / HASH_SIZE) with 128.
  pose proof (nodes_bounds n x Hn) as Hnodes. unfold MAX_VERIFIED_SIZE in Hn.
  assert (1 <= 128 ^ Z.of_nat x <= 128 ^ 6) as Hp.
  { split; [apply Z.lt_pred_le; simpl; apply Z.pow_pos_nonneg; lia|]. apply Z.pow_le_mono_r; lia. }
  change (128 ^ 6) with (2 ^ 42) in Hp.
  assert (128 ^ (Z.of_nat x + 1) = 128 ^ Z.of_nat x * 128) as Hs by (rewrite Z.pow_add_r; lia).
  unfold nodes in *. rewrite Hs in *.
  assert (Z.of_nat i / 128 ^ Z.of_nat x = Z.of_nat (hash_index i x)) as Hq.
  { unfold hash_index. rewrite Nat2Z.inj_div, Nat2Z.inj_pow. done. }
  assert (Z.of_nat (hash_index i x) <= Z.of_nat i).
  { rewrite <- Hq. apply Z.div_le_upper_bound; nia. }
  rewrite pow_u64_ok, bind_Ok by lia. set (p := 128 ^ Z.of_nat x) in *.
  rewrite mul_u64_ok, bind_Ok by clia. rewrite mul_u64_ok, bind_Ok by clia.
  replace (CHUNK_SIZE * (p * 128)) with (CHUNK_SIZE * p * 128) in * by lia.
  rewrite divide_roundup_ok, bind_Ok by clia.
  rewrite mul_u64_ok, bind_Ok by clia. rewrite div_u64_ok, bind_Ok by lia. rewrite Hq.
  rewrite mul_u64_ok, bind_Ok by clia. done.
Qed.

(** The steps for the levels [0 .. m-1], root first, starting at page [s]. *)
Lemma root_to_leaf_steps_ok `{Profile} {E} i n m s :
  0 < n <= MAX_VERIFIED_SIZE -> (m <= 7)%nat -> Z.of_nat i * CHUNK_SIZE < n ->
  0 <= s -> s + Z.of_nat m * 2 ^ 42 <= 2 ^ 46 ->
  root_to_leaf_steps (E := E) (Z.of_nat i) n (reverse (seq 0 m)) (s * CHUNK_SIZE) =
    Ok (reverse ((λ x, step_of i x (s + level_start n m x)) <$> seq 0 m)).
Proof.
  intros Hn Hm Hi. revert s Hm. induction m as [|m IH]; intros s Hm Hs Hb; [done|].
  rewrite seq_S, reverse_snoc. cbn [root_to_leaf_steps Nat.add].
  rewrite walk_level_ok, bind_Ok by (try done; lia). cbv beta iota zeta.
  pose proof (nodes_bounds n m Hn) as Hnodes. unfold MAX_VERIFIED_SIZE in Hn.
  assert (Z.of_nat (hash_index i m) <= Z.of_nat i).
  { unfold hash_index. apply inj_le. apply Nat.Div0.div_le_upper_bound.
    assert (1 <= 128 ^ m)%nat by (apply Nat.neq_0_lt_0, Nat.pow_nonzero; lia). nia. }
  rewrite (add_u64_ok _ (nodes n m * CHUNK_SIZE)), bind_Ok by clia. rewrite add_u64_ok, bind_Ok by clia.
  replace (s * CHUNK_SIZE + nodes n m * CHUNK_SIZE) with ((s + nodes n m) * CHUNK_SIZE) by lia.
  rewrite IH, bind_Ok by lia. rewrite fmap_app, reverse_app. f_equal. cbn [fmap list_fmap].
  rewrite reverse_singleton. cbn [level_start app]. f_equal.
  - unfold step_of. rewrite Nat.eqb_refl, Z.add_0_r.
    pose proof (Nat.div_mod_eq (hash_index i m) PER_PAGE).
    assert (hash_index i m mod PER_PAGE < PER_PAGE)%nat by (apply Nat.mod_upper_bound; mlia).
    set (q := (hash_index i m / PER_PAGE)%nat) in *. set (r := (hash_index i m mod PER_PAGE)%nat) in *.
    f_equal; symmetry; [apply (Z.div_unique _ _ _ (HASH_SIZE * Z.of_nat r)) |
                        apply (Z.mod_unique _ _ (s + Z.of_nat q))]; mlia.
  - f_equal. apply list_fmap_ext. intros k x Hx. apply lookup_seq in Hx as [-> Hx].
    rewrite (proj2 (Nat.eqb_neq _ _)) by lia. f_equal. lia.
Qed.

Lemma fsverity_walk_ok `{Profile} i n :
  0 < n <= MAX_VERIFIED_SIZE -> Z.of_nat i * CHUNK_SIZE < n ->
  fsverity_walk (Z.of_nat i) n = Ok (walk_steps n i (S (Z.to_nat (tree_height n)))).
Proof.
  intros Hn Hi. unfold fsverity_walk. rewrite debug_assert_ok, bind_Ok by done.
  rewrite merkle_tree_height_ok, bind_Ok by (unfold MAX_VERIFIED_SIZE in *; clia).
  cbn [unwrap]. rewrite bind_Ok.
  assert (0 <= tree_height n <= 6) as Hh.
  { split; [apply tree_height_nonneg; lia|]. apply tree_height_le; [lia..|].
    unfold MAX_VERIFIED_SIZE in Hn. change (CHUNK_SIZE * 128 ^ (6 + 1)) with (2 ^ 61). lia. }
  unfold as_u32. rewrite Z.mod_small by lia.
  rewrite (root_to_leaf_steps_ok i n _ 0), bind_Ok by (try done; lia).
  rewrite reverse_involutive. done.
Qed.

(** ** The tree of a file, as the verifier lays it out *)
Section TreeOf.
Context `{Sha256Spec}.

Definition height_of (data : bytes) : nat := Z.to_nat (tree_height (len data)).

(** The root hash that [VerifiedFileReader] works with: the hash of the root
    page. *)
Definition verifier_root (data : bytes) : bytes :=
  hd [] (level (S (height_of data)) (leaf_hashes data)).

(** The file that holds the tree, and every block hashed in it. *)
Definition dump_of (data : bytes) : bytes := merkle_dump (height_of data) (leaf_hashes data).
Definition tree_blocks (data : bytes) : list bytes :=
  blocks data ++
  dump_pages (height_of data) (leaf_hashes data).

Lemma len_level_data data x :
  len (level x (leaf_hashes data)) = cdiv (len data) (CHUNK_SIZE * 128 ^ Z.of_nat x).
Proof. rewrite len_level, len_leaf_hashes, cdiv_cdiv by clia. done. Qed.
Lemma nodes_level data x :
  nodes (len data) x = len (pages (level x (leaf_hashes data))).
Proof.
  rewrite len_pages, len_level_data, HASH_PER_PAGE_eq, cdiv_cdiv by clia.
  unfold nodes. f_equal. rewrite Z.pow_add_r by lia. lia.
Qed.

Lemma top_level data :
  0 < len data -> level (S (height_of data)) (leaf_hashes data) = [verifier_root data].
Proof.
  intros Hn. unfold verifier_root.
  assert (len (level (S (height_of data)) (leaf_hashes data)) = 1) as Hl.
  { rewrite len_level_data. pose proof (tree_height_nonneg (len data)).
    pose proof (tree_height_le (len data) (tree_height (len data))) as Hh.
    unfold height_of. rewrite Nat2Z.inj_succ, Z2Nat.id by lia.
    replace (Z.succ (tree_height (len data))) with (tree_height (len data) + 1) by lia.
    set (q := 128 ^ (tree_height (len data) + 1)) in *.
    assert (0 < q) by (apply Z.pow_pos_nonneg; lia).
    assert (0 < cdiv (len data) (CHUNK_SIZE * q)) by (apply cdiv_pos; clia).
    enough (cdiv (len data) (CHUNK_SIZE * q) <= 1) by lia. apply cdiv_le; clia. }
  destruct (level _ _) as [|r [|? ?]]; simpl in Hl; [lia|done|lia].
Qed.

Lemma hash_index_lt data i x :
  (i < length (leaf_hashes data))%nat ->
  (hash_index i x < length (level x (leaf_hashes data)))%nat.
Proof.
  intros Hi. apply Nat2Z.inj_lt. rewrite len_level. apply cdiv_lt; [lia|].
  unfold hash_index. rewrite Nat2Z.inj_div, Nat2Z.inj_pow.
  pose proof (Z.mul_div_le (Z.of_nat i) (128 ^ Z.of_nat x)). lia.
Qed.
Lemma hash_index_top data i :
  0 < len data -> (i < length (leaf_hashes data))%nat -> hash_index i (S (height_of data)) = O.
Proof.
  intros Hn Hi. pose proof (hash_index_lt data i (S (height_of data)) Hi) as Hlt.
  rewrite top_level in Hlt by done. simpl in Hlt. lia.
Qed.
Lemma chunk_index_leaf data i :
  Z.of_nat i * CHUNK_SIZE < len data -> (i < length (leaf_hashes data))%nat.
Proof. intros Hi. apply Nat2Z.inj_lt. rewrite len_leaf_hashes. apply cdiv_lt; [clia|done]. Qed.

Lemma dump_pages_S h ls : dump_pages (S h) ls = pages (level (S h) ls) ++ dump_pages h ls.
Proof. unfold dump_pages. rewrite (seq_S (S h)), reverse_snoc. done. Qed.
Lemma dump_pages_elem h x ls p :
  (x <= h)%nat -> p ∈ pages (level x ls) -> p ∈ dump_pages h ls.
Proof.
  intros Hx Hp. unfold dump_pages. apply list_elem_of_In, in_concat.
  exists (pages (level x ls)). split; [|by apply list_elem_of_In].
  apply list_elem_of_In, list_elem_of_fmap. exists x. split; [done|].
  apply elem_of_reverse, elem_of_seq. lia.
Qed.
Lemma dump_pages_length h ls :
  digests ls -> Forall (λ p, length p = CHUNK) (dump_pages h ls).
Proof.
  intros Hd. unfold dump_pages. apply Forall_concat, Forall_fmap, Forall_true.
  intros x. apply pages_length. auto with rust.
Qed.

(** Page [k] of level [x] in the file of the tree. *)
Lemma dump_pages_lookup data h x (k : nat) p :
  (x <= h)%nat -> pages (level x (leaf_hashes data)) !! k = Some p ->
  dump_pages h (leaf_hashes data) !! (Z.to_nat (level_start (len data) (S h) x) + k)%nat = Some p ∧
  0 <= level_start (len data) (S h) x.
Proof.
  intros Hx Hp. induction h as [|h IH].
  - assert (x = O) as -> by lia. split; [|simpl; lia].
    unfold dump_pages. simpl. by rewrite app_nil_r.
  - rewrite dump_pages_S. remember (S h) as h'. cbn [level_start].
    destruct (x =? h')%nat eqn:E.
    + apply Nat.eqb_eq in E as ->. split; [|lia]. simpl. rewrite lookup_app_l; [done|].
      by eapply lookup_lt_Some.
    + apply Nat.eqb_neq in E. subst h'. destruct IH as [IH Hs]; [lia|].
      rewrite nodes_level. split; [|lia]. rewrite lookup_app_r by lia. rewrite <- IH. f_equal. lia.
Qed.
End TreeOf.

(** ** Soundness and completeness of the walk *)
Section Check.
Context `{Profile} `{Sha256Spec} {W T : Type} `{ReadByChunk W T}.

(** The pages that the storage serves along the walk. *)
Fixpoint served_pages (merkle_tree : T) (steps : list (Z * Z)) (w : W) : list bytes :=
  match steps with
  | [] => []
  | (ci, _) :: steps' =>
      match read_chunk merkle_tree ci (zeros CHUNK_SIZE) w with
      | (Ok (_, p), w') => p :: served_pages merkle_tree steps' w'
      | _ => []
      end
  end.

Lemma check_step_inv `{!BufferTyped W T} (mt : T) actual ci off w next w' :
  check_step mt actual (ci, off) w = (Ok next, w') ->
  ∃ n p, read_chunk mt ci (zeros CHUNK_SIZE) w = (Ok (n, p), w') ∧ length p = CHUNK ∧
         actual = subrange p off (off + HASH_SIZE) ∧ next = sha256 p.
Proof.
  unfold check_step. intros Hs. apply M_bind_inv in Hs as ([n p] & w1 & Hr & Hs).
  apply map_errM_inv in Hr. apply M_bind_inv in Hs as (e & w2 & He & Hs).
  apply lift_inv in He as [He <-]. apply slice_inv in He as (_ & _ & ->).
  case_bool_decide as Heq; [|done]. apply lift_inv in Hs as [Hs <-].
  assert (length p = CHUNK) as Hp by (eapply read_chunk_typed; [apply length_zeros|exact Hr]).
  rewrite hash_full_page in Hs by done. simplify_eq/=. by eexists _, _.
Qed.

Lemma check_step_eq (mt : T) actual p ci off w n :
  read_chunk mt ci (zeros CHUNK_SIZE) w = (Ok (n, p), w) -> length p = CHUNK ->
  0 <= off -> off + HASH_SIZE <= CHUNK_SIZE ->
  check_step mt actual (ci, off) w =
    (if decide (actual = subrange p off (off + HASH_SIZE)) then Ok (sha256 p) else Err CannotVerify, w).
Proof.
  intros Hr Hp Ho Hb. unfold check_step, map_errM. rewrite M_bind_eq, Hr. cbn [map_err].
  erewrite M_bind_lift by (apply slice_ok; clia). case_bool_decide; case_decide; try done.
  unfold lift. by rewrite hash_full_page.
Qed.
Lemma step_offset i x :
  0 <= HASH_SIZE * Z.of_nat (hash_index i x mod PER_PAGE) ∧
  HASH_SIZE * Z.of_nat (hash_index i x mod PER_PAGE) + HASH_SIZE <= CHUNK_SIZE.
Proof. assert (hash_index i x mod PER_PAGE < PER_PAGE)%nat by (apply Nat.mod_upper_bound; mlia). mlia. Qed.

(** A successful walk from level [x] ties the hash it started from to the
    authentic tree, or exhibits a collision. *)
Lemma walk_sound `{!BufferTyped W T} (mt : T) data i k x actual w w' :
  0 < len data -> (i < length (leaf_hashes data))%nat -> (x + k = S (height_of data))%nat ->
  let steps := (λ y, step_of i y (level_start (len data) (S (height_of data)) y)) <$> seq x k in
  try_fold (check_step mt) actual steps w = (Ok (verifier_root data), w') ->
  level x (leaf_hashes data) !! hash_index i x = Some actual ∨
  collision (served_pages mt steps w) (dump_pages (height_of data) (leaf_hashes data)).
Proof.
  intros Hn Hi. revert x actual w. induction k as [|k IH]; intros x actual w Hx.
  - cbn. intros [= -> _]. left. assert (x = S (height_of data)) as -> by lia.
    by rewrite hash_index_top, top_level by done.
  - cbn [seq fmap list_fmap]. set (s := step_of i x _). destruct s as [ci off] eqn:Es. subst s.
    cbn [try_fold served_pages]. intros Hf. apply M_bind_inv in Hf as (next & w1 & Hc & Hf).
    apply check_step_inv in Hc as (n & p & Hr & Hp & Hact & ->). rewrite Hr.
    destruct (IH (S x) (sha256 p) w1) as [Hlv|Hcol]; [lia|exact Hf| |].
    2: { right. destruct Hcol as (a & b & Ha & Hb). exists a, b.
         split; [by apply list_elem_of_further|exact Hb]. }
    destruct (lookup_lt_is_Some_2 _ _ (hash_index_lt data i x Hi)) as [h Hh].
    destruct (level_page x (leaf_hashes data) (hash_index i x) h) as (P & HP & HlP & HS & Hsub);
      [auto with rust|exact Hh|]. rewrite <- hash_index_S, Hlv in HS.
    injection HS as HS. destruct (decide (p = P)) as [->|Hne].
    + left. rewrite Hh, <- Hsub, Hact. unfold step_of in Es. by simplify_eq.
    + right. exists p, P. split; [apply list_elem_of_here|].
      split; [|done]. eapply dump_pages_elem; [|by eapply list_elem_of_lookup_2]. lia.
Qed.

(** Reading a file of whole pages. *)
Lemma reads_page (mt : T) ps w (j : nat) p :
  reads_content mt w (concat ps) -> Forall (λ q, length q = CHUNK) ps -> ps !! j = Some p ->
  read_chunk mt (Z.of_nat j) (zeros CHUNK_SIZE) w = (Ok (CHUNK_SIZE, p), w).
Proof.
  intros Hrc Hf Hj. pose proof (len_concat_uniform CHUNK _ Hf) as Hl. pose proof (lookup_lt_Some _ _ _ Hj).
  assert (chunk_of (concat ps) (Z.of_nat j) = p) as Hc by (rewrite chunk_of_eq; by apply concat_uniform_lookup).
  assert (length p = CHUNK) as Hlp by (by apply (Forall_lookup_1 _ _ _ _ Hf Hj)).
  rewrite Hrc; [|lia|rewrite Hl; clia|apply length_zeros]. rewrite Hc, drop_ge, app_nil_r by (rewrite length_zeros; clia).
  do 3 f_equal. clia.
Qed.
(** Reading the tree file of [data] serves its pages. *)
Lemma reads_dump_page (mt : T) data w x (k : nat) p :
  reads_content mt w (dump_of data) -> (x <= height_of data)%nat ->
  pages (level x (leaf_hashes data)) !! k = Some p ->
  read_chunk mt (level_start (len data) (S (height_of data)) x + Z.of_nat k) (zeros CHUNK_SIZE) w =
    (Ok (CHUNK_SIZE, p), w).
Proof.
  intros Hrc Hx Hp. destruct (dump_pages_lookup data _ x k p Hx Hp) as [Hd Hs].
  replace (level_start _ _ _ + Z.of_nat k) with (Z.of_nat (Z.to_nat (level_start (len data) (S (height_of data)) x) + k)) by lia.
  apply (reads_page mt (dump_pages (height_of data) (leaf_hashes data))); [done| |done].
  apply dump_pages_length, digests_leaf_hashes.
Qed.

(** The storage serves the page that the walk of chunk [i] reads at a level. *)
Definition serves_page (mt : T) data (i : nat) w (x : nat) : Prop :=
  ∀ p, pages (level x (leaf_hashes data)) !! (hash_index i x / PER_PAGE)%nat = Some p ->
    read_chunk mt (level_start (len data) (S (height_of data)) x + Z.of_nat (hash_index i x / PER_PAGE))
      (zeros CHUNK_SIZE) w = (Ok (CHUNK_SIZE, p), w).

(** Levels whose pages are served take an authentic hash to the next one. *)
Lemma walk_prefix (mt : T) data i k x actual w :
  (∀ y, (x <= y < x + k)%nat -> serves_page mt data i w y) ->
  level x (leaf_hashes data) !! hash_index i x = Some actual ->
  ∃ next, try_fold (check_step mt) actual
    ((λ y, step_of i y (level_start (len data) (S (height_of data)) y)) <$> seq x k) w = (Ok next, w) ∧
    level (x + k) (leaf_hashes data) !! hash_index i (x + k) = Some next.
Proof.
  revert x actual. induction k as [|k IH]; intros x actual Hs Hact.
  - exists actual. by rewrite Nat.add_0_r.
  - cbn [seq fmap list_fmap try_fold].
    destruct (level_page x (leaf_hashes data) (hash_index i x) actual) as (P & HP & HlP & HS & Hsub);
      [auto with rust|exact Hact|].
    destruct (IH (S x) (sha256 P)) as (next & Hf & Hn); [intros y Hy; apply Hs; lia|by rewrite hash_index_S|].
    exists next. rewrite Nat.add_succ_r. split; [|exact Hn]. rewrite <- Hsub at 1. erewrite M_bind_Ok; [exact Hf|].
    unfold step_of. destruct (step_offset i x).
    erewrite check_step_eq by (first [done | apply Hs; [lia|exact HP]]). by rewrite decide_True.
Qed.

Lemma walk_complete (mt : T) data i actual w :
  0 < len data -> (i < length (leaf_hashes data))%nat ->
  (∀ x, (x <= height_of data)%nat -> serves_page mt data i w x) ->
  level 0 (leaf_hashes data) !! hash_index i 0 = Some actual ->
  try_fold (check_step mt) actual (walk_steps (len data) i (S (height_of data))) w = (Ok (verifier_root data), w).
Proof.
  intros Hn Hi Hs Hact. destruct (walk_prefix mt data i (S (height_of data)) 0 actual w) as (next & Hf & Htop);
    [intros y Hy; apply Hs; lia|done|].
  cbn [Nat.add] in Htop. rewrite hash_index_top, top_level in Htop by done. injection Htop as <-. exact Hf.
Qed.

Lemma verity_check_walk (mt : T) data (i : nat) chunk w :
  0 < len data <= MAX_VERIFIED_SIZE -> Z.of_nat i * CHUNK_SIZE < len data -> len chunk <= CHUNK_SIZE ->
  verity_check chunk (Z.of_nat i) (len data) mt w =
    try_fold (check_step mt) (sha256 (pad_chunk chunk)) (walk_steps (len data) i (S (height_of data))) w.
Proof.
  intros Hn Hi Hc. unfold verity_check.
  erewrite M_bind_lift by (rewrite (proj2 (Z.eqb_neq _ _)) by lia; reflexivity).
  erewrite M_bind_lift by (by rewrite hash_with_padding_ok by done).
  by erewrite M_bind_lift by (by apply fsverity_walk_ok).
Qed.
(** An authentic chunk starts from its leaf. *)
Lemma verity_check_chunk (mt : T) data (i : nat) w :
  0 < len data <= MAX_VERIFIED_SIZE -> Z.of_nat i * CHUNK_SIZE < len data ->
  verity_check (chunk_of data (Z.of_nat i)) (Z.of_nat i) (len data) mt w =
    try_fold (check_step mt) (sha256 (block data i)) (walk_steps (len data) i (S (height_of data))) w ∧
  level 0 (leaf_hashes data) !! hash_index i 0 = Some (sha256 (block data i)).
Proof.
  intros Hn Hi. pose proof (length_chunk_of data (Z.of_nat i)).
  rewrite (verity_check_walk _ data) by (done || clia). rewrite pad_chunk_of. split; [done|].
  cbn [level]. by rewrite hash_index_0, leaf_hashes_lookup, decide_True by clia.
Qed.

Lemma verity_check_complete (mt : T) data (i : nat) w :
  0 < len data <= MAX_VERIFIED_SIZE -> Z.of_nat i * CHUNK_SIZE < len data ->
  (∀ x, (x <= height_of data)%nat -> serves_page mt data i w x) ->
  verity_check (chunk_of data (Z.of_nat i)) (Z.of_nat i) (len data) mt w =
    (Ok (verifier_root data), w).
Proof.
  intros Hn Hi Hrc. destruct (verity_check_chunk mt data i w Hn Hi) as [-> Hleaf].
  apply walk_complete; [lia|by apply chunk_index_leaf|done|done].
Qed.

Lemma verity_check_sound `{!BufferTyped W T} (mt : T) data (i : nat) chunk w w' :
  0 < len data <= MAX_VERIFIED_SIZE -> Z.of_nat i * CHUNK_SIZE < len data ->
  len chunk <= CHUNK_SIZE ->
  verity_check chunk (Z.of_nat i) (len data) mt w = (Ok (verifier_root data), w') ->
  pad_chunk chunk = block data i ∨
  collision (pad_chunk chunk ::
               served_pages mt (walk_steps (len data) i (S (height_of data))) w)
            (tree_blocks data).
Proof.
  intros Hn Hi Hc Hv. rewrite (verity_check_walk _ data) in Hv by done.
  pose proof (chunk_index_leaf data i Hi) as Hil.
  apply (walk_sound mt data i (S (height_of data)) 0) in Hv as [Hl|Hcol]; [| |lia|done|done].
  - cbn [level] in Hl. rewrite hash_index_0, leaf_hashes_lookup, decide_True in Hl by clia. injection Hl as Hl.
    destruct (decide (pad_chunk chunk = block data i)) as [|Hne]; [by left|right].
    exists (pad_chunk chunk), (block data i). split; [apply list_elem_of_here|].
    split; [|done]. apply elem_of_app. left. apply list_elem_of_fmap. exists i.
    split; [done|]. apply elem_of_seq. lia.
  - right. destruct Hcol as (a & b & Ha & Hb & Hab). exists a, b.
    split; [by apply list_elem_of_further|]. split; [|exact Hab]. apply elem_of_app. by right.
Qed.
End Check.

(** The tree file is small enough for 63-bit offsets. *)
Lemma len_dump_pages `{Sha256Spec} data h :
  0 < len data <= MAX_VERIFIED_SIZE ->
  len (dump_pages h (leaf_hashes data)) <= (Z.of_nat h + 1) * 2 ^ 42.
Proof.
  intros Hn. pose proof (λ x, nodes_bounds (len data) x Hn) as Hb.
  induction h as [|h IH].
  - unfold dump_pages. cbn [seq reverse fmap list_fmap concat]. change (reverse [0%nat]) with [0%nat].
    cbn [fmap list_fmap concat]. rewrite app_nil_r, <- nodes_level. specialize (Hb O). lia.
  - rewrite dump_pages_S, length_app, Nat2Z.inj_add, <- nodes_level. specialize (Hb (S h)). lia.
Qed.
Lemma len_dump `{Sha256Spec} data :
  0 < len data <= MAX_VERIFIED_SIZE -> len (dump_of data) <= i64_MAX.
Proof.
  intros Hn. pose proof (len_dump_pages data (height_of data) Hn).
  unfold dump_of, merkle_dump.
  rewrite (len_concat_uniform CHUNK) by (apply dump_pages_length; auto with rust).
  assert (Z.of_nat (height_of data) <= 6).
  { unfold height_of. pose proof (tree_height_le (len data) 6) as Hh.
    change (CHUNK_SIZE * 128 ^ (6 + 1)) with MAX_VERIFIED_SIZE in Hh. lia. }
  unfold i64_MAX. clia.
Qed.

(** ** Relation with the kernel's definition of the root *)
Lemma tree_height_chunks n : 0 < n -> tree_height (cdiv n CHUNK_SIZE * CHUNK_SIZE) = tree_height n.
Proof.
  intros Hn. unfold tree_height. do 3 f_equal.
  rewrite (Z.mul_comm 128), <- (cdiv_cdiv _ CHUNK_SIZE 128), cdiv_mul by clia.
  by rewrite cdiv_cdiv by clia.
Qed.

Lemma verifier_root_multi `{Sha256Spec} data :
  CHUNK_SIZE < len data -> verifier_root data = fsverity_root (leaf_hashes data).
Proof.
  intros Hn. symmetry. pose proof (len_leaf_hashes data) as Hl.
  assert (2 <= len (leaf_hashes data)).
  { rewrite Hl. enough (1 < cdiv (len data) CHUNK_SIZE) by lia. apply cdiv_lt; clia. }
  apply (fsverity_root_top (S (height_of data))); [|apply top_level; clia].
  intros y Hy. apply levels_below_top; [done|].
  rewrite Hl, tree_height_chunks by clia. unfold height_of in Hy.
  pose proof (tree_height_nonneg (len data)). clia.
Qed.

Lemma single_block `{Sha256Spec} data :
  0 < len data <= CHUNK_SIZE ->
  leaf_hashes data = [leaf_hash data] ∧ verifier_root data = sha256 (page [leaf_hash data]).
Proof.
  intros Hn. assert (leaf_hashes data = [leaf_hash data]) as Hl.
  { unfold leaf_hashes. replace (chunks CHUNK data) with [data]; [done|].
    apply list_eq. intros [|i]; rewrite chunks_lookup by clia.
    - rewrite decide_True by clia. rewrite Nat.mul_0_l, drop_0, take_ge by clia. done.
    - rewrite decide_False by clia. done. }
  split; [done|]. unfold verifier_root, height_of.
  assert (tree_height (len data) = 0) as ->.
  { pose proof (tree_height_nonneg (len data)).
    enough (tree_height (len data) <= 0) by lia. apply tree_height_le; clia. }
  rewrite Hl. reflexivity.
Qed.

(** The message whose signature is checked. *)
Definition formatted_digest `{Sha256Spec} (root : bytes) (file_size : Z) : bytes :=
  FS_VERITY_MAGIC ++ le_bytes 2 FS_VERITY_HASH_ALG_SHA256 ++ le_bytes 2 HASH_SIZE ++
  sha256 (fsverity_descriptor root file_size).
Definition kernel_formatted_digest `{Sha256Spec} (data : bytes) : bytes :=
  formatted_digest (fsverity_root (leaf_hashes data)) (len data).

Lemma build_fsverity_formatted_digest_ok `{Sha256Spec} root n :
  build_fsverity_formatted_digest root n = Ok (formatted_digest root n).
Proof. unfold build_fsverity_formatted_digest. by rewrite build_fsverity_digest_ok. Qed.

Lemma formatted_digest_inj `{Sha256Spec} root root' n n' :
  length root = HASH -> length root' = HASH -> 0 <= n < 2 ^ 64 -> 0 <= n' < 2 ^ 64 ->
  formatted_digest root n = formatted_digest root' n' ->
  (root = root' ∧ n = n') ∨
  collision [fsverity_descriptor root n] [fsverity_descriptor root' n'].
Proof.
  intros Hr Hr' Hn Hn' Heq. unfold formatted_digest in Heq. do 3 apply app_inv_head in Heq.
  destruct (decide (fsverity_descriptor root n = fsverity_descriptor root' n')) as [Hd|Hd].
  - left. by apply fsverity_descriptor_inj.
  - right. eexists _, _. split_and!; [apply list_elem_of_here..|done|done].
Qed.
Lemma length_verifier_root `{Sha256Spec} data : 0 < len data -> length (verifier_root data) = HASH.
Proof.
  intros Hn. pose proof (digests_level (S (height_of data)) _ (digests_leaf_hashes data)) as Hd.
  rewrite top_level in Hd by done. by apply Forall_cons in Hd as [? _].
Qed.

Section Reader.
Context `{Profile} `{Sha256Spec} {W F T : Type} `{ReadByChunk W F} `{ReadByChunk W T}.

(** What a successful [VerifiedFileReader::new] has checked. *)
Lemma VerifiedFileReader_new_inv {A} `{Authenticator A} (a : A) (f : F) n sig (mt : T) w r w' :
  VerifiedFileReader_new a f n sig mt w = (Ok r, w') ->
  ∃ p, read_chunk mt 0 (zeros CHUNK_SIZE) w = (Ok (len p, p), w') ∧
       verify a sig (formatted_digest (sha256 p) n) = Ok true ∧
       r = {| vf_chunked_file := f; vf_file_size := n; vf_merkle_tree := mt;
              vf_root_hash := sha256 p |}.
Proof.
  unfold VerifiedFileReader_new. intros Hn. apply M_bind_inv in Hn as ([s p] & w1 & Hr & Hn).
  apply map_errM_inv in Hr. destruct (len p =? s) eqn:Es; [|done].
  apply Z.eqb_eq in Es. subst s. cbn [negb] in Hn.
  apply M_bind_inv in Hn as (root & w2 & Hh & Hn). apply lift_inv in Hh as [Hh <-].
  revert Hh. hash_run. cbn [map_err app]. intros [= <-].
  rewrite build_fsverity_formatted_digest_ok in Hn. cbn [map_err] in Hn.
  rewrite M_bind_eq in Hn. cbn in Hn. rewrite M_bind_eq in Hn. cbn in Hn.
  destruct (verify a sig _) as [[]| | |] eqn:Ev; cbn in Hn; [|done..].
  unfold mret, M_ret in Hn. simplify_eq. eauto.
Qed.

(** What a successful read has checked. *)
Lemma VerifiedFileReader_read_inv `{!BufferTyped W F} (r : VerifiedFileReader F T) i buf w n buf' w' :
  length buf = CHUNK -> read_chunk r i buf w = (Ok (n, buf'), w') ->
  ∃ w1, read_chunk (vf_chunked_file r) i buf w = (Ok (n, buf'), w1) ∧
        length buf' = CHUNK ∧ 0 <= n <= CHUNK_SIZE ∧
        verity_check (take (Z.to_nat n) buf') i (vf_file_size r) (vf_merkle_tree r) w1 =
          (Ok (vf_root_hash r), w').
Proof.
  intros Hb Hr. unfold read_chunk at 1, VerifiedFileReader_ReadByChunk, VerifiedFileReader_read_chunk in Hr.
  apply M_bind_inv in Hr as ([s b] & w1 & Hc & Hr).
  apply M_bind_inv in Hr as (c & w2 & Hs & Hr). apply lift_inv in Hs as [Hs <-].
  apply slice_inv in Hs as (Hs1 & Hs2 & ->). rewrite subrange_0 in Hr.
  apply M_bind_inv in Hr as (root & w3 & Hv & Hr). apply map_errM_inv in Hv.
  case_bool_decide; [|done]. unfold mret, M_ret in Hr. simplify_eq.
  assert (length buf' = CHUNK) as Hl by (eapply read_chunk_typed; eauto).
  exists w1. split_and!; [done|done|lia|clia|done].
Qed.
End Reader.

(** Opening a reader reads the root page and asks the authenticator. *)
Lemma new_root `{Sha256Spec} {W F T A} `{ReadByChunk W T} `{Authenticator A}
    (a : A) (f : F) sig (mt : T) w data v :
  0 < len data <= MAX_VERIFIED_SIZE ->
  (∀ p, pages (level (height_of data) (leaf_hashes data)) !! O = Some p ->
     read_chunk mt 0 (zeros CHUNK_SIZE) w = (Ok (CHUNK_SIZE, p), w)) ->
  verify a sig (formatted_digest (verifier_root data) (len data)) = Ok v ->
  VerifiedFileReader_new a f (len data) sig mt w =
    (if v then Ok {| vf_chunked_file := f; vf_file_size := len data; vf_merkle_tree := mt;
                     vf_root_hash := verifier_root data |}
     else Err BadSignature, w).
Proof.
  intros Hn Hrc Hv. destruct (pages (level (height_of data) (leaf_hashes data)) !! O) as [p|] eqn:Hp.
  2: { apply lookup_ge_None in Hp. pose proof (nodes_bounds (len data) (height_of data) Hn).
       pose proof (nodes_level data (height_of data)). lia. }
  assert (sha256 p = verifier_root data) as Hroot.
  { pose proof (top_level data ltac:(lia)) as Ht. cbn [level] in Ht. unfold level_up in Ht.
    apply (f_equal (.!! O)) in Ht. rewrite list_lookup_fmap, Hp in Ht. simpl in Ht. congruence. }
  assert (length p = CHUNK) as Hl.
  { eapply (Forall_lookup_1 _ _ _ _ (pages_length _ _) Hp). Unshelve. auto with rust. }
  unfold VerifiedFileReader_new, map_errM. rewrite M_bind_eq, (Hrc p eq_refl). cbv beta iota. cbn [map_err].
  replace (len p =? CHUNK_SIZE) with true by clia. cbn [negb].
  hash_run. cbn [map_err app]. rewrite M_bind_eq. cbn [lift].
  rewrite build_fsverity_formatted_digest_ok, M_bind_eq. cbn [lift map_err].
  rewrite Hroot, Hv, M_bind_eq. by destruct v.
Qed.
Lemma reads_root_page `{Sha256Spec} {W T} `{ReadByChunk W T} (mt : T) data (w : W) p :
  reads_content mt w (dump_of data) -> pages (level (height_of data) (leaf_hashes data)) !! O = Some p ->
  read_chunk mt 0 (zeros CHUNK_SIZE) w = (Ok (CHUNK_SIZE, p), w).
Proof.
  intros Hrc Hp. pose proof (reads_dump_page mt data w (height_of data) 0 p Hrc ltac:(lia) Hp) as Hr.
  cbn [level_start] in Hr. rewrite Nat.eqb_refl in Hr. exact Hr.
Qed.
Lemma new_accepts `{Sha256Spec} {W F T A} `{ReadByChunk W T} `{Authenticator A}
    (a : A) (f : F) sig (mt : T) w data :
  0 < len data <= MAX_VERIFIED_SIZE -> reads_content mt w (dump_of data) ->
  verify a sig (formatted_digest (verifier_root data) (len data)) = Ok true ->
  VerifiedFileReader_new a f (len data) sig mt w =
    (Ok {| vf_chunked_file := f; vf_file_size := len data; vf_merkle_tree := mt;
           vf_root_hash := verifier_root data |}, w).
Proof. intros Hn Hrc Hv. apply (new_root a f sig mt w data true); [done| |done]. intros p Hp. by apply (reads_root_page mt data). Qed.

Lemma verified_read_sound `{Profile} `{Sha256Spec} {W F T}
    `{ReadByChunk W F} `{ReadByChunk W T} `{!BufferTyped W F} `{!BufferTyped W T}
    (r : VerifiedFileReader F T) data (i : nat) buf w n buf' w' :
  0 < len data <= MAX_VERIFIED_SIZE -> vf_file_size r = len data ->
  vf_root_hash r = verifier_root data -> Z.of_nat i * CHUNK_SIZE < len data ->
  length buf = CHUNK -> read_chunk r (Z.of_nat i) buf w = (Ok (n, buf'), w') ->
  ∃ w1, read_chunk (vf_chunked_file r) (Z.of_nat i) buf w = (Ok (n, buf'), w1) ∧
    let chunk := take (Z.to_nat n) buf' in
    pad_chunk chunk = block data i ∨
    collision (pad_chunk chunk ::
                 served_pages (vf_merkle_tree r) (walk_steps (len data) i (S (height_of data))) w1)
              (tree_blocks data).
Proof.
  intros Hn Hsz Hroot Hi Hb Hr.
  apply VerifiedFileReader_read_inv in Hr as (w1 & Hc & Hl & Hn' & Hv); [|done].
  exists w1. split; [done|]. rewrite Hsz, Hroot in Hv.
  apply (verity_check_sound _ data i _ w1 w'); [done|done| |done].
  rewrite length_take. clia.
Qed.

(** A read of a chunk that the file serves: what the check of the tree makes of it. *)
Lemma reader_checks `{Profile} `{Sha256Spec} {W F T}
    `{ReadByChunk W F} `{ReadByChunk W T} (r : VerifiedFileReader F T) data w i buf :
  vf_file_size r = len data -> vf_root_hash r = verifier_root data -> reads_content (vf_chunked_file r) w data ->
  0 <= i -> i * CHUNK_SIZE < len data -> length buf = CHUNK ->
  read_chunk r i buf w =
    match verity_check (chunk_of data i) i (len data) (vf_merkle_tree r) w with
    | (Ok root, w') =>
        (if bool_decide (root = verifier_root data)
         then Ok (len (chunk_of data i), chunk_of data i ++ drop (length (chunk_of data i)) buf)
         else Err (RawOs EIO), w')
    | (Err _, w') => (Err (RawOs EIO), w')
    | (Panic, w') => (Panic, w')
    | (NoFuel, w') => (NoFuel, w')
    end.
Proof.
  intros Hsz Hroot Hf Hi0 Hi Hb.
  unfold read_chunk at 1, VerifiedFileReader_ReadByChunk, VerifiedFileReader_read_chunk.
  pose proof (length_chunk_of data i Hi0). rewrite M_bind_eq, Hf by done. cbv beta iota.
  erewrite M_bind_lift by (apply slice_ok; rewrite ?length_app, ?length_drop; lia).
  rewrite subrange_0, Nat2Z.id, take_app_length, Hsz, Hroot.
  rewrite M_bind_eq. unfold map_errM. destruct (verity_check _ _ _ _ _) as [[root| | |] w']; [|done..]. cbn [map_err].
  by case_bool_decide.
Qed.

Lemma reader_serves `{Profile} `{Sha256Spec} {W F T}
    `{ReadByChunk W F} `{ReadByChunk W T} (r : VerifiedFileReader F T) data w :
  0 < len data <= MAX_VERIFIED_SIZE -> vf_file_size r = len data ->
  vf_root_hash r = verifier_root data ->
  reads_content (vf_chunked_file r) w data -> reads_content (vf_merkle_tree r) w (dump_of data) ->
  reads_content r w data.
Proof.
  intros Hn Hsz Hroot Hf Ht i buf Hi0 Hi Hb. rewrite (reader_checks r data) by done.
  rewrite <- (Z2Nat.id i) by done.
  rewrite verity_check_complete by (try done; try lia; intros x Hx p Hp; by apply reads_dump_page).
  by rewrite bool_decide_true.
Qed.

(** ** Claims *)

(** C1: integrity of verified reads.  Whatever the storage serves for the
    file and for the tree, when a reader that holds the root hash of [data]
    returns a chunk inside the file, the returned bytes, padded with zeros, are
    the corresponding block of [data]; otherwise the very blocks read during
    this call contain a hash collision with the authentic tree. *)
Theorem verified_read_authentic_or_collision `{Profile} `{Sha256Spec} {W F T}
    `{ReadByChunk W F} `{ReadByChunk W T} `{!BufferTyped W F} `{!BufferTyped W T}
    (r : VerifiedFileReader F T) data (i : nat) buf w n buf' w' :
  0 < len data <= MAX_VERIFIED_SIZE -> vf_file_size r = len data ->
  vf_root_hash r = verifier_root data -> Z.of_nat i * CHUNK_SIZE < len data ->
  length buf = CHUNK -> read_chunk r (Z.of_nat i) buf w = (Ok (n, buf'), w') ->
  ∃ w1, read_chunk (vf_chunked_file r) (Z.of_nat i) buf w = (Ok (n, buf'), w1) ∧
    let chunk := take (Z.to_nat n) buf' in
    pad_chunk chunk = block data i ∨
    collision (pad_chunk chunk ::
                 served_pages (vf_merkle_tree r) (walk_steps (len data) i (S (height_of data))) w1)
              (tree_blocks data).
Proof. apply verified_read_sound. Qed.

(** completeness of verified reads.  Over storage that serves the file
    [data] and its Merkle tree, the verified reader serves exactly [data],
    chunk by chunk, and leaves the storage unchanged: verification is
    transparent to its clients. *)
Theorem verified_reader_serves_content `{Profile} `{Sha256Spec} {W F T}
    `{ReadByChunk W F} `{ReadByChunk W T} (r : VerifiedFileReader F T) data w :
  0 < len data <= MAX_VERIFIED_SIZE -> vf_file_size r = len data ->
  vf_root_hash r = verifier_root data ->
  reads_content (vf_chunked_file r) w data -> reads_content (vf_merkle_tree r) w (dump_of data) ->
  reads_content r w data.
Proof. apply reader_serves. Qed.

(** C28: the number of levels and every offset of the walk fit in 64 bits up to
    2^61 bytes, and for each level the walk reads the page and the position
    where the tree file stores the hash on the path of the chunk. *)
Theorem fsverity_walk_correct `{Profile} `{Sha256Spec} data (i : nat) :
  0 < len data <= MAX_VERIFIED_SIZE -> Z.of_nat i * CHUNK_SIZE < len data ->
  ∃ steps, fsverity_walk (Z.of_nat i) (len data) = Ok steps ∧
    length steps = S (height_of data) ∧
    ∀ x ci off, steps !! x = Some (ci, off) ->
      ∃ p, dump_pages (height_of data) (leaf_hashes data) !! Z.to_nat ci = Some p ∧
           level x (leaf_hashes data) !! hash_index i x = Some (subrange p off (off + HASH_SIZE)) ∧
           level (S x) (leaf_hashes data) !! hash_index i (S x) = Some (sha256 p).
Proof.
  intros Hn Hi. eexists. split; [by apply fsverity_walk_ok|]. unfold walk_steps.
  split; [by rewrite length_fmap, length_seq|]. intros x ci off Hx.
  rewrite list_lookup_fmap in Hx. apply fmap_Some in Hx as (y & Ey & Hst).
  apply lookup_seq in Ey as [-> Hlt]. fold (height_of data) in *. change (0 + x)%nat with x in Hst.
  unfold step_of in Hst. apply pair_equal_spec in Hst as [-> ->].
  destruct (lookup_lt_is_Some_2 _ _ (hash_index_lt data i x (chunk_index_leaf data i Hi))) as [h Hh].
  destruct (level_page x (leaf_hashes data) (hash_index i x) h) as (P & HP & HlP & HS & Hsub);
    [auto with rust|exact Hh|].
  destruct (dump_pages_lookup data (height_of data) x (hash_index i x / PER_PAGE) P) as [Hd Hs];
    [lia|exact HP|].
  exists P. split_and!.
  - rewrite <- Hd. f_equal. lia.
  - by rewrite Hh, Hsub.
  - by rewrite hash_index_S.
Qed.

Lemma walk_level_overflow `{Profile} {E} i n :
  overflow_checks = true -> walk_level (E := E) i n (Z.of_nat 7) = Panic.
Proof.
  intros Hov. unfold walk_level. change (CHUNK_SIZE / HASH_SIZE) with 128.
  rewrite pow_u64_ok, bind_Ok by (vm_compute; done).
  rewrite (mul_u64_ok CHUNK_SIZE), bind_Ok by (vm_compute; done).
  by rewrite (mul_u64_overflow (CHUNK_SIZE * 128 ^ Z.of_nat 7) 128) by (try done; vm_compute; done).
Qed.

(** beyond 2^61 bytes the walk multiplies past 64 bits: with overflow
    checks it panics for every chunk. *)
Theorem fsverity_walk_overflows `{Profile} i n :
  overflow_checks = true -> MAX_VERIFIED_SIZE < n -> n + 128 * CHUNK_SIZE < 2 ^ 64 ->
  fsverity_walk i n = Panic.
Proof.
  intros Hov Hn Hmax. unfold MAX_VERIFIED_SIZE in Hn. unfold fsverity_walk.
  rewrite debug_assert_ok, bind_Ok by done.
  rewrite merkle_tree_height_ok, bind_Ok by (try done; lia). cbn [unwrap]. rewrite bind_Ok.
  assert (tree_height n = 7) as ->.
  { pose proof (tree_height_le n 6). pose proof (tree_height_le n 7).
    change (CHUNK_SIZE * 128 ^ (6 + 1)) with (2 ^ 61) in *.
    change (CHUNK_SIZE * 128 ^ (7 + 1)) with (2 ^ 68) in *. clia. }
  change (reverse (seq 0 _)) with [7; 6; 5; 4; 3; 2; 1; 0]%nat. cbn [root_to_leaf_steps].
  by rewrite walk_level_overflow.
Qed.

(** C18: opening and reading.  When the authenticator accepts, for the given
    signature, only the kernel's formatted digest of [data], a reader that
    [VerifiedFileReader::new] returns serves blocks of [data] and nothing else,
    up to an explicit hash collision, for files larger than one block. *)
Theorem open_then_read_authentic `{Profile} `{Sha256Spec} {W F T A}
    `{ReadByChunk W F} `{ReadByChunk W T} `{!BufferTyped W F} `{!BufferTyped W T} `{Authenticator A}
    (a : A) (f : F) size sig (mt : T) w r w0 data (i : nat) buf w1 n buf' w' :
  CHUNK_SIZE < len data <= MAX_VERIFIED_SIZE -> 0 <= size < 2 ^ 64 ->
  (∀ m, verify a sig m = Ok true -> m = kernel_formatted_digest data) ->
  VerifiedFileReader_new a f size sig mt w = (Ok r, w0) ->
  Z.of_nat i * CHUNK_SIZE < len data -> length buf = CHUNK ->
  read_chunk r (Z.of_nat i) buf w1 = (Ok (n, buf'), w') ->
  ∃ w2, read_chunk f (Z.of_nat i) buf w1 = (Ok (n, buf'), w2) ∧
    (pad_chunk (take (Z.to_nat n) buf') = block data i ∨
     collision [fsverity_descriptor (vf_root_hash r) size]
               [fsverity_descriptor (fsverity_root (leaf_hashes data)) (len data)] ∨
     collision (pad_chunk (take (Z.to_nat n) buf') ::
                  served_pages mt (walk_steps (len data) i (S (height_of data))) w2)
               (tree_blocks data)).
Proof.
  intros Hn Hsz Hauth Hnew Hi Hb Hr. apply VerifiedFileReader_new_inv in Hnew as (p & _ & Hv & ->).
  apply Hauth in Hv. unfold kernel_formatted_digest in Hv.
  rewrite <- verifier_root_multi in Hv |- * by lia. unfold MAX_VERIFIED_SIZE in Hn.
  apply VerifiedFileReader_read_inv in Hr as (w2 & Hc & Hl & Hn' & Hvc); [|done].
  exists w2. split; [done|].
  apply formatted_digest_inj in Hv as [[Hroot ->]|Hcol]; [| |apply sha256_length| |lia|clia].
  - cbn [vf_root_hash vf_file_size vf_merkle_tree] in Hvc. rewrite Hroot in Hvc.
    apply (verity_check_sound mt data i) in Hvc as [Hok|Hcol];
      [by left| |unfold MAX_VERIFIED_SIZE; clia|done|rewrite length_take; clia].
    right. by right.
  - right. by left.
  - apply length_verifier_root. clia.
Qed.

(** C35: for a file of one block the verifier and fs-verity disagree: the
    verifier hashes the page that holds the block's hash, fs-verity (and
    [MerkleLeaves]) take the block's hash itself.  With the file's honest tree
    and an authenticator for the kernel's digest, opening fails with
    [BadSignature], unless the hash function has a collision or fixed point. *)
Theorem single_block_file_rejected `{Sha256Spec} {W F T A}
    `{ReadByChunk W T} `{Authenticator A} (a : A) (f : F) sig (mt : T) w data :
  0 < len data <= CHUNK_SIZE -> reads_content mt w (dump_of data) ->
  (∀ m, verify a sig m = Ok (bool_decide (m = kernel_formatted_digest data))) ->
  VerifiedFileReader_new a f (len data) sig mt w = (Err BadSignature, w) ∨
  sha256 (page [leaf_hash data]) = leaf_hash data ∨
  collision [fsverity_descriptor (verifier_root data) (len data)]
            [fsverity_descriptor (leaf_hash data) (len data)].
Proof.
  intros Hn Hrc Hauth. destruct (single_block data Hn) as [Hl Hroot].
  assert (pages (level 0 (leaf_hashes data)) !! O = Some (page [leaf_hash data])) as Hp
    by (by rewrite Hl).
  pose proof (reads_dump_page mt data w 0 0 _ Hrc ltac:(lia) Hp) as Hr.
  assert (level_start (len data) (S (height_of data)) 0 = 0) as Hs.
  { assert (height_of data = O) as ->; [|done]. unfold height_of.
    pose proof (tree_height_le (len data) 0). clia. }
  rewrite Hs in Hr. assert (length (page [leaf_hash data]) = CHUNK) as Hlp.
  { apply length_page; [|cbn [length]; mlia]. apply Forall_singleton, sha256_length. }
  unfold kernel_formatted_digest in Hauth. rewrite Hl, fsverity_root_one in Hauth.
  unfold VerifiedFileReader_new, map_errM. rewrite M_bind_eq. change (0 + Z.of_nat 0) with 0 in Hr. rewrite Hr. cbv beta iota.
  cbn [map_err]. replace (len (page [leaf_hash data]) =? CHUNK_SIZE) with true by clia. cbn [negb].
  hash_run. cbn [map_err app]. rewrite M_bind_eq. cbn [lift].
  rewrite build_fsverity_formatted_digest_ok, M_bind_eq. cbn [lift map_err].
  rewrite Hauth, M_bind_eq. cbn [lift map_err]. case_bool_decide as Hd; [|by left]. right.
  rewrite <- Hroot in *.
  apply formatted_digest_inj in Hd as [[Hx _]|Hcol];
    [left|by right|apply length_verifier_root|apply sha256_length|..]; clia || done.
Qed.

(** ** Witnesses: a local file and its tree, in memory *)
Section Witness.
#[local] Existing Instance debug_profile.

Definition local_world (data : bytes) : gmap Z bytes := <[4 := dump_of data]> {[3 := data]}.
Definition local_file (data : bytes) : LocalFileReader Z := {| lf_file := 3; lf_size := len data |}.
Definition local_tree (data : bytes) : LocalFileReader Z :=
  {| lf_file := 4; lf_size := len (dump_of data) |}.
Definition local_verified (data : bytes) : VerifiedFileReader (LocalFileReader Z) (LocalFileReader Z) :=
  {| vf_chunked_file := local_file data; vf_file_size := len data;
     vf_merkle_tree := local_tree data; vf_root_hash := verifier_root data |}.

Lemma local_world_3 data : mem_content (local_world data) 3 = data.
Proof. unfold local_world. by rewrite mem_content_insert, decide_False by lia. Qed.
Lemma local_world_4 data : mem_content (local_world data) 4 = dump_of data.
Proof. unfold local_world. by rewrite mem_content_insert, decide_True by lia. Qed.
Lemma local_file_reads data :
  len data <= i64_MAX -> reads_content (local_file data) (local_world data) data.
Proof.
  intros Hl. pose proof (LocalFileReader_reads (local_file data) (local_world data)) as Hr.
  cbn [file_content mem_posix lf_file local_file] in Hr. rewrite local_world_3 in Hr. by apply Hr.
Qed.
Lemma local_tree_reads data :
  0 < len data <= MAX_VERIFIED_SIZE ->
  reads_content (local_tree data) (local_world data) (dump_of data).
Proof.
  intros Hl. pose proof (LocalFileReader_reads (local_tree data) (local_world data)) as Hr.
  cbn [file_content mem_posix lf_file local_tree] in Hr. rewrite local_world_4 in Hr.
  apply Hr; [done|]. by apply len_dump.
Qed.
Lemma local_read data (i : nat) :
  0 < len data <= MAX_VERIFIED_SIZE -> Z.of_nat i * CHUNK_SIZE < len data ->
  read_chunk (local_verified data) (Z.of_nat i) (zeros CHUNK_SIZE) (local_world data) =
    (Ok (len (chunk_of data (Z.of_nat i)), block data i), local_world data).
Proof.
  intros Hn Hi. rewrite <- chunk_of_over_zeros. apply reader_serves; try done.
  - apply local_file_reads. unfold MAX_VERIFIED_SIZE, i64_MAX in *. lia.
  - by apply local_tree_reads.
  - lia.
Qed.

Lemma len_zeros_5000 : len (zeros 5000) = 5000.
Proof. rewrite length_zeros. lia. Qed.
Lemma small_5000 : 0 < len (zeros 5000) <= MAX_VERIFIED_SIZE.
Proof. rewrite len_zeros_5000. unfold MAX_VERIFIED_SIZE. lia. Qed.

(** A file of two blocks, kept abstract so that nothing is hashed here. *)
Lemma sample_5000 :
  ∃ data, data = zeros 5000 ∧ 0 < len data <= MAX_VERIFIED_SIZE ∧
    Z.of_nat 1 * CHUNK_SIZE < len data.
Proof.
  exists (zeros 5000). split; [done|]. split; [apply small_5000|]. rewrite len_zeros_5000. clia.
Qed.

Lemma verified_read_authentic_or_collision_witness :
  ∃ data n buf' w1, data = zeros 5000 ∧
    read_chunk (local_file data) (Z.of_nat 1) (zeros CHUNK_SIZE) (local_world data)
      = (Ok (n, buf'), w1) ∧
    (pad_chunk (take (Z.to_nat n) buf') = block data 1 ∨
     collision (pad_chunk (take (Z.to_nat n) buf') ::
                  served_pages (local_tree data) (walk_steps (len data) 1 (S (height_of data))) w1)
               (tree_blocks data)).
Proof.
  destruct sample_5000 as (data & He & Hs & Hi).
  destruct (verified_read_authentic_or_collision (local_verified data) data 1
    (zeros CHUNK_SIZE) (local_world data) _ _ _ Hs eq_refl eq_refl Hi (length_zeros _)
    (local_read data 1 Hs Hi)) as (w1 & Hr & Hc).
  eexists data, _, _, w1. split; [exact He|]. split; [exact Hr|exact Hc].
Defined.

Lemma verified_reader_serves_content_witness :
  ∃ data, data = zeros 5000 ∧ reads_content (local_verified data) (local_world data) data.
Proof.
  destruct sample_5000 as (data & He & Hs & Hi). exists data. split; [exact He|].
  refine (verified_reader_serves_content (local_verified data) data
    (local_world data) Hs eq_refl eq_refl _ _).
  - apply local_file_reads. rewrite He, len_zeros_5000. unfold i64_MAX. lia.
  - apply local_tree_reads, Hs.
Defined.

Lemma fsverity_walk_correct_witness :
  ∃ steps, fsverity_walk (Z.of_nat 1) (len (zeros 5000)) = Ok steps ∧
    length steps = S (height_of (zeros 5000)).
Proof.
  destruct (fsverity_walk_correct (zeros 5000) 1 small_5000) as (steps & Hw & Hl & _).
  { rewrite len_zeros_5000. clia. }
  exists steps. split; [exact Hw|exact Hl].
Defined.

Lemma fsverity_walk_overflows_witness :
  fsverity_walk 0 (2 ^ 62) = Panic.
Proof.
  refine (fsverity_walk_overflows 0 (2 ^ 62) _ _ _); [reflexivity|..];
    unfold MAX_VERIFIED_SIZE; clia.
Defined.

(** An authenticator that accepts one message. *)
Definition KeyedAuthenticator : Type := bytes.
#[local] Instance KeyedAuthenticator_verify : Authenticator KeyedAuthenticator :=
  λ m _ signed_data, Ok (bool_decide (signed_data = m)).

Lemma open_then_read_authentic_witness :
  ∃ data r w0 n buf' w' w2, data = zeros 5000 ∧
    VerifiedFileReader_new (W := gmap Z bytes) (kernel_formatted_digest data : KeyedAuthenticator)
      (local_file data) (len data) [] (local_tree data) (local_world data) = (Ok r, w0) ∧
    read_chunk r (Z.of_nat 1) (zeros CHUNK_SIZE) (local_world data) = (Ok (n, buf'), w') ∧
    read_chunk (local_file data) (Z.of_nat 1) (zeros CHUNK_SIZE) (local_world data) = (Ok (n, buf'), w2) ∧
    (pad_chunk (take (Z.to_nat n) buf') = block data 1 ∨
     collision [fsverity_descriptor (vf_root_hash r) (len data)]
       [fsverity_descriptor (fsverity_root (leaf_hashes data)) (len data)] ∨
     collision (pad_chunk (take (Z.to_nat n) buf') ::
               served_pages (local_tree data) (walk_steps (len data) 1 (S (height_of data))) w2)
             (tree_blocks data)).
Proof.
  destruct sample_5000 as (data & He & Hs & Hi).
  assert (Hnew : VerifiedFileReader_new (W := gmap Z bytes)
    (kernel_formatted_digest data : KeyedAuthenticator)
    (local_file data) (len data) [] (local_tree data) (local_world data)
      = (Ok (local_verified data), local_world data)).
  { apply new_accepts; [exact Hs|apply local_tree_reads, Hs|].
    unfold verify, KeyedAuthenticator_verify. f_equal. apply bool_decide_true.
    unfold kernel_formatted_digest. rewrite verifier_root_multi; [done|]. clia. }
  pose proof (local_read data 1 Hs Hi) as Hr.
  assert (Hauth : ∀ m, verify (kernel_formatted_digest data : KeyedAuthenticator) [] m = Ok true ->
            m = kernel_formatted_digest data).
  { intros m Hm. unfold verify, KeyedAuthenticator_verify in Hm. injection Hm as Hm.
    by apply bool_decide_eq_true in Hm. }
  assert (Hlo : CHUNK_SIZE < len data <= MAX_VERIFIED_SIZE) by clia.
  assert (Hsz : 0 <= len data < 2 ^ 64) by (unfold MAX_VERIFIED_SIZE in Hs; lia).
  destruct (open_then_read_authentic (kernel_formatted_digest data : KeyedAuthenticator)
    _ _ _ _ _ _ _ _ _ _ _ _ _ _ Hlo Hsz Hauth Hnew Hi (length_zeros _) Hr) as (w2 & Hrd & Hc).
  eexists data, _, _, _, _, _, w2.
  split; [exact He|]. split; [exact Hnew|]. split; [exact Hr|]. split; [exact Hrd|exact Hc].
Defined.

Lemma single_block_file_rejected_witness :
  VerifiedFileReader_new (W := gmap Z bytes) (kernel_formatted_digest [1; 2; 3] : KeyedAuthenticator)
    (local_file [1; 2; 3]) (len [1; 2; 3]) [] (local_tree [1; 2; 3]) (local_world [1; 2; 3])
    = (Err BadSignature, local_world [1; 2; 3]) ∨
  sha256 (page [leaf_hash [1; 2; 3]]) = leaf_hash [1; 2; 3] ∨
  collision [fsverity_descriptor (verifier_root [1; 2; 3]) (len [1; 2; 3])]
            [fsverity_descriptor (leaf_hash [1; 2; 3]) (len [1; 2; 3])].
Proof.
  refine (single_block_file_rejected (kernel_formatted_digest [1; 2; 3] : KeyedAuthenticator)
    (local_file [1; 2; 3]) [] (local_tree [1; 2; 3]) (local_world [1; 2; 3]) [1; 2; 3] _ _ _).
  - simpl. clia.
  - apply local_tree_reads. simpl. unfold MAX_VERIFIED_SIZE. lia.
  - intros m. reflexivity.
Defined.
End Witness.
