(* ===== verification/VerifierFaults.v ===== *)
(** * authfs/src/fsverity/verifier.rs: a damaged tree

    What a [VerifiedFileReader] does when the storage serves the file but one
    page of the file of the tree is damaged: the chunks whose walk reads that
    page cannot be read, and all others are served as before.  The test of
    verifier.rs on [input.4m.merkle_dump.bad] is an instance of it. *)

From S2P Require Import Prelude Io Common Crypto FsverityCommon MerkleSpec Content Builder File Verifier Sha256Ref.

(** ** Where the pages are *)
Lemma level_start_nonneg n m x : 0 < n <= MAX_VERIFIED_SIZE -> 0 <= level_start n m x.
Proof.
  intros Hn. induction m as [|m IH]; cbn [level_start]; [lia|].
  pose proof (nodes_bounds n m Hn). destruct (x =? m)%nat; lia.
Qed.
(** The levels follow each other, the root first. *)
Lemma level_start_lt n m x y :
  0 < n <= MAX_VERIFIED_SIZE -> (x < y < m)%nat -> level_start n m y + nodes n y <= level_start n m x.
Proof.
  intros Hn. induction m as [|m IH]; intros Hxy; [lia|]. cbn [level_start].
  rewrite (proj2 (Nat.eqb_neq x m)) by lia. pose proof (level_start_nonneg n m x Hn).
  destruct (Nat.eqb_spec y m) as [->|Hne]; [lia|]. specialize (IH ltac:(lia)). lia.
Qed.

Section Damage.
Context `{Profile} `{Sha256Spec}.

(** The number, in the file of the tree, of page [k] of level [x]. *)
Definition page_number (data : bytes) (x k : nat) : nat :=
  Z.to_nat (level_start (len data) (S (height_of data)) x) + k.

(** The file of the tree with one page replaced. *)
Definition damaged_dump (data : bytes) (x k : nat) (bad : bytes) : bytes :=
  concat (<[page_number data x k := bad]> (dump_pages (height_of data) (leaf_hashes data))).

Lemma page_number_inj data x y k l p q :
  0 < len data <= MAX_VERIFIED_SIZE -> (x <= height_of data)%nat -> (y <= height_of data)%nat ->
  pages (level x (leaf_hashes data)) !! k = Some p -> pages (level y (leaf_hashes data)) !! l = Some q ->
  page_number data x k = page_number data y l -> x = y ∧ k = l.
Proof.
  intros Hn Hx Hy Hk%lookup_lt_Some Hl%lookup_lt_Some. unfold page_number. set (m := S (height_of data)).
  pose proof (nodes_level data x). pose proof (nodes_level data y).
  pose proof (level_start_nonneg (len data) m x Hn). pose proof (level_start_nonneg (len data) m y Hn).
  destruct (Nat.lt_total x y) as [Hlt|[->|Hlt]]; [|lia|].
  - pose proof (level_start_lt (len data) m x y Hn ltac:(lia)). lia.
  - pose proof (level_start_lt (len data) m y x Hn ltac:(lia)). lia.
Qed.

Lemma length_damaged_dump data x k bad :
  length bad = CHUNK -> length (damaged_dump data x k bad) = length (dump_of data).
Proof.
  intros Hb. pose proof (dump_pages_length (height_of data) _ (digests_leaf_hashes data)) as Hf.
  unfold damaged_dump, dump_of, merkle_dump. rewrite !(len_concat_uniform CHUNK) by (done || by apply Forall_insert).
  by rewrite length_insert.
Qed.

Context {W F T : Type} `{ReadByChunk W F} `{ReadByChunk W T}.
Context (mt : T) (data : bytes) (w : W) (x k : nat) (p bad : bytes).
Context (Hn : 0 < len data <= MAX_VERIFIED_SIZE) (Hx : (x <= height_of data)%nat)
  (Hp : pages (level x (leaf_hashes data)) !! k = Some p) (Hbad : length bad = CHUNK)
  (Hrc : reads_content mt w (damaged_dump data x k bad)).

Lemma damaged_pages_length :
  Forall (λ q, length q = CHUNK) (<[page_number data x k := bad]> (dump_pages (height_of data) (leaf_hashes data))).
Proof. apply Forall_insert; [|done]. apply dump_pages_length, digests_leaf_hashes. Qed.

(** Reading page [l] of level [y] of the damaged file. *)
Lemma damaged_read y (l : nat) q :
  (y <= height_of data)%nat -> pages (level y (leaf_hashes data)) !! l = Some q ->
  read_chunk mt (level_start (len data) (S (height_of data)) y + Z.of_nat l) (zeros CHUNK_SIZE) w =
    (Ok (CHUNK_SIZE, if decide (y = x ∧ l = k) then bad else q), w).
Proof.
  intros Hy Hq. destruct (dump_pages_lookup data _ y l q Hy Hq) as [Hd Hs].
  replace (level_start _ _ _ + Z.of_nat l) with (Z.of_nat (page_number data y l)) by (unfold page_number; lia).
  eapply reads_page; [exact Hrc|apply damaged_pages_length|]. case_decide as He.
  - destruct He as [-> ->]. apply list_lookup_insert_eq. by eapply lookup_lt_Some.
  - rewrite list_lookup_insert_ne; [done|]. intros Heq. apply He. symmetry in Heq.
    by apply (page_number_inj data y x l k q p) in Heq.
Qed.
Lemma damaged_serves i y :
  (y <= height_of data)%nat -> ¬ (y = x ∧ hash_index i (S x) = k) -> serves_page mt data i w y.
Proof.
  intros Hy Hne q Hq. rewrite (damaged_read y _ q) by done. rewrite decide_False; [done|].
  intros [-> Hk]. apply Hne. by rewrite hash_index_S.
Qed.

(** The walk of a chunk below the damaged page. *)
Lemma damaged_check (i : nat) :
  Z.of_nat i * CHUNK_SIZE < len data -> hash_index i (S x) = k -> bad <> p ->
  (∃ r, verity_check (chunk_of data (Z.of_nat i)) (Z.of_nat i) (len data) mt w = (r, w) ∧
     ((∃ e, r = Err e) ∨ ∃ root, r = Ok root ∧ root <> verifier_root data)) ∨
  collision [bad] [p].
Proof.
  intros Hi Hk Hne. destruct (decide (sha256 bad = sha256 p)) as [Hcol|Hdiff].
  { right. exists bad, p. by rewrite !list_elem_of_singleton. }
  destruct (verity_check_chunk mt data i w Hn Hi) as [-> Hleaf]. unfold walk_steps.
  pose proof (chunk_index_leaf data i Hi) as Hil.
  destruct (walk_prefix mt data i x 0 (sha256 (block data i)) w) as (hx & Hpre & Hhx); [|exact Hleaf|].
  { intros y Hy. apply damaged_serves; [lia|]. lia. }
  cbn [Nat.add] in Hhx.
  destruct (level_page x (leaf_hashes data) (hash_index i x) hx) as (P & HP & HlP & HS & _); [auto with rust|done|].
  rewrite <- hash_index_S in HP, HS. rewrite Hk, Hp in HP. injection HP as <-.
  assert (seq 0 (S (height_of data)) = seq 0 x ++ x :: seq (S x) (height_of data - x)) as ->.
  { replace (S (height_of data)) with (x + S (height_of data - x))%nat by lia. by rewrite seq_app. }
  rewrite fmap_app, try_fold_app, M_bind_eq, Hpre. cbn [fmap list_fmap try_fold].
  destruct (step_offset i x) as [Ho1 Ho2]. rewrite M_bind_eq. unfold step_of at 1.
  erewrite check_step_eq; [| |exact Hbad|done|done].
  2: { rewrite <- hash_index_S, Hk, (damaged_read x k p), decide_True by auto. reflexivity. }
  left. case_decide; cbv beta iota; [|eexists; split; [done|left; by eexists]].
  destruct (height_of data - x)%nat as [|j] eqn:Hj.
  - eexists. split; [reflexivity|]. right. exists (sha256 bad). split; [done|]. assert (x = height_of data) as -> by lia.
    pose proof (top_level data ltac:(lia)) as Htop. rewrite Htop in HS.
    rewrite hash_index_top in HS by (lia || done). injection HS as ->. done.
  - cbn [seq fmap list_fmap try_fold]. rewrite M_bind_eq. unfold step_of at 1.
    destruct (level_page (S x) (leaf_hashes data) (hash_index i (S x)) (sha256 p)) as (P & HP & HlP' & _ & Hsub);
      [auto with rust|done|].
    destruct (step_offset i (S x)). erewrite check_step_eq; [|apply damaged_serves; [lia|lia|exact HP]|done|done|done].
    rewrite Hsub, decide_False by done. eexists. split; [done|]. left. by eexists.
Qed.
End Damage.

(** A read of a chunk of the file over the damaged tree. *)
Lemma damaged_reader `{Profile} `{Sha256Spec} {W F T} `{ReadByChunk W F} `{ReadByChunk W T}
    (r : VerifiedFileReader F T) data (w : W) (x k i : nat) p bad buf :
  0 < len data <= MAX_VERIFIED_SIZE -> vf_file_size r = len data -> vf_root_hash r = verifier_root data ->
  reads_content (vf_chunked_file r) w data -> (x <= height_of data)%nat ->
  pages (level x (leaf_hashes data)) !! k = Some p -> length bad = CHUNK -> bad <> p ->
  reads_content (vf_merkle_tree r) w (damaged_dump data x k bad) ->
  Z.of_nat i * CHUNK_SIZE < len data -> length buf = CHUNK ->
  if decide (i / 128 ^ S x = k)%nat
  then read_chunk r (Z.of_nat i) buf w = (Err (RawOs EIO), w) ∨ collision [bad] [p]
  else let c := chunk_of data (Z.of_nat i) in
       read_chunk r (Z.of_nat i) buf w = (Ok (len c, c ++ drop (length c) buf), w).
Proof.
  intros Hn Hsz Hroot Hf Hx Hp Hbad Hne Hrc Hi Hb.
  assert (read_chunk r (Z.of_nat i) buf w = _) as -> by (apply (reader_checks r data); [done|done|done|lia|done|done]).
  fold (hash_index i (S x)). case_decide as Hk.
  - destruct (damaged_check (vf_merkle_tree r) data w x k p bad Hn Hx Hp Hbad Hrc i Hi Hk Hne)
      as [(res & -> & [[e ->]|(root & -> & Hr)])|Hcol]; [by left|left; by rewrite bool_decide_false|by right].
  - rewrite verity_check_complete; [by rewrite bool_decide_true|done|done|].
    intros y Hy. apply (damaged_serves (vf_merkle_tree r) data w x k p bad Hn Hx Hp Hbad Hrc i y Hy). by intros [-> ?].
Qed.

(** ** Claims *)

(** C24: damage to the tree is confined.  The storage serves the file and its
    tree, but one page of the tree (page [k] of level [x], the leaves being
    level 0) is replaced.  A read of a chunk below that page, and only such a
    read, fails with [EIO], unless the replacement collides with the page; every
    other chunk is served, exactly. *)
Theorem damaged_page_confined `{Profile} `{Sha256Spec} {W F T} `{ReadByChunk W F} `{ReadByChunk W T}
    (r : VerifiedFileReader F T) data (w : W) (x k i : nat) p bad buf :
  0 < len data <= MAX_VERIFIED_SIZE -> vf_file_size r = len data -> vf_root_hash r = verifier_root data ->
  reads_content (vf_chunked_file r) w data -> (x <= height_of data)%nat ->
  pages (level x (leaf_hashes data)) !! k = Some p -> length bad = CHUNK -> bad <> p ->
  reads_content (vf_merkle_tree r) w (damaged_dump data x k bad) ->
  Z.of_nat i * CHUNK_SIZE < len data -> length buf = CHUNK ->
  if decide (i / 128 ^ S x = k)%nat
  then read_chunk r (Z.of_nat i) buf w = (Err (RawOs EIO), w) ∨ collision [bad] [p]
  else let c := chunk_of data (Z.of_nat i) in
       read_chunk r (Z.of_nat i) buf w = (Ok (len c, c ++ drop (length c) buf), w).
Proof. apply damaged_reader. Qed.

Section Witness.
#[local] Existing Instance debug_profile.

Definition ones_page : bytes := replicate CHUNK 1.
Definition damaged_world (data : bytes) : gmap Z bytes := <[4 := damaged_dump data 0 0 ones_page]> {[3 := data]}.

(** The only page of the tree of two blocks ends in zeros. *)
Lemma two_block_page data :
  CHUNK_SIZE < len data <= 2 * CHUNK_SIZE ->
  pages (level 0 (leaf_hashes data)) !! O = Some (page (leaf_hashes data)) ∧ ones_page <> page (leaf_hashes data).
Proof.
  intros Hd. assert (len (leaf_hashes data) = 2) as Hl.
  { rewrite len_leaf_hashes. apply cdiv_unique; clia. }
  split.
  - cbn [level]. unfold pages. rewrite list_lookup_fmap, chunks_lookup by mlia.
    rewrite decide_True by lia. cbn. by rewrite take_ge, drop_0 by (rewrite ?drop_0; mlia).
  - intros He. apply (f_equal (λ b, byte_at b 4095)) in He. unfold page, pad_chunk, ones_page in He.
    pose proof (len_concat_uniform HASH _ (digests_leaf_hashes data)).
    rewrite byte_at_app, decide_False in He by clia. unfold zeros in He. by rewrite byte_at_zeros in He.
Qed.

Lemma damaged_page_confined_witness :
  ∃ data p, data = zeros 5000 ∧
    (read_chunk (local_verified data) (Z.of_nat 1) (zeros CHUNK_SIZE) (damaged_world data)
       = (Err (RawOs EIO), damaged_world data) ∨ collision [ones_page] [p]).
Proof.
  destruct sample_5000 as (data & He & Hs & Hi).
  assert (Hl : CHUNK_SIZE < len data <= 2 * CHUNK_SIZE) by (rewrite He, len_zeros_5000; clia).
  destruct (two_block_page data Hl) as [Hp Hne]. exists data, (page (leaf_hashes data)). split; [exact He|].
  refine (damaged_page_confined (local_verified data) data (damaged_world data) 0 0 1 _ ones_page (zeros CHUNK_SIZE)
    Hs eq_refl eq_refl _ (Nat.le_0_l _) Hp (length_replicate _ _) Hne _ Hi (length_zeros _)).
  - pose proof (LocalFileReader_reads (local_file data) (damaged_world data)) as Hr.
    cbn [file_content mem_posix lf_file local_file] in Hr.
    replace (mem_content (damaged_world data) 3) with data in Hr
      by (unfold damaged_world; by rewrite mem_content_insert, decide_False by lia).
    apply Hr; [done|]. unfold i64_MAX. cbn. clia.
  - pose proof (LocalFileReader_reads (local_tree data) (damaged_world data)) as Hr.
    cbn [file_content mem_posix lf_file local_tree] in Hr.
    replace (mem_content (damaged_world data) 4) with (damaged_dump data 0 0 ones_page) in Hr
      by (unfold damaged_world; by rewrite mem_content_insert, decide_True by lia).
    apply Hr; cbn [lf_size local_tree]; [by rewrite length_damaged_dump by apply length_replicate|by apply len_dump].
Defined.
End Witness.
