(* ===== verification/Editor.v ===== *)
(** * authfs/src/fsverity/editor.rs: VerifiedFileEditor

    The writable file: untrusted storage of type [F], and the private Merkle
    leaves that say what the storage should hold.  The state of an editor is
    the pair of the leaves and the world of the storage.  The write path is
    proved twice: against arbitrary storage (the tree stays the tree of what
    the client wrote, or the storage produced a hash collision) and against an
    honest store (the call succeeds, and tree and store stay in step).  The
    lock around the leaves is held for one chunk or one resize; operations are
    sequential here. *)

From S2P Require Import Prelude Io Common Crypto FsverityCommon MerkleSpec Content Builder File Sha256Ref.

(** [impl From<CryptoError> for io::Error]. *)
Definition io_of_crypto (error : CryptoError) : io_error :=
  match error with
  | Unexpected what => IoNew Other (String.append "Unexpected error returned from " what)
  end.

(** [io::Error::new(io::ErrorKind::Other, e)] of an [FsverityError]. *)
Definition io_of_fsverity (e : FsverityError) : io_error :=
  IoNew Other match e with
              | BadSignature => "Cannot verify a signature"
              | InsufficientData got => String.append "Insufficient data, only got " (pretty got)
              | CannotVerify => "Cannot verify a block"
              | FsIo _ => "I/O error"
              | UnexpectedCryptoError _ => "Crypto"
              | InvalidState => "Invalid state"
              end.

Definition usize_MAX : Z := u64_MAX.

Definition debug_assert_usize_is_u64 `{Profile} {E} : outcome E unit :=
  debug_assert (as_u64 usize_MAX =? u64_MAX).

(** The leaves ([merkle_tree]) are the first component of the state. *)
Record VerifiedFileEditor (F : Type) := { ve_file : F }.
Arguments ve_file {F}.

Definition VerifiedFileEditor_new {F} (file : F) : VerifiedFileEditor F * MerkleLeaves :=
  ({| ve_file := file |}, ml_new).

Definition VerifiedFileEditor_calculate_fsverity_digest `{Profile} `{Sha256Ffi} {W F}
    (self : VerifiedFileEditor F) : M (MerkleLeaves * W) io_error Sha256Hash :=
  st ← get;
  lift (map_err io_of_fsverity (calculate_fsverity_digest st.1)).

Definition VerifiedFileEditor_size {W F} (self : VerifiedFileEditor F)
    : M (MerkleLeaves * W) io_error Z :=
  st ← get;
  mret (file_size st.1).

Definition VerifiedFileEditor_read_chunk {W F} `{ReadByChunk W F} (self : VerifiedFileEditor F)
    (chunk_index : Z) (buf : ChunkBuffer) : M W io_error (Z * ChunkBuffer) :=
  read_chunk (ve_file self) chunk_index buf.

#[export] Instance VerifiedFileEditor_ReadByChunk {W F} `{ReadByChunk W F}
    : ReadByChunk (MerkleLeaves * W) (VerifiedFileEditor F) :=
  λ self chunk_index buf, on_snd (VerifiedFileEditor_read_chunk self chunk_index buf).

Definition new_hash_for_incomplete_write `{Profile} `{Sha256Ffi} {W F} `{ReadByChunk W F}
    (self : VerifiedFileEditor F) (source : bytes) (offset_from_alignment output_chunk_index : Z)
    (merkle_tree : MerkleLeaves) : M W io_error Sha256Hash :=
  let orig_data := zeros CHUNK_SIZE in
  orig_data ←
    (if is_index_valid merkle_tree output_chunk_index then
       '(_, orig_data) ← VerifiedFileEditor_read_chunk self output_chunk_index orig_data;
       hash ← lift (map_err io_of_crypto
         (h ← hasher_new; h ← hasher_update orig_data h; hasher_finalize h));
       if negb (is_consistent merkle_tree output_chunk_index hash)
       then fail (IoNew InvalidData "Inconsistent hash")
       else mret orig_data
     else mret orig_data);
  lift (map_err io_of_crypto
    (h ← hasher_new;
     head ← slice_to orig_data offset_from_alignment;
     h ← hasher_update head h;
     h ← hasher_update source h;
     tail_start ← add_u64 offset_from_alignment (len source);
     tail ← slice_from orig_data tail_start;
     h ← hasher_update tail h;
     hasher_finalize h)).

Definition new_chunk_hash `{Profile} `{Sha256Ffi} {W F} `{ReadByChunk W F}
    (self : VerifiedFileEditor F) (source : bytes)
    (offset_from_alignment current_size output_chunk_index : Z)
    (merkle_tree : MerkleLeaves) : M W io_error Sha256Hash :=
  if current_size =? CHUNK_SIZE then
    lift (map_err io_of_crypto (h ← hasher_new; h ← hasher_update source h; hasher_finalize h))
  else
    new_hash_for_incomplete_write self source offset_from_alignment output_chunk_index merkle_tree.

(** One iteration of the loop of [write_at]; [Some n] is [return Ok(n)].
    [fuel] bounds the calls that [write_all_at] makes. *)
Definition write_at_iteration `{Profile} `{Sha256Ffi} {W F} `{ReadByChunk W F} `{RandomWrite W F}
    (fuel : nat) (self : VerifiedFileEditor F) (buf : bytes) (offset : Z)
    : Z * Z -> M (MerkleLeaves * W) io_error (option Z) :=
  λ '(output_offset, current_size),
    st ← get;
    let merkle_tree := st.1 in
    offset_in_buf ← lift (sub_u64 output_offset offset);
    end_in_buf ← lift (add_u64 offset_in_buf current_size);
    source ← lift (slice buf offset_in_buf end_in_buf);
    output_chunk_index ← lift (div_u64 output_offset CHUNK_SIZE);
    offset_from_alignment ← lift (rem_u64 output_offset CHUNK_SIZE);
    result ← on_snd (tryM (new_chunk_hash self source offset_from_alignment current_size
                             output_chunk_index merkle_tree));
    match result with
    | inl e =>
        written ← lift (sub_u64 output_offset offset);
        if written >? 0 then mret (Some written) else fail e
    | inr new_hash =>
        _ ← on_snd (write_all_at fuel (ve_file self) source output_offset);
        let size_at_least := saturating_add_u64 offset (len buf) in
        merkle_tree' ← lift (update_hash merkle_tree output_chunk_index new_hash size_at_least);
        _ ← on_fst (put merkle_tree');
        mret None
    end.

Definition VerifiedFileEditor_write_at `{Profile} `{Sha256Ffi} {W F} `{ReadByChunk W F}
    `{RandomWrite W F} (fuel : nat) (self : VerifiedFileEditor F) (buf : bytes) (offset : Z)
    : M (MerkleLeaves * W) io_error Z :=
  _ ← lift debug_assert_usize_is_u64;
  r ← for_chunks (csi_fuel (len buf)) (csi_new (len buf) offset CHUNK_SIZE)
        (write_at_iteration fuel self buf offset);
  mret (default (len buf) r).

(** The part of [resize] that rehashes the new last chunk. *)
Definition rehash_new_tail `{Profile} `{Sha256Ffi} {W F} `{ReadByChunk W F}
    (self : VerifiedFileEditor F) (size : Z) (merkle_tree : MerkleLeaves)
    : M W io_error MerkleLeaves :=
  r ← lift (rem_u64 size CHUNK_SIZE);
  if (size <? file_size merkle_tree) && (r >? 0) then
    new_tail_size ← lift (rem_u64 size CHUNK_SIZE);
    chunk_index ← lift (div_u64 size CHUNK_SIZE);
    if new_tail_size >? 0 then
      '(s, buf) ← VerifiedFileEditor_read_chunk self chunk_index (zeros CHUNK_SIZE);
      _ ← lift (debug_assert (new_tail_size <=? s));
      pad ← lift (sub_u64 CHUNK_SIZE new_tail_size);
      new_hash ← lift (map_err io_of_crypto
        (h ← hasher_new;
         head ← slice_to buf new_tail_size;
         h ← hasher_update head h;
         h ← hasher_update (zeros pad) h;
         hasher_finalize h));
      lift (update_hash merkle_tree chunk_index new_hash size)
    else mret merkle_tree
  else mret merkle_tree.

Definition VerifiedFileEditor_resize `{Profile} `{Sha256Ffi} {W F} `{ReadByChunk W F}
    `{RandomWrite W F} (self : VerifiedFileEditor F) (size : Z)
    : M (MerkleLeaves * W) io_error unit :=
  _ ← lift debug_assert_usize_is_u64;
  st ← get;
  merkle_tree ← on_snd (rehash_new_tail self size st.1);
  _ ← on_fst (put merkle_tree);
  _ ← on_snd (resize_to (ve_file self) size);
  merkle_tree' ← lift (ml_resize merkle_tree size);
  on_fst (put merkle_tree').

(** ** Integrity against arbitrary storage *)
Section Integrity.
Context `{Profile} `{Sha256Spec} {W F : Type} `{ReadByChunk W F} `{RandomWrite W F}.

(** The tree of a file with content [data], the recorded size apart. *)
Definition leaves_of (t : MerkleLeaves) (data : bytes) : Prop :=
  leaves_match (leaves t) data ∧ len (leaves t) = cdiv (len data) CHUNK_SIZE.

Lemma leaves_of_represents t data :
  represents t data <-> leaves_of t data ∧ ml_file_size t = len data.
Proof.
  split.
  - intros Hr. split; [split; [by apply represents_match|by apply represents_len]|by destruct Hr].
  - intros [[Hm Hl] Hs]. by apply represents_intro.
Qed.
Lemma leaves_of_cover t data : leaves_of t data -> (length data <= length (leaves t) * CHUNK)%nat.
Proof. intros [_ Hl]. assert (len data <= len (leaves t) * CHUNK_SIZE) by (apply cdiv_le; clia). clia. Qed.
Lemma leaves_of_valid t data (i : nat) :
  leaves_of t data -> is_index_valid t (Z.of_nat i) = bool_decide (i * CHUNK < length data)%nat.
Proof.
  intros [_ Hl]. unfold is_index_valid. rewrite Hl. apply eq_true_iff_eq.
  rewrite Z.ltb_lt, bool_decide_eq_true, cdiv_lt by clia. clia.
Qed.
Lemma leaves_of_consistent t data (i : nat) hash :
  leaves_of t data -> (i * CHUNK < length data)%nat ->
  is_consistent t (Z.of_nat i) hash = bool_decide (sha256 (block data i) = hash).
Proof.
  intros Hlo Hi. unfold is_consistent. rewrite zlookup_nat, Nat2Z.id by lia.
  destruct (leaves t !! i) as [h|] eqn:Hh; [by rewrite (proj1 Hlo _ _ Hh)|].
  apply lookup_ge_None in Hh. pose proof (leaves_of_valid t data i Hlo) as Hv.
  rewrite bool_decide_true in Hv by done. unfold is_index_valid in Hv. lia.
Qed.

Lemma hash_spliced orig (o : nat) source :
  length orig = CHUNK -> (o + length source <= CHUNK)%nat ->
  (h ← hasher_new;
   head ← slice_to orig (Z.of_nat o);
   h ← hasher_update head h;
   h ← hasher_update source h;
   tail_start ← add_u64 (Z.of_nat o) (len source);
   tail ← slice_from orig tail_start;
   h ← hasher_update tail h;
   hasher_finalize h) = Ok (sha256 (take o orig ++ source ++ drop (o + length source) orig)).
Proof.
  intros Hl Ho. hash_step. unfold slice_to, slice_from. rewrite slice_ok, bind_Ok by clia.
  do 2 hash_step. rewrite add_u64_ok, bind_Ok by clia. rewrite slice_ok, bind_Ok by clia.
  hash_run. rewrite subrange_0, Nat2Z.id. unfold subrange.
  rewrite (take_ge (drop _ _)) by (rewrite length_drop; lia).
  replace (Z.to_nat _) with (o + length source)%nat by lia. cbn [app]. by rewrite <- app_assoc.
Qed.

(** What the storage answers when a chunk is read back. *)
Definition read_back (f : F) (i : Z) (w : W) : list bytes :=
  match read_chunk f i (zeros CHUNK_SIZE) w with
  | (Ok (_, d), _) => [d]
  | _ => []
  end.

Lemma incomplete_hash_fresh self source (o i : nat) t data w :
  leaves_of t data -> (o + length source <= CHUNK)%nat -> (length data <= i * CHUNK)%nat ->
  new_hash_for_incomplete_write self source (Z.of_nat o) (Z.of_nat i) t w =
    (Ok (sha256 (block (write_bytes data (i * CHUNK + o) source) i)), w).
Proof.
  intros Hlo Ho Hi. unfold new_hash_for_incomplete_write.
  rewrite (leaves_of_valid t data i Hlo), bool_decide_false by lia.
  erewrite M_bind_Ok by reflexivity. rewrite hash_spliced by (rewrite ?length_zeros; clia).
  by rewrite <- block_write_same, block_zero by lia.
Qed.

Lemma incomplete_hash_read_back self source (o i : nat) t data w n d w' :
  leaves_of t data -> (o + length source <= CHUNK)%nat -> (i * CHUNK < length data)%nat ->
  read_chunk (ve_file self) (Z.of_nat i) (zeros CHUNK_SIZE) w = (Ok (n, d), w') -> length d = CHUNK ->
  new_hash_for_incomplete_write self source (Z.of_nat o) (Z.of_nat i) t w =
    (if decide (sha256 (block data i) = sha256 d)
     then Ok (sha256 (take o d ++ source ++ drop (o + length source) d))
     else Err (IoNew InvalidData "Inconsistent hash"), w').
Proof.
  intros Hlo Ho Hi Hr Hd. unfold new_hash_for_incomplete_write.
  rewrite (leaves_of_valid t data i Hlo), bool_decide_true by lia.
  rewrite M_bind_eq. unfold VerifiedFileEditor_read_chunk. erewrite M_bind_Ok by exact Hr.
  cbv beta iota. erewrite M_bind_lift by (by hash_run). cbn [app].
  rewrite (leaves_of_consistent t data) by done. case_bool_decide; case_decide; try done.
  cbn [negb]. unfold mret, M_ret. by rewrite hash_spliced.
Qed.

Lemma new_chunk_hash_sound `{!BufferTyped W F} self source (o i : nat) t data w h w' :
  leaves_of t data -> (o + length source <= CHUNK)%nat ->
  new_chunk_hash self source (Z.of_nat o) (len source) (Z.of_nat i) t w = (Ok h, w') ->
  h = sha256 (block (write_bytes data (i * CHUNK + o) source) i) ∨
  (i * CHUNK < length data)%nat ∧
  collision (read_back (ve_file self) (Z.of_nat i) w) [block data i].
Proof.
  intros Hlo Ho. unfold new_chunk_hash. destruct (len source =? CHUNK_SIZE) eqn:Hs.
  - hash_run. cbn [map_err app]. intros [= <- _]. left. rewrite <- block_write_same by done.
    assert (o = O) as -> by clia. cbn [take app Nat.add].
    rewrite drop_ge, app_nil_r by (rewrite length_block; clia). done.
  - destruct (decide (i * CHUNK < length data)%nat) as [Hi|Hi].
    2: { rewrite (incomplete_hash_fresh self source o i t data) by (done || lia). intros [= <- _]. by left. }
    destruct (read_chunk (ve_file self) (Z.of_nat i) (zeros CHUNK_SIZE) w) as [[[n d]| | |] w1] eqn:Hr.
    2-4: unfold new_hash_for_incomplete_write, VerifiedFileEditor_read_chunk;
         rewrite (leaves_of_valid t data i Hlo), bool_decide_true by done;
         rewrite !M_bind_eq, Hr; naive_solver.
    pose proof (read_chunk_typed _ _ _ _ _ _ _ (length_zeros _) Hr) as Hd.
    rewrite (incomplete_hash_read_back self source o i t data w n d w1) by done.
    case_decide as Heq; [|naive_solver]. intros [= <- _].
    destruct (decide (d = block data i)) as [->|Hne]; [left; by rewrite block_write_same|].
    right. split; [done|]. exists d, (block data i). unfold read_back. rewrite Hr.
    by rewrite !list_elem_of_singleton.
Qed.

(** After [k] bytes of a call of [write_at]: the leaves are those of the
    content with these [k] bytes written; the size is already the final one. *)
Definition mid_write (data : bytes) (off : nat) (buf : bytes) (k : nat) (t : MerkleLeaves) : Prop :=
  leaves_of t (write_bytes data off (take k buf)) ∧
  ml_file_size t = if decide (k = O) then len data else Z.max (len data) (Z.of_nat off + len buf).

Lemma mid_write_start data off buf t : represents t data -> mid_write data off buf 0 t.
Proof. intros Hr. by apply leaves_of_represents in Hr. Qed.
Lemma mid_write_end data off buf t :
  mid_write data off buf (length buf) t <-> represents t (write_bytes data off buf).
Proof.
  unfold mid_write. rewrite leaves_of_represents, take_ge by done.
  assert (len (write_bytes data off buf) =
          if decide (length buf = O) then len data else Z.max (len data) (Z.of_nat off + len buf)) as ->.
  { destruct buf as [|b buf]; [done|]. rewrite length_write_bytes by done. case_decide; simpl in *; lia. }
  done.
Qed.

Lemma write_bytes_take_snoc data off buf (k s : nat) :
  (0 < s)%nat -> (k + s <= length buf)%nat ->
  write_bytes (write_bytes data off (take k buf)) (off + k) (take s (drop k buf)) =
    write_bytes data off (take (k + s) buf).
Proof.
  intros Hs Hk. rewrite <- (take_take_drop buf k s). destruct k as [|k]; [by rewrite Nat.add_0_r|].
  assert (length (take (S k) buf) = S k) as Hl by (rewrite length_take; lia).
  assert (length (take s (drop (S k) buf)) = s) as Hl2 by (rewrite length_take, length_drop; lia).
  rewrite <- write_bytes_app, Hl; [done|..]; intros He; rewrite He in *; simpl in *; lia.
Qed.

Lemma cdiv_max a b c : 0 < c -> cdiv (Z.max a b) c = Z.max (cdiv a c) (cdiv b c).
Proof.
  intros Hc. apply cdiv_unique; [done|]. intros j.
  rewrite !Z.max_lub_iff, !cdiv_le by done. lia.
Qed.

(** One chunk written: the leaf is replaced, holes are filled with the hash of zeros. *)
Lemma update_hash_leaves {E} data (pos i : nat) src t hash size :
  leaves_of t data -> src <> [] -> (i * CHUNK <= pos)%nat -> (pos + length src <= S i * CHUNK)%nat ->
  Z.of_nat pos + len src < 2 ^ 64 -> hash = sha256 (block (write_bytes data pos src) i) ->
  ∃ t', update_hash (E := E) t (Z.of_nat i) hash size = Ok t' ∧
    leaves_of t' (write_bytes data pos src) ∧ ml_file_size t' = Z.max (ml_file_size t) size.
Proof.
  intros Hlo Hne Hi1 Hi2 Hmax Hh. pose proof (leaves_of_cover _ _ Hlo) as Hc.
  assert (0 < length src)%nat by (destruct src; [done|simpl; lia]).
  rewrite update_hash_ok by clia. eexists. split; [done|].
  split; [split|]; cbn [leaves ml_file_size].
  - rewrite Nat2Z.id. apply update_hash_match with (data := data); [apply Hlo|done|done|].
    intros j Hj. apply block_write_other with (i := i); lia.
  - rewrite length_insert, length_resize, length_write_bytes by done.
    rewrite !Nat2Z.inj_max, (proj2 Hlo), cdiv_max by clia. f_equal.
    symmetry. apply cdiv_unique; [clia|]. intros j. clia.
  - lia.
Qed.
(** The same in the course of a call, after [k] bytes. *)
Lemma mid_write_next data off buf (k s : nat) t t' :
  mid_write data off buf k t -> (0 < s)%nat -> (k + s <= length buf)%nat -> Z.of_nat off + len buf < 2 ^ 64 ->
  leaves_of t' (write_bytes (write_bytes data off (take k buf)) (off + k) (take s (drop k buf))) ->
  ml_file_size t' = Z.max (ml_file_size t) (saturating_add_u64 (Z.of_nat off) (len buf)) ->
  mid_write data off buf (k + s) t'.
Proof.
  intros [_ Hsz] Hs Hk Hmax Hlo Hsz'. rewrite write_bytes_take_snoc in Hlo by done. split; [done|].
  rewrite Hsz', Hsz. unfold saturating_add_u64, u64_MAX. repeat case_decide; lia.
Qed.

(** The geometry of one piece: [s] bytes of [buf] at [k], within chunk [i]. *)
Definition piece (off : nat) (buf : bytes) (k s i o : nat) : Prop :=
  (0 < s)%nat ∧ (k + s <= length buf)%nat ∧ (off + k = i * CHUNK + o)%nat ∧
  (o + s <= CHUNK)%nat ∧ Z.of_nat off + len buf < 2 ^ 64.

Lemma iteration_eq fuel self buf off (k s i o : nat) t w :
  piece off buf k s i o ->
  let src := take s (drop k buf) in
  write_at_iteration fuel self buf (Z.of_nat off) (Z.of_nat (off + k), Z.of_nat s) (t, w) =
    match new_chunk_hash self src (Z.of_nat o) (len src) (Z.of_nat i) t w with
    | (Ok h, w1) =>
        (on_snd (write_all_at fuel (ve_file self) src (Z.of_nat (off + k))) ≫= λ _,
         lift (update_hash t (Z.of_nat i) h (saturating_add_u64 (Z.of_nat off) (len buf))) ≫= λ t',
         on_fst (put t') ≫= λ _, mret None) (t, w1)
    | (Err e, w1) => (if decide (k = O) then Err e else Ok (Some (Z.of_nat k)), (t, w1))
    | (Panic, w1) => (Panic, (t, w1))
    | (NoFuel, w1) => (NoFuel, (t, w1))
    end.
Proof.
  intros (Hs & Hk & Ho & Hos & Hmax) src. unfold write_at_iteration.
  assert (len src = Z.of_nat s) as Hl by (unfold src; rewrite length_take, length_drop; lia).
  erewrite M_bind_Ok by reflexivity. cbn [fst].
  assert (sub_u64 (E := io_error) (Z.of_nat (off + k)) (Z.of_nat off) = Ok (Z.of_nat k)) as Hsub.
  { rewrite sub_u64_ok by lia. f_equal. lia. }
  erewrite M_bind_lift by exact Hsub. erewrite M_bind_lift by (apply add_u64_ok; lia).
  assert (slice (E := io_error) buf (Z.of_nat k) (Z.of_nat k + Z.of_nat s) = Ok src) as Hsl.
  { rewrite slice_ok by lia. unfold subrange, src. do 2 f_equal; [lia|f_equal; lia]. }
  erewrite M_bind_lift by exact Hsl.
  erewrite M_bind_lift by (apply div_u64_ok; clia). erewrite M_bind_lift by (apply rem_u64_ok; clia).
  replace (Z.of_nat (off + k) / CHUNK_SIZE) with (Z.of_nat i) by (apply (Z.div_unique _ _ _ (Z.of_nat o)); clia).
  replace (Z.of_nat (off + k) mod CHUNK_SIZE) with (Z.of_nat o) by (apply (Z.mod_unique _ _ (Z.of_nat i)); clia).
  rewrite Hl, M_bind_eq. cbn [on_snd]. unfold tryM.
  destruct (new_chunk_hash _ _ _ _ _ _ _) as [[h|e| |] w1]; cbv beta iota zeta; [done| |done..].
  erewrite M_bind_lift by exact Hsub. case_decide.
  - by replace (Z.of_nat k >? 0) with false by lia.
  - by replace (Z.of_nat k >? 0) with true by lia.
Qed.

(** One iteration, whatever the storage does, from the leaves of any content:
    it completes the piece, or it leaves the tree alone, or the storage answered
    with a colliding chunk. *)
Lemma iteration_any `{!BufferTyped W F} fuel self data off buf (k s i o : nat) t w r t' w' :
  piece off buf k s i o -> leaves_of t data ->
  write_at_iteration fuel self buf (Z.of_nat off) (Z.of_nat (off + k), Z.of_nat s) (t, w)
    = (r, (t', w')) ->
  (r = Ok None ∧ leaves_of t' (write_bytes data (off + k) (take s (drop k buf))) ∧
     ml_file_size t' = Z.max (ml_file_size t) (saturating_add_u64 (Z.of_nat off) (len buf))) ∨
  (t' = t ∧ r <> Ok None ∧ ∀ v, r = Ok (Some v) -> v = Z.of_nat k ∧ (0 < k)%nat) ∨
  (i * CHUNK < length data)%nat ∧ collision (read_back (ve_file self) (Z.of_nat i) w) [block data i].
Proof.
  intros Hp Hlo. rewrite (iteration_eq fuel self buf off k s i o) by done. cbv zeta.
  destruct Hp as (Hs & Hk & Ho & Hos & Hmax). set (src := take s (drop k buf)).
  assert (length src = s) as Hl by (unfold src; rewrite length_take, length_drop; lia).
  assert (src <> []) as Hne by (intros He; rewrite He in Hl; simpl in Hl; lia).
  destruct (new_chunk_hash _ _ _ _ _ _ _) as [[h|e| |] w1] eqn:Hh.
  2: { intros [= <- <- <-]. right. left. split_and!; [done|by case_decide|].
       intros v Hv. case_decide; simplify_eq. lia. }
  2-3: intros [= <- <- <-]; right; left; naive_solver.
  apply (new_chunk_hash_sound self src o i t data w h w1) in Hh as [Hh|Hcol];
    [|right; by right|done|lia].
  rewrite <- Ho in Hh. rewrite M_bind_eq. cbn [on_snd]. destruct (write_all_at _ _ _ _ _) as [[[]|e| |] w2].
  2-4: intros [= <- <- <-]; right; left; naive_solver.
  destruct (update_hash_leaves (E := io_error) data (off + k) i src t h (saturating_add_u64 (Z.of_nat off) (len buf)))
    as (t2 & Hu & Hlo2 & Hsz); try done; [lia..|].
  erewrite M_bind_lift by exact Hu. intros [= <- <- <-]. by left.
Qed.
(** The same in the course of a call. *)
Lemma iteration_inv `{!BufferTyped W F} fuel self data off buf (k s i o : nat) t w r t' w' :
  piece off buf k s i o -> mid_write data off buf k t ->
  write_at_iteration fuel self buf (Z.of_nat off) (Z.of_nat (off + k), Z.of_nat s) (t, w)
    = (r, (t', w')) ->
  (r = Ok None ∧ mid_write data off buf (k + s) t') ∨
  (t' = t ∧ r <> Ok None ∧ ∀ v, r = Ok (Some v) -> v = Z.of_nat k ∧ (0 < k)%nat) ∨
  let D := write_bytes data off (take k buf) in
  (i * CHUNK < length D)%nat ∧ collision (read_back (ve_file self) (Z.of_nat i) w) [block D i].
Proof.
  intros Hp Hm Hit. pose proof Hp as (Hs & Hk & _ & _ & Hmax).
  apply (iteration_any fuel self (write_bytes data off (take k buf)) off buf k s i o) in Hit
    as [(-> & Hlo & Hsz)|[Hr|Hcol]]; [left|by right; left|by right; right|done|apply Hm].
  split; [done|]. by eapply mid_write_next.
Qed.

(** The chunks that the storage serves in the course of the loop. *)
Fixpoint read_backs (fuel : nat) (self : VerifiedFileEditor F) (buf : bytes) (offset : Z)
    (ps : list (Z * Z)) (st : MerkleLeaves * W) : list bytes :=
  match ps with
  | [] => []
  | p :: ps' =>
      read_back (ve_file self) (p.1 / CHUNK_SIZE) st.2 ++
      match write_at_iteration fuel self buf offset p st with
      | (Ok None, st') => read_backs fuel self buf offset ps' st'
      | _ => []
      end
  end.

(** A piece starts at the offset of the write or at a chunk boundary. *)
Definition cut_at (off : nat) (buf : bytes) (k : nat) : Prop :=
  k = O ∨ (∃ m : nat, off + k = m * CHUNK)%nat ∨ k = length buf.

(** The next piece of the plan, and that it ends where the following starts. *)
Lemma next_piece off buf (k : nat) rem :
  Z.of_nat off + len buf < 2 ^ 64 -> rem = len buf - Z.of_nat k -> 0 < rem ->
  let s := Z.min rem (CHUNK_SIZE - Z.of_nat (off + k) mod CHUNK_SIZE) in
  ∃ n i o : nat, s = Z.of_nat n ∧ piece off buf k n i o ∧ cut_at off buf (k + n) ∧
    Z.of_nat (off + k) / CHUNK_SIZE = Z.of_nat i.
Proof.
  intros Hmax -> Hrem s. pose proof (Z.mod_pos_bound (Z.of_nat (off + k)) CHUNK_SIZE ltac:(clia)).
  pose proof (Z.div_mod (Z.of_nat (off + k)) CHUNK_SIZE ltac:(clia)) as Hdm.
  pose proof (Z.div_pos (Z.of_nat (off + k)) CHUNK_SIZE ltac:(lia) ltac:(clia)).
  set (q := Z.of_nat (off + k) / CHUNK_SIZE) in *. set (m := Z.of_nat (off + k) mod CHUNK_SIZE) in *.
  exists (Z.to_nat s), (Z.to_nat q), (Z.to_nat m). unfold piece, cut_at. split_and!; try clia.
  destruct (decide (s = CHUNK_SIZE - m)) as [Hs|Hs]; [|right; right; clia].
  right. left. exists (S (Z.to_nat q)). clia.
Qed.

(** The block a piece changes is as it was before the call. *)
Lemma block_before_piece data off buf (k s i o : nat) :
  piece off buf k s i o -> cut_at off buf k ->
  let D := write_bytes data off (take k buf) in
  block D i = block data i ∧ ((i * CHUNK < length D)%nat -> (i * CHUNK < length data)%nat).
Proof.
  intros (Hs & Hk & Ho & Hos & _) Hcut D. unfold D.
  destruct Hcut as [->|[[m Hm]| ->]]; [done| |lia].
  destruct k as [|k]; [done|]. assert (i = m ∧ o = O) as [-> ->] by clia.
  assert (length (take (S k) buf) = S k) as Hl by (rewrite length_take; lia). split.
  - apply block_ext. intros j Hj. rewrite byte_at_write, decide_False; [done|lia].
  - rewrite length_write_bytes; [lia|]. intros He. by rewrite He in Hl.
Qed.

Lemma write_loop_inv `{!BufferTyped W F} fuel self data off buf :
  Z.of_nat off + len buf < 2 ^ 64 -> ∀ rem o, 0 <= rem ->
  ∀ (k : nat) t w r t' w',
  o = Z.of_nat (off + k) -> rem = len buf - Z.of_nat k -> cut_at off buf k ->
  mid_write data off buf k t ->
  for_list (write_at_iteration fuel self buf (Z.of_nat off)) (plan rem o CHUNK_SIZE) (t, w)
    = (r, (t', w')) ->
  (∃ k', (k' <= length buf)%nat ∧ mid_write data off buf k' t' ∧ (r = Ok None -> k' = length buf) ∧
         ∀ v, r = Ok (Some v) -> v = Z.of_nat k' ∧ 0 < v < len buf) ∨
  collision (read_backs fuel self buf (Z.of_nat off) (plan rem o CHUNK_SIZE) (t, w)) (blocks data).
Proof.
  intros Hmax. refine (plan_ind CHUNK_SIZE _ _ _ _); [clia|..].
  - intros o k t w r t' w' -> Hrem Hcut Hm. rewrite plan_nil by lia. intros [= <- <- <-].
    left. exists k. split_and!; [lia|done|lia|done].
  - intros rem o Hrem s Hs IH k t w r t' w' -> Hk Hcut Hm.
    destruct (next_piece off buf k rem) as (n & i & a & Hsn & Hp & Hcut' & Hi); [done..|]. subst s.
    rewrite plan_cons by clia. rewrite Hsn in Hs, IH |- *. cbn [for_list read_backs fst snd].
    rewrite Hi, M_bind_eq. destruct (write_at_iteration _ _ _ _ _ _) as [r1 [t1 w1]] eqn:Hit.
    pose proof Hp as (? & ? & _).
    apply (iteration_inv fuel self data off buf k n i a) in Hit as [[-> Hm1]|[(-> & Hr1 & Hv)|Hcol]];
      [| | |done|done].
    + intros Hf. edestruct (IH (k + n)%nat t1 w1 r t' w') as [IH'|IH'];
        [lia|lia|done|done|exact Hf|by left|].
      right. by apply collision_app_l.
    + intros Hf. left. exists k. split; [lia|].
      destruct r1 as [[v|]| | |]; [|done|..]; injection Hf as <- <- <-;
        (split; [done|]); (split; [done|]); try done.
      intros v' [= <-]. destruct (Hv v eq_refl). lia.
    + intros _. right. destruct (block_before_piece data off buf k n i a Hp Hcut) as [Hb Hlt].
      destruct Hcol as [Hlen (x & y & Hx & Hy & Hne & Hh)].
      apply list_elem_of_singleton in Hy as ->. exists x, (block data i). rewrite Hb in Hne, Hh.
      rewrite elem_of_app. split_and!; [by left|apply elem_of_blocks; auto|done|done].
Qed.

Lemma debug_assert_usize_ok {E} : debug_assert_usize_is_u64 (E := E) = Ok ().
Proof. unfold debug_assert_usize_is_u64. by apply debug_assert_ok. Qed.

Lemma write_at_eq fuel self buf (off : nat) st :
  Z.of_nat off + len buf < 2 ^ 64 ->
  VerifiedFileEditor_write_at fuel self buf (Z.of_nat off) st =
    (r ← for_list (write_at_iteration fuel self buf (Z.of_nat off))
           (plan (len buf) (Z.of_nat off) CHUNK_SIZE);
     mret (default (len buf) r)) st.
Proof.
  intros Hmax. unfold VerifiedFileEditor_write_at.
  erewrite M_bind_lift by apply debug_assert_usize_ok. rewrite !M_bind_eq.
  rewrite for_chunks_plan; [done|unfold csi_fuel; clia..].
Qed.

(** The chunks the storage serves during the call. *)
Definition served_to_write (fuel : nat) (self : VerifiedFileEditor F) (buf : bytes) (off : nat)
    (st : MerkleLeaves * W) : list bytes :=
  read_backs fuel self buf (Z.of_nat off) (plan (len buf) (Z.of_nat off) CHUNK_SIZE) st.

Lemma write_at_any_storage `{!BufferTyped W F} fuel self data buf (off : nat) t w r t' w' :
  represents t data -> Z.of_nat off + len buf < 2 ^ 64 ->
  VerifiedFileEditor_write_at fuel self buf (Z.of_nat off) (t, w) = (r, (t', w')) ->
  (∃ k, (k <= length buf)%nat ∧ mid_write data off buf k t' ∧ ∀ n, r = Ok n -> n = Z.of_nat k ∧
        (k = O -> buf = [])) ∨
  collision (served_to_write fuel self buf off (t, w)) (blocks data).
Proof.
  intros Hr Hmax. rewrite write_at_eq, M_bind_eq by done.
  destruct (for_list _ _ _) as [r1 [t1 w1]] eqn:Hf. intros Hres.
  eapply (write_loop_inv fuel self data off buf Hmax (len buf) (Z.of_nat off) ltac:(lia) O)
    in Hf as [(k & Hk & Hm & Hn & Hs)|Hc]; [| |f_equal; lia|lia|by left|by apply mid_write_start].
  - left. destruct r1 as [[v|]| | |]; injection Hres as <- <- <-; exists k; (split_and!; [done|done|]);
      intros n [= <-]; simpl.
    + destruct (Hs v eq_refl). split; [done|lia].
    + rewrite Hn by done. split; [done|]. by destruct buf.
  - right. done.
Qed.

(** *** resize *)

(** The content after truncation within chunk [i], [d] being what the storage
    returned for that chunk. *)
Definition truncated (data : bytes) (i r : nat) (d : bytes) : bytes :=
  take (i * CHUNK) data ++ take r d.

Lemma length_truncated data (i r : nat) d :
  (i * CHUNK <= length data)%nat -> (r <= length d)%nat ->
  length (truncated data i r d) = (i * CHUNK + r)%nat.
Proof. intros. unfold truncated. rewrite length_app, !length_take. lia. Qed.
Lemma block_truncated_other data (i r j : nat) d :
  (j < i)%nat -> (i * CHUNK <= length data)%nat -> block (truncated data i r d) j = block data j.
Proof.
  intros Hj Hi. apply block_ext. intros n Hn. unfold truncated.
  rewrite byte_at_app, length_take, decide_True, byte_at_take, decide_True by clia. done.
Qed.
Lemma block_truncated_same data (i r : nat) d :
  (i * CHUNK <= length data)%nat -> (r <= CHUNK)%nat -> length d = CHUNK ->
  take r d ++ zeros (CHUNK_SIZE - Z.of_nat r) = block (truncated data i r d) i.
Proof.
  intros Hi Hr Hd. apply block_unique.
  - rewrite length_app, length_take, length_zeros. clia.
  - intros j Hj. unfold truncated, zeros.
    rewrite !byte_at_app, byte_at_zeros, !length_take, (Nat.min_l _ _ Hi), (decide_False (P := (i * CHUNK + j < _)%nat)) by lia.
    replace (i * CHUNK + j - i * CHUNK)%nat with j by lia.
    case_decide; [done|]. rewrite byte_at_ge; [done|]. rewrite length_take. lia.
Qed.

Lemma rehash_unchanged self size t data w :
  represents t data -> 0 <= size -> (len data <= size ∨ size mod CHUNK_SIZE = 0) ->
  rehash_new_tail self size t w = (Ok t, w).
Proof.
  intros [_ Hsz] Hn Hc. unfold rehash_new_tail.
  erewrite M_bind_lift by (apply rem_u64_ok; clia). unfold file_size. rewrite Hsz.
  assert ((size <? len data) && (size mod CHUNK_SIZE >? 0) = false) as ->; [|done].
  apply andb_false_iff. lia.
Qed.

(** The new last chunk is hashed as the storage returned it, unverified. *)
Lemma rehash_tail self (i r : nat) t data w s d w1 :
  represents t data -> (0 < r < CHUNK)%nat -> (i * CHUNK + r < length data)%nat -> len data < 2 ^ 64 ->
  read_chunk (ve_file self) (Z.of_nat i) (zeros CHUNK_SIZE) w = (Ok (s, d), w1) ->
  length d = CHUNK -> (debug_assertions = true -> Z.of_nat r <= s) ->
  ∃ t1, rehash_new_tail self (Z.of_nat (i * CHUNK + r)) t w = (Ok t1, w1) ∧
    leaves t1 = <[i := sha256 (block (truncated data i r d) i)]> (leaves t).
Proof.
  intros Hrep Hr Hlt H64 Hrd Hd Hs. pose proof (represents_len t data Hrep) as Hl. destruct Hrep as [_ Hsz].
  assert (Z.of_nat i < len (leaves t)) by (rewrite Hl; apply cdiv_lt; clia).
  assert (Z.of_nat (i * CHUNK + r) mod CHUNK_SIZE = Z.of_nat r) as Hmod
    by (symmetry; apply (Z.mod_unique _ _ (Z.of_nat i)); clia).
  assert (Z.of_nat (i * CHUNK + r) / CHUNK_SIZE = Z.of_nat i) as Hdiv
    by (symmetry; apply (Z.div_unique _ _ _ (Z.of_nat r)); clia).
  unfold rehash_new_tail. erewrite M_bind_lift by (apply rem_u64_ok; clia).
  unfold file_size. rewrite Hsz, Hmod.
  assert ((Z.of_nat (i * CHUNK + r) <? len data) && (Z.of_nat r >? 0) = true) as ->
    by (apply andb_true_intro; split; [apply Z.ltb_lt; lia|apply Z.gtb_lt; lia]).
  erewrite M_bind_lift by (apply rem_u64_ok; clia). erewrite M_bind_lift by (apply div_u64_ok; clia).
  rewrite Hmod, Hdiv. replace (Z.of_nat r >? 0) with true by lia.
  erewrite M_bind_Ok by exact Hrd. cbv beta iota.
  assert (debug_assert (E := io_error) (Z.of_nat r <=? s) = Ok ()) as Hda.
  { unfold debug_assert. destruct debug_assertions; [|done]. replace (_ <=? _) with true by lia. done. }
  erewrite M_bind_lift by exact Hda. erewrite M_bind_lift by (apply sub_u64_ok; clia).
  unfold slice_to. rewrite slice_ok by clia. erewrite M_bind_lift by (hash_step; rewrite bind_Ok; by hash_run).
  cbn [app]. rewrite subrange_0, Nat2Z.id, (block_truncated_same data i) by lia.
  rewrite update_hash_ok by clia. eexists. split; [done|]. cbn [leaves].
  rewrite Nat2Z.id, Nat.max_l, resize_all by lia. done.
Qed.

(** The storage's own [resize] aside, what [resize] leaves in the tree. *)
Lemma resize_truncates self (i r : nat) t data w s d w1 w2 :
  represents t data -> (0 < r < CHUNK)%nat -> (i * CHUNK + r < length data)%nat ->
  len data + CHUNK_SIZE < 2 ^ 64 ->
  read_chunk (ve_file self) (Z.of_nat i) (zeros CHUNK_SIZE) w = (Ok (s, d), w1) ->
  length d = CHUNK -> (debug_assertions = true -> Z.of_nat r <= s) ->
  resize_to (ve_file self) (Z.of_nat (i * CHUNK + r)) w1 = (Ok (), w2) ->
  ∃ t', VerifiedFileEditor_resize self (Z.of_nat (i * CHUNK + r)) (t, w) = (Ok (), (t', w2)) ∧
    represents t' (truncated data i r d).
Proof.
  intros Hrep Hr Hlt H64 Hrd Hd Hs Hrs.
  destruct (rehash_tail self i r t data w s d w1) as (t1 & Hre & Hl1); [done|done|done|clia|done..|].
  pose proof (represents_len t data Hrep) as Hl.
  assert (Z.of_nat i < len (leaves t)) by (rewrite Hl; apply cdiv_lt; clia).
  set (X := truncated data i r d) in *.
  assert (length X = i * CHUNK + r)%nat as HX by (apply length_truncated; lia).
  assert (resize_bytes X (Z.to_nat (Z.of_nat (i * CHUNK + r))) = X) as HrX
    by (unfold resize_bytes; by rewrite Nat2Z.id, <- HX, resize_all).
  destruct (ml_resize_represents (E := io_error) t1 X (Z.of_nat (i * CHUNK + r))) as (t' & Ht' & Hrep').
  - lia.
  - clia.
  - rewrite HrX, Hl1. intros j h Hj. rewrite lookup_take in Hj. case_decide as Hlt'; [|done].
    assert (cdiv (Z.of_nat (i * CHUNK + r)) CHUNK_SIZE <= Z.of_nat i + 1) by (apply cdiv_le; clia).
    apply list_lookup_insert_Some in Hj as [(<- & -> & _)|[Hne Hj]]; [done|].
    unfold X. rewrite block_truncated_other by lia. by apply (represents_match _ _ Hrep).
  - rewrite Hl1, length_insert, HX. clia.
  - rewrite HrX in Hrep'. exists t'. split; [|done]. unfold VerifiedFileEditor_resize.
    erewrite M_bind_lift by apply debug_assert_usize_ok. rewrite M_bind_eq. cbn [get fst].
    rewrite M_bind_eq. cbn [on_snd]. rewrite Hre. rewrite M_bind_eq. cbn [on_fst put].
    rewrite M_bind_eq. cbn [on_snd]. rewrite Hrs. cbv beta iota. by erewrite M_bind_lift by exact Ht'.
Qed.

(** Growing, or truncating at a chunk boundary: the storage is not consulted. *)
Lemma resize_at_boundary self size t data w w2 :
  represents t data -> 0 <= size -> size + CHUNK_SIZE < 2 ^ 64 ->
  (len data <= size ∨ size mod CHUNK_SIZE = 0) ->
  resize_to (ve_file self) size w = (Ok (), w2) ->
  ∃ t', VerifiedFileEditor_resize self size (t, w) = (Ok (), (t', w2)) ∧
    represents t' (resize_bytes data (Z.to_nat size)).
Proof.
  intros Hrep Hn H64 Hc Hrs.
  assert (∃ t', ml_resize (E := io_error) t size = Ok t' ∧
            represents t' (resize_bytes data (Z.to_nat size))) as (t' & Ht' & Hrep').
  { destruct (decide (len data <= size)) as [Hge|Hlt]; [by apply ml_resize_grow|].
    destruct Hc as [|Hmod]; [done|]. pose proof (Z.div_mod size CHUNK_SIZE ltac:(clia)) as Hdm.
    pose proof (represents_len t data Hrep) as Hl.
    apply ml_resize_represents; [done|done| |rewrite Hl; apply cdiv_le; clia].
    intros j h Hj. rewrite lookup_take in Hj. case_decide as Hlt'; [|done].
    rewrite (represents_match _ _ Hrep j h Hj). f_equal. apply block_ext. intros n Hn'.
    rewrite byte_at_resize, decide_True; [done|].
    assert (cdiv size CHUNK_SIZE <= size / CHUNK_SIZE) by (apply cdiv_le; clia). clia. }
  exists t'. split; [|done]. unfold VerifiedFileEditor_resize.
  erewrite M_bind_lift by apply debug_assert_usize_ok. rewrite M_bind_eq. cbn [get fst].
  rewrite M_bind_eq. cbn [on_snd]. rewrite (rehash_unchanged self size t data w) by done.
  rewrite M_bind_eq. cbn [on_fst put]. rewrite M_bind_eq. cbn [on_snd]. rewrite Hrs.
  cbv beta iota. by erewrite M_bind_lift by exact Ht'.
Qed.
End Integrity.

(** ** Functional correctness over an honest store *)
Section Honest.
Context `{Profile} `{Sha256Spec} {W F : Type} `{StoresContent W F}.

Lemma stored_block f w data (i : nat) :
  store_ok w f -> content w f = data -> len data <= stored_max -> (i * CHUNK < length data)%nat ->
  read_chunk f (Z.of_nat i) (zeros CHUNK_SIZE) w =
    (Ok (len (chunk_of data (Z.of_nat i)), block data i), w).
Proof.
  intros Hok <- Hmax Hi. rewrite <- chunk_of_over_zeros.
  apply stored_read; [done|done|lia|clia|apply length_zeros].
Qed.

Lemma new_chunk_hash_honest self source (o i : nat) t data w :
  store_ok w (ve_file self) -> content w (ve_file self) = data -> len data <= stored_max ->
  leaves_of t data -> (o + length source <= CHUNK)%nat ->
  new_chunk_hash self source (Z.of_nat o) (len source) (Z.of_nat i) t w =
    (Ok (sha256 (block (write_bytes data (i * CHUNK + o) source) i)), w).
Proof.
  intros Hok Hc Hmax Hlo Ho. unfold new_chunk_hash. destruct (len source =? CHUNK_SIZE) eqn:Hs.
  - hash_run. cbn [map_err app]. rewrite <- block_write_same by done.
    assert (o = O) as -> by clia. cbn [take app Nat.add].
    by rewrite drop_ge, app_nil_r by (rewrite length_block; clia).
  - destruct (decide (i * CHUNK < length data)%nat) as [Hi|Hi];
      [|by rewrite (incomplete_hash_fresh self source o i t data) by (done || lia)].
    erewrite (incomplete_hash_read_back self source o i t data)
      by first [done | by apply stored_block | apply length_block].
    by rewrite decide_True, block_write_same by done.
Qed.

Lemma iteration_stored fuel self data off buf (k s i o : nat) t w :
  (CHUNK < fuel)%nat -> len data <= stored_max -> Z.of_nat off + len buf <= stored_max ->
  piece off buf k s i o -> leaves_of t data -> store_ok w (ve_file self) -> content w (ve_file self) = data ->
  ∃ t' w', write_at_iteration fuel self buf (Z.of_nat off) (Z.of_nat (off + k), Z.of_nat s) (t, w)
             = (Ok None, (t', w')) ∧
    leaves_of t' (write_bytes data (off + k) (take s (drop k buf))) ∧
    ml_file_size t' = Z.max (ml_file_size t) (saturating_add_u64 (Z.of_nat off) (len buf)) ∧
    store_ok w' (ve_file self) ∧
    content w' (ve_file self) = write_bytes data (off + k) (take s (drop k buf)).
Proof.
  intros Hfuel Hd Hmax Hp Hlo Hok Hc. rewrite (iteration_eq fuel self buf off k s i o) by done. cbv zeta.
  pose proof Hp as (Hs & Hk & Ho & Hos & H64). set (src := take s (drop k buf)).
  assert (length src = s) as Hl by (unfold src; rewrite length_take, length_drop; lia).
  assert (src <> []) as Hne by (intros He; rewrite He in Hl; simpl in Hl; lia).
  rewrite (new_chunk_hash_honest self src o i t data w Hok Hc Hd) by (done || lia). rewrite <- Ho.
  pose proof write_max_chunk as Hwm.
  destruct (write_all_loop_ok fuel (ve_file self) src O (Z.of_nat (off + k)) w) as (w2 & Hw & Hok2 & Hc2);
    [done|clia..|]. rewrite Z.add_0_r in Hw. change (Z.of_nat 0) with 0 in Hw. unfold write_all_at. rewrite M_bind_eq. cbn [on_snd].
  rewrite Hw. cbv beta iota.
  edestruct (update_hash_leaves (E := io_error) data (off + k) i src t) as (t2 & Hu & Hlo2 & Hsz); [done|done|lia..|reflexivity|].
  erewrite M_bind_lift by exact Hu. exists t2, w2. split_and!; [done|done|done|done|].
  by rewrite Hc2, Hc, Nat2Z.id, Nat.add_0_r, drop_0.
Qed.
Lemma iteration_honest fuel self data off buf (k s i o : nat) t w :
  (CHUNK < fuel)%nat -> len data <= stored_max -> Z.of_nat off + len buf <= stored_max ->
  piece off buf k s i o -> mid_write data off buf k t -> store_ok w (ve_file self) ->
  content w (ve_file self) = write_bytes data off (take k buf) ->
  ∃ t' w', write_at_iteration fuel self buf (Z.of_nat off) (Z.of_nat (off + k), Z.of_nat s) (t, w)
             = (Ok None, (t', w')) ∧
    mid_write data off buf (k + s) t' ∧ store_ok w' (ve_file self) ∧
    content w' (ve_file self) = write_bytes data off (take (k + s) buf).
Proof.
  intros Hfuel Hd Hmax Hp Hm Hok Hc. pose proof Hp as (Hs & Hk & _ & _ & H64).
  assert (len (write_bytes data off (take k buf)) <= stored_max) as Hlen.
  { destruct (take k buf) eqn:E; [done|]. rewrite <- E. rewrite length_write_bytes by (by rewrite E).
    rewrite length_take. lia. }
  destruct (iteration_stored fuel self (write_bytes data off (take k buf)) off buf k s i o t w)
    as (t' & w' & Hit & Hlo & Hsz & Hok' & Hc'); [done|done|done|done|apply Hm|done|done|].
  exists t', w'. split_and!; [done|by eapply mid_write_next|done|]. by rewrite Hc', write_bytes_take_snoc.
Qed.

Lemma write_loop_honest fuel self data off buf :
  (CHUNK < fuel)%nat -> len data <= stored_max -> Z.of_nat off + len buf <= stored_max ->
  Z.of_nat off + len buf < 2 ^ 64 -> ∀ rem o, 0 <= rem -> ∀ (k : nat) t w,
  o = Z.of_nat (off + k) -> rem = len buf - Z.of_nat k ->
  mid_write data off buf k t -> store_ok w (ve_file self) ->
  content w (ve_file self) = write_bytes data off (take k buf) ->
  ∃ t' w', for_list (write_at_iteration fuel self buf (Z.of_nat off)) (plan rem o CHUNK_SIZE) (t, w)
             = (Ok None, (t', w')) ∧
    mid_write data off buf (length buf) t' ∧ store_ok w' (ve_file self) ∧
    content w' (ve_file self) = write_bytes data off buf.
Proof.
  intros Hfuel Hd Hmax H64. refine (plan_ind CHUNK_SIZE _ _ _ _); [clia|..].
  - intros o k t w -> Hrem Hm Hok Hc. rewrite plan_nil by lia. exists t, w.
    assert (k = length buf) as -> by lia. rewrite take_ge in Hc by done. done.
  - intros rem o Hrem s Hs IH k t w -> Hk Hm Hok Hc.
    destruct (next_piece off buf k rem) as (n & i & a & Hsn & Hp & _ & _); [done..|]. subst s.
    rewrite plan_cons by clia. rewrite Hsn in Hs, IH |- *. cbn [for_list].
    destruct (iteration_honest fuel self data off buf k n i a t w) as (t1 & w1 & Hit & Hm1 & Hok1 & Hc1);
      [done..|]. erewrite M_bind_Ok by exact Hit. apply (IH (k + n)%nat); [lia|lia|done..].
Qed.

Lemma write_at_honest fuel self data buf (off : nat) t w :
  (CHUNK < fuel)%nat -> len data <= stored_max -> Z.of_nat off + len buf <= stored_max ->
  Z.of_nat off + len buf < 2 ^ 64 ->
  represents t data -> store_ok w (ve_file self) -> content w (ve_file self) = data ->
  ∃ t' w', VerifiedFileEditor_write_at fuel self buf (Z.of_nat off) (t, w) = (Ok (len buf), (t', w')) ∧
    represents t' (write_bytes data off buf) ∧ store_ok w' (ve_file self) ∧
    content w' (ve_file self) = write_bytes data off buf.
Proof.
  intros Hfuel Hd Hmax H64 Hr Hok Hc. rewrite write_at_eq by done.
  destruct (write_loop_honest fuel self data off buf Hfuel Hd Hmax H64 (len buf) (Z.of_nat off)
    ltac:(lia) O t w) as (t' & w' & Hf & Hm & Hok' & Hc');
    [f_equal; lia|lia|by apply mid_write_start|done|done|].
  exists t', w'. rewrite M_bind_eq, Hf. by apply mid_write_end in Hm.
Qed.

Lemma truncated_honest data (i r : nat) :
  (i * CHUNK + r < length data)%nat -> (r <= CHUNK)%nat ->
  truncated data i r (block data i) = resize_bytes data (i * CHUNK + r).
Proof.
  intros Hlt Hr. apply byte_at_ext.
  - rewrite length_truncated, length_resize_bytes by (rewrite ?length_block; lia). done.
  - intros j. unfold truncated.
    rewrite byte_at_resize, byte_at_app, !byte_at_take, length_take. repeat case_decide; try lia; try done.
    rewrite byte_at_block by lia. f_equal. lia.
Qed.

Lemma resize_honest self size data t w :
  len data <= stored_max -> 0 <= size <= stored_max ->
  len data + CHUNK_SIZE < 2 ^ 64 -> size + CHUNK_SIZE < 2 ^ 64 ->
  represents t data -> store_ok w (ve_file self) -> content w (ve_file self) = data ->
  ∃ t' w', VerifiedFileEditor_resize self size (t, w) = (Ok (), (t', w')) ∧
    represents t' (resize_bytes data (Z.to_nat size)) ∧ store_ok w' (ve_file self) ∧
    content w' (ve_file self) = resize_bytes data (Z.to_nat size).
Proof.
  intros Hd Hn H64 H64' Hrep Hok Hc.
  destruct (stored_resize (ve_file self) size w Hok Hn) as (w2 & Hrs & Hok2 & Hc2). rewrite Hc in Hc2.
  destruct (decide (len data <= size ∨ size mod CHUNK_SIZE = 0)) as [Hb|Hb].
  - destruct (resize_at_boundary self size t data w w2) as (t' & ? & ?); [done|lia|done..|]. by exists t', w2.
  - apply Decidable.not_or in Hb as [Hlt Hmod].
    pose proof (Z.div_mod size CHUNK_SIZE ltac:(clia)) as Hdm.
    pose proof (Z.mod_pos_bound size CHUNK_SIZE ltac:(clia)).
    pose proof (Z.div_pos size CHUNK_SIZE ltac:(lia) ltac:(clia)).
    set (i := Z.to_nat (size / CHUNK_SIZE)). set (r := Z.to_nat (size mod CHUNK_SIZE)).
    assert (size = Z.of_nat (i * CHUNK + r)) as Hsz by (unfold i, r; clia).
    rewrite Hsz in Hrs, Hc2, Hlt |- *. rewrite Nat2Z.id in Hc2 |- *.
    rewrite <- truncated_honest in Hc2 |- * by (unfold r; clia).
    destruct (resize_truncates self i r t data w (len (chunk_of data (Z.of_nat i))) (block data i) w w2)
      as (t' & ? & ?); [done|unfold r; clia|lia|done| |apply length_block| |done|by exists t', w2].
    + apply stored_block; [done|done|done|lia].
    + intros _. rewrite len_chunk_of by lia. unfold r. clia.
Qed.
End Honest.

(** ** Edit histories: the editor refines a plain file *)
Inductive edit :=
| EWrite (buf : bytes) (off : nat)
| EResize (size : nat).

(** The specification: pwrite(2) and ftruncate(2) on a list of bytes. *)
Definition apply_edit (data : bytes) (e : edit) : bytes :=
  match e with
  | EWrite buf off => write_bytes data off buf
  | EResize size => resize_bytes data size
  end.
Definition edit_bound (max : Z) (e : edit) : Prop :=
  match e with
  | EWrite buf off => Z.of_nat off + len buf <= max
  | EResize size => Z.of_nat size <= max
  end.

Definition run_edit `{Profile} `{Sha256Ffi} {W F} `{ReadByChunk W F} `{RandomWrite W F}
    (fuel : nat) (self : VerifiedFileEditor F) (e : edit) : M (MerkleLeaves * W) io_error unit :=
  match e with
  | EWrite buf off => _ ← VerifiedFileEditor_write_at fuel self buf (Z.of_nat off); mret ()
  | EResize size => VerifiedFileEditor_resize self (Z.of_nat size)
  end.
Definition run_edits `{Profile} `{Sha256Ffi} {W F} `{ReadByChunk W F} `{RandomWrite W F}
    (fuel : nat) (self : VerifiedFileEditor F) (es : list edit) : M (MerkleLeaves * W) io_error unit :=
  try_fold (λ _, run_edit fuel self) () es.

Section Histories.
Context `{Profile} `{Sha256Spec} {W F : Type} `{StoresContent W F}.

Lemma apply_edit_bound max data e :
  len data <= max -> edit_bound max e -> len (apply_edit data e) <= max.
Proof.
  intros Hd He. destruct e as [buf off|n]; simpl in *; [|by rewrite length_resize_bytes].
  destruct buf as [|b buf]; [done|]. rewrite length_write_bytes by done. lia.
Qed.

(** The simulation: tree, store and specification move together. *)
Definition in_step (self : VerifiedFileEditor F) (st : MerkleLeaves * W) (data : bytes) : Prop :=
  represents st.1 data ∧ store_ok st.2 (ve_file self) ∧ content st.2 (ve_file self) = data.

Lemma run_edit_sim fuel self e st data max :
  (CHUNK < fuel)%nat -> max <= stored_max -> max + CHUNK_SIZE < 2 ^ 64 -> len data <= max ->
  edit_bound max e -> in_step self st data ->
  ∃ st', run_edit fuel self e st = (Ok (), st') ∧ in_step self st' (apply_edit data e).
Proof.
  intros Hf Hmax H64 Hd He (Hr & Hok & Hc). destruct st as [t w]. cbn [fst snd] in *.
  destruct e as [buf off|n]; cbn [run_edit apply_edit edit_bound] in *.
  - destruct (write_at_honest fuel self data buf off t w) as (t' & w' & Hw & ?); [done|clia|clia|clia|done..|].
    exists (t', w'). by erewrite M_bind_Ok by exact Hw.
  - destruct (resize_honest self (Z.of_nat n) data t w) as (t' & w' & Hw & Hrs); [clia|clia|clia|clia|done..|].
    rewrite Nat2Z.id in Hrs. by exists (t', w').
Qed.
Lemma run_edits_sim fuel self es st data max :
  (CHUNK < fuel)%nat -> max <= stored_max -> max + CHUNK_SIZE < 2 ^ 64 -> len data <= max ->
  Forall (edit_bound max) es -> in_step self st data ->
  ∃ st', run_edits fuel self es st = (Ok (), st') ∧
    in_step self st' (foldl apply_edit data es) ∧ len (foldl apply_edit data es) <= max.
Proof.
  intros Hf Hmax H64. revert st data. induction es as [|e es IH]; intros st data Hd Hes Hst.
  - by exists st.
  - apply Forall_cons in Hes as [He Hes].
    destruct (run_edit_sim fuel self e st data max) as (st1 & Hr & Hst1); [done..|].
    destruct (IH st1 (apply_edit data e)) as (st2 & Hr2 & Hst2); [by apply apply_edit_bound|done..|].
    exists st2. split; [|done]. unfold run_edits. cbn [try_fold]. by erewrite M_bind_Ok by exact Hr.
Qed.

Lemma history_digest fuel (f : F) (w : W) es max :
  debug_assertions = false -> (CHUNK < fuel)%nat ->
  max <= stored_max -> max + 2 ^ 20 < 2 ^ 64 -> Forall (edit_bound max) es ->
  store_ok w f -> content w f = [] ->
  let '(self, t) := VerifiedFileEditor_new f in
  ∃ st', run_edits fuel self es (t, w) = (Ok (), st') ∧
    content st'.2 f = foldl apply_edit [] es ∧
    VerifiedFileEditor_calculate_fsverity_digest self st' =
      (Ok (fsverity_digest (foldl apply_edit [] es)), st').
Proof.
  intros Hdbg Hf Hmax H64 Hes Hok Hc. cbn [VerifiedFileEditor_new].
  destruct (decide (0 <= max)) as [Hm|Hm].
  2: { destruct es as [|e es]; [|apply Forall_cons in Hes as [He _]; destruct e; simpl in He; lia].
       exists (ml_new, w). split_and!; [done|done|].
       unfold VerifiedFileEditor_calculate_fsverity_digest. erewrite M_bind_Ok by reflexivity.
       cbn [fst]. by rewrite (calculate_digest_ok ml_new []) by (done || simpl; lia). }
  destruct (run_edits_sim fuel {| ve_file := f |} es (ml_new, w) [] max)
    as (st' & Hr & (Hrep & _ & Hc') & Hl); [done|done|clia|simpl; lia|done|by split|].
  exists st'. split_and!; [done|done|].
  unfold VerifiedFileEditor_calculate_fsverity_digest. erewrite M_bind_Ok by reflexivity.
  unfold lift. by rewrite (calculate_digest_ok st'.1 (foldl apply_edit [] es)) by (done || lia).
Qed.
End Histories.

(** ** Claims *)

(** C4: an editor over an honest store refines a plain file.  From a new,
    empty file, any sequence of writes (at any offset, across chunks, beyond
    the end) and resizes succeeds; afterwards the store holds exactly the
    content that pwrite and ftruncate define, and the digest that the editor
    reports from its private leaves is the fs-verity digest of that content. *)
Theorem editor_history_digest `{Profile} `{Sha256Spec} {W F} `{StoresContent W F}
    fuel (f : F) (w : W) es max :
  debug_assertions = false -> (CHUNK < fuel)%nat ->
  max <= stored_max -> max + 2 ^ 20 < 2 ^ 64 -> Forall (edit_bound max) es ->
  store_ok w f -> content w f = [] ->
  let '(self, t) := VerifiedFileEditor_new f in
  ∃ st', run_edits fuel self es (t, w) = (Ok (), st') ∧
    content st'.2 f = foldl apply_edit [] es ∧
    VerifiedFileEditor_calculate_fsverity_digest self st' =
      (Ok (fsverity_digest (foldl apply_edit [] es)), st').
Proof. apply history_digest. Qed.

(** a write over an honest store, with a tree that is the tree of the
    stored content, writes the whole buffer and leaves the tree the tree of
    the new content: complete chunks, partial chunks at both ends, and holes
    beyond the end of the file. *)
Theorem editor_write_correct `{Profile} `{Sha256Spec} {W F} `{StoresContent W F}
    fuel (self : VerifiedFileEditor F) data buf (off : nat) t w :
  (CHUNK < fuel)%nat -> len data <= stored_max -> Z.of_nat off + len buf <= stored_max ->
  Z.of_nat off + len buf < 2 ^ 64 ->
  represents t data -> store_ok w (ve_file self) -> content w (ve_file self) = data ->
  ∃ t' w', VerifiedFileEditor_write_at fuel self buf (Z.of_nat off) (t, w) = (Ok (len buf), (t', w')) ∧
    represents t' (write_bytes data off buf) ∧ store_ok w' (ve_file self) ∧
    content w' (ve_file self) = write_bytes data off buf.
Proof. apply write_at_honest. Qed.

(** C3: integrity of writes against arbitrary storage.  Whatever the storage
    answers and however the call ends (success, short write, error, panic),
    the leaves are afterwards those of the authentic content with a prefix of
    the buffer written, and a returned count is the length of that prefix; a
    complete write leaves the tree of the new content.  Otherwise the storage
    served, during this call, a chunk that collides with a block of the file. *)
Theorem editor_write_integrity `{Profile} `{Sha256Spec} {W F} `{ReadByChunk W F} `{RandomWrite W F}
    `{!BufferTyped W F} fuel (self : VerifiedFileEditor F) data buf (off : nat) t w r t' w' :
  represents t data -> Z.of_nat off + len buf < 2 ^ 64 ->
  VerifiedFileEditor_write_at fuel self buf (Z.of_nat off) (t, w) = (r, (t', w')) ->
  (∃ k, (k <= length buf)%nat ∧ leaves_of t' (write_bytes data off (take k buf)) ∧
        (∀ n, r = Ok n -> n = Z.of_nat k) ∧
        (r = Ok (len buf) -> represents t' (write_bytes data off buf))) ∨
  collision (served_to_write fuel self buf off (t, w)) (blocks data).
Proof.
  intros Hr Hmax Hw. apply (write_at_any_storage fuel self data) in Hw as [(k & Hk & Hm & Hn)|Hc];
    [|by right|done|done].
  left. exists k. split_and!; [done|apply Hm|intros n Hr'; by apply Hn|].
  intros Hr'. apply Hn in Hr' as [Hr' _]. apply mid_write_end. by replace (length buf) with k by lia.
Qed.

(** A partial write into a chunk for which the storage returns something else. *)
Lemma tampered_write `{Profile} `{Sha256Spec} {W F} `{ReadByChunk W F}
    `{RandomWrite W F} fuel (self : VerifiedFileEditor F) data buf (i o : nat) t w n d w1 :
  leaves_of t data -> buf <> [] -> (o + length buf <= CHUNK)%nat -> (length buf < CHUNK)%nat ->
  (i * CHUNK < length data)%nat -> len data + CHUNK_SIZE < 2 ^ 64 ->
  read_chunk (ve_file self) (Z.of_nat i) (zeros CHUNK_SIZE) w = (Ok (n, d), w1) ->
  length d = CHUNK -> d <> block data i ->
  VerifiedFileEditor_write_at fuel self buf (Z.of_nat (i * CHUNK + o)) (t, w)
    = (Err (IoNew InvalidData "Inconsistent hash"), (t, w1)) ∨
  collision [d] [block data i].
Proof.
  intros Hlo Hne Ho Hlt Hi H64 Hrd Hd Htam.
  destruct (decide (sha256 (block data i) = sha256 d)) as [Heq|Hneq].
  { right. exists d, (block data i). by rewrite !list_elem_of_singleton. }
  left. assert (0 < length buf)%nat by (destruct buf; [done|simpl; lia]).
  rewrite write_at_eq, plan_cons by clia. cbn [for_list].
  assert (Z.of_nat (i * CHUNK + o) mod CHUNK_SIZE = Z.of_nat o) as ->
    by (symmetry; apply (Z.mod_unique _ _ (Z.of_nat i)); clia).
  replace (Z.min _ _) with (Z.of_nat (length buf)) by clia.
  pose proof (iteration_eq fuel self buf (i * CHUNK + o) 0 (length buf) i o t w) as Hit.
  rewrite Nat.add_0_r, drop_0, take_ge in Hit by done. rewrite !M_bind_eq.
  rewrite Hit by (unfold piece; clia). unfold new_chunk_hash.
  replace (len buf =? CHUNK_SIZE) with false by clia.
  erewrite (incomplete_hash_read_back self buf o i t data) by done.
  by rewrite decide_False.
Qed.

(** C26: tampering is detected before it is hashed in.  When the storage
    returns, for the chunk that a partial write falls into, anything but the
    authentic block, the write fails with [InvalidData] before it writes
    anything and the tree is unchanged, unless the answer collides with the
    block. *)
Theorem editor_rejects_tampered_chunk `{Profile} `{Sha256Spec} {W F} `{ReadByChunk W F}
    `{RandomWrite W F} fuel (self : VerifiedFileEditor F) data buf (i o : nat) t w n d w1 :
  represents t data -> buf <> [] -> (o + length buf <= CHUNK)%nat -> (length buf < CHUNK)%nat ->
  (i * CHUNK < length data)%nat -> len data + CHUNK_SIZE < 2 ^ 64 ->
  read_chunk (ve_file self) (Z.of_nat i) (zeros CHUNK_SIZE) w = (Ok (n, d), w1) ->
  length d = CHUNK -> d <> block data i ->
  VerifiedFileEditor_write_at fuel self buf (Z.of_nat (i * CHUNK + o)) (t, w)
    = (Err (IoNew InvalidData "Inconsistent hash"), (t, w1)) ∨
  collision [d] [block data i].
Proof. intros Hrep. apply tampered_write. by apply leaves_of_represents. Qed.

(** a resize over an honest store truncates or extends with zeros, and
    the tree stays the tree of the resized content, on every branch: growing,
    truncating at a chunk boundary, and truncating within a chunk. *)
Theorem editor_resize_correct `{Profile} `{Sha256Spec} {W F} `{StoresContent W F}
    (self : VerifiedFileEditor F) size data t w :
  len data <= stored_max -> 0 <= size <= stored_max ->
  len data + CHUNK_SIZE < 2 ^ 64 -> size + CHUNK_SIZE < 2 ^ 64 ->
  represents t data -> store_ok w (ve_file self) -> content w (ve_file self) = data ->
  ∃ t' w', VerifiedFileEditor_resize self size (t, w) = (Ok (), (t', w')) ∧
    represents t' (resize_bytes data (Z.to_nat size)) ∧ store_ok w' (ve_file self) ∧
    content w' (ve_file self) = resize_bytes data (Z.to_nat size).
Proof. apply resize_honest. Qed.

(** C36: truncation within a chunk trusts the storage.  Unlike a partial
    write, the chunk read back is not checked against its leaf: whatever the
    storage returns for it, its first bytes become the tail of the content
    that the tree vouches for, in place of the bytes the client wrote. *)
Theorem editor_truncate_unverified `{Profile} `{Sha256Spec} {W F} `{ReadByChunk W F}
    `{RandomWrite W F} (self : VerifiedFileEditor F) (i r : nat) t data w s d w1 w2 :
  represents t data -> (0 < r < CHUNK)%nat -> (i * CHUNK + r < length data)%nat ->
  len data + CHUNK_SIZE < 2 ^ 64 ->
  read_chunk (ve_file self) (Z.of_nat i) (zeros CHUNK_SIZE) w = (Ok (s, d), w1) ->
  length d = CHUNK -> Z.of_nat r <= s ->
  resize_to (ve_file self) (Z.of_nat (i * CHUNK + r)) w1 = (Ok (), w2) ->
  ∃ t', VerifiedFileEditor_resize self (Z.of_nat (i * CHUNK + r)) (t, w) = (Ok (), (t', w2)) ∧
    represents t' (take (i * CHUNK) data ++ take r d).
Proof. intros. by eapply resize_truncates. Qed.

(** C37: a short write overstates the file size.  When [write_at] returns
    fewer bytes than asked (a later chunk could not be read back), the
    recorded size is already that of the full write; it exceeds the content
    of which the leaves are the tree whenever the write extends the file. *)
Theorem short_write_overstates_size `{Profile} `{Sha256Spec} {W F} `{ReadByChunk W F}
    `{RandomWrite W F} `{!BufferTyped W F} fuel (self : VerifiedFileEditor F) data buf (off : nat)
    t w n t' w' :
  represents t data -> Z.of_nat off + len buf < 2 ^ 64 -> len data < Z.of_nat off + len buf ->
  VerifiedFileEditor_write_at fuel self buf (Z.of_nat off) (t, w) = (Ok n, (t', w')) -> n < len buf ->
  (let data' := write_bytes data off (take (Z.to_nat n) buf) in
   leaves_of t' data' ∧ len data' < ml_file_size t' ∧ ml_file_size t' = Z.of_nat off + len buf) ∨
  collision (served_to_write fuel self buf off (t, w)) (blocks data).
Proof.
  intros Hr Hmax Hext Hw Hn. apply (write_at_any_storage fuel self data) in Hw as [(k & Hk & Hm & Hnk)|Hc];
    [|by right|done|done].
  left. destruct (Hnk n eq_refl) as [-> Hk0]. rewrite Nat2Z.id. destruct Hm as [Hlo Hsz].
  split; [done|]. destruct k as [|k]; [rewrite Hk0 in Hn by done; simpl in Hn; lia|].
  rewrite decide_False in Hsz by done.
  assert (length (take (S k) buf) = S k) as Hl by (rewrite length_take; lia).
  rewrite length_write_bytes by (intros He; by rewrite He in Hl). lia.
Qed.

(** ** Witnesses: the in-memory store of the tests *)
Section Witness.
#[local] Existing Instance debug_profile.

Definition mem_editor : VerifiedFileEditor unit := {| ve_file := () |}.
Definition store (data : bytes) : InMemoryEditor := {| im_data := data; im_fail_read := false |}.
Definition sample_edits : list edit := [EWrite [1; 2; 3] 5000; EResize 4100; EWrite [9] 0].

Lemma editor_history_digest_witness :
  ∃ st', run_edits (H := release_profile) 4097 mem_editor sample_edits (ml_new, store []) = (Ok (), st') ∧
    content (StoresContent := InMemoryEditor_stores (H := release_profile)) st'.2 () = foldl apply_edit [] sample_edits ∧
    VerifiedFileEditor_calculate_fsverity_digest (H := release_profile) mem_editor st' =
      (Ok (fsverity_digest (foldl apply_edit [] sample_edits)), st').
Proof.
  refine (editor_history_digest (H := release_profile) 4097 () (store []) sample_edits 10000
    eq_refl _ _ _ _ eq_refl eq_refl).
  - clia.
  - simpl. unfold i64_MAX. lia.
  - lia.
  - repeat constructor; simpl; lia.
Defined.

Lemma tree_of_represents data : represents (tree_of data) data.
Proof. by split. Qed.

Lemma editor_write_correct_witness :
  ∃ t' w', VerifiedFileEditor_write_at 4097 mem_editor [7; 8] (Z.of_nat 3) (tree_of [1; 2; 3; 4], store [1; 2; 3; 4])
             = (Ok (len [7; 8]), (t', w')) ∧
    represents t' (write_bytes [1; 2; 3; 4] 3 [7; 8]) ∧ store_ok w' () ∧
    content w' () = write_bytes [1; 2; 3; 4] 3 [7; 8].
Proof.
  refine (editor_write_correct 4097 mem_editor [1; 2; 3; 4] [7; 8] 3 (tree_of [1; 2; 3; 4]) (store [1; 2; 3; 4]) _ _ _ _
    (tree_of_represents _) eq_refl eq_refl); try clia; simpl; unfold i64_MAX; lia.
Defined.

Lemma editor_write_integrity_witness :
  ∃ r t' w', VerifiedFileEditor_write_at 4097 mem_editor [7; 8] (Z.of_nat 3) (tree_of [1; 2], store [5; 6])
               = (r, (t', w')) ∧
  ((∃ k, (k <= length [7; 8])%nat ∧ leaves_of t' (write_bytes [1; 2] 3 (take k [7; 8])) ∧
        (∀ n, r = Ok n -> n = Z.of_nat k) ∧
        (r = Ok (len [7; 8]) -> represents t' (write_bytes [1; 2] 3 [7; 8]))) ∨
   collision (served_to_write 4097 mem_editor [7; 8] 3 (tree_of [1; 2], store [5; 6])) (blocks [1; 2])).
Proof.
  destruct (VerifiedFileEditor_write_at 4097 mem_editor [7; 8] (Z.of_nat 3) (tree_of [1; 2], store [5; 6]))
    as [r [t' w']] eqn:Hw.
  exists r, t', w'. split; [reflexivity|].
  refine (editor_write_integrity 4097 mem_editor [1; 2] [7; 8] 3 _ _ r t' w' (tree_of_represents _) _ Hw).
  simpl. lia.
Defined.

Lemma store_chunk_0 data :
  0 < len data <= CHUNK_SIZE ->
  read_chunk () (Z.of_nat 0) (zeros CHUNK_SIZE) (store data) =
    (Ok (len (chunk_of data (Z.of_nat 0)), block data 0), store data).
Proof. intros Hl. apply stored_block; try done; simpl; unfold i64_MAX; clia. Qed.

Lemma block_5_6 : block [5; 6] 0 <> block [1; 2] 0.
Proof.
  intros He. apply (f_equal (λ b, byte_at b 0)) in He.
  rewrite !byte_at_block in He by clia. vm_compute in He. done.
Qed.

Lemma editor_rejects_tampered_chunk_witness :
  VerifiedFileEditor_write_at 4097 mem_editor [7; 8] (Z.of_nat (0 * CHUNK + 1)) (tree_of [1; 2], store [5; 6])
    = (Err (IoNew InvalidData "Inconsistent hash"), (tree_of [1; 2], store [5; 6])) ∨
  collision [block [5; 6] 0] [block [1; 2] 0].
Proof.
  refine (editor_rejects_tampered_chunk 4097 mem_editor [1; 2] [7; 8] 0 1 _ _ _ _ _
    (tree_of_represents _) _ _ _ _ _ (store_chunk_0 [5; 6] _) (length_block _ _) block_5_6);
    first [discriminate | simpl; clia].
Defined.

Lemma editor_resize_correct_witness :
  ∃ t' w', VerifiedFileEditor_resize mem_editor 3 (tree_of [1; 2; 3; 4], store [1; 2; 3; 4]) = (Ok (), (t', w')) ∧
    represents t' (resize_bytes [1; 2; 3; 4] (Z.to_nat 3)) ∧ store_ok w' () ∧
    content w' () = resize_bytes [1; 2; 3; 4] (Z.to_nat 3).
Proof.
  refine (editor_resize_correct mem_editor 3 [1; 2; 3; 4] (tree_of [1; 2; 3; 4]) (store [1; 2; 3; 4]) _ _ _ _
    (tree_of_represents _) eq_refl eq_refl); simpl; unfold i64_MAX; clia.
Defined.

Lemma editor_truncate_unverified_witness :
  ∃ t', VerifiedFileEditor_resize mem_editor (Z.of_nat (0 * CHUNK + 1)) (tree_of [1; 2], store [5; 6])
          = (Ok (), (t', store [5])) ∧
    represents t' (take (0 * CHUNK) [1; 2] ++ take 1 (block [5; 6] 0)).
Proof.
  refine (editor_truncate_unverified mem_editor 0 1 (tree_of [1; 2]) [1; 2] (store [5; 6]) _ _ _ _
    (tree_of_represents _) _ _ _ (store_chunk_0 [5; 6] _) (length_block _ _) _ _);
    first [reflexivity | simpl; clia | rewrite len_chunk_of; simpl; clia].
Defined.

(** A file of 4097 bytes, on a store that no longer answers reads. *)
Definition two_leaves : MerkleLeaves :=
  {| leaves := [HASH_OF_4096_ZEROS; HASH_OF_4096_ZEROS]; ml_file_size := 4097 |}.
Lemma two_leaves_represents : represents two_leaves (resize_bytes [] (Z.to_nat 4097)).
Proof.
  destruct (ml_resize_grow (E := io_error) ml_new [] 4097 represents_new) as (t & Ht & Hr);
    [simpl; lia|clia|]. vm_compute in Ht. by injection Ht as <-.
Qed.
Definition dead_store : InMemoryEditor := {| im_data := zeros 4097; im_fail_read := true |}.

Lemma short_write_overstates_size_witness :
  ∃ t' w', VerifiedFileEditor_write_at 4097 mem_editor (zeros 4106) (Z.of_nat 0) (two_leaves, dead_store)
             = (Ok 4096, (t', w')) ∧
  ((let data' := write_bytes (resize_bytes [] (Z.to_nat 4097)) 0 (take (Z.to_nat 4096) (zeros 4106)) in
   leaves_of t' data' ∧ len data' < ml_file_size t' ∧ ml_file_size t' = Z.of_nat 0 + len (zeros 4106)) ∨
  collision (served_to_write 4097 mem_editor (zeros 4106) 0 (two_leaves, dead_store))
            (blocks (resize_bytes [] (Z.to_nat 4097)))).
Proof.
  assert (Hw : ∃ t' w', VerifiedFileEditor_write_at 4097 mem_editor (zeros 4106) (Z.of_nat 0)
                          (two_leaves, dead_store) = (Ok 4096, (t', w')))
    by (eexists _, _; vm_compute; reflexivity).
  destruct Hw as (t' & w' & Hw). exists t', w'. split; [exact Hw|].
  refine (short_write_overstates_size 4097 mem_editor _ (zeros 4106) 0 two_leaves dead_store 4096 t' w'
    two_leaves_represents _ _ Hw _); rewrite ?length_zeros, ?length_resize_bytes; lia.
Defined.
End Witness.

(** ** Tests of editor.rs *)
Module EditorTests.
#[local] Existing Instance release_profile.

(** [test_verified_writer_unaligned]: five bytes at offset three. *)
Example verified_writer_unaligned :
  (_ ← VerifiedFileEditor_write_at 4097 mem_editor (replicate 5 1) 3;
   VerifiedFileEditor_calculate_fsverity_digest mem_editor)
    (ml_new, InMemoryEditor_new) =
  (Ok [0xa2; 0x3f; 0xc5; 0x13; 0x0d; 0x3d; 0x7b; 0x33; 0x23; 0xfc; 0x4b; 0x4a; 0x5e; 0x79; 0xd5;
       0xd3; 0xe9; 0xdd; 0xf3; 0xa3; 0xf5; 0x87; 0x26; 0x39; 0xe8; 0x67; 0x71; 0x35; 0x12; 0xc6;
       0x70; 0x2f],
   ({| leaves := [sha256 (block [0; 0; 0; 1; 1; 1; 1; 1] 0)]; ml_file_size := 8 |},
    {| im_data := [0; 0; 0; 1; 1; 1; 1; 1]; im_fail_read := false |})).
Proof. vm_compute. reflexivity. Qed.

End EditorTests.
