(* ===== verification/EditorConc.v ===== *)
(** * authfs/src/fsverity/editor.rs: concurrent writes to one file

    [VerifiedFileEditor] is shared between threads: its tree is behind an
    [RwLock], and [write_at] takes the lock once for every chunk, not for the
    whole call.  Calls in progress are therefore interleaved chunk by chunk
    here, one step being one iteration of the loop of [write_at] with the lock
    held.  The theorems: under every interleaving the tree stays that of the
    stored content, every byte of the result is one that some writer of that
    position wrote, and against arbitrary storage the tree follows exactly the
    chunks that the calls have completed. *)

From S2P Require Import Prelude Io Common Crypto FsverityCommon MerkleSpec Content Builder File Editor Sha256Ref.

(** A call of [write_at]: its arguments, the iterator of its loop, its result. *)
Record call := {
  c_buf : bytes; c_off : nat; c_iter : ChunkedSizeIter; c_result : option (outcome io_error Z)
}.
Definition start_call (request : bytes * nat) : call :=
  {| c_buf := request.1; c_off := request.2;
     c_iter := csi_new (len request.1) (Z.of_nat request.2) CHUNK_SIZE; c_result := None |}.
Definition finish (c : call) (r : outcome io_error Z) : call :=
  {| c_buf := c_buf c; c_off := c_off c; c_iter := c_iter c; c_result := Some r |}.
Definition advance (c : call) (it : ChunkedSizeIter) : call :=
  {| c_buf := c_buf c; c_off := c_off c; c_iter := it; c_result := None |}.

Section Steps.
Context `{Profile} `{Sha256Ffi} {W F : Type} `{ReadByChunk W F} `{RandomWrite W F}.

(** One iteration of the loop of [write_at], or its end. *)
Definition step_call (fuel : nat) (self : VerifiedFileEditor F) (c : call) (st : MerkleLeaves * W)
    : call * (MerkleLeaves * W) :=
  match csi_next (E := io_error) (c_iter c) with
  | Ok (Some item, it) =>
      match write_at_iteration fuel self (c_buf c) (Z.of_nat (c_off c)) item st with
      | (Ok None, st') => (advance c it, st')
      | (Ok (Some n), st') => (finish c (Ok n), st')
      | (Err e, st') => (finish c (Err e), st')
      | (Panic, st') => (finish c Panic, st')
      | (NoFuel, st') => (finish c NoFuel, st')
      end
  | Ok (None, it) => (finish c (Ok (len (c_buf c))), st)
  | Err e => (finish c (Err e), st)
  | Panic => (finish c Panic, st)
  | NoFuel => (finish c NoFuel, st)
  end.

(** The schedule names the calls; one that has returned stays as it is. *)
Definition step (fuel : nat) (self : VerifiedFileEditor F) (i : nat)
    (s : list call * (MerkleLeaves * W)) : list call * (MerkleLeaves * W) :=
  match s.1 !! i with
  | Some c =>
      match c_result c with
      | None => let '(c', st') := step_call fuel self c s.2 in (<[i := c']> s.1, st')
      | Some _ => s
      end
  | None => s
  end.
Definition run (fuel : nat) (self : VerifiedFileEditor F) (schedule : list nat)
    (s : list call * (MerkleLeaves * W)) : list call * (MerkleLeaves * W) :=
  foldl (λ s i, step fuel self i s) s schedule.

Definition all_returned (calls : list call) : Prop := Forall (λ c, is_Some (c_result c)) calls.

(** *** Every step of a call brings it closer to its end, whatever the storage *)
Definition steps_left (c : call) : nat :=
  match c_result c with Some _ => 0 | None => S (Z.to_nat (csi_remaining (c_iter c))) end.
Definition in_chunks (c : call) : Prop := csi_alignment (c_iter c) = CHUNK_SIZE ∧ 0 <= csi_remaining (c_iter c).

Lemma csi_next_shrinks it item it' :
  csi_alignment it = CHUNK_SIZE -> 0 <= csi_remaining it -> csi_next (E := io_error) it = Ok (Some item, it') ->
  csi_alignment it' = CHUNK_SIZE ∧ 0 <= csi_remaining it' < csi_remaining it.
Proof.
  intros Ha Hr. unfold csi_next. rewrite Ha. destruct (Z.eqb_spec (csi_remaining it) 0); [done|].
  pose proof (Z.mod_pos_bound (csi_offset it) CHUNK_SIZE ltac:(clia)).
  rewrite rem_u64_ok by clia. rewrite bind_Ok, sub_u64_ok by clia. rewrite bind_Ok.
  intros (off' & _ & [= <- <-])%bind_inv. cbn. unfold saturating_sub. split; [done|]. clia.
Qed.
Lemma step_call_shrinks fuel self c st :
  in_chunks c -> c_result c = None ->
  in_chunks (step_call fuel self c st).1 ∧ (steps_left (step_call fuel self c st).1 < steps_left c)%nat.
Proof.
  intros [Ha Hr] Hres. unfold steps_left at 2. rewrite Hres. unfold step_call.
  destruct (csi_next (c_iter c)) as [[[item|] it]|e| |] eqn:Hn; try (cbn; split; [by split|lia]).
  apply csi_next_shrinks in Hn as [Ha' Hr']; [|done|done].
  destruct (write_at_iteration _ _ _ _ _ _) as [[[n|]|e| |] st']; cbn; (split; [by split; cbn; (done || lia)|lia]).
Qed.
Lemma run_steps_left fuel self schedule s i c :
  Forall in_chunks s.1 -> s.1 !! i = Some c ->
  ∃ c', (run fuel self schedule s).1 !! i = Some c' ∧
    (steps_left c' <= steps_left c - count_occ Nat.eq_dec schedule i)%nat.
Proof.
  revert s c. induction schedule as [|k l IH]; intros s c Hok Hi; [exists c; split; [done|cbn; lia]|].
  change (run fuel self (k :: l) s) with (run fuel self l (step fuel self k s)).
  assert (Forall in_chunks (step fuel self k s).1 ∧ ∃ c', (step fuel self k s).1 !! i = Some c' ∧
    (steps_left c' <= steps_left c - (if Nat.eq_dec k i then 1 else 0))%nat) as (Hok' & c1 & Hi1 & Hle).
  { unfold step. destruct (s.1 !! k) as [ck|] eqn:Hk; [|split; [done|]; exists c; split; [done|]; destruct (Nat.eq_dec k i); [congruence|lia]].
    destruct (c_result ck) eqn:Hres.
    { split; [done|]. exists c. split; [done|]. destruct (Nat.eq_dec k i) as [->|]; [|lia]. simplify_eq.
      unfold steps_left. rewrite Hres. lia. }
    destruct (step_call_shrinks fuel self ck s.2 (Forall_lookup_1 _ _ _ _ Hok Hk) Hres) as [Hck Hlt].
    destruct (step_call fuel self ck s.2) as [ck' st']. cbn [fst] in *. split; [by apply Forall_insert|].
    destruct (Nat.eq_dec k i) as [->|Hne].
    - simplify_eq. exists ck'. rewrite list_lookup_insert_eq by (by eapply lookup_lt_Some). split; [done|lia].
    - exists c. rewrite list_lookup_insert_ne by done. split; [done|lia]. }
  destruct (IH _ c1 Hok' Hi1) as (c' & Hc' & Hle'). exists c'. split; [done|]. cbn [count_occ].
  destruct (Nat.eq_dec k i); lia.
Qed.
Lemma run_length fuel self schedule s : length (run fuel self schedule s).1 = length s.1.
Proof.
  revert s. induction schedule as [|k l IH]; intros s; [done|].
  change (run fuel self (k :: l) s) with (run fuel self l (step fuel self k s)). rewrite IH. unfold step.
  destruct (s.1 !! k) as [c|]; [|done]. destruct (c_result c); [done|].
  destruct (step_call _ _ _ _). apply length_insert.
Qed.
(** One step for every byte of its buffer and one more, and a call has returned. *)
Lemma run_returns fuel self schedule requests st :
  (∀ i r, requests !! i = Some r -> (length r.1 < count_occ Nat.eq_dec schedule i)%nat) ->
  all_returned (run fuel self schedule (start_call <$> requests, st)).1.
Proof.
  intros Hmany. apply Forall_lookup. intros i c Hc.
  assert (length (run fuel self schedule (start_call <$> requests, st)).1 = length requests) as Hlen
    by (rewrite run_length; apply length_fmap).
  destruct (lookup_lt_is_Some_2 requests i) as [r Hr]; [apply lookup_lt_Some in Hc; lia|].
  destruct (run_steps_left fuel self schedule (start_call <$> requests, st) i (start_call r)) as (c' & Hc' & Hle).
  - apply Forall_fmap, Forall_true. intros r'. split; cbn; [done|lia].
  - cbn. by rewrite list_lookup_fmap, Hr.
  - simplify_eq. specialize (Hmany i r Hr). unfold steps_left in Hle at 1. destruct (c_result c); [done|].
    cbn in Hle. lia.
Qed.
End Steps.

(** ** What the calls have written

    [ks] are the lengths of the prefixes that the calls have written. *)
Section Blend.
Context (data : bytes) (requests : list (bytes * nat)).

(** Some call has written this byte at this position. *)
Definition written (ks : list nat) (p : nat) (b : Z) : Prop :=
  ∃ i buf off k, requests !! i = Some (buf, off) ∧ ks !! i = Some k ∧
    (off <= p < off + k)%nat ∧ b = byte_at buf (p - off).

(** The largest end of a range, of the calls that wrote something. *)
Definition extent (ends : bytes * nat -> nat -> nat) (ks : list nat) : nat :=
  foldr Nat.max (length data) (zip_with (λ r k, if (k =? 0)%nat then O else ends r k) requests ks).
Definition end_written (r : bytes * nat) (k : nat) : nat := r.2 + k.
Definition end_asked (r : bytes * nat) (_ : nat) : nat := r.2 + length r.1.

(** A content that interleaves the writes: each position that was written
    holds a byte that one of its writers wrote there, the others hold the old
    byte, zero beyond the old end. *)
Record blend (ks : list nat) (d : bytes) : Prop := {
  blend_written p b : written ks p b -> written ks p (byte_at d p);
  blend_kept p : (∀ b, ¬ written ks p b) -> byte_at d p = byte_at data p;
  blend_length : length d = extent end_written ks
}.

Lemma extent_0 ends : extent ends (replicate (length requests) O) = length data.
Proof.
  unfold extent. induction requests as [|r l IH]; [done|]. cbn. exact IH.
Qed.
Lemma blend_start : blend (replicate (length requests) O) data.
Proof.
  split; [|done|by rewrite extent_0].
  intros p b (i & buf & off & k & _ & Hk & Hp & _). apply lookup_replicate in Hk as [-> _]. lia.
Qed.

Lemma extent_insert ends ks i r k k' :
  requests !! i = Some r -> ks !! i = Some k -> (0 < k')%nat -> (k = O ∨ ends r k <= ends r k')%nat ->
  extent ends (<[i := k']> ks) = Nat.max (extent ends ks) (ends r k').
Proof.
  unfold extent. revert ks i. induction requests as [|x l IH]; intros [|y ks] [|i] Hr Hk Hk' Hle;
    cbn in Hr, Hk |- *; simplify_eq.
  - rewrite (proj2 (Nat.eqb_neq k' 0)) by lia. destruct (Nat.eqb_spec k 0); lia.
  - rewrite <- Nat.max_assoc. f_equal. by apply IH.
Qed.

Lemma written_insert ks i buf off k s p b :
  requests !! i = Some (buf, off) -> ks !! i = Some k ->
  written (<[i := (k + s)%nat]> ks) p b <->
  written ks p b ∨ (off + k <= p < off + k + s)%nat ∧ b = byte_at buf (p - off).
Proof.
  intros Hr Hk. apply lookup_lt_Some in Hk as Hlt. split.
  - intros (j & buf' & off' & k' & Hr' & Hk' & Hp & ->). destruct (decide (j = i)) as [->|Hne].
    + rewrite list_lookup_insert_eq in Hk' by done. simplify_eq.
      destruct (decide (p < off + k)%nat) as [Hlo|Hhi]; [left|right; split; [lia|done]].
      exists i, buf, off, k. split_and!; done || lia.
    + rewrite list_lookup_insert_ne in Hk' by done. left. by exists j, buf', off', k'.
  - intros [(j & buf' & off' & k' & Hr' & Hk' & Hp & ->)|[Hp ->]].
    + destruct (decide (j = i)) as [->|Hne].
      * simplify_eq. exists i, buf, off, (k + s)%nat. rewrite list_lookup_insert_eq by done.
        split_and!; done || lia.
      * exists j, buf', off', k'. by rewrite list_lookup_insert_ne.
    + exists i, buf, off, (k + s)%nat. rewrite list_lookup_insert_eq by done. split_and!; done || lia.
Qed.

(** One more piece of one call. *)
Lemma blend_next ks d i buf off k s :
  blend ks d -> requests !! i = Some (buf, off) -> ks !! i = Some k -> (0 < s)%nat ->
  (k + s <= length buf)%nat ->
  blend (<[i := (k + s)%nat]> ks) (write_bytes d (off + k) (take s (drop k buf))).
Proof.
  intros [Hw Hkept Hlen] Hr Hk Hs Hks.
  assert (length (take s (drop k buf)) = s) as Hl by (rewrite length_take, length_drop; lia).
  assert (∀ p, (off + k <= p < off + k + s)%nat ->
    byte_at (take s (drop k buf)) (p - (off + k)) = byte_at buf (p - off)) as Hb.
  { intros p Hp. rewrite byte_at_take, byte_at_drop. rewrite decide_True by lia. f_equal. lia. }
  split.
  - intros p b. rewrite !(written_insert ks i buf off k s) by done. rewrite byte_at_write, Hl.
    destruct (decide (off + k <= p < off + k + s)%nat) as [Hp|Hp]; [intros _; right; by rewrite Hb|].
    intros [Hwr|[? _]]; [left|lia]. by eapply Hw.
  - intros p Hn. rewrite byte_at_write, Hl. rewrite decide_False.
    + apply Hkept. intros b Hwr. apply (Hn b). apply (written_insert ks i buf off k s); [done|done|by left].
    + intros Hp. apply (Hn (byte_at buf (p - off))). apply (written_insert ks i buf off k s); [done|done|by right].
  - rewrite length_write_bytes by (intros He; rewrite He in Hl; simpl in Hl; lia).
    rewrite (extent_insert end_written ks i (buf, off) k (k + s)) by (done || (cbn; lia)).
    rewrite Hlen, Hl. unfold end_written. cbn. lia.
Qed.
End Blend.

(** Bounds that hold of every range and of the old content hold of the extent. *)
Lemma extent_le data requests ends ks m :
  (length data <= m)%nat ->
  (∀ i r k, requests !! i = Some r -> ks !! i = Some k -> (ends r k <= m)%nat) ->
  (extent data requests ends ks <= m)%nat.
Proof.
  unfold extent. revert ks. induction requests as [|r l IH]; intros [|k ks] Hd He; cbn; try done.
  apply Nat.max_lub.
  - specialize (He O r k eq_refl eq_refl). destruct (k =? 0)%nat; lia.
  - apply IH; [done|]. intros i r' k' Hr Hk. by apply (He (S i)).
Qed.
Lemma extent_ext data requests ends ends' ks :
  (∀ i r k, requests !! i = Some r -> ks !! i = Some k -> ends r k = ends' r k) ->
  extent data requests ends ks = extent data requests ends' ks.
Proof.
  unfold extent. revert ks. induction requests as [|r l IH]; intros [|k ks] He; cbn; try done.
  f_equal; [by rewrite (He O r k)|]. apply IH. intros i r' k' Hr Hk. by apply (He (S i)).
Qed.

(** A call that has written [k] bytes of its request. *)
Definition call_at (r : bytes * nat) (k : nat) (c : call) : Prop :=
  c_buf c = r.1 ∧ c_off c = r.2 ∧ (k <= length r.1)%nat ∧
  c_iter c = csi_new (len r.1 - Z.of_nat k) (Z.of_nat (r.2 + k)) CHUNK_SIZE.

(** The requests and the calls that serve them, with a property of each. *)
Definition calls_at (requests : list (bytes * nat)) (ks : list nat) (calls : list call)
    (P : bytes * nat -> nat -> call -> Prop) : Prop :=
  length ks = length requests ∧ length calls = length requests ∧
  ∀ i r k c, requests !! i = Some r -> ks !! i = Some k -> calls !! i = Some c -> call_at r k c ∧ P r k c.

Lemma calls_at_start requests P :
  (∀ r, P r O (start_call r)) ->
  calls_at requests (replicate (length requests) O) (start_call <$> requests) P.
Proof.
  intros HP. split_and!; [apply length_replicate|apply length_fmap|].
  intros i r k c Hr Hk Hc. apply lookup_replicate in Hk as [-> _].
  rewrite list_lookup_fmap, Hr in Hc. injection Hc as <-. split; [|done].
  unfold call_at. cbn. split_and!; [done|done|lia|]. f_equal; lia.
Qed.
Lemma calls_at_insert requests ks calls P i r k c :
  calls_at requests ks calls P -> requests !! i = Some r -> call_at r k c -> P r k c ->
  calls_at requests (<[i := k]> ks) (<[i := c]> calls) P.
Proof.
  intros (Hk & Hc & Hall) Hr Hat HP. apply lookup_lt_Some in Hr as Hlt. split_and!; [by rewrite length_insert..|].
  intros j r' k' c' Hr' Hk' Hc'. destruct (decide (j = i)) as [->|Hne].
  - rewrite list_lookup_insert_eq in Hk' by lia. rewrite list_lookup_insert_eq in Hc' by lia. by simplify_eq.
  - rewrite list_lookup_insert_ne in Hk' by done. rewrite list_lookup_insert_ne in Hc' by done. by apply (Hall j).
Qed.
(** The call that a step is about. *)
Lemma calls_at_lookup requests ks calls P i c :
  calls_at requests ks calls P -> calls !! i = Some c ->
  ∃ r k, requests !! i = Some r ∧ ks !! i = Some k ∧ call_at r k c ∧ P r k c.
Proof.
  intros (Hk & Hc & Hall) Hi. apply lookup_lt_Some in Hi as Hlt.
  destruct (lookup_lt_is_Some_2 requests i) as [r Hr]; [lia|].
  destruct (lookup_lt_is_Some_2 ks i) as [k Hk']; [lia|]. exists r, k. split_and!; try done; by apply (Hall i).
Qed.

(** What the iterator of a call yields next. *)
Lemma call_next `{Profile} r k c :
  call_at r k c -> Z.of_nat r.2 + len r.1 < 2 ^ 64 ->
  (k = length r.1 ∧ ∃ it, csi_next (E := io_error) (c_iter c) = Ok (None, it)) ∨
  ∃ s i o, piece r.2 r.1 k s i o ∧
    csi_next (E := io_error) (c_iter c) =
      Ok (Some (Z.of_nat (r.2 + k), Z.of_nat s),
          csi_new (len r.1 - Z.of_nat (k + s)) (Z.of_nat (r.2 + (k + s))) CHUNK_SIZE).
Proof.
  intros (Hb & Ho & Hk & Hit) H64. rewrite Hit. destruct (decide (k = length r.1)) as [Hd|Hd].
  - left. split; [done|]. rewrite Hd, Z.sub_diag. eexists. apply csi_next_done.
  - right. destruct (next_piece r.2 r.1 k (len r.1 - Z.of_nat k)) as (s & i & o & Hs & Hp & _ & _); [done|done|lia|].
    exists s, i, o. split; [done|].
    destruct (csi_next_ok (E := io_error) (len r.1 - Z.of_nat k) (Z.of_nat (r.2 + k)) CHUNK_SIZE)
      as [-> _]; [lia|lia|clia|lia|]. rewrite Hs. do 2 f_equal. f_equal; lia.
Qed.

(** ** Over an honest store *)
Section Honest.
Context `{Profile} `{Sha256Spec} {W F : Type} `{StoresContent W F}.
Context (fuel : nat) (self : VerifiedFileEditor F) (data : bytes) (requests : list (bytes * nat)).
Context (Hfuel : (CHUNK < fuel)%nat) (Hdata : len data <= stored_max)
  (Hreqs : Forall (λ r, Z.of_nat r.2 + len r.1 <= stored_max ∧ Z.of_nat r.2 + len r.1 < 2 ^ 64) requests).

(** A call is running, or has returned the length of its buffer. *)
Definition running_or_done (r : bytes * nat) (k : nat) (c : call) : Prop :=
  c_result c = None ∨ c_result c = Some (Ok (len r.1)) ∧ k = length r.1.

Record synced (ks : list nat) (s : list call * (MerkleLeaves * W)) : Prop := {
  sy_calls : calls_at requests ks s.1 running_or_done;
  sy_store : store_ok s.2.2 (ve_file self);
  sy_blend : blend data requests ks (content s.2.2 (ve_file self));
  sy_leaves : leaves_of s.2.1 (content s.2.2 (ve_file self));
  sy_size : ml_file_size s.2.1 = Z.of_nat (extent data requests end_asked ks)
}.

Lemma request_bound i r :
  requests !! i = Some r -> Z.of_nat r.2 + len r.1 <= stored_max ∧ Z.of_nat r.2 + len r.1 < 2 ^ 64.
Proof. exact (Forall_lookup_1 _ _ i r Hreqs). Qed.

Lemma synced_bound ks s : synced ks s -> len (content s.2.2 (ve_file self)) <= stored_max.
Proof.
  intros [Hcalls _ Hb _ _]. rewrite (blend_length _ _ _ _ Hb).
  assert (extent data requests end_written ks <= Z.to_nat stored_max)%nat; [|lia].
  apply extent_le; [lia|]. intros i r k Hr Hk. destruct Hcalls as (_ & Hl & Hall).
  apply lookup_lt_Some in Hr as Hlt. destruct (lookup_lt_is_Some_2 s.1 i) as [c Hc]; [lia|].
  destruct (Hall i r k c Hr Hk Hc) as [(_ & _ & Hle & _) _].
  apply request_bound in Hr as [Hr _]. unfold end_written. lia.
Qed.

Lemma synced_step ks s i : synced ks s -> ∃ ks', synced ks' (step fuel self i s).
Proof.
  intros Hsy. pose proof (synced_bound ks s Hsy) as Hmax. destruct s as [calls [t w]]. unfold step. cbn [fst snd].
  destruct (calls !! i) as [c|] eqn:Hc; [|by exists ks]. destruct (c_result c) eqn:Hres; [by exists ks|].
  destruct Hsy as [Hcalls Hok Hb Hlo Hsz]. cbn [fst snd] in *.
  destruct (calls_at_lookup _ _ _ _ _ _ Hcalls Hc) as (r & k & Hr & Hk & Hat & _).
  destruct (request_bound i r Hr) as [Hrm H64]. destruct r as [buf off]. cbn [fst snd] in Hrm, H64.
  unfold step_call. destruct (call_next (buf, off) k c Hat H64) as [[Hd [it ->]]|(n & ci & o & Hp & ->)].
  - exists (<[i := k]> ks). rewrite (list_insert_id ks i k) by done. split; cbn [fst snd]; try done.
    rewrite <- (list_insert_id ks i k) at 1 by done.
    destruct Hat as (Hbuf & Hoff & Hle & Hit). apply (calls_at_insert _ _ _ _ i (buf, off)); [done|done|done|].
    right. cbn. by rewrite Hbuf.
  - destruct Hat as (Hbuf & Hoff & Hle & Hit). cbn [fst snd] in *. rewrite Hbuf, Hoff.
    pose proof Hp as (Hn & Hkn & _ & _ & _).
    destruct (iteration_stored fuel self (content w (ve_file self)) off buf k n ci o t w)
      as (t' & w' & -> & Hlo' & Hsz' & Hok' & Hc'); [done..|].
    exists (<[i := (k + n)%nat]> ks). split; cbn [fst snd].
    + apply (calls_at_insert _ _ _ _ i (buf, off)); [done|done| |by left]. unfold call_at. cbn. by rewrite Hbuf, Hoff.
    + done.
    + rewrite Hc'. by eapply blend_next.
    + by rewrite Hc'.
    + rewrite Hsz', Hsz, (extent_insert data requests end_asked ks i (buf, off) k (k + n)) by (done || (cbn; lia)).
      unfold saturating_add_u64, u64_MAX, end_asked. cbn [fst snd]. lia.
Qed.
Lemma synced_run schedule ks s : synced ks s -> ∃ ks', synced ks' (run fuel self schedule s).
Proof.
  revert ks s. induction schedule as [|i l IH]; intros ks s Hs; [by exists ks|]. cbn.
  destruct (synced_step ks s i Hs) as [ks' Hs']. by eapply IH.
Qed.
Lemma synced_start t w :
  represents t data -> store_ok w (ve_file self) -> content w (ve_file self) = data ->
  synced (replicate (length requests) O) (start_call <$> requests, (t, w)).
Proof.
  intros Hr Hok Hc. apply leaves_of_represents in Hr as [Hlo Hsz]. split; cbn [fst snd].
  - apply calls_at_start. by left.
  - done.
  - rewrite Hc. apply blend_start.
  - by rewrite Hc.
  - by rewrite extent_0.
Qed.

(** All calls have returned: each has written its whole buffer. *)
Lemma synced_returned ks s :
  synced ks s -> all_returned s.1 ->
  ks = (length ∘ fst) <$> requests ∧ c_result <$> s.1 = (λ r, Some (Ok (len r.1))) <$> requests.
Proof.
  intros [(Hlk & Hlc & Hall) _ _ _ _] Hret. unfold all_returned in Hret. split.
  - apply list_eq_same_length with (length requests); [by rewrite length_fmap|lia|].
    intros i k k' Hi Hk Hk'. rewrite list_lookup_fmap in Hk'. apply fmap_Some in Hk' as (r & Hr & ->).
    destruct (lookup_lt_is_Some_2 s.1 i) as [c Hc]; [apply lookup_lt_Some in Hr; lia|].
    destruct (Hall i r k c Hr Hk Hc) as [_ [Hn|[_ ->]]]; [|done].
    apply (Forall_lookup_1 _ _ _ _ Hret) in Hc as [? ?]. congruence.
  - apply list_eq_same_length with (length requests); [by rewrite length_fmap|by rewrite length_fmap|].
    intros i x y Hi Hx Hy. rewrite list_lookup_fmap in Hx. rewrite list_lookup_fmap in Hy.
    apply fmap_Some in Hx as (c & Hc & ->). apply fmap_Some in Hy as (r & Hr & ->).
    destruct (lookup_lt_is_Some_2 ks i) as [k Hk]; [apply lookup_lt_Some in Hr; lia|].
    destruct (Hall i r k c Hr Hk Hc) as [_ [Hn|[Hd _]]]; [|done].
    apply (Forall_lookup_1 _ _ _ _ Hret) in Hc as [? ?]. congruence.
Qed.
End Honest.

(** ** Against arbitrary storage *)
Section AnyStorage.
Context `{Profile} `{Sha256Spec} {W F : Type} `{ReadByChunk W F} `{RandomWrite W F} `{!BufferTyped W F}.
Context (fuel : nat) (self : VerifiedFileEditor F) (data : bytes) (requests : list (bytes * nat)).
Context (Hreqs : Forall (λ r, Z.of_nat r.2 + len r.1 < 2 ^ 64) requests).

(** A count that a call returned is what it has written. *)
Definition count_written (r : bytes * nat) (k : nat) (c : call) : Prop :=
  ∀ n, c_result c = Some (Ok n) -> n = Z.of_nat k.

(** The tree is that of the content in which exactly the completed chunks were written. *)
Definition tracked (s : list call * (MerkleLeaves * W)) (d : bytes) : Prop :=
  ∃ ks, calls_at requests ks s.1 count_written ∧ blend data requests ks d ∧ leaves_of s.2.1 d.

(** The storage serves, in this state, a chunk that collides with the content. *)
Definition collides_at (s : list call * (MerkleLeaves * W)) : Prop :=
  ∃ d (i : nat), tracked s d ∧ (i * CHUNK < length d)%nat ∧
    collision (read_back (ve_file self) (Z.of_nat i) s.2.2) [block d i].

Lemma tracked_step s d i :
  tracked s d -> (∃ d', tracked (step fuel self i s) d') ∨ collides_at s.
Proof.
  intros Htr. pose proof Htr as (ks & Hcalls & Hb & Hlo). destruct s as [calls [t w]]. unfold step. cbn [fst snd] in *.
  destruct (calls !! i) as [c|] eqn:Hc; [|left; by exists d]. destruct (c_result c) eqn:Hres; [left; by exists d|].
  destruct (calls_at_lookup _ _ _ _ _ _ Hcalls Hc) as (r & k & Hr & Hk & Hat & _).
  pose proof (Forall_lookup_1 _ _ i r Hreqs Hr) as H64. destruct r as [buf off]. cbn [fst snd] in H64.
  assert (∀ res st', st'.1 = t -> (∀ n, res = Ok n -> n = Z.of_nat k) ->
    tracked (<[i := finish c res]> calls, st') d) as Hfin.
  { intros res [t' w'] Ht Hn. cbn in Ht. subst t'. exists (<[i := k]> ks). rewrite (list_insert_id ks i k) by done.
    split_and!; cbn [fst snd]; [|done|done]. rewrite <- (list_insert_id ks i k) at 1 by done.
    apply (calls_at_insert _ _ _ _ i (buf, off)); [done|done|done|]. intros n [= ->]. by apply Hn. }
  unfold step_call. destruct (call_next (buf, off) k c Hat H64) as [[Hd [it ->]]|(n & ci & o & Hp & ->)].
  - left. exists d. apply Hfin; [done|]. destruct Hat as (Hbuf & _). intros n [= <-]. rewrite Hbuf. cbn in *. lia.
  - destruct Hat as (Hbuf & Hoff & Hle & Hit). cbn [fst snd] in *. rewrite Hbuf, Hoff.
    pose proof Hp as (Hn & Hkn & _ & _ & _).
    destruct (write_at_iteration _ _ _ _ _ _) as [res [t' w']] eqn:Hw.
    apply (iteration_any fuel self d off buf k n ci o) in Hw
      as [(-> & Hlo' & _)|[(-> & Hne & Hv)|[Hi Hcol]]]; [| | |done|done].
    + left. eexists. exists (<[i := (k + n)%nat]> ks). split_and!; cbn [fst snd];
        [|by eapply blend_next|exact Hlo'].
      apply (calls_at_insert _ _ _ _ i (buf, off)); [done|done| |done]. unfold call_at. cbn. by rewrite Hbuf, Hoff.
    + left. exists d. destruct res as [[v|]|e| |]; [|done|..]; apply Hfin; try done.
      intros n' [= <-]. by apply Hv.
    + right. by exists d, ci.
Qed.

(** Along a run: the tree is tracked, or some state on the way collided. *)
Lemma tracked_run schedule s d :
  tracked s d ->
  (∃ d', tracked (run fuel self schedule s) d') ∨
  ∃ l1 l2, schedule = l1 ++ l2 ∧ collides_at (run fuel self l1 s).
Proof.
  revert s d. induction schedule as [|i l IH]; intros s d Hs; [left; by exists d|]. cbn.
  destruct (tracked_step s d i Hs) as [[d' Hd']|Hcol].
  - destruct (IH _ _ Hd') as [Ht|(l1 & l2 & -> & Hcol)]; [by left|]. right. by exists (i :: l1), l2.
  - right. by exists [], (i :: l).
Qed.
Lemma tracked_start t w : represents t data -> tracked (start_call <$> requests, (t, w)) data.
Proof.
  intros Hr. apply leaves_of_represents in Hr as [Hlo _].
  exists (replicate (length requests) O). split_and!; [by apply calls_at_start|apply blend_start|done].
Qed.
End AnyStorage.

(** ** A call on its own is the sequential [write_at] *)
Section Single.
Context `{Profile} `{Sha256Ffi} {W F : Type} `{ReadByChunk W F} `{RandomWrite W F}.
Context (fuel : nat) (self : VerifiedFileEditor F) (buf : bytes) (off : nat).

Definition call_from (rem o : Z) : call :=
  {| c_buf := buf; c_off := off; c_iter := csi_new rem o CHUNK_SIZE; c_result := None |}.

Lemma step_single c st :
  c_result c = None -> step fuel self O ([c], st) = ([(step_call fuel self c st).1], (step_call fuel self c st).2).
Proof. intros Hc. unfold step. cbn [fst snd lookup list_lookup]. rewrite Hc. by destruct (step_call fuel self c st). Qed.

Lemma run_single_from : ∀ rem o, 0 <= rem -> ∀ st, 0 <= o -> o + rem < 2 ^ 64 ->
  ∃ n, let s := run fuel self (replicate n O) ([call_from rem o], st) in
    (c_result <$> s.1, s.2) =
      (let '(r, st') := (r ← for_list (write_at_iteration fuel self buf (Z.of_nat off)) (plan rem o CHUNK_SIZE);
                         mret (default (len buf) r)) st in ([Some r], st')).
Proof.
  refine (plan_ind CHUNK_SIZE _ _ _ _); [clia|..].
  - intros o st Ho Hlt. exists 1%nat. rewrite plan_nil by lia. cbn [replicate run foldl].
    rewrite step_single by done. done.
  - intros rem o Hrem s Hs IH st Ho Hlt. rewrite plan_cons by clia. cbn [for_list].
    assert (step_call fuel self (call_from rem o) st =
      match write_at_iteration fuel self buf (Z.of_nat off) (o, s) st with
      | (Ok None, st') => (call_from (rem - s) (o + s), st')
      | (Ok (Some n), st') => (finish (call_from rem o) (Ok n), st')
      | (Err e, st') => (finish (call_from rem o) (Err e), st')
      | (Panic, st') => (finish (call_from rem o) Panic, st')
      | (NoFuel, st') => (finish (call_from rem o) NoFuel, st')
      end) as Hstep.
    { unfold step_call. cbn [call_from c_iter c_buf c_off].
      destruct (csi_next_ok (E := io_error) rem o CHUNK_SIZE) as [-> _]; [lia|lia|clia|lia|]. done. }
    rewrite !M_bind_eq. fold s. destruct (write_at_iteration _ _ _ _ _ _) as [[[v|]|e| |] st'].
    2: { destruct (IH st' ltac:(lia) ltac:(lia)) as [n Hn]. exists (S n). cbn [replicate run foldl].
         rewrite step_single, Hstep by done. cbn [fst snd]. exact Hn. }
    all: exists 1%nat; cbn [replicate run foldl]; by rewrite step_single, Hstep.
Qed.
End Single.

(** ** Claims *)

(** C27: concurrent writes to one file over an honest store, in any build.  Any
    number of calls of [write_at] on the same editor, interleaved at their lock
    acquisitions in any way: at every point the tree is that of the stored
    content.  A call that runs often enough returns, one step for every byte and
    one more being enough.  Once all have returned, none has failed and each has
    returned the length of its buffer, the recorded size is that of the content
    too, every position that some call wrote holds a byte that one of its
    writers wrote there, and the others hold the old byte, zero beyond the old
    end. *)
Theorem concurrent_writes_consistent `{Profile} `{Sha256Spec} {W F} `{StoresContent W F}
    fuel (self : VerifiedFileEditor F) data requests schedule t w :
  (CHUNK < fuel)%nat -> len data <= stored_max ->
  Forall (λ r, Z.of_nat r.2 + len r.1 <= stored_max ∧ Z.of_nat r.2 + len r.1 < 2 ^ 64) requests ->
  represents t data -> store_ok w (ve_file self) -> content w (ve_file self) = data ->
  let '(calls, (t', w')) := run fuel self schedule (start_call <$> requests, (t, w)) in
  leaves_of t' (content w' (ve_file self)) ∧
  ((∀ i r, requests !! i = Some r -> (length r.1 < count_occ Nat.eq_dec schedule i)%nat) -> all_returned calls) ∧
  (all_returned calls ->
   c_result <$> calls = (λ r, Some (Ok (len r.1))) <$> requests ∧
   represents t' (content w' (ve_file self)) ∧
   blend data requests ((length ∘ fst) <$> requests) (content w' (ve_file self))).
Proof.
  intros Hf Hd Hr Hrep Hok Hc. pose proof (run_returns fuel self schedule requests (t, w)) as Hends.
  destruct (synced_run fuel self data requests Hf Hd Hr schedule _ _
    (synced_start self data requests t w Hrep Hok Hc)) as [ks Hsy].
  destruct (run fuel self schedule (start_call <$> requests, (t, w))) as [calls [t' w']] eqn:Hrun.
  pose proof Hsy as [Hcalls _ Hb Hlo Hsz]. cbn [fst snd] in *. split_and!; [done|done|]. intros Hret.
  destruct (synced_returned fuel self data requests Hf ks _ Hsy Hret) as [-> Hres]. split_and!; [done| |done].
  apply leaves_of_represents. split; [done|]. rewrite Hsz, (blend_length _ _ _ _ Hb). f_equal.
  apply extent_ext. intros i r k Hri Hk. rewrite list_lookup_fmap, Hri in Hk. by injection Hk as <-.
Qed.

(** concurrent writes against arbitrary storage.  Whatever the storage answers
    and however the calls end, after any interleaving the tree is that of the
    content in which exactly the chunks that the calls have completed were
    written, each count that a call returned being the length of its completed
    prefix; or at some point on the way the storage served a chunk that
    collides with the content of that moment. *)
Theorem concurrent_writes_integrity `{Profile} `{Sha256Spec} {W F} `{ReadByChunk W F} `{RandomWrite W F}
    `{!BufferTyped W F} fuel (self : VerifiedFileEditor F) data requests schedule t (w : W) :
  Forall (λ r, Z.of_nat r.2 + len r.1 < 2 ^ 64) requests -> represents t data ->
  (∃ d, tracked data requests (run fuel self schedule (start_call <$> requests, (t, w))) d) ∨
  ∃ l1 l2, schedule = l1 ++ l2 ∧
    collides_at self data requests (run fuel self l1 (start_call <$> requests, (t, w))).
Proof. intros Hr Hrep. eapply tracked_run; [done|]. by apply tracked_start. Qed.

(** The steps are those of the code: a call that is not interrupted behaves as
    the sequential [write_at], some number of its own steps giving the same
    result, tree and storage. *)
Lemma single_call_is_write_at `{Profile} `{Sha256Ffi} {W F} `{ReadByChunk W F} `{RandomWrite W F}
    fuel (self : VerifiedFileEditor F) buf off (st : MerkleLeaves * W) :
  Z.of_nat off + len buf < 2 ^ 64 ->
  ∃ n, let s := run fuel self (replicate n O) ([start_call (buf, off)], st) in
    let '(r, st') := VerifiedFileEditor_write_at fuel self buf (Z.of_nat off) st in
    c_result <$> s.1 = [Some r] ∧ s.2 = st'.
Proof.
  intros Hmax. destruct (run_single_from fuel self buf off (len buf) (Z.of_nat off) ltac:(lia) st
    ltac:(lia) ltac:(lia)) as [n Hn]. exists n. cbv zeta in *. rewrite write_at_eq by done.
  destruct ((r ← for_list _ _; mret _) st) as [r st']. injection Hn as Hres Hst. split; [exact Hres|exact Hst].
Qed.

Section Witness.
#[local] Existing Instance debug_profile.

(** Two overlapping writes to a new file, interleaved: the second one gets in
    between the two chunks of the first. *)
Definition two_requests : list (bytes * nat) := [(replicate 5000 1, O); ([2; 2], 4095%nat)].
Definition interleaved : list nat := [0; 1; 0; 1; 1; 0]%nat.

Lemma concurrent_writes_consistent_witness :
  let '(calls, (t', w')) := run 4097 mem_editor interleaved (start_call <$> two_requests, (ml_new, store [])) in
  leaves_of t' (content w' (ve_file mem_editor)) ∧
  ((∀ i r, two_requests !! i = Some r -> (length r.1 < count_occ Nat.eq_dec interleaved i)%nat) -> all_returned calls) ∧
  (all_returned calls ->
   c_result <$> calls = (λ r, Some (Ok (len r.1))) <$> two_requests ∧
   represents t' (content w' (ve_file mem_editor)) ∧
   blend [] two_requests ((length ∘ fst) <$> two_requests) (content w' (ve_file mem_editor))).
Proof.
  pose proof (concurrent_writes_consistent 4097 mem_editor [] two_requests interleaved ml_new (store [])) as Hw.
  destruct (run 4097 mem_editor interleaved (start_call <$> two_requests, (ml_new, store []))) as [calls [t' w']].
  apply Hw.
  - clia.
  - vm_compute. discriminate.
  - apply Forall_cons. split; [vm_compute; split; [discriminate|reflexivity]|].
    apply Forall_cons. split; [vm_compute; split; [discriminate|reflexivity]|apply Forall_nil_2].
  - apply represents_new.
  - reflexivity.
  - reflexivity.
Defined.
Lemma concurrent_writes_integrity_witness :
  (∃ d, tracked [] two_requests (run 4097 mem_editor interleaved (start_call <$> two_requests, (ml_new, store []))) d) ∨
  ∃ l1 l2, interleaved = l1 ++ l2 ∧
    collides_at mem_editor [] two_requests (run 4097 mem_editor l1 (start_call <$> two_requests, (ml_new, store []))).
Proof.
  refine (concurrent_writes_integrity 4097 mem_editor [] two_requests interleaved ml_new (store []) _ _).
  - apply Forall_cons. split; [reflexivity|]. apply Forall_cons. split; [reflexivity|apply Forall_nil_2].
  - apply represents_new.
Defined.
End Witness.
