(* ===== verification/EditorRace.v ===== *)
(** * authfs/src/fsverity/editor.rs: writes and resizes at the same time

    The requests of the FUSE threads on one writable file: calls of [write_at],
    which take the lock of the tree once for every chunk, and calls of
    [resize], which hold it throughout.  A panic while the lock is held poisons
    it, and every later acquisition panics.  The specification is a plain file
    that the requests change one chunk or one resize at a time ([sstep]), with
    the two liberties that the code takes: a write may stop early, and a
    truncation within a chunk keeps of that chunk what the storage returns.
    The theorems: every interleaving against arbitrary storage follows the
    specification, or the storage produced a collision; over an honest store
    the plain file is the stored one, and the recorded size agrees once all
    requests have returned. *)

From S2P Require Import Prelude Io Common Crypto FsverityCommon MerkleSpec Content Builder File Editor EditorConc Sha256Ref.

(** ** Requests in progress *)
Inductive job :=
| Writing (c : call)
| Resizing (size : nat) (result : option (outcome io_error unit)).

Record race (W : Type) := { r_jobs : list job; r_poisoned : bool; r_state : MerkleLeaves * W }.
Arguments r_jobs {W}. Arguments r_poisoned {W}. Arguments r_state {W}.

Definition is_panic {E A} (r : outcome E A) : bool := match r with Panic => true | _ => false end.

Section Steps.
Context `{Profile} `{Sha256Ffi} {W F : Type} `{ReadByChunk W F} `{RandomWrite W F}.

(** One chunk of a write, or its end; the flag says that the lock is poisoned. *)
Definition write_step (fuel : nat) (self : VerifiedFileEditor F) (c : call) (poisoned : bool)
    (st : MerkleLeaves * W) : call * bool * (MerkleLeaves * W) :=
  match csi_next (E := io_error) (c_iter c) with
  | Ok (Some item, it) =>
      if poisoned then (finish c Panic, true, st)
      else
        let '(r, st') := write_at_iteration fuel self (c_buf c) (Z.of_nat (c_off c)) item st in
        (match r with
         | Ok None => advance c it
         | Ok (Some n) => finish c (Ok n)
         | Err e => finish c (Err e)
         | Panic => finish c Panic
         | NoFuel => finish c NoFuel
         end, is_panic r, st')
  | Ok (None, _) => (finish c (Ok (len (c_buf c))), poisoned, st)
  | Err e => (finish c (Err e), poisoned, st)
  | Panic => (finish c Panic, poisoned, st)
  | NoFuel => (finish c NoFuel, poisoned, st)
  end.

Definition resize_step (self : VerifiedFileEditor F) (size : nat) (poisoned : bool) (st : MerkleLeaves * W)
    : outcome io_error unit * bool * (MerkleLeaves * W) :=
  if poisoned then (Panic, true, st)
  else
    let '(r, st') := VerifiedFileEditor_resize self (Z.of_nat size) st in
    (r, is_panic r, st').

Definition step_job (fuel : nat) (self : VerifiedFileEditor F) (j : job) (poisoned : bool) (st : MerkleLeaves * W)
    : job * bool * (MerkleLeaves * W) :=
  match j with
  | Writing c =>
      match c_result c with
      | None => let '(c', p, st') := write_step fuel self c poisoned st in (Writing c', p, st')
      | Some _ => (j, poisoned, st)
      end
  | Resizing size None =>
      let '(r, p, st') := resize_step self size poisoned st in (Resizing size (Some r), p, st')
  | Resizing _ (Some _) => (j, poisoned, st)
  end.

Definition race_step (fuel : nat) (self : VerifiedFileEditor F) (s : race W) (i : nat) : race W :=
  match r_jobs s !! i with
  | None => s
  | Some j =>
      let '(j', p, st') := step_job fuel self j (r_poisoned s) (r_state s) in
      {| r_jobs := <[i := j']> (r_jobs s); r_poisoned := p; r_state := st' |}
  end.
Definition race_run (fuel : nat) (self : VerifiedFileEditor F) (schedule : list nat) (s : race W) : race W :=
  foldl (race_step fuel self) s schedule.
End Steps.

(** A resize that has not begun had not begun before either. *)
Lemma step_job_pending `{Profile} `{Sha256Ffi} {W F} `{ReadByChunk W F} `{RandomWrite W F}
    fuel (self : VerifiedFileEditor F) j p (st : MerkleLeaves * W) size :
  (step_job fuel self j p st).1.1 = Resizing size None -> j = Resizing size None.
Proof.
  destruct j as [c|n [x|]]; cbn; [|done|by destruct (resize_step _ _ _ _) as [[]]].
  destruct (c_result c); [done|]. by destruct (write_step _ _ _ _ _) as [[]].
Qed.
Lemma still_pending `{Profile} `{Sha256Ffi} {W F} `{ReadByChunk W F} `{RandomWrite W F}
    fuel (self : VerifiedFileEditor F) l (s : race W) i size :
  r_jobs (race_run fuel self l s) !! i = Some (Resizing size None) -> r_jobs s !! i = Some (Resizing size None).
Proof.
  revert s. induction l as [|k l IH]; intros s Hi; [done|]. apply (IH (race_step fuel self s k)) in Hi.
  unfold race_step in Hi. destruct (r_jobs s !! k) as [j|] eqn:Hk; [|done].
  destruct (step_job _ _ _ _ _) as [[j' p] st] eqn:Hs. cbn [r_jobs] in Hi.
  destruct (decide (k = i)) as [->|Hne]; [|by rewrite list_lookup_insert_ne in Hi].
  rewrite list_lookup_insert_eq in Hi by (by eapply lookup_lt_Some). injection Hi as ->.
  rewrite Hk. f_equal. apply (step_job_pending fuel self j (r_poisoned s) (r_state s)). by rewrite Hs.
Qed.
(** A job that the schedule leaves out. *)
Lemma run_other `{Profile} `{Sha256Ffi} {W F} `{ReadByChunk W F} `{RandomWrite W F}
    fuel (self : VerifiedFileEditor F) l (s : race W) i :
  i ∉ l -> r_jobs (race_run fuel self l s) !! i = r_jobs s !! i.
Proof.
  revert s. induction l as [|k l IH]; intros s Hi; [done|]. apply not_elem_of_cons in Hi as [Hne Hi].
  change (race_run fuel self (k :: l) s) with (race_run fuel self l (race_step fuel self s k)).
  rewrite IH by done. unfold race_step. destruct (r_jobs s !! k); [|done].
  destruct (step_job _ _ _ _ _) as [[]]. cbn. by rewrite list_lookup_insert_ne.
Qed.

(** ** The specification: a plain file *)
Inductive request := RWrite (buf : bytes) (off : nat) | RResize (size : nat).
Definition start_job (r : request) : job :=
  match r with RWrite buf off => Writing (start_call (buf, off)) | RResize size => Resizing size None end.
Definition start_race {W} (requests : list request) (t : MerkleLeaves) (w : W) : race W :=
  {| r_jobs := start_job <$> requests; r_poisoned := false; r_state := (t, w) |}.

(** A request as the specification sees it: a write with the number of bytes
    written so far. *)
Inductive sjob :=
| SWriting (buf : bytes) (off k : nat) (result : option (outcome io_error Z))
| SResizing (size : nat) (result : option (outcome io_error unit)).
Definition start_sjob (r : request) : sjob :=
  match r with RWrite buf off => SWriting buf off 0 None | RResize size => SResizing size None end.

(** The content whose chunk [i] is the first [r] bytes of [s] and zeros. *)
Definition rehashed (d : bytes) (i r : nat) (s : bytes) : bytes :=
  resize_bytes (write_bytes d (i * CHUNK) (take r s ++ zeros (CHUNK_SIZE - Z.of_nat r)))
    (Nat.max (length d) (i * CHUNK + r)).

(** What a resize makes of the content before it cuts or extends it, [served]
    being the chunks that the storage returns and [recorded] the size that the
    tree has on record. *)
Inductive retail (served : nat -> list bytes) (recorded : Z) (size : nat) (d : bytes) : bytes -> Prop :=
| retail_kept : recorded <= Z.of_nat size ∨ Z.of_nat size mod CHUNK_SIZE = 0 -> retail served recorded size d d
| retail_served i r s :
    size = (i * CHUNK + r)%nat -> (0 < r < CHUNK)%nat -> Z.of_nat size < recorded -> s ∈ served i ->
    retail served recorded size d (rehashed d i r s).

Inductive sstep (served : nat -> list bytes) (recorded : Z) : sjob -> bytes -> sjob -> bytes -> Prop :=
| s_chunk buf off k s d :
    (0 < s)%nat -> (k + s <= length buf)%nat ->
    sstep served recorded (SWriting buf off k None) d (SWriting buf off (k + s) None)
      (write_bytes d (off + k) (take s (drop k buf)))
| s_stop buf off k r d :
    (∀ n, r = Ok n -> n = Z.of_nat k ∧ (0 < k ∨ buf = [])%nat) ->
    sstep served recorded (SWriting buf off k None) d (SWriting buf off k (Some r)) d
| s_resize size d d1 :
    retail served recorded size d d1 ->
    sstep served recorded (SResizing size None) d (SResizing size (Some (Ok ()))) (resize_bytes d1 size)
| s_refused size r d d1 :
    (∀ x, r <> Ok x) -> d1 = d ∨ retail served recorded size d d1 ->
    sstep served recorded (SResizing size None) d (SResizing size (Some r)) d1.

(** A job of the code and the job of the specification that it follows. *)
Definition follows (j : job) (sj : sjob) : Prop :=
  match j, sj with
  | Writing c, SWriting buf off k res => call_at (buf, off) k c ∧ c_result c = res
  | Resizing size res, SResizing size' res' => size = size' ∧ res = res'
  | _, _ => False
  end.

(** ** One resize against arbitrary storage *)
Section Resize.
Context `{Profile} `{Sha256Spec} {W F : Type} `{ReadByChunk W F} `{RandomWrite W F} `{!BufferTyped W F}.

Lemma length_rehashed d i r s : length (rehashed d i r s) = Nat.max (length d) (i * CHUNK + r).
Proof. apply length_resize_bytes. Qed.

(** Trailing zeros may be cut off within the last chunk. *)
Lemma leaves_of_trim t X n :
  leaves_of t X -> (∀ p, (n <= p)%nat -> byte_at X p = 0) ->
  cdiv (Z.of_nat n) CHUNK_SIZE = cdiv (len X) CHUNK_SIZE -> leaves_of t (resize_bytes X n).
Proof.
  intros [Hm Hl] Hz Hc. split; [|by rewrite length_resize_bytes, Hc].
  intros i h Hi. rewrite (Hm i h Hi). f_equal. apply block_ext. intros j Hj.
  rewrite byte_at_resize. case_decide; [done|]. apply Hz. lia.
Qed.

Lemma length_tail r s : length s = CHUNK -> (r < CHUNK)%nat -> length (take r s ++ zeros (CHUNK_SIZE - Z.of_nat r)) = CHUNK.
Proof. intros Hs Hr. rewrite length_app, length_take, length_zeros. clia. Qed.

(** The leaf of the new last chunk, computed from what the storage returned. *)
Lemma rehash_leaf t d (i r : nat) s size :
  leaves_of t d -> length s = CHUNK -> (0 < r < CHUNK)%nat -> Z.of_nat (S i * CHUNK) < 2 ^ 64 ->
  ∃ t', update_hash (E := io_error) t (Z.of_nat i) (sha256 (take r s ++ zeros (CHUNK_SIZE - Z.of_nat r))) size = Ok t' ∧
    leaves_of t' (rehashed d i r s) ∧ ml_file_size t' = Z.max (ml_file_size t) size.
Proof.
  intros Hlo Hs Hr H64. set (src := take r s ++ zeros (CHUNK_SIZE - Z.of_nat r)).
  assert (length src = CHUNK) as Hl by (apply length_tail; (done || lia)).
  assert (src <> []) as Hne by (intros He; rewrite He in Hl; simpl in Hl; clia).
  destruct (update_hash_leaves (E := io_error) d (i * CHUNK) i src t (sha256 src) size) as (t' & Hu & Hlo' & Hsz);
    [done|done|lia|lia|lia| |].
  { rewrite <- (Nat.add_0_r (i * CHUNK)), <- block_write_same by lia. cbn [take app Nat.add].
    by rewrite drop_ge, app_nil_r by (rewrite length_block; lia). }
  exists t'. split_and!; [done| |done]. unfold rehashed. fold src. apply leaves_of_trim; [done|..].
  - intros p Hp. rewrite byte_at_write. case_decide as Hin; [|apply byte_at_ge; lia].
    unfold src, zeros. rewrite byte_at_app, length_take. case_decide; [lia|apply byte_at_zeros].
  - rewrite length_write_bytes, Hl, !Nat2Z.inj_max, !cdiv_max by (done || clia). f_equal.
    transitivity (Z.of_nat i + 1); [|symmetry]; apply cdiv_unique; try clia; intros j; clia.
Qed.

(** The chunks that the storage would return in a state. *)
Definition serves (self : VerifiedFileEditor F) (w : W) (i : nat) : list bytes :=
  read_back (ve_file self) (Z.of_nat i) w.

(** A size cuts within a chunk, or nothing is rehashed. *)
Lemma rehash_cases t (size : nat) :
  (ml_file_size t <= Z.of_nat size ∨ Z.of_nat size mod CHUNK_SIZE = 0) ∨
  ∃ i r, size = (i * CHUNK + r)%nat ∧ (0 < r < CHUNK)%nat ∧ Z.of_nat size < ml_file_size t.
Proof.
  pose proof (Z.mod_pos_bound (Z.of_nat size) CHUNK_SIZE ltac:(clia)).
  pose proof (Z.div_mod (Z.of_nat size) CHUNK_SIZE ltac:(clia)).
  pose proof (Z.div_pos (Z.of_nat size) CHUNK_SIZE ltac:(lia) ltac:(clia)).
  destruct (decide (ml_file_size t <= Z.of_nat size)); [by left; left|].
  destruct (decide (Z.of_nat size mod CHUNK_SIZE = 0)); [by left; right|]. right.
  exists (Z.to_nat (Z.of_nat size / CHUNK_SIZE)), (Z.to_nat (Z.of_nat size mod CHUNK_SIZE)). split_and!; clia.
Qed.
Lemma rehash_skip self (size : nat) t w :
  ml_file_size t <= Z.of_nat size ∨ Z.of_nat size mod CHUNK_SIZE = 0 ->
  rehash_new_tail self (Z.of_nat size) t w = (Ok t, w).
Proof.
  intros Hc. unfold rehash_new_tail. erewrite M_bind_lift by (apply rem_u64_ok; clia). unfold file_size.
  assert ((Z.of_nat size <? ml_file_size t) && (Z.of_nat size mod CHUNK_SIZE >? 0) = false) as ->; [|done].
  apply andb_false_iff. lia.
Qed.
Lemma rehash_eq self (i r : nat) t w :
  (0 < r < CHUNK)%nat -> Z.of_nat (i * CHUNK + r) < ml_file_size t -> ml_file_size t < 2 ^ 64 ->
  rehash_new_tail self (Z.of_nat (i * CHUNK + r)) t w =
    match read_chunk (ve_file self) (Z.of_nat i) (zeros CHUNK_SIZE) w with
    | (Ok (n, s), w1) =>
        (if debug_assertions && (n <? Z.of_nat r) then Panic
         else update_hash t (Z.of_nat i) (sha256 (take r s ++ zeros (CHUNK_SIZE - Z.of_nat r)))
                (Z.of_nat (i * CHUNK + r)), w1)
    | (Err e, w1) => (Err e, w1)
    | (Panic, w1) => (Panic, w1)
    | (NoFuel, w1) => (NoFuel, w1)
    end.
Proof.
  intros Hr Hlt H64. unfold rehash_new_tail.
  assert (Z.of_nat (i * CHUNK + r) mod CHUNK_SIZE = Z.of_nat r) as Hmod
    by (symmetry; apply (Z.mod_unique _ _ (Z.of_nat i)); clia).
  assert (Z.of_nat (i * CHUNK + r) / CHUNK_SIZE = Z.of_nat i) as Hdiv
    by (symmetry; apply (Z.div_unique _ _ _ (Z.of_nat r)); clia).
  erewrite M_bind_lift by (apply rem_u64_ok; clia). unfold file_size. rewrite Hmod.
  rewrite (proj2 (Z.ltb_lt _ _) Hlt). replace (Z.of_nat r >? 0) with true by lia. cbn [andb].
  erewrite M_bind_lift by (apply rem_u64_ok; clia). erewrite M_bind_lift by (apply div_u64_ok; clia).
  rewrite Hmod, Hdiv. replace (Z.of_nat r >? 0) with true by lia.
  rewrite M_bind_eq. unfold VerifiedFileEditor_read_chunk.
  destruct (read_chunk _ _ _ _) as [[[n s]| | |] w1] eqn:Hrd; [|done..].
  pose proof (read_chunk_typed _ _ _ _ _ _ _ (length_zeros _) Hrd) as Hs.
  rewrite M_bind_eq. unfold debug_assert, assert_. rewrite Z.ltb_antisym.
  destruct debug_assertions; [destruct (Z.of_nat r <=? n); [|done]|]; cbn [lift andb negb];
    (erewrite M_bind_lift by (apply sub_u64_ok; clia));
    unfold slice_to; rewrite slice_ok by clia; (erewrite M_bind_lift by (hash_step; rewrite bind_Ok; by hash_run));
    cbn [app]; by rewrite subrange_0, Nat2Z.id.
Qed.

Lemma rehash_any self (size : nat) t d w r w' :
  leaves_of t d -> ml_file_size t + CHUNK_SIZE < 2 ^ 64 ->
  rehash_new_tail self (Z.of_nat size) t w = (r, w') ->
  (∀ t1, r <> Ok t1) ∨
  ∃ t1 d1, r = Ok t1 ∧ retail (serves self w) (ml_file_size t) size d d1 ∧ leaves_of t1 d1 ∧
    ml_file_size t1 = ml_file_size t.
Proof.
  intros Hlo H64. destruct (rehash_cases t size) as [Hskip|(i & rr & -> & Hrr & Hlt)].
  { rewrite rehash_skip by done. intros [= <- <-]. right. exists t, d. split_and!; [done|by constructor|done|done]. }
  rewrite rehash_eq by (done || clia).
  destruct (read_chunk _ _ _ _) as [[[n s]| | |] w1] eqn:Hrd; [|intros [= <- <-]; by left..].
  destruct (debug_assertions && _); [intros [= <- <-]; by left|].
  pose proof (read_chunk_typed _ _ _ _ _ _ _ (length_zeros _) Hrd) as Hs.
  destruct (rehash_leaf t d i rr s (Z.of_nat (i * CHUNK + rr))) as (t1 & Hu & Hlo1 & Hsz1); [done|done|done|clia|].
  rewrite Hu. intros [= <- <-]. right. exists t1, (rehashed d i rr s). split_and!; [done| |done|lia].
  apply retail_served; [done|done|done|]. unfold serves, read_back. rewrite Hrd. by apply list_elem_of_singleton.
Qed.

(** Cutting or extending a content that has only zeros between the new end and
    the next chunk boundary. *)
Lemma cut_leaves t d (size : nat) :
  leaves_of t d -> Z.of_nat size + CHUNK_SIZE < 2 ^ 64 ->
  (∀ p, (size <= p)%nat -> Z.of_nat p < cdiv (Z.of_nat size) CHUNK_SIZE * CHUNK_SIZE -> byte_at d p = 0) ->
  ∃ t', ml_resize (E := io_error) t (Z.of_nat size) = Ok t' ∧ represents t' (resize_bytes d size).
Proof.
  intros Hlo H64 Hz. pose proof (leaves_of_cover _ _ Hlo) as Hcov.
  pose proof (ml_resize_represents (E := io_error) t d (Z.of_nat size)) as Hml. rewrite Nat2Z.id in Hml.
  apply Hml; [lia|done| |clia]. intros j h Hj. rewrite lookup_take in Hj. case_decide as Hlt; [|done].
  rewrite (proj1 Hlo j h Hj). f_equal. apply block_ext. intros n Hn. rewrite byte_at_resize.
  case_decide; [done|]. apply Hz; clia.
Qed.
Lemma rehashed_zeros d i r s p :
  length s = CHUNK -> (0 < r < CHUNK)%nat -> (i * CHUNK + r <= p < S i * CHUNK)%nat -> byte_at (rehashed d i r s) p = 0.
Proof.
  intros Hs Hr Hp. unfold rehashed. rewrite byte_at_resize. case_decide; [|done].
  rewrite byte_at_write, length_tail, decide_True by (done || lia). unfold zeros.
  rewrite byte_at_app, length_take. case_decide; [lia|apply byte_at_zeros].
Qed.
Lemma retail_cut self w recorded size d d1 p :
  retail (serves self w) recorded size d d1 -> len d <= recorded ->
  (size <= p)%nat -> Z.of_nat p < cdiv (Z.of_nat size) CHUNK_SIZE * CHUNK_SIZE -> byte_at d1 p = 0.
Proof.
  intros [[Hge|Hmod]|i r s -> Hr Hlt Hs] Hrec Hp Hc.
  - apply byte_at_ge. lia.
  - pose proof (Z.div_mod (Z.of_nat size) CHUNK_SIZE ltac:(clia)).
    assert (cdiv (Z.of_nat size) CHUNK_SIZE <= Z.of_nat size / CHUNK_SIZE) by (apply cdiv_le; clia). clia.
  - assert (cdiv (Z.of_nat (i * CHUNK + r)) CHUNK_SIZE <= Z.of_nat i + 1) by (apply cdiv_le; clia).
    apply rehashed_zeros; [|done|clia]. unfold serves, read_back in Hs.
    destruct (read_chunk _ _ _ _) as [[[n s1]| | |] w1] eqn:Hrd; [|by apply elem_of_nil in Hs..].
    apply list_elem_of_singleton in Hs as ->.
    exact (read_chunk_typed _ _ _ _ _ _ _ (length_zeros _) Hrd).
Qed.
Lemma retail_length served recorded size d d1 :
  retail served recorded size d d1 -> len d <= recorded -> len d1 <= recorded.
Proof. intros [?|i r s -> Hr Hlt Hs] Hrec; [done|]. rewrite length_rehashed. lia. Qed.

Lemma resize_eq self size t w :
  VerifiedFileEditor_resize self size (t, w) =
    match rehash_new_tail self size t w with
    | (Ok t1, w1) =>
        match resize_to (ve_file self) size w1 with
        | (Ok _, w2) => (t2 ← lift (ml_resize t1 size); on_fst (put t2)) (t1, w2)
        | (Err e, w2) => (Err e, (t1, w2))
        | (Panic, w2) => (Panic, (t1, w2))
        | (NoFuel, w2) => (NoFuel, (t1, w2))
        end
    | (Err e, w1) => (Err e, (t, w1))
    | (Panic, w1) => (Panic, (t, w1))
    | (NoFuel, w1) => (NoFuel, (t, w1))
    end.
Proof.
  unfold VerifiedFileEditor_resize. erewrite M_bind_lift by apply debug_assert_usize_ok.
  rewrite M_bind_eq. cbn [get fst]. rewrite M_bind_eq. cbn [on_snd].
  destruct (rehash_new_tail _ _ _ _) as [[]w1]; [|done..]. cbv beta iota. rewrite M_bind_eq. cbn [on_fst put].
  rewrite M_bind_eq. cbn [on_snd]. by destruct (resize_to _ _ _) as [[]w2].
Qed.

Lemma resize_any self (size : nat) t d w r t' w' :
  leaves_of t d -> len d <= ml_file_size t -> ml_file_size t + CHUNK_SIZE < 2 ^ 64 ->
  Z.of_nat size + CHUNK_SIZE < 2 ^ 64 ->
  VerifiedFileEditor_resize self (Z.of_nat size) (t, w) = (r, (t', w')) ->
  (r = Ok () ∧ ∃ d1, retail (serves self w) (ml_file_size t) size d d1 ∧ represents t' (resize_bytes d1 size)) ∨
  (∀ x, r <> Ok x) ∧ ∃ d1, (d1 = d ∨ retail (serves self w) (ml_file_size t) size d d1) ∧ leaves_of t' d1 ∧
    len d1 <= ml_file_size t' ∧ ml_file_size t' = ml_file_size t.
Proof.
  intros Hlo Hrec H64 Hs64. rewrite resize_eq. destruct (rehash_new_tail _ _ _ _) as [r1 w1] eqn:Hre.
  apply (rehash_any self size t d) in Hre as [Hno|(t1 & d1 & -> & Hret & Hlo1 & Hsz1)]; [|cbv beta iota|done|done].
  { destruct r1; [by edestruct Hno|..]; intros [= <- <- <-]; right; (split; [done|]); exists d; auto. }
  destruct (resize_to _ _ _) as [[[]| | |] w2].
  2-4: intros [= <- <- <-]; right; (split; [done|]); exists d1;
    pose proof (retail_length _ _ _ _ _ Hret Hrec); split_and!; [by right|done|lia|done].
  destruct (cut_leaves t1 d1 size) as (t2 & Hm & Hrep); [done|done|intros p; by eapply retail_cut|].
  erewrite M_bind_lift by exact Hm. intros [= <- <- <-]. left. split; [done|]. by exists d1.
Qed.
End Resize.

(** ** The simulation *)
Definition returned (sj : sjob) : Prop :=
  match sj with SWriting _ _ _ res => is_Some res | SResizing _ res => is_Some res end.
Definition request_within (max : Z) (r : request) : Prop :=
  match r with RWrite buf off => Z.of_nat off + len buf <= max | RResize size => Z.of_nat size <= max end.

(** The specification can go along with a schedule: every step of a request that
    has not returned is a step of the specification, [R l] being its steps after
    the schedule [l]. *)
Inductive explained (R : list nat -> sjob -> bytes -> sjob -> bytes -> Prop) (requests : list request) (data : bytes)
    : list nat -> list sjob -> bytes -> Prop :=
| ex_start : explained R requests data [] (start_sjob <$> requests) data
| ex_idle l i js d :
    explained R requests data l js d -> (∀ j, js !! i = Some j -> returned j) ->
    explained R requests data (l ++ [i]) js d
| ex_step l i js d j j' d' :
    explained R requests data l js d -> js !! i = Some j -> R l j d j' d' ->
    explained R requests data (l ++ [i]) (<[i := j']> js) d'.

Section Simulation.
Context `{Profile} `{Sha256Spec} {W F : Type} `{ReadByChunk W F} `{RandomWrite W F} `{!BufferTyped W F}.
Context (fuel : nat) (self : VerifiedFileEditor F) (requests : list request) (data : bytes) (s0 : race W).

Definition tree_after (l : list nat) : MerkleLeaves := (r_state (race_run fuel self l s0)).1.
Definition world_after (l : list nat) : W := (r_state (race_run fuel self l s0)).2.

(** The steps of the specification, with the chunks that the storage would
    return and the size on record in that very state. *)
Definition spec_after (l : list nat) : sjob -> bytes -> sjob -> bytes -> Prop :=
  sstep (serves self (world_after l)) (ml_file_size (tree_after l)).

Definition within (max : Z) (sj : sjob) : Prop :=
  match sj with
  | SWriting buf off k _ => (k <= length buf)%nat ∧ Z.of_nat off + len buf <= max
  | SResizing size _ => Z.of_nat size <= max
  end.
Context (max : Z) (Hmax : max + CHUNK_SIZE < 2 ^ 64).

Record in_sync (l : list nat) (js : list sjob) (d : bytes) : Prop := {
  is_explained : explained spec_after requests data l js d;
  is_follows : Forall2 follows (r_jobs (race_run fuel self l s0)) js;
  is_within : Forall (within max) js;
  is_leaves : leaves_of (tree_after l) d;
  is_size : len d <= ml_file_size (tree_after l) <= max
}.

(** The storage serves, after [l], a chunk that collides with the content. *)
Definition collides (l : list nat) : Prop :=
  ∃ js d i, in_sync l js d ∧ (i * CHUNK < length d)%nat ∧ collision (serves self (world_after l) i) [block d i].

Lemma run_snoc l i : race_run fuel self (l ++ [i]) s0 = race_step fuel self (race_run fuel self l s0) i.
Proof. unfold race_run. by rewrite foldl_app. Qed.

(** A step of job [i], once the step of the specification is known. *)
Lemma in_sync_step l js d i j j' p sj sj' t' w' d' :
  in_sync l js d -> r_jobs (race_run fuel self l s0) !! i = Some j ->
  step_job fuel self j (r_poisoned (race_run fuel self l s0)) (r_state (race_run fuel self l s0)) = (j', p, (t', w')) ->
  js !! i = Some sj -> spec_after l sj d sj' d' ->
  follows j' sj' -> within max sj' -> leaves_of t' d' -> len d' <= ml_file_size t' <= max ->
  in_sync (l ++ [i]) (<[i := sj']> js) d'.
Proof.
  intros [Hex Hfol Hwi Hlo Hsz] Hj Hstep Hsj Hs Hf Hw Hlo' Hsz'.
  assert (race_run fuel self (l ++ [i]) s0 = {| r_jobs := <[i := j']> (r_jobs (race_run fuel self l s0));
    r_poisoned := p; r_state := (t', w') |}) as Hrun.
  { rewrite run_snoc. unfold race_step. by rewrite Hj, Hstep. }
  split; unfold tree_after; rewrite ?Hrun; cbn [r_jobs r_state fst snd]; [|by apply Forall2_insert|by apply Forall_insert|done|done].
  by eapply ex_step.
Qed.

Lemma in_sync_write l js d i c buf off k :
  in_sync l js d -> r_jobs (race_run fuel self l s0) !! i = Some (Writing c) -> c_result c = None ->
  js !! i = Some (SWriting buf off k None) -> call_at (buf, off) k c ->
  (∃ js' d', in_sync (l ++ [i]) js' d') ∨ collides l.
Proof.
  intros Hsync Hj Hres Hsj Hat. pose proof Hsync as [_ _ Hwi Hlo Hsz].
  pose proof (Forall_lookup_1 _ _ _ _ Hwi Hsj) as [Hk Hend].
  set (sl := race_run fuel self l s0) in *. unfold tree_after in *. fold sl in Hlo, Hsz.
  assert (∀ r p st', (∀ n, r = Ok n -> n = Z.of_nat k ∧ (0 < k ∨ buf = [])%nat) -> st'.1 = (r_state sl).1 ->
    step_job fuel self (Writing c) (r_poisoned sl) (r_state sl) = (Writing (finish c r), p, st') ->
    ∃ js' d', in_sync (l ++ [i]) js' d') as Hstop.
  { intros r p [t' w'] Hr Ht Hst. cbn in Ht. subst t'. exists (<[i := SWriting buf off k (Some r)]> js), d.
    eapply in_sync_step; [done|done|exact Hst|done|by constructor|by cbn|done|done|done]. }
  assert (step_job fuel self (Writing c) (r_poisoned sl) (r_state sl) =
    let '(c', p, st') := write_step fuel self c (r_poisoned sl) (r_state sl) in (Writing c', p, st')) as Hstep
    by (cbn; by rewrite Hres).
  unfold write_step in Hstep.
  destruct (call_next (buf, off) k c Hat) as [[Hd [it Hit]]|(n & ci & o & Hp & Hit)]; [cbn; clia|..];
    rewrite Hit in Hstep.
  - left. eapply Hstop; [|reflexivity|exact Hstep]. intros n [= <-]. cbn in Hd. destruct Hat as (-> & _). cbn.
    split; [lia|]. destruct buf; [by right|left; simpl in *; lia].
  - destruct (r_poisoned sl) eqn:Hpo; [left; by eapply Hstop; [| |exact Hstep]|].
    pose proof Hat as (Hbuf & Hoff & _ & _). cbn [fst snd] in Hbuf, Hoff, Hp, Hit. rewrite Hbuf, Hoff in Hstep.
    destruct (r_state sl) as [t w] eqn:Est. cbn [fst snd] in *.
    destruct (write_at_iteration _ _ _ _ _ _) as [res [t' w']] eqn:Hw. cbv beta iota in Hstep.
    apply (iteration_any fuel self d off buf k n ci o) in Hw
      as [(-> & Hlo' & Hsz')|[(-> & Hne & Hv)|[Hlt Hcol]]]; [| | |done|done].
    + left. destruct Hp as (Hn & Hkn & _). eexists _, _.
      eapply in_sync_step; [done|done|fold sl; rewrite Hpo, Est; exact Hstep|done|by apply s_chunk| | |exact Hlo'|].
      * cbn. split; [|done]. unfold call_at. cbn. by rewrite Hbuf, Hoff.
      * cbn. lia.
      * rewrite Hsz'. unfold saturating_add_u64, u64_MAX.
        rewrite length_write_bytes; [rewrite length_take, length_drop; clia|].
        intros He. apply (f_equal length) in He. rewrite length_take, length_drop in He. simpl in He. lia.
    + left. destruct res as [[v|]|e| |]; [|done|..];
        (eapply Hstop; [| |exact Hstep]; [|reflexivity]); try done.
      intros n' [= <-]. destruct (Hv v eq_refl). auto.
    + right. exists js, d, ci. split_and!; [done|done|]. unfold serves, world_after. fold sl. by rewrite Est.
Qed.

Lemma in_sync_resize l js d i size :
  in_sync l js d -> r_jobs (race_run fuel self l s0) !! i = Some (Resizing size None) ->
  js !! i = Some (SResizing size None) -> ∃ js' d', in_sync (l ++ [i]) js' d'.
Proof.
  intros Hsync Hj Hsj. pose proof Hsync as [_ _ Hwi Hlo Hsz].
  pose proof (Forall_lookup_1 _ _ _ _ Hwi Hsj) as Hend. cbn in Hend.
  set (sl := race_run fuel self l s0) in *. unfold tree_after in *. fold sl in Hlo, Hsz.
  destruct (step_job fuel self (Resizing size None) (r_poisoned sl) (r_state sl)) as [[j' p] [t' w']] eqn:Hstep.
  pose proof Hstep as Hst. cbn [step_job] in Hst. unfold resize_step in Hst.
  destruct (r_poisoned sl) eqn:Hpo.
  { injection Hst as <- <- Est. exists (<[i := SResizing size (Some Panic)]> js), d.
    rewrite Est in Hlo, Hsz. eapply in_sync_step; [done|done|fold sl; rewrite Hpo; exact Hstep|done| |done|done|done|done].
    constructor; auto. }
  destruct (r_state sl) as [t w] eqn:Est. cbn [fst snd] in *.
  destruct (VerifiedFileEditor_resize _ _ _) as [r st'] eqn:Hr. injection Hst as <- <- ->.
  apply (resize_any self size t d) in Hr
    as [(-> & d1 & Hret & Hrep)|(Hno & d1 & Hd1 & Hlo' & Hsz' & Heq)]; [| |done|lia|lia|lia].
  - exists (<[i := SResizing size (Some (Ok ()))]> js), (resize_bytes d1 size).
    eapply in_sync_step; [done|done|fold sl; rewrite Hpo, Est; exact Hstep|done| |done|done| |].
    + apply s_resize. unfold tree_after, world_after. fold sl. by rewrite Est.
    + by apply leaves_of_represents in Hrep as [? _].
    + destruct Hrep as [_ ->]. rewrite length_resize_bytes. lia.
  - exists (<[i := SResizing size (Some r)]> js), d1. eapply in_sync_step; [done|done|fold sl; rewrite Hpo, Est; exact Hstep|done| |done|done|done|lia].
    apply s_refused; [done|]. unfold tree_after, world_after. fold sl. rewrite Est. exact Hd1.
Qed.

Lemma in_sync_next l js d i :
  in_sync l js d -> (∃ js' d', in_sync (l ++ [i]) js' d') ∨ collides l.
Proof.
  intros Hsync. pose proof Hsync as [Hex Hfol Hwi Hlo Hsz].
  assert (race_run fuel self (l ++ [i]) s0 = race_run fuel self l s0 ->
    (∀ j, js !! i = Some j -> returned j) -> in_sync (l ++ [i]) js d) as Hidle.
  { intros Heq Hret. split; unfold tree_after; rewrite ?Heq; try done. by apply ex_idle. }
  rewrite run_snoc in Hidle. unfold race_step in Hidle.
  destruct (r_jobs (race_run fuel self l s0) !! i) as [j|] eqn:Hj.
  2: { left. exists js, d. apply Hidle; [done|]. intros sj Hsj.
       destruct (Forall2_lookup_r _ _ _ _ _ Hfol Hsj) as (x & Hx & _). congruence. }
  destruct (Forall2_lookup_l _ _ _ _ _ Hfol Hj) as (sj & Hsj & Hf).
  assert (∀ p, (j, p, r_state (race_run fuel self l s0)) = (j, r_poisoned (race_run fuel self l s0), r_state (race_run fuel self l s0)) ->
    {| r_jobs := <[i := j]> (r_jobs (race_run fuel self l s0)); r_poisoned := p;
       r_state := r_state (race_run fuel self l s0) |} = race_run fuel self l s0) as Hsame.
  { intros p [= ->]. rewrite list_insert_id by done. by destruct (race_run fuel self l s0). }
  destruct j as [c|size [r|]], sj as [buf off k res|size' res']; try done; cbn in Hf; destruct Hf as [Hf ?]; subst.
  - destruct (c_result c) as [r|] eqn:Hres; [|by eapply in_sync_write].
    left. exists js, d. cbn in Hidle. rewrite Hres in Hidle. apply Hidle; [by apply Hsame|].
    intros sj [= <-]%(eq_trans (eq_sym Hsj)). by eexists.
  - left. exists js, d. apply Hidle; [by apply Hsame|]. intros sj [= <-]%(eq_trans (eq_sym Hsj)). by eexists.
  - left. by eapply in_sync_resize.
Qed.

Lemma in_sync_run schedule :
  in_sync [] (start_sjob <$> requests) data ->
  (∃ js d, in_sync schedule js d) ∨ ∃ l1 l2, schedule = l1 ++ l2 ∧ collides l1.
Proof.
  intros Hstart. induction schedule as [|i l IH] using rev_ind; [left; by eexists _, _|].
  destruct IH as [(js & d & Hs)|(l1 & l2 & -> & Hc)].
  - destruct (in_sync_next l js d i Hs) as [?|?]; [by left|]. right. by exists l, [i].
  - right. exists l1, (l2 ++ [i]). by rewrite app_assoc.
Qed.
End Simulation.

Lemma follows_start requests : Forall2 follows (start_job <$> requests) (start_sjob <$> requests).
Proof.
  apply Forall2_fmap, Forall_Forall2_diag, Forall_true. intros [buf off|size]; cbn; [|done].
  split; [|done]. unfold call_at. cbn. split_and!; [done|done|lia|]. f_equal; lia.
Qed.
Lemma in_sync_start `{Profile} `{Sha256Spec} {W F} `{ReadByChunk W F} `{RandomWrite W F}
    fuel (self : VerifiedFileEditor F) requests data t (w : W) max :
  represents t data -> len data <= max -> Forall (request_within max) requests ->
  in_sync fuel self requests data (start_race requests t w) max [] (start_sjob <$> requests) data.
Proof.
  intros Hrep Hd Hreq. pose proof (proj1 (leaves_of_represents _ _) Hrep) as [Hlo Hsz]. split.
  - constructor.
  - apply follows_start.
  - apply Forall_fmap. eapply Forall_impl; [exact Hreq|]. intros [buf off|size]; cbn; [|done]. intros ?. split; [lia|done].
  - exact Hlo.
  - cbn in *. rewrite Hsz. lia.
Qed.

(** ** Over an honest store *)

(** The steps of a plain file; a resize may be refused while the size on record
    is beyond the end of the file, which is so only in the middle of a write. *)
Inductive pstep (recorded : Z) : sjob -> bytes -> sjob -> bytes -> Prop :=
| p_chunk buf off k s d :
    (0 < s)%nat -> (k + s <= length buf)%nat ->
    pstep recorded (SWriting buf off k None) d (SWriting buf off (k + s) None)
      (write_bytes d (off + k) (take s (drop k buf)))
| p_return buf off d :
    pstep recorded (SWriting buf off (length buf) None) d (SWriting buf off (length buf) (Some (Ok (len buf)))) d
| p_resize size d :
    pstep recorded (SResizing size None) d (SResizing size (Some (Ok ()))) (resize_bytes d size)
| p_refused size e d :
    len d < recorded -> pstep recorded (SResizing size None) d (SResizing size (Some (Err e))) d.

(** A write that has chunks left, and the end that it asked for. *)
Definition pending_end (js : list sjob) (e : Z) : Prop :=
  ∃ i buf off k, js !! i = Some (SWriting buf off k None) ∧ (k < length buf)%nat ∧ e = Z.of_nat off + len buf.

(** The bytes of the last chunk that a truncation keeps are those of the file. *)
Lemma resize_rehashed d (i r : nat) :
  (0 < r < CHUNK)%nat -> resize_bytes (rehashed d i r (block d i)) (i * CHUNK + r) = resize_bytes d (i * CHUNK + r).
Proof.
  intros Hr. pose proof (length_block d i) as Hb. apply byte_at_ext; [by rewrite !length_resize_bytes|]. intros p.
  rewrite !byte_at_resize. case_decide as Hp; [|done]. unfold rehashed. rewrite byte_at_resize, decide_True by lia.
  rewrite byte_at_write, length_tail by (done || lia). case_decide as Hin; [|done].
  rewrite byte_at_app, length_take. case_decide; [|lia].
  rewrite byte_at_take, decide_True, byte_at_block by lia. f_equal. lia.
Qed.

Section Honest.
Context `{Profile} `{Sha256Spec} {W F : Type} `{ReadsPastEnd W F} `{!BufferTyped W F}.

Lemma resize_stored self (size : nat) t d w :
  debug_assertions = false -> store_ok w (ve_file self) -> content w (ve_file self) = d -> leaves_of t d -> len d <= ml_file_size t ->
  ml_file_size t <= stored_max -> ml_file_size t + CHUNK_SIZE < 2 ^ 64 ->
  Z.of_nat size <= stored_max -> Z.of_nat size + CHUNK_SIZE < 2 ^ 64 ->
  (∃ t' w', VerifiedFileEditor_resize self (Z.of_nat size) (t, w) = (Ok (), (t', w')) ∧
     represents t' (resize_bytes d size) ∧ store_ok w' (ve_file self) ∧
     content w' (ve_file self) = resize_bytes d size) ∨
  ∃ e, VerifiedFileEditor_resize self (Z.of_nat size) (t, w) = (Err e, (t, w)) ∧ len d < ml_file_size t.
Proof.
  intros Hrelease Hok Hc Hlo Hrec Hmax H64 Hsm Hs64.
  (* what is rehashed is the tail of the file itself *)
  assert ((∃ t1, rehash_new_tail self (Z.of_nat size) t w = (Ok t1, w) ∧
             ∃ d1, leaves_of t1 d1 ∧ resize_bytes d1 size = resize_bytes d size ∧
               retail (serves self w) (ml_file_size t) size d d1) ∨
          ∃ e, rehash_new_tail self (Z.of_nat size) t w = (Err e, w) ∧ len d < ml_file_size t) as Hre.
  { destruct (rehash_cases t size) as [Hskip|(i & r & -> & Hr & Hlt)].
    { left. exists t. rewrite rehash_skip by done. split; [done|]. exists d. split_and!; [done|done|by constructor]. }
    assert (∀ n, read_chunk (ve_file self) (Z.of_nat i) (zeros CHUNK_SIZE) w = (Ok (n, block d i), w) ->
      ∃ t1, rehash_new_tail self (Z.of_nat (i * CHUNK + r)) t w = (Ok t1, w) ∧
        ∃ d1, leaves_of t1 d1 ∧ resize_bytes d1 (i * CHUNK + r) = resize_bytes d (i * CHUNK + r) ∧
          retail (serves self w) (ml_file_size t) (i * CHUNK + r) d d1) as Hread.
    { intros n Hrd. destruct (rehash_leaf t d i r (block d i) (Z.of_nat (i * CHUNK + r))) as (t1 & Hu & Hlo1 & _);
        [done|apply length_block|done|clia|].
      exists t1. rewrite rehash_eq, Hrd, Hrelease by (done || clia). cbn [andb]. rewrite Hu. split; [done|].
      exists (rehashed d i r (block d i)). split_and!; [done|by apply resize_rehashed|].
      apply retail_served; [done|done|done|]. unfold serves, read_back. rewrite Hrd. by apply list_elem_of_singleton. }
    destruct (decide (i * CHUNK < length d)%nat) as [Hin|Hout].
    { left. eapply Hread. apply stored_block; [done|done|lia|done]. }
    destruct (read_past_end (ve_file self) (Z.of_nat i) (zeros CHUNK_SIZE) w) as [[e He]|[n Hn]];
      [done|lia|rewrite Hc; clia|clia|apply length_zeros|..].
    - right. exists e. rewrite rehash_eq, He by (done || clia). split; [done|clia].
    - left. apply (Hread n). rewrite Hn. by rewrite block_zero by lia. }
  rewrite resize_eq. destruct Hre as [(t1 & -> & d1 & Hlo1 & Heq & Hret)|(e & -> & Hlt)]; [left|right; by exists e].
  destruct (stored_resize (ve_file self) (Z.of_nat size) w Hok) as (w2 & Hrs & Hok2 & Hc2); [lia|].
  destruct (cut_leaves t1 d1 size) as (t2 & Hm & Hrep); [done|done|intros p; by eapply retail_cut|].
  exists t2, w2. rewrite Hrs.
  erewrite M_bind_lift by exact Hm. rewrite Nat2Z.id, Hc in Hc2. rewrite Heq in Hrep. done.
Qed.

Context (fuel : nat) (self : VerifiedFileEditor F) (requests : list request) (data : bytes) (s0 : race W).
Context (max : Z) (Hfuel : (CHUNK < fuel)%nat) (Hmax : max + CHUNK_SIZE < 2 ^ 64) (Hstored : max <= stored_max).

(** The steps of the plain file, with the size on record in that very state. *)
Definition plain_after (l : list nat) : sjob -> bytes -> sjob -> bytes -> Prop :=
  pstep (ml_file_size (tree_after fuel self s0 l)).

(** The code and the plain file after a schedule: the file is the stored one,
    the tree is its tree, and the recorded size is its length or the end that a
    write in progress asked for. *)
Record agrees (l : list nat) (js : list sjob) (d : bytes) : Prop := {
  ag_explained : explained plain_after requests data l js d;
  ag_poisoned : r_poisoned (race_run fuel self l s0) = false;
  ag_follows : Forall2 follows (r_jobs (race_run fuel self l s0)) js;
  ag_within : Forall (within max) js;
  ag_leaves : leaves_of (tree_after fuel self s0 l) d;
  ag_store : store_ok (world_after fuel self s0 l) (ve_file self);
  ag_content : content (world_after fuel self s0 l) (ve_file self) = d;
  ag_size : len d <= ml_file_size (tree_after fuel self s0 l) <= max;
  ag_recorded : ml_file_size (tree_after fuel self s0 l) = len d ∨ pending_end js (ml_file_size (tree_after fuel self s0 l))
}.

Lemma agrees_step l js d i j j' sj sj' t' w' d' :
  agrees l js d -> r_jobs (race_run fuel self l s0) !! i = Some j ->
  step_job fuel self j false (r_state (race_run fuel self l s0)) = (j', false, (t', w')) ->
  js !! i = Some sj -> plain_after l sj d sj' d' -> follows j' sj' -> within max sj' ->
  leaves_of t' d' -> store_ok w' (ve_file self) -> content w' (ve_file self) = d' ->
  len d' <= ml_file_size t' <= max ->
  ml_file_size t' = len d' ∨ pending_end (<[i := sj']> js) (ml_file_size t') ->
  agrees (l ++ [i]) (<[i := sj']> js) d'.
Proof.
  intros [Hex Hpo Hfol Hwi _ _ _ _ _] Hj Hstep Hsj Hs Hf Hw Hlo' Hok' Hc' Hsz' Hrec'.
  assert (race_run fuel self (l ++ [i]) s0 = {| r_jobs := <[i := j']> (r_jobs (race_run fuel self l s0));
    r_poisoned := false; r_state := (t', w') |}) as Hrun.
  { rewrite run_snoc. unfold race_step. by rewrite Hj, Hpo, Hstep. }
  split; unfold tree_after, world_after; rewrite ?Hrun; cbn [r_jobs r_poisoned r_state fst snd]; try done.
  - by eapply ex_step.
  - by apply Forall2_insert.
  - by apply Forall_insert.
Qed.

(** The recorded size after a chunk of a write. *)
Lemma pending_chunk js d i buf off k s recorded :
  js !! i = Some (SWriting buf off k None) -> (0 < s)%nat -> (k + s <= length buf)%nat -> len d <= recorded ->
  recorded = len d ∨ pending_end js recorded ->
  let recorded' := Z.max recorded (Z.of_nat off + len buf) in
  let d' := write_bytes d (off + k) (take s (drop k buf)) in
  len d' <= recorded' ∧
  (recorded' = len d' ∨ pending_end (<[i := SWriting buf off (k + s) None]> js) recorded').
Proof.
  intros Hi Hs Hks Hle Hrec recorded' d'. apply lookup_lt_Some in Hi as Hlt.
  assert (length (take s (drop k buf)) = s) as Hl by (rewrite length_take, length_drop; lia).
  assert (length d' = Nat.max (length d) (off + k + s)) as Hd'.
  { unfold d'. rewrite length_write_bytes, Hl; [lia|]. intros He. rewrite He in Hl. simpl in Hl. lia. }
  split; [lia|]. destruct (decide (recorded <= Z.of_nat off + len buf)) as [Hend|Hend].
  - destruct (decide (k + s = length buf)%nat); [left; lia|right].
    exists i, buf, off, (k + s)%nat. rewrite list_lookup_insert_eq by done. split_and!; [done|lia|lia].
  - destruct Hrec as [Hrec|(i' & buf' & off' & k' & Hi' & Hk' & He)]; [left; lia|right].
    exists i', buf', off', k'. rewrite list_lookup_insert_ne by (intros ->; simplify_eq; lia). split_and!; [done|done|lia].
Qed.
(** A request without chunks left is no pending write. *)
Lemma pending_insert js i sj sj' e :
  js !! i = Some sj -> (∀ buf off k, sj = SWriting buf off k None -> ¬ (k < length buf)%nat) ->
  pending_end js e -> pending_end (<[i := sj']> js) e.
Proof.
  intros Hi Hno (i' & buf & off & k & Hi' & Hk & ->). exists i', buf, off, k.
  rewrite list_lookup_insert_ne; [done|]. intros ->. simplify_eq. by eapply Hno.
Qed.

Lemma agrees_write l js d i c buf off k :
  agrees l js d -> r_jobs (race_run fuel self l s0) !! i = Some (Writing c) -> c_result c = None ->
  js !! i = Some (SWriting buf off k None) -> call_at (buf, off) k c -> ∃ js' d', agrees (l ++ [i]) js' d'.
Proof.
  intros Hag Hj Hres Hsj Hat. pose proof Hag as [_ _ _ Hwi Hlo Hok Hc Hsz Hrec].
  pose proof (Forall_lookup_1 _ _ _ _ Hwi Hsj) as [Hk Hend].
  unfold tree_after, world_after in *. destruct (r_state (race_run fuel self l s0)) as [t w] eqn:Est. cbn [fst snd] in *.
  assert (step_job fuel self (Writing c) false (t, w) =
    let '(c', p, st') := write_step fuel self c false (t, w) in (Writing c', p, st')) as Hstep by (cbn; by rewrite Hres).
  unfold write_step in Hstep. pose proof Hat as (Hbuf & Hoff & _ & _). cbn [fst snd] in Hbuf, Hoff.
  destruct (call_next (buf, off) k c Hat) as [[Hd [it Hit]]|(n & ci & o & Hp & Hit)]; [cbn; clia|..];
    rewrite Hit in Hstep; cbn [fst snd] in *.
  - rewrite Hbuf in Hstep. subst k. exists (<[i := SWriting buf off (length buf) (Some (Ok (len buf)))]> js), d.
    eapply agrees_step; [done|done|rewrite Est; exact Hstep|done|constructor|by cbn|done|done|done|done|done|].
    destruct Hrec as [?|Hpe]; [by left|right]. eapply pending_insert; [done| |done]. intros ??? [= <- <- <-]. lia.
  - rewrite Hbuf, Hoff in Hstep. pose proof Hp as (Hn & Hkn & _).
    destruct (iteration_stored fuel self d off buf k n ci o t w)
      as (t' & w' & Hw & Hlo' & Hsz' & Hok' & Hc'); [done|lia|lia|done..|].
    rewrite Hw in Hstep. cbn [is_panic] in Hstep.
    replace (saturating_add_u64 (Z.of_nat off) (len buf)) with (Z.of_nat off + len buf) in Hsz'
      by (unfold saturating_add_u64, u64_MAX; clia).
    destruct (pending_chunk js d i buf off k n (ml_file_size t)) as [Hle' Hrec']; [done|done|done|lia|done|].
    eexists _, _. eapply agrees_step; [done|done|rewrite Est; exact Hstep|done|by apply p_chunk| | |done|done|done| |].
    + cbn. split; [|done]. unfold call_at. cbn. by rewrite Hbuf, Hoff.
    + cbn. lia.
    + rewrite Hsz'. lia.
    + by rewrite Hsz'.
Qed.

Lemma agrees_resize l js d i size :
  debug_assertions = false -> agrees l js d -> r_jobs (race_run fuel self l s0) !! i = Some (Resizing size None) ->
  js !! i = Some (SResizing size None) -> ∃ js' d', agrees (l ++ [i]) js' d'.
Proof.
  intros Hrelease Hag Hj Hsj. pose proof Hag as [_ _ _ Hwi Hlo Hok Hc Hsz Hrec].
  pose proof (Forall_lookup_1 _ _ _ _ Hwi Hsj) as Hend. cbn in Hend.
  unfold tree_after, world_after in *. destruct (r_state (race_run fuel self l s0)) as [t w] eqn:Est. cbn [fst snd] in *.
  destruct (resize_stored self size t d w)
    as [(t' & w' & Hr & [Hlo' Hsz']%leaves_of_represents & Hok' & Hc')|(e & Hr & Hlt)]; [done|done|done|done|lia..| |].
  - exists (<[i := SResizing size (Some (Ok ()))]> js), (resize_bytes d size).
    eapply (agrees_step _ _ _ _ _ (Resizing size (Some (Ok ()))));
      [done|done| |done|apply p_resize|done|done|done|done|done| |by left].
    + rewrite Est. cbn. unfold resize_step. by rewrite Hr.
    + rewrite Hsz', length_resize_bytes. lia.
  - exists (<[i := SResizing size (Some (Err e))]> js), d.
    eapply (agrees_step _ _ _ _ _ (Resizing size (Some (Err e))));
      [done|done| |done| |done|done|done|done|done|done|].
    + rewrite Est. cbn. unfold resize_step. by rewrite Hr.
    + constructor. unfold tree_after. by rewrite Est.
    + destruct Hrec as [?|Hpe]; [by left|right]. by eapply pending_insert.
Qed.

(** A build without debug assertions is needed for resizes only. *)
Lemma agrees_next l js d i :
  (∀ size, r_jobs (race_run fuel self l s0) !! i = Some (Resizing size None) -> debug_assertions = false) ->
  agrees l js d -> ∃ js' d', agrees (l ++ [i]) js' d'.
Proof.
  intros Hrelease Hag. pose proof Hag as [Hex Hpo Hfol Hwi Hlo Hok Hc Hsz Hrec].
  assert (race_step fuel self (race_run fuel self l s0) i = race_run fuel self l s0 ->
    (∀ j, js !! i = Some j -> returned j) -> ∃ js' d', agrees (l ++ [i]) js' d') as Hidle.
  { rewrite <- run_snoc. intros Heq Hret. exists js, d.
    split; unfold tree_after, world_after; rewrite ?Heq; try done. by apply ex_idle. }
  unfold race_step in Hidle. destruct (r_jobs (race_run fuel self l s0) !! i) as [j|] eqn:Hj.
  2: { apply Hidle; [done|]. intros sj Hsj. destruct (Forall2_lookup_r _ _ _ _ _ Hfol Hsj) as (x & Hx & _). congruence. }
  destruct (Forall2_lookup_l _ _ _ _ _ Hfol Hj) as (sj & Hsj & Hf).
  assert ({| r_jobs := <[i := j]> (r_jobs (race_run fuel self l s0)); r_poisoned := r_poisoned (race_run fuel self l s0);
       r_state := r_state (race_run fuel self l s0) |} = race_run fuel self l s0) as Hsame.
  { rewrite list_insert_id by done. by destruct (race_run fuel self l s0). }
  destruct j as [c|size [r|]], sj as [buf off k res|size' res']; try done; cbn in Hf; destruct Hf as [Hf ?]; subst.
  - destruct (c_result c) as [r|] eqn:Hres; [|by eapply agrees_write].
    cbn in Hidle. rewrite Hres in Hidle. apply Hidle; [exact Hsame|].
    intros sj [= <-]%(eq_trans (eq_sym Hsj)). by eexists.
  - apply Hidle; [exact Hsame|]. intros sj [= <-]%(eq_trans (eq_sym Hsj)). by eexists.
  - eapply agrees_resize; [by eapply Hrelease|done..].
Qed.
Lemma agrees_run schedule :
  debug_assertions = false -> agrees [] (start_sjob <$> requests) data -> ∃ js d, agrees schedule js d.
Proof.
  intros Hrelease Hstart. induction schedule as [|i l (js & d & Hl)] using rev_ind; [by eexists _, _|].
  by eapply agrees_next.
Qed.
(** A schedule of writes, in any build. *)
Lemma agrees_writes schedule :
  (∀ i size, i ∈ schedule -> r_jobs s0 !! i <> Some (Resizing size None)) ->
  agrees [] (start_sjob <$> requests) data -> ∃ js d, agrees schedule js d.
Proof.
  intros Hw Hstart. induction schedule as [|i l IH] using rev_ind; [by eexists _, _|].
  destruct IH as (js & d & Hl); [intros k size Hk; apply Hw, elem_of_app; by left|].
  eapply agrees_next; [|exact Hl]. intros size Hi. destruct (Hw i size); [apply elem_of_app; right; by left|].
  by eapply still_pending.
Qed.

(** Once all requests have returned, the recorded size is that of the file. *)
Lemma agrees_returned l js d :
  agrees l js d -> Forall returned js -> represents (tree_after fuel self s0 l) d.
Proof.
  intros [_ _ _ _ Hlo _ _ _ Hrec] Hret. apply leaves_of_represents. split; [done|].
  destruct Hrec as [?|(i & buf & off & k & Hi & _ & _)]; [done|].
  apply (Forall_lookup_1 _ _ _ _ Hret) in Hi as [x Hx]. done.
Qed.
End Honest.

Lemma agrees_start `{Profile} `{Sha256Spec} {W F} `{StoresContent W F}
    fuel (self : VerifiedFileEditor F) requests data t (w : W) max :
  represents t data -> store_ok w (ve_file self) -> content w (ve_file self) = data -> len data <= max ->
  Forall (request_within max) requests ->
  agrees fuel self requests data (start_race requests t w) max [] (start_sjob <$> requests) data.
Proof.
  intros Hrep Hok Hc Hd Hreq.
  pose proof (in_sync_start fuel self requests data t w max Hrep Hd Hreq) as [_ Hfol Hwi Hlo Hsz].
  split; try done; [constructor|]. left. by destruct Hrep.
Qed.

(** ** Errors *)

(** A request that has yet to take the lock: a resize that has not begun, a
    write with bytes left. *)
Definition needs_lock (j : job) : Prop :=
  match j with
  | Writing c => c_result c = None ∧ csi_remaining (c_iter c) <> 0
  | Resizing _ result => result = None
  end.
Definition panicked (j : job) : Prop :=
  match j with
  | Writing c => c_result c = Some Panic
  | Resizing _ result => result = Some Panic
  end.
Lemma needs_lock_start r : needs_lock (start_job r) <-> ∀ off, r <> RWrite [] off.
Proof.
  destruct r as [buf off|size]; cbn; [|split; [by intros _ off|done]]. split.
  - intros [_ Hl] off' [= -> ->]. done.
  - intros Hr. split; [done|]. destruct buf; [by destruct (Hr off)|cbn; lia].
Qed.

(** Requests that arrive later. *)
Definition arrive {W} (s : race W) (more : list request) : race W :=
  {| r_jobs := r_jobs s ++ (start_job <$> more); r_poisoned := r_poisoned s; r_state := r_state s |}.

Section Poisoned.
Context `{Profile} `{Sha256Ffi} {W F : Type} `{ReadByChunk W F} `{RandomWrite W F}.
Context (fuel : nat) (self : VerifiedFileEditor F).

Lemma csi_next_more it : csi_remaining it <> 0 ->
  (∃ item it', csi_next (E := io_error) it = Ok (Some item, it')) ∨ csi_next (E := io_error) it = Panic.
Proof.
  intros Hne. unfold csi_next. rewrite (proj2 (Z.eqb_neq _ _) Hne).
  unfold rem_u64, sub_u64, add_u64, checked_u. repeat (case_match; cbn; simplify_eq/=); eauto.
Qed.

(** With a poisoned lock a step changes neither tree nor storage, and a request
    that needs the lock panics. *)
Lemma poisoned_job j st :
  ∃ j', step_job fuel self j true st = (j', true, st) ∧ (needs_lock j -> panicked j') ∧ (panicked j -> panicked j').
Proof.
  destruct j as [c|size [r|]]; cbn; [|by eexists..].
  destruct (c_result c) as [r|] eqn:Hres; [exists (Writing c); split_and!; [done|by intros [? _]|intros ?; cbn; congruence]|].
  unfold write_step. destruct (csi_next (c_iter c)) as [[[item|] it]|e| |] eqn:Hn;
    (eexists; split; [reflexivity|]; split; [intros [_ Hrem]|done]);
    by destruct (csi_next_more _ Hrem) as [(item' & it' & Heq)|Heq]; rewrite Hn in Heq.
Qed.
Lemma poisoned_step (s : race W) i :
  r_poisoned s = true ->
  r_poisoned (race_step fuel self s i) = true ∧ r_state (race_step fuel self s i) = r_state s ∧
  ∀ k j, r_jobs s !! k = Some j -> ∃ j', r_jobs (race_step fuel self s i) !! k = Some j' ∧
    (k <> i -> j' = j) ∧ (k = i -> needs_lock j -> panicked j') ∧ (panicked j -> panicked j').
Proof.
  intros Hp. unfold race_step. destruct (r_jobs s !! i) as [ji|] eqn:Hi.
  2: { split_and!; [done|done|]. intros k j Hk. exists j. split_and!; [done|done|congruence|done]. }
  rewrite Hp. destruct (poisoned_job ji (r_state s)) as (j' & -> & Hl & Hpan). cbn. split_and!; [done|done|].
  intros k j Hk. destruct (decide (k = i)) as [->|Hne].
  - simplify_eq. exists j'. rewrite list_lookup_insert_eq by (by eapply lookup_lt_Some). done.
  - exists j. by rewrite list_lookup_insert_ne.
Qed.
Lemma poisoned_run schedule (s : race W) :
  r_poisoned s = true ->
  r_poisoned (race_run fuel self schedule s) = true ∧ r_state (race_run fuel self schedule s) = r_state s ∧
  ∀ k j, r_jobs s !! k = Some j -> panicked j ∨ needs_lock j ∧ k ∈ schedule ->
    ∃ j', r_jobs (race_run fuel self schedule s) !! k = Some j' ∧ panicked j'.
Proof.
  revert s. induction schedule as [|i l IH]; intros s Hp.
  { split_and!; [done|done|]. intros k j Hk [Hj|[_ Hin]]; [by exists j|by apply elem_of_nil in Hin]. }
  change (race_run fuel self (i :: l) s) with (race_run fuel self l (race_step fuel self s i)).
  destruct (poisoned_step s i Hp) as (Hp' & Hst & Hjobs). destruct (IH _ Hp') as (Hp2 & Hst2 & Hjobs2).
  split_and!; [done|by rewrite Hst2|]. intros k j Hk Hj.
  destruct (Hjobs k j Hk) as (j' & Hk' & Hother & Hthis & Hpan). apply (Hjobs2 k j' Hk').
  destruct (decide (k = i)) as [->|Hne].
  - left. destruct Hj as [Hj|[Hj _]]; [by apply Hpan|by apply Hthis].
  - rewrite (Hother Hne). destruct Hj as [Hj|[Hj Hin]]; [by left|right]. split; [done|].
    apply elem_of_cons in Hin as [?|?]; [done|done].
Qed.
End Poisoned.

(** In a debug build, a truncation to an end that a write in progress has
    announced but not reached. *)
Lemma resize_short_tail `{Profile} `{Sha256Spec} {W F} `{StoresContent W F} `{!BufferTyped W F}
    (self : VerifiedFileEditor F) (i r : nat) t d w :
  debug_assertions = true -> store_ok w (ve_file self) -> content w (ve_file self) = d -> len d <= stored_max ->
  (0 < r < CHUNK)%nat -> (i * CHUNK < length d < i * CHUNK + r)%nat ->
  Z.of_nat (i * CHUNK + r) < ml_file_size t -> ml_file_size t < 2 ^ 64 ->
  VerifiedFileEditor_resize self (Z.of_nat (i * CHUNK + r)) (t, w) = (Panic, (t, w)).
Proof.
  intros Hdbg Hok Hc Hmax Hr Hd Hlt H64. rewrite resize_eq, rehash_eq by done.
  rewrite (stored_block _ _ d) by (done || lia). cbv beta iota. rewrite Hdbg, len_chunk_of by lia.
  rewrite (proj2 (Z.ltb_lt _ _)) by clia. done.
Qed.

(** A write in progress has bytes left. *)
Lemma pending_needs_lock js jobs e :
  Forall2 follows jobs js -> pending_end js e ->
  ∃ i c, jobs !! i = Some (Writing c) ∧ needs_lock (Writing c) ∧ e = Z.of_nat (c_off c) + len (c_buf c).
Proof.
  intros Hf (i & buf & off & k & Hi & Hk & ->).
  destruct (Forall2_lookup_r _ _ _ _ _ Hf Hi) as ([c|] & Hc & Hfol); [|done].
  destruct Hfol as [(Hb & Ho & _ & Hit) Hres]. exists i, c. split; [done|]. cbn in Hb, Ho, Hit. split.
  - split; [done|]. rewrite Hit. cbn. lia.
  - by rewrite Hb, Ho.
Qed.

(** C39: in a build with debug assertions, a [resize] during a [write_at] that
    extends the file can panic over an honest store, and takes the file with it.
    Let any number of writes be in progress, interleaved in any way.  The first
    chunk of a write puts the end of the whole write on record.  A truncation to
    a size on record but beyond the stored end, in the chunk of that end, finds
    fewer bytes than [debug_assert!(new_tail_size <= s)] asks for and panics
    with the lock held, without an effect.  A write is then still in progress.
    From then on, with whatever further requests and in every order, the tree
    and the storage do not change any more, and every request that still needs
    the lock, old or new, panics as soon as it runs. *)
Theorem resize_during_write_poisons `{Profile} `{Sha256Spec} {W F} `{ReadsPastEnd W F} `{!BufferTyped W F}
    fuel (self : VerifiedFileEditor F) data requests l k (size : nat) t (w : W) max :
  debug_assertions = true -> (CHUNK < fuel)%nat -> max + CHUNK_SIZE < 2 ^ 64 -> max <= stored_max ->
  represents t data -> store_ok w (ve_file self) -> content w (ve_file self) = data -> len data <= max ->
  Forall (request_within max) requests ->
  (∀ i n, i ∈ l -> requests !! i <> Some (RResize n)) -> requests !! k = Some (RResize size) ->
  let s1 := race_run fuel self l (start_race requests t w) in
  let stored := len (content (r_state s1).2 (ve_file self)) in
  Z.of_nat size / CHUNK_SIZE * CHUNK_SIZE < stored < Z.of_nat size ->
  Z.of_nat size < ml_file_size (r_state s1).1 ->
  let s2 := race_step fuel self s1 k in
  r_jobs s2 !! k = Some (Resizing size (Some Panic)) ∧ r_state s2 = r_state s1 ∧
  (∃ i c, r_jobs s2 !! i = Some (Writing c) ∧ needs_lock (Writing c) ∧
     ml_file_size (r_state s1).1 = Z.of_nat (c_off c) + len (c_buf c)) ∧
  ∀ more schedule, let s3 := race_run fuel self schedule (arrive s2 more) in
    r_state s3 = r_state s2 ∧
    ∀ i j, r_jobs (arrive s2 more) !! i = Some j -> needs_lock j -> i ∈ schedule ->
      ∃ j', r_jobs s3 !! i = Some j' ∧ panicked j'.
Proof.
  intros Hdbg Hf Hmax Hst Hrep Hok Hc Hd Hreq Hl Hk s1 stored Hgeo Hsize s2.
  assert (∀ i n, r_jobs (start_race requests t w) !! i = Some (Resizing n None) -> requests !! i = Some (RResize n)) as Hstart.
  { intros i n. cbn. rewrite list_lookup_fmap. by destruct (requests !! i) as [[]|]; intros [=]; subst. }
  destruct (agrees_writes fuel self requests data (start_race requests t w) max Hf Hmax Hst l)
    as (js & d & [_ Hpo Hfol _ _ Hok1 Hc1 Hsz Hrec]); [by intros i n Hi ?%Hstart; eapply Hl|by eapply agrees_start|].
  unfold tree_after, world_after in *. fold s1 in Hpo, Hfol, Hok1, Hc1, Hsz, Hrec.
  assert (r_jobs s1 !! k = Some (Resizing size None)) as Hk1.
  { unfold s1. rewrite run_other; [cbn; by rewrite list_lookup_fmap, Hk|]. intros Hin. by eapply Hl. }
  destruct (r_state s1) as [t1 w1] eqn:Est. cbn [fst snd] in *.
  assert (s2 = {| r_jobs := <[k := Resizing size (Some Panic)]> (r_jobs s1); r_poisoned := true; r_state := (t1, w1) |}) as Hs2.
  { unfold s2, race_step. rewrite Hk1. cbn [step_job]. unfold resize_step. rewrite Hpo, Est.
    destruct (rehash_cases t1 size) as [[?|Hmod]|(i & r & -> & Hr & Hlt)]; [lia| |].
    - pose proof (Z.div_mod (Z.of_nat size) CHUNK_SIZE ltac:(clia)). lia.
    - replace (Z.of_nat (i * CHUNK + r) / CHUNK_SIZE) with (Z.of_nat i) in Hgeo
        by (apply (Z.div_unique _ _ _ (Z.of_nat r)); clia).
      unfold stored in Hgeo. rewrite (resize_short_tail self i r t1 d w1) by (done || subst d; clia). done. }
  rewrite Hs2. cbn [r_jobs r_state].
  assert (length (r_jobs s1) = length js) as Hlen by (by eapply Forall2_length).
  split_and!; [rewrite list_lookup_insert_eq by (by eapply lookup_lt_Some); done|done| |].
  - destruct Hrec as [?|Hpe]; [subst d; lia|]. destruct (pending_needs_lock _ _ _ Hfol Hpe) as (i & c & Hi & Hn & He).
    exists i, c. rewrite list_lookup_insert_ne by congruence. done.
  - intros more schedule. destruct (poisoned_run fuel self schedule
      (arrive {| r_jobs := <[k := Resizing size (Some Panic)]> (r_jobs s1); r_poisoned := true; r_state := (t1, w1) |} more)
      eq_refl) as (_ & Hst3 & Hjobs). split; [done|]. intros i j Hi Hn Hin. apply (Hjobs i j Hi). by right.
Qed.

(** The chunk that a truncation rehashed differs from the one in the file. *)
Lemma rehashed_block_ne d (i r p : nat) :
  (0 < r < CHUNK)%nat -> (i * CHUNK + r <= p < S i * CHUNK)%nat -> byte_at d p <> 0 ->
  block d i <> block (rehashed d i r (block d i)) i.
Proof.
  intros Hr Hp Hb He. apply Hb. rewrite <- (rehashed_zeros d i r (block d i) p) by (apply length_block || done).
  apply (f_equal (λ b, byte_at b (p - i * CHUNK))) in He. rewrite !byte_at_block in He by lia.
  replace (i * CHUNK + (p - i * CHUNK))%nat with p in He by lia. done.
Qed.

(** C38: a failed truncation spoils a chunk of the file.  [resize] puts the leaf
    of the shortened last chunk into the tree before it asks the storage to
    truncate; when the storage refuses, the error is returned with the new leaf
    in place.  The file is as it was, but its own bytes no longer match the
    tree: from then on a write into a part of that chunk fails with
    [InvalidData] (unless the two versions of the chunk collide). *)
Theorem failed_resize_spoils_chunk `{Profile} `{Sha256Spec} {W F} `{ReadByChunk W F} `{RandomWrite W F}
    `{!BufferTyped W F} fuel (self : VerifiedFileEditor F) data (i r p : nat) t w e buf (o : nat) :
  represents t data -> reads_content (ve_file self) w data -> len data + CHUNK_SIZE < 2 ^ 64 ->
  (0 < r < CHUNK)%nat -> (i * CHUNK + r <= p < S i * CHUNK)%nat -> byte_at data p <> 0 ->
  resize_to (ve_file self) (Z.of_nat (i * CHUNK + r)) w = (Err e, w) ->
  buf <> [] -> (o + length buf <= CHUNK)%nat -> (length buf < CHUNK)%nat ->
  ∃ t', VerifiedFileEditor_resize self (Z.of_nat (i * CHUNK + r)) (t, w) = (Err e, (t', w)) ∧
    (VerifiedFileEditor_write_at fuel self buf (Z.of_nat (i * CHUNK + o)) (t', w)
       = (Err (IoNew InvalidData "Inconsistent hash"), (t', w)) ∨
     collision [block data i] [block (rehashed data i r (block data i)) i]).
Proof.
  intros Hrep Hrd H64 Hr Hp Hb Hrs Hne Ho Hl. apply leaves_of_represents in Hrep as [Hlo Hsz].
  assert (p < length data)%nat as Hin by (destruct (decide (p < length data)%nat); [done|by rewrite byte_at_ge in Hb by lia]).
  pose proof (Hrd (Z.of_nat i) (zeros CHUNK_SIZE)) as Hblk. rewrite chunk_of_over_zeros in Hblk.
  rewrite len_chunk_of in Hblk by lia. rewrite length_zeros in Hblk.
  destruct (rehash_leaf t data i r (block data i) (Z.of_nat (i * CHUNK + r))) as (t1 & Hu & Hlo1 & _);
    [done|apply length_block|done|clia|].
  exists t1. split.
  - rewrite resize_eq, rehash_eq, Hblk by (done || clia). cbv beta iota.
    rewrite (proj2 (Z.ltb_ge _ _)), andb_false_r by clia. by rewrite Hu, Hrs.
  - eapply (tampered_write _ _ (rehashed data i r (block data i))); [done|done|done|done| | |apply Hblk|apply length_block|];
      rewrite ?length_rehashed; try clia. by eapply rehashed_block_ne.
Qed.

(** ** Claims *)

(** C14: writes and resizes at the same time, against arbitrary storage.
    Whatever the storage answers and however the requests end, after any
    interleaving of the chunks of the writes and of the resizes there is a plain
    file that the requests have changed one step at a time in the same order
    ([explained]), each with the result that the code returned ([follows]), and
    the tree is that of this file; or on the way the storage served a chunk that
    collides with the file of that moment.  The steps have one exception, the
    one thing that the code does not verify ([retail_served]): a truncation
    within a chunk puts what the storage served for that chunk, cut at the new
    size, in its place, also when the truncation is then refused. *)
Theorem concurrent_edits_integrity `{Profile} `{Sha256Spec} {W F} `{ReadByChunk W F} `{RandomWrite W F}
    `{!BufferTyped W F} fuel (self : VerifiedFileEditor F) data requests schedule t (w : W) max :
  represents t data -> len data <= max -> max + CHUNK_SIZE < 2 ^ 64 -> Forall (request_within max) requests ->
  let s := start_race requests t w in
  (∃ js d, explained (spec_after fuel self s) requests data schedule js d ∧
     Forall2 follows (r_jobs (race_run fuel self schedule s)) js ∧
     leaves_of (tree_after fuel self s schedule) d ∧
     len d <= ml_file_size (tree_after fuel self s schedule) <= max) ∨
  ∃ l1 l2, schedule = l1 ++ l2 ∧ collides fuel self requests data s max l1.
Proof.
  intros Hrep Hd Hmax Hreq s.
  destruct (in_sync_run fuel self requests data s max Hmax schedule) as [(js & d & [Hex Hfol _ Hlo Hsz])|Hcol];
    [by apply in_sync_start|left|by right]. by exists js, d.
Qed.

(** C25: writes and resizes at the same time, over an honest store and in a build
    without debug assertions.  After any interleaving the lock is not poisoned,
    the stored file is a plain file that the requests have changed one chunk or
    one resize at a time in the same order, and the tree is its tree; a write
    returns the length of its buffer, a resize may be refused only while the
    recorded size is ahead of the file.  Once all requests have returned, the
    recorded size is that of the file as well. *)
Theorem concurrent_edits_consistent `{Profile} `{Sha256Spec} {W F} `{ReadsPastEnd W F} `{!BufferTyped W F}
    fuel (self : VerifiedFileEditor F) data requests schedule t (w : W) max :
  debug_assertions = false -> (CHUNK < fuel)%nat -> max + CHUNK_SIZE < 2 ^ 64 -> max <= stored_max ->
  represents t data -> store_ok w (ve_file self) -> content w (ve_file self) = data -> len data <= max ->
  Forall (request_within max) requests ->
  let s := race_run fuel self schedule (start_race requests t w) in
  let file := content (r_state s).2 (ve_file self) in
  r_poisoned s = false ∧ leaves_of (r_state s).1 file ∧
  ∃ js, explained (plain_after fuel self (start_race requests t w)) requests data schedule js file ∧
    Forall2 follows (r_jobs s) js ∧ (Forall returned js -> represents (r_state s).1 file).
Proof.
  intros Hrel Hf Hmax Hst Hrep Hok Hc Hd Hreq s file.
  destruct (agrees_run fuel self requests data (start_race requests t w) max Hf Hmax Hst schedule Hrel)
    as (js & d & Hag); [by eapply agrees_start|].
  pose proof (agrees_returned fuel self requests data (start_race requests t w) max schedule js d Hag) as Hret.
  destruct Hag as [Hex Hpo Hfol _ Hlo _ <- _ _]. split_and!; [done|done|]. by exists js.
Qed.

(** A truncation gets in between the two chunks of a write to a new file, and
    a short write after it. *)
Definition three_requests : list request := [RWrite (replicate 5000 1) 0; RResize 4500; RWrite [2; 2] 4095].
Definition raced : list nat := [0; 1; 2; 0; 2; 2; 0]%nat.
Lemma three_requests_within : Forall (request_within 10000) three_requests.
Proof. repeat (apply Forall_cons; split; [vm_compute; discriminate|]). apply Forall_nil_2. Qed.

Section Witness.
#[local] Instance race_profile : Profile := release_profile.
Lemma concurrent_edits_consistent_witness :
  let s := race_run 4097 mem_editor raced (start_race three_requests ml_new (store [])) in
  let file := content (r_state s).2 (ve_file mem_editor) in
  r_poisoned s = false ∧ leaves_of (r_state s).1 file ∧
  ∃ js, explained (plain_after 4097 mem_editor (start_race three_requests ml_new (store []))) three_requests [] raced js file ∧
    Forall2 follows (r_jobs s) js ∧ (Forall returned js -> represents (r_state s).1 file).
Proof.
  refine (concurrent_edits_consistent 4097 mem_editor [] three_requests raced ml_new (store []) 10000
    eq_refl _ _ _ represents_new eq_refl eq_refl _ three_requests_within); [clia|clia|vm_compute; discriminate|simpl; lia].
Defined.

(** A store that cannot be truncated. *)
Definition fixed_size : RandomWrite InMemoryEditor unit :=
  {| write_at := InMemoryEditor_write_at; resize_to _ _ w := (Err (IoNew Other "EFBIG"), w) |}.
Lemma failed_resize_spoils_chunk_witness :
  ∃ t', VerifiedFileEditor_resize (H2 := fixed_size) mem_editor (Z.of_nat (0 * CHUNK + 1)) (tree_of [1; 2], store [1; 2])
          = (Err (IoNew Other "EFBIG"), (t', store [1; 2])) ∧
    (VerifiedFileEditor_write_at (H2 := fixed_size) 4097 mem_editor [7] (Z.of_nat (0 * CHUNK + 0)) (t', store [1; 2])
       = (Err (IoNew InvalidData "Inconsistent hash"), (t', store [1; 2])) ∨
     collision [block [1; 2] 0] [block (rehashed [1; 2] 0 1 (block [1; 2] 0)) 0]).
Proof.
  refine (failed_resize_spoils_chunk (H3 := fixed_size) 4097 mem_editor [1; 2] 0 1 1 (tree_of [1; 2]) (store [1; 2]) _ [7] 0
    (tree_of_represents _) (InMemoryEditor_reads () (store [1; 2]) eq_refl) _ _ _ _ eq_refl _ _ _);
    first [discriminate | simpl; clia].
Defined.
End Witness.

Section DebugWitness.
#[local] Existing Instance debug_profile.
Lemma concurrent_edits_integrity_witness :
  let s := start_race three_requests ml_new (store []) in
  (∃ js d, explained (spec_after 4097 mem_editor s) three_requests [] raced js d ∧
     Forall2 follows (r_jobs (race_run 4097 mem_editor raced s)) js ∧
     leaves_of (tree_after 4097 mem_editor s raced) d ∧
     len d <= ml_file_size (tree_after 4097 mem_editor s raced) <= 10000) ∨
  ∃ l1 l2, raced = l1 ++ l2 ∧ collides 4097 mem_editor three_requests [] s 10000 l1.
Proof.
  refine (concurrent_edits_integrity 4097 mem_editor [] three_requests raced ml_new (store []) 10000
    represents_new _ _ three_requests_within); [simpl; lia|clia].
Defined.

(** The write of 5000 bytes to a file of 4100 has written its first chunk; after
    the resize to 4296 another resize and another write arrive. *)
Definition poisoning : list request := [RWrite (replicate 5000 1) 0; RResize 4296; RWrite [7] 9].
Lemma resize_during_write_poisons_witness :
  let s1 := race_run 4097 mem_editor [0]%nat
              (start_race poisoning (tree_of (replicate 4100 1)) (store (replicate 4100 1))) in
  let s2 := race_step 4097 mem_editor s1 1 in
  r_jobs s2 !! 1%nat = Some (Resizing 4296 (Some Panic)) ∧ r_state s2 = r_state s1 ∧
  let s3 := race_run 4097 mem_editor [3; 0; 2; 4]%nat (arrive s2 [RResize 0; RWrite [8] 3]) in
  r_state s3 = r_state s2 ∧ r_jobs s3 !! 3%nat = Some (Resizing 0 (Some Panic)).
Proof.
  destruct (resize_during_write_poisons 4097 mem_editor (replicate 4100 1) poisoning [0%nat] 1 4296
    (tree_of (replicate 4100 1)) (store (replicate 4100 1)) 10000) as (H1 & H2 & _ & H3);
    [reflexivity|clia|clia|vm_compute; discriminate|apply tree_of_represents|reflexivity|reflexivity|
     rewrite length_replicate; lia| | |reflexivity| | |].
  - repeat (apply Forall_cons; split; [vm_compute; discriminate|]). apply Forall_nil_2.
  - intros i n ->%list_elem_of_singleton. discriminate.
  - vm_compute. split; reflexivity.
  - vm_compute. reflexivity.
  - split; [exact H1|]. split; [exact H2|].
    destruct (H3 [RResize 0; RWrite [8] 3] [3; 0; 2; 4]%nat) as [Hst _]. split; [exact Hst|]. vm_compute. reflexivity.
Defined.
End DebugWitness.
