(* ===== verification/VirtFd.v ===== *)
(** * The binder interface between authfs and fd_server

    [IVirtFdService] is the AIDL interface
    (authfs/aidl/com/android/virt/fs/IVirtFdService.aidl), as a type class over
    a world [W] and a service handle [S]: authfs is the client
    ([RemoteFile.v]), fd_server one implementation ([FdServer.v]); for authfs
    it is untrusted, so the client's security theorems hold for every instance. *)

From S2P Require Import Prelude Io.

Inductive ExceptionCode := ILLEGAL_ARGUMENT | UNSUPPORTED_OPERATION.

(** Binder's [Status]: an exception with a message, or a status code. *)
Inductive Status :=
| Exception (code : ExceptionCode) (message : string)
| StatusFrom (code : Z).

Definition ERROR_UNKNOWN_FD : Z := 1.
Definition ERROR_IO : Z := 2.
Definition MAX_REQUESTING_DATA : Z := 16384.
(** [StatusCode::INVALID_OPERATION], that is [-ENOSYS]. *)
Definition INVALID_OPERATION : Z := -38.

Class IVirtFdService (W S : Type) := {
  readFile : S -> Z -> Z -> Z -> M W Status bytes;
  readFsverityMerkleTree : S -> Z -> Z -> Z -> M W Status bytes;
  readFsveritySignature : S -> Z -> M W Status bytes;
  writeFile : S -> Z -> bytes -> Z -> M W Status Z;
  resizeFile : S -> Z -> Z -> M W Status unit
}.

(** [Status::get_description], of the binder library. *)
Class StatusDescription := get_description : Status -> string.
