(* ===== verification/FdServer.v ===== *)
(** * authfs/fd_server: the file descriptor server

    fd_server/src/main.rs (the service and its command line) and
    fd_server/src/fsverity.rs (the fs-verity ioctl).  The files are the
    operating system's ([OsFile]); the pool of descriptors is fixed when the
    service starts.  Theorems: requests are bounded and validated, read-only
    files are never modified, and the results are those of the files. *)

From S2P Require Import Prelude Io Service Parse Common Crypto MerkleSpec Content File VirtFd.

(** ** fsverity.rs *)
Definition FS_VERITY_METADATA_TYPE_MERKLE_TREE : Z := 1.
Definition FS_VERITY_METADATA_TYPE_SIGNATURE : Z := 3.

(** [buf_ptr] is the address of the buffer, which is an argument of its own here. *)
Record fsverity_read_metadata_arg := {
  metadata_type : Z;
  arg_offset : Z;
  arg_length : Z;
  arg_reserved : Z
}.

Inductive nix_error := Sys (errno : Z) | NixOther.

(** The ioctl fills the buffer in place and returns a C int. *)
Class VerityIoctl (W File : Type) := {
  read_verity_metadata : File -> fsverity_read_metadata_arg -> bytes -> M W nix_error (Z * bytes);
  read_verity_metadata_len f arg buf w n buf' w' :
    read_verity_metadata f arg buf w = (Ok (n, buf'), w') -> length buf' = length buf
}.

Definition read_metadata {W File} `{VerityIoctl W File} (fd : File) (ty offset : Z) (buf : bytes)
    : M W io_error (Z * bytes) :=
  let arg := {| metadata_type := ty; arg_offset := offset; arg_length := len buf; arg_reserved := 0 |} in
  r ← tryM (read_verity_metadata fd arg buf);
  match r with
  | inr (n, buf') => mret (as_u64 n, buf')
  | inl (Sys errno) => fail (RawOs errno)
  | inl NixOther => lift Panic
  end.

Definition read_merkle_tree {W File} `{VerityIoctl W File} (fd : File) (offset : Z) (buf : bytes)
    : M W io_error (Z * bytes) :=
  read_metadata fd FS_VERITY_METADATA_TYPE_MERKLE_TREE offset buf.

Definition read_signature {W File} `{VerityIoctl W File} (fd : File) (buf : bytes)
    : M W io_error (Z * bytes) :=
  read_metadata fd FS_VERITY_METADATA_TYPE_SIGNATURE 0 buf.

(** ** main.rs: the service *)
Definition new_binder_exception (exception : ExceptionCode) (message : string) : Status :=
  Exception exception message.

Definition validate_and_cast_offset (offset : Z) : outcome Status Z :=
  try_unsigned (new_binder_exception ILLEGAL_ARGUMENT
                  (String.append "Invalid offset: " (pretty offset))) offset.

Definition validate_and_cast_size (size : Z) : outcome Status Z :=
  if size >? MAX_REQUESTING_DATA then
    Err (new_binder_exception ILLEGAL_ARGUMENT
           (String.append "Unexpectedly large size: " (pretty size)))
  else
    try_unsigned (new_binder_exception ILLEGAL_ARGUMENT
                    (String.append "Invalid size: " (pretty size))) size.

Inductive FdConfig (File : Type) :=
| Readonly (file : File) (alt_merkle_tree alt_signature : option File)
| ReadWrite (file : File).
Arguments Readonly {File}. Arguments ReadWrite {File}.

Record FdService (File : Type) := { fd_pool : gmap Z (FdConfig File) }.
Arguments fd_pool {File}.

Definition get_file_config {File} (self : FdService File) (id : Z) : outcome Status (FdConfig File) :=
  ok_or (StatusFrom ERROR_UNKNOWN_FD) (fd_pool self !! id).

Definition read_into_buf {W File} `{OsFile W File} (file : File) (max_size offset : Z)
    : M W io_error bytes :=
  size ← metadata_len file;
  let remaining := saturating_sub size offset in
  let buf_size := Z.min remaining max_size in
  read_exact_at file buf_size offset.

Section Service.
Context `{Profile} {W File : Type} `{OsFile W File} `{VerityIoctl W File}.

(** [map_err(|e| Status::from(ERROR_IO))]. *)
Definition io_status (_ : io_error) : Status := StatusFrom ERROR_IO.
(** [map_err(|e| Status::from(e.raw_os_error().unwrap_or(ERROR_IO)))]. *)
Definition errno_status (e : io_error) : Status := StatusFrom (default ERROR_IO (raw_os_error e)).

Definition FdService_readFile (self : FdService File) (id offset size : Z) : M W Status bytes :=
  size ← lift (validate_and_cast_size size);
  offset ← lift (validate_and_cast_offset offset);
  config ← lift (get_file_config self id);
  match config with
  | Readonly file _ _ | ReadWrite file => map_errM io_status (read_into_buf file size offset)
  end.

(** A buffer of [size] zeros filled by a metadata read, cut to what was read. *)
Definition read_truncated (size : Z) (read : bytes -> M W io_error (Z * bytes)) : M W Status bytes :=
  '(s, buf) ← map_errM errno_status (read (zeros size));
  _ ← lift (debug_assert (s <=? len buf));
  mret (take (Z.to_nat s) buf).

Definition FdService_readFsverityMerkleTree (self : FdService File) (id offset size : Z)
    : M W Status bytes :=
  size ← lift (validate_and_cast_size size);
  offset ← lift (validate_and_cast_offset offset);
  config ← lift (get_file_config self id);
  match config with
  | Readonly file alt_merkle_tree _ =>
      match alt_merkle_tree with
      | Some tree_file => map_errM io_status (read_into_buf tree_file size offset)
      | None => read_truncated size (read_merkle_tree file offset)
      end
  | ReadWrite _ => fail (new_binder_exception UNSUPPORTED_OPERATION "Unsupported")
  end.

Definition FdService_readFsveritySignature (self : FdService File) (id : Z) : M W Status bytes :=
  config ← lift (get_file_config self id);
  match config with
  | Readonly file _ alt_signature =>
      match alt_signature with
      | Some sig_file => map_errM io_status (read_into_buf sig_file MAX_REQUESTING_DATA 0)
      | None => read_truncated MAX_REQUESTING_DATA (read_signature file)
      end
  | ReadWrite _ => fail (new_binder_exception UNSUPPORTED_OPERATION "Unsupported")
  end.

Definition FdService_writeFile (self : FdService File) (id : Z) (buf : bytes) (offset : Z)
    : M W Status Z :=
  config ← lift (get_file_config self id);
  match config with
  | Readonly _ _ _ => fail (StatusFrom INVALID_OPERATION)
  | ReadWrite file =>
      offset ← lift (try_unsigned (new_binder_exception ILLEGAL_ARGUMENT "Invalid offset") offset);
      if len buf >? i32_MAX then
        fail (new_binder_exception ILLEGAL_ARGUMENT "Buffer size is too big")
      else
        n ← map_errM io_status (file_write_at file buf offset);
        mret (as_i32 n)
  end.

Definition FdService_resize (self : FdService File) (id size : Z) : M W Status unit :=
  config ← lift (get_file_config self id);
  match config with
  | Readonly _ _ _ => fail (StatusFrom INVALID_OPERATION)
  | ReadWrite file =>
      if size <? 0 then
        fail (new_binder_exception ILLEGAL_ARGUMENT "Invalid size to resize to")
      else map_errM io_status (set_len file size)
  end.
End Service.

#[export] Instance FdService_IVirtFdService `{Profile} {W File} `{OsFile W File} `{VerityIoctl W File}
    : IVirtFdService W (FdService File) := {
  readFile := FdService_readFile;
  readFsverityMerkleTree := FdService_readFsverityMerkleTree;
  readFsveritySignature := FdService_readFsveritySignature;
  writeFile := FdService_writeFile;
  resizeFile := FdService_resize
}.

(** ** main.rs: the command line *)

(** Descriptors of the process: fcntl(F_GETFD) and [File::from_raw_fd]. *)
Class FdTable (W File : Type) := {
  fcntl_getfd : Z -> M W Empty_set Z;
  from_raw_fd : Z -> File
}.

(** [anyhow::Error]: the failures of the parser. *)
Inductive arg_error :=
| ParseIntError
| Bail (message : string)
| ArgIo (e : io_error).

Section Arguments.
Context {W File : Type} `{OsFile W File} `{FdTable W File}.

Definition is_fd_valid (fd : Z) : M W arg_error bool :=
  retval ← map_errM (λ e : Empty_set, match e with end) (fcntl_getfd fd);
  mret (retval >=? 0).

Definition fd_to_file (fd : Z) : M W arg_error File :=
  valid ← is_fd_valid fd;
  if negb valid then fail (Bail (String.append "Bad FD: " (pretty fd)))
  else mret (from_raw_fd fd).

(** [fds.get(i).map(fd_to_file).transpose()?]. *)
Definition opt_fd_to_file (fd : option Z) : M W arg_error (option File) :=
  match fd with
  | None => mret None
  | Some fd => file ← fd_to_file fd; mret (Some file)
  end.

Definition parse_arg_ro_fds (arg : string) : M W arg_error (Z * FdConfig File) :=
  fds ← lift (try_map (λ x, ok_or ParseIntError (parse_i32 x)) (split_on COLON arg));
  if len fds >? 3 then fail (Bail (String.append "Too many options: " arg))
  else
    fd0 ← lift (unwrap (fds !! 0%nat));
    file ← fd_to_file fd0;
    alt_merkle_tree ← opt_fd_to_file (fds !! 1%nat);
    alt_signature ← opt_fd_to_file (fds !! 2%nat);
    mret (fd0, Readonly file alt_merkle_tree alt_signature).

Definition parse_arg_rw_fds (arg : string) : M W arg_error (Z * FdConfig File) :=
  fd ← lift (ok_or ParseIntError (parse_i32 arg));
  file ← fd_to_file fd;
  size ← map_errM ArgIo (metadata_len file);
  if size >? 0 then fail (Bail "File is expected to be empty")
  else mret (fd, ReadWrite file).

(** The values that clap collected for [--ro-fds] and [--rw-fds]. *)
Definition parse_args (ro_fds rw_fds : list string) : M W arg_error (gmap Z (FdConfig File)) :=
  pool ← try_fold (λ pool arg, '(fd, config) ← parse_arg_ro_fds arg; mret (<[fd := config]> pool)) ∅ ro_fds;
  try_fold (λ pool arg, '(fd, config) ← parse_arg_rw_fds arg; mret (<[fd := config]> pool)) pool rw_fds.
End Arguments.

(** [FdService::new_binder] and [main], which ends only by an error: the
    binder threads serve the pool while it waits in [join_thread_pool]. *)
Definition SERVICE_NAME : string := "authfs_fd_server".
Definition new_binder {File} (fd_pool : gmap Z (FdConfig File)) : FdService File := {| fd_pool := fd_pool |}.
Definition main {W File} `{OsFile W File} `{FdTable W File} `{ServiceManager W (FdService File)}
    (ro_fds rw_fds : list string) : M W arg_error Empty_set :=
  fd_pool ← parse_args ro_fds rw_fds;
  _ ← map_errM (λ _, Bail (String.append "Failed to register service " SERVICE_NAME))
        (add_service SERVICE_NAME (new_binder fd_pool));
  _ ← expectM join_thread_pool;
  fail (Bail "Unexpected exit after join_thread_pool").

(** ** Requests *)
Inductive request :=
| ReadFile (id offset size : Z)
| ReadMerkleTree (id offset size : Z)
| ReadSignature (id : Z)
| WriteFile (id : Z) (buf : bytes) (offset : Z)
| Resize (id size : Z).

Definition serve {W S} `{IVirtFdService W S} (svc : S) (r : request) : M W Status unit :=
  match r with
  | ReadFile id offset size => _ ← readFile svc id offset size; mret ()
  | ReadMerkleTree id offset size => _ ← readFsverityMerkleTree svc id offset size; mret ()
  | ReadSignature id => _ ← readFsveritySignature svc id; mret ()
  | WriteFile id buf offset => _ ← writeFile svc id buf offset; mret ()
  | Resize id size => resizeFile svc id size
  end.

(** The client may go on after an error: every request runs. *)
Fixpoint serve_all {W S} `{IVirtFdService W S} (svc : S) (rs : list request) (w : W) : W :=
  match rs with
  | [] => w
  | r :: rs' => serve_all svc rs' (serve svc r w).2
  end.

(** The files that requests may change. *)
Definition writable {File} (self : FdService File) (g : File) : Prop :=
  ∃ id, fd_pool self !! id = Some (ReadWrite g).

Section ServiceLemmas.
Context `{Profile} {W File : Type} `{PosixFile W File} `{!VerityIoctl W File}.

(** fs-verity metadata is read, never written, through the ioctl. *)
Context (verity_frame : ∀ f arg buf (w : W) r w',
  read_verity_metadata f arg buf w = (r, w') -> ∀ g : File, file_content w' g = file_content w g).

Definition same_files (w w' : W) : Prop := ∀ g : File, file_content w' g = file_content w g.
#[local] Instance same_files_pre : PreOrder same_files.
Proof. split; [by intros w g|]. intros w1 w2 w3 H12 H23 g. by rewrite H23. Qed.

Lemma read_into_buf_ok file max off w :
  0 <= max -> 0 <= off ->
  read_into_buf file max off w = (Ok (subrange (file_content w file) off (off + max)), w).
Proof.
  intros Hmax Hoff. unfold read_into_buf. erewrite M_bind_Ok by apply posix_len.
  unfold saturating_sub. rewrite posix_read by lia. do 2 f_equal. unfold subrange.
  apply byte_at_ext.
  - rewrite !length_take, !length_drop. lia.
  - intros j. rewrite !byte_at_take, !byte_at_drop. repeat case_decide; try lia; try done.
    rewrite byte_at_ge; [done|lia].
Qed.

(** Everything but [writeFile] and [resize] leaves every file as it was. *)
Lemma read_into_buf_frame file max off : preserves same_files (read_into_buf (W := W) file max off).
Proof.
  apply preserves_bind; [typeclasses eauto|intros w; by rewrite posix_len|].
  intros n w g. destruct (read_exact_at _ _ _ _) eqn:Hr. by eapply posix_read_frame.
Qed.
Lemma read_metadata_frame file ty off buf : preserves same_files (read_metadata (W := W) file ty off buf).
Proof.
  apply preserves_bind; [typeclasses eauto|apply preserves_tryM|].
  - intros w g. destruct (read_verity_metadata _ _ _ _) eqn:Hr. by eapply verity_frame.
  - intros [[e|]|[n b]]; frame.
Qed.
Lemma read_truncated_frame size read :
  (∀ buf, preserves same_files (read buf)) -> preserves same_files (read_truncated (W := W) size read).
Proof. intros Hr. unfold read_truncated. frame. Qed.

(** Whatever the request and its result, only writable files change. *)
Lemma serve_frame (svc : FdService File) rq g :
  ¬ writable svc g ->
  preserves (λ w w' : W, file_content w' g = file_content w g) (serve svc rq).
Proof.
  intros Hg. assert (PreOrder (λ w w' : W, file_content w' g = file_content w g)) by (split; congruence).
  assert (∀ E A (m : M W E A), preserves same_files m ->
    preserves (λ w w', file_content w' g = file_content w g) m) as Hw by (intros E A m Hm w; apply Hm).
  pose proof read_into_buf_frame. pose proof read_metadata_frame. pose proof read_truncated_frame.
  assert (∀ id f, fd_pool svc !! id = Some (ReadWrite f) -> g <> f) as Hne.
  { intros id f Hf ->. apply Hg. by exists id. }
  destruct rq as [id off size|id off size|id|id buf off|id size]; cbn; unfold FdService_readFile,
    FdService_readFsverityMerkleTree, FdService_readFsveritySignature, FdService_writeFile,
    FdService_resize, get_file_config; frame; intros w;
    (destruct (fd_pool svc !! id) eqn:Hp; simplify_eq/=; apply Hne in Hp).
  - destruct (file_write_at _ _ _ _) eqn:Hr. by eapply posix_write_frame.
  - destruct (set_len _ _ _) eqn:Hr. by eapply posix_set_len_frame.
Qed.
End ServiceLemmas.

Definition served_file {File} (c : FdConfig File) : File :=
  match c with Readonly file _ _ | ReadWrite file => file end.

Section ServiceResults.
Context `{Profile} {W File : Type} `{PosixFile W File} `{!VerityIoctl W File}.

(** [readFile], every branch. *)
Lemma readFile_eq (svc : FdService File) id offset size w :
  FdService_readFile svc id offset size w =
    if decide (MAX_REQUESTING_DATA < size) then
      (Err (Exception ILLEGAL_ARGUMENT (String.append "Unexpectedly large size: " (pretty size))), w)
    else if decide (size < 0) then
      (Err (Exception ILLEGAL_ARGUMENT (String.append "Invalid size: " (pretty size))), w)
    else if decide (offset < 0) then
      (Err (Exception ILLEGAL_ARGUMENT (String.append "Invalid offset: " (pretty offset))), w)
    else match fd_pool svc !! id with
         | None => (Err (StatusFrom ERROR_UNKNOWN_FD), w)
         | Some c => (Ok (subrange (file_content w (served_file c)) offset (offset + size)), w)
         end.
Proof.
  unfold FdService_readFile, validate_and_cast_size, validate_and_cast_offset, try_unsigned.
  case_decide; [by replace (size >? MAX_REQUESTING_DATA) with true by lia|].
  replace (size >? MAX_REQUESTING_DATA) with false by lia.
  case_decide; [by replace (0 <=? size) with false by lia|]. replace (0 <=? size) with true by lia.
  erewrite M_bind_lift by done.
  case_decide; [by replace (0 <=? offset) with false by lia|]. replace (0 <=? offset) with true by lia.
  erewrite M_bind_lift by done. unfold get_file_config. destruct (fd_pool svc !! id) as [c|]; [|done].
  erewrite M_bind_lift by done. unfold map_errM. destruct c; by rewrite read_into_buf_ok by lia.
Qed.

(** [readFsverityMerkleTree] of a read-only file with a separate tree file. *)
Lemma readMerkleTree_alt (svc : FdService File) id offset size file tree sig w :
  0 <= size <= MAX_REQUESTING_DATA -> 0 <= offset ->
  fd_pool svc !! id = Some (Readonly file (Some tree) sig) ->
  FdService_readFsverityMerkleTree svc id offset size w =
    (Ok (subrange (file_content w tree) offset (offset + size)), w).
Proof.
  intros Hs Ho Hp. unfold FdService_readFsverityMerkleTree, validate_and_cast_size,
    validate_and_cast_offset, try_unsigned.
  replace (size >? MAX_REQUESTING_DATA) with false by lia. replace (0 <=? size) with true by lia.
  erewrite M_bind_lift by done. replace (0 <=? offset) with true by lia. erewrite M_bind_lift by done.
  unfold get_file_config. rewrite Hp. erewrite M_bind_lift by done.
  unfold map_errM. by rewrite read_into_buf_ok by lia.
Qed.

(** [writeFile] of a writable file, in range. *)
Lemma writeFile_ok (svc : FdService File) id buf off file w :
  fd_pool svc !! id = Some (ReadWrite file) ->
  buf <> [] -> len buf <= i32_MAX -> 0 <= off -> off + len buf <= i64_MAX ->
  ∃ n w', FdService_writeFile svc id buf off w = (Ok n, w') ∧ 0 < n <= len buf ∧
    file_content w' file = write_bytes (file_content w file) (Z.to_nat off) (take (Z.to_nat n) buf).
Proof.
  intros Hp Hne Hl Hoff Hmax. unfold FdService_writeFile, get_file_config. rewrite Hp.
  erewrite M_bind_lift by done. unfold try_unsigned. replace (0 <=? off) with true by lia.
  erewrite M_bind_lift by done. replace (len buf >? i32_MAX) with false by lia.
  destruct (posix_write file buf off w) as (n & w' & Hw & Hn & Hc); [done..|].
  exists n, w'. unfold map_errM. rewrite M_bind_eq, Hw. cbn [map_err].
  unfold as_i32. rewrite as_signed_small by (unfold i32_MAX in *; lia). done.
Qed.
Lemma resizeFile_ok (svc : FdService File) id n file w :
  fd_pool svc !! id = Some (ReadWrite file) -> 0 <= n <= i64_MAX ->
  ∃ w', FdService_resize svc id n w = (Ok (), w') ∧
    file_content w' file = resize_bytes (file_content w file) (Z.to_nat n).
Proof.
  intros Hp Hn. unfold FdService_resize, get_file_config. rewrite Hp.
  erewrite M_bind_lift by done. replace (n <? 0) with false by lia.
  destruct (posix_set_len file n w Hn) as (w' & Hs & Hc). exists w'. unfold map_errM. by rewrite Hs.
Qed.
End ServiceResults.

(** ** Command-line lemmas *)
Section ArgumentLemmas.
Context {W File : Type} `{PosixFile W File} `{!FdTable W File}.

Definition fd_open (w : W) (fd : Z) : Prop := ∃ r, fcntl_getfd fd w = (Ok r, w) ∧ 0 <= r.

Lemma fd_to_file_ok fd w : fd_open w fd -> fd_to_file fd w = (Ok (from_raw_fd fd), w).
Proof.
  intros (r & Hf & Hr). unfold fd_to_file, is_fd_valid, map_errM. rewrite !M_bind_eq, Hf. cbn.
  by replace (r >=? 0) with true by lia.
Qed.
Lemma opt_fd_to_file_ok fd w :
  (∀ n, fd = Some n -> fd_open w n) -> opt_fd_to_file fd w = (Ok (from_raw_fd <$> fd), w).
Proof.
  intros Hf. destruct fd as [n|]; [|done]. cbn [opt_fd_to_file].
  by erewrite M_bind_Ok by (apply fd_to_file_ok; auto).
Qed.

Lemma parse_fd_list (ids : list N) :
  Forall (λ n, Z.of_N n <= i32_MAX) ids ->
  try_map (λ x, ok_or ParseIntError (parse_i32 x)) (pretty <$> ids) = Ok (Z.of_N <$> ids).
Proof.
  induction 1 as [|n ids Hn Hids IH]; [done|]. cbn [fmap list_fmap try_map].
  rewrite parse_i32_pretty by done. cbn [ok_or]. by rewrite bind_Ok, IH.
Qed.

Lemma parse_arg_ro_fds_ok (id : N) (ids : list N) w :
  (length ids <= 2)%nat -> Forall (λ n, Z.of_N n <= i32_MAX ∧ fd_open w (Z.of_N n)) (id :: ids) ->
  parse_arg_ro_fds (join COLON (pretty <$> id :: ids)) w =
    (Ok (Z.of_N id, Readonly (from_raw_fd (Z.of_N id)) (from_raw_fd ∘ Z.of_N <$> ids !! 0%nat)
                      (from_raw_fd ∘ Z.of_N <$> ids !! 1%nat)), w).
Proof.
  intros Hl Hids. unfold parse_arg_ro_fds. rewrite split_join; [|done|].
  2: { apply Forall_fmap, Forall_forall. intros n _. by apply pretty_N_no_char. }
  erewrite M_bind_lift by (apply parse_fd_list; eapply Forall_impl; [exact Hids|by intros ? []]).
  rewrite length_fmap.
  assert (len (id :: ids) <= 3) as Hl3 by (cbn [length]; clear -Hl; lia).
  replace (len (id :: ids) >? 3) with false by (clear -Hl3; lia).
  assert (∀ k n, (Z.of_N <$> id :: ids) !! k = Some n -> fd_open w n) as Hopen.
  { intros k n Hk. rewrite list_lookup_fmap in Hk. apply fmap_Some in Hk as (m & Hm & ->).
    by apply (Forall_lookup_1 _ _ _ _ Hids Hm). }
  erewrite M_bind_lift by done.
  erewrite M_bind_Ok by (apply fd_to_file_ok, (Hopen O); done).
  erewrite M_bind_Ok by (apply opt_fd_to_file_ok, Hopen).
  erewrite M_bind_Ok by (apply opt_fd_to_file_ok, Hopen).
  by destruct ids as [|? [|? ?]].
Qed.
End ArgumentLemmas.

(** Every descriptor of the pool is the one it is indexed by, and a writable
    file was empty when the server started. *)
Definition pool_ok {W File} `{PosixFile W File} `{!FdTable W File} (w : W) (pool : gmap Z (FdConfig File))
    : Prop :=
  ∀ id c, pool !! id = Some c ->
    served_file c = from_raw_fd id ∧ (∀ f, c = ReadWrite f -> file_content w f = []).

Section PoolLemmas.
Context {W File : Type} `{PosixFile W File} `{!FdTable W File}.
Context (fcntl_pure : ∀ fd (w : W) r w', fcntl_getfd fd w = (r, w') -> w' = w).

Lemma fd_to_file_inv fd w f w' :
  fd_to_file fd w = (Ok f, w') -> f = from_raw_fd fd ∧ w' = w.
Proof.
  unfold fd_to_file, is_fd_valid, map_errM. rewrite !M_bind_eq.
  destruct (fcntl_getfd fd w) as [[r|[]| |] w1] eqn:Hf; cbn; [|done..].
  apply fcntl_pure in Hf as ->. case_match; [done|]. by intros [= <- <-].
Qed.
Lemma opt_fd_to_file_inv fd w f w' : opt_fd_to_file fd w = (Ok f, w') -> w' = w.
Proof.
  destruct fd as [n|]; cbn; [|by intros [= _ <-]]. intros Hr.
  apply M_bind_inv in Hr as (? & ? & Hf & [= _ <-]). by apply fd_to_file_inv in Hf as [_ ->].
Qed.

Lemma parse_arg_ro_fds_inv arg w id c w' :
  parse_arg_ro_fds arg w = (Ok (id, c), w') ->
  w' = w ∧ served_file c = from_raw_fd id ∧ ∀ f, c <> ReadWrite f.
Proof.
  unfold parse_arg_ro_fds. intros Hr. apply M_bind_inv in Hr as (fds & w1 & Hl & Hr).
  apply lift_inv in Hl as [_ <-]. destruct (len fds >? 3); [done|].
  apply M_bind_inv in Hr as (fd0 & w1 & Hl & Hr). apply lift_inv in Hl as [_ <-].
  apply M_bind_inv in Hr as (f & w1 & Hf & Hr). apply fd_to_file_inv in Hf as [-> ->].
  apply M_bind_inv in Hr as (mt & w1 & Hf & Hr). apply opt_fd_to_file_inv in Hf as ->.
  apply M_bind_inv in Hr as (sg & w1 & Hf & Hr). apply opt_fd_to_file_inv in Hf as ->.
  by injection Hr as <- <- <-.
Qed.
Lemma parse_arg_rw_fds_inv arg w id c w' :
  parse_arg_rw_fds arg w = (Ok (id, c), w') ->
  w' = w ∧ served_file c = from_raw_fd id ∧ ∀ f, c = ReadWrite f -> file_content w f = [].
Proof.
  unfold parse_arg_rw_fds. intros Hr. apply M_bind_inv in Hr as (fd & w1 & Hl & Hr).
  apply lift_inv in Hl as [_ <-]. apply M_bind_inv in Hr as (f & w1 & Hf & Hr).
  apply fd_to_file_inv in Hf as [-> ->]. unfold map_errM in Hr. rewrite M_bind_eq, posix_len in Hr.
  cbn [map_err] in Hr. case_match eqn:Hz; [done|]. injection Hr as <- <- <-.
  split_and!; [done|done|]. intros f [= <-]. destruct (file_content w _); [done|]. rewrite Z.gtb_ltb in Hz. apply Z.ltb_ge in Hz. simpl in Hz. lia.
Qed.

Lemma pool_fold_ok (parse : string -> M W arg_error (Z * FdConfig File)) args :
  (∀ arg w id c w', parse arg w = (Ok (id, c), w') ->
     w' = w ∧ served_file c = from_raw_fd id ∧ ∀ f, c = ReadWrite f -> file_content w f = []) ->
  ∀ pool w pool' w', pool_ok w pool ->
  try_fold (λ pool arg, '(fd, config) ← parse arg; mret (<[fd := config]> pool)) pool args w = (Ok pool', w') ->
  w' = w ∧ pool_ok w pool'.
Proof.
  intros Hparse. induction args as [|arg args IH]; intros pool w pool' w' Hpool Hr; cbn [try_fold] in Hr.
  - by injection Hr as <- <-.
  - apply M_bind_inv in Hr as (pool1 & w1 & Hf & Hr).
    apply M_bind_inv in Hf as ([id c] & w2 & Hp & [= <- <-]).
    apply Hparse in Hp as (-> & Hs & He). apply (IH _ _ _ _) in Hr; [done|].
    intros id' c' Hl. apply lookup_insert_Some in Hl as [[<- <-]|[_ Hl]]; [done|by apply Hpool].
Qed.
Lemma parse_args_inv ro rw w pool w' :
  parse_args ro rw w = (Ok pool, w') -> w' = w ∧ pool_ok w pool.
Proof.
  unfold parse_args. intros Hr. apply M_bind_inv in Hr as (pool1 & w1 & Hro & Hrw).
  apply pool_fold_ok in Hro as [-> Hok]; [by apply pool_fold_ok in Hrw; [|apply parse_arg_rw_fds_inv|]| |].
  - intros arg w0 id c w2 Hp. apply parse_arg_ro_fds_inv in Hp as (-> & ? & Hne).
    split_and!; [done|done|]. intros f ->. by destruct (Hne f).
  - intros id c. by rewrite lookup_empty.
Qed.
End PoolLemmas.

(** ** Claims *)

(** C20: the server never changes a file that it does not serve for writing.
    For every sequence of requests, with any arguments and whether they
    succeed or not, a file that no [--rw-fds] entry of the pool holds keeps
    its content: in particular read-only files, their Merkle trees and
    signatures. *)
Theorem fd_server_readonly_immutable `{Profile} {W File} `{PosixFile W File} `{!VerityIoctl W File}
    (svc : FdService File) rqs w g :
  (∀ f arg buf (w : W) r w', read_verity_metadata f arg buf w = (r, w') ->
     ∀ g : File, file_content w' g = file_content w g) ->
  ¬ writable svc g ->
  file_content (serve_all svc rqs w) g = file_content w g.
Proof.
  intros Hframe Hg. revert w. induction rqs as [|rq rqs IH]; intros w; [done|]. cbn [serve_all].
  rewrite IH. by apply serve_frame.
Qed.

(** [readFile] on every branch: a size over the limit, a negative size, a
    negative offset and an unknown descriptor each have their error; otherwise
    the reply is the requested range of the file, cut at the end of the file
    and so empty beyond it, and never longer than the limit. *)
Theorem readFile_result `{Profile} {W File} `{PosixFile W File} `{!VerityIoctl W File}
    (svc : FdService File) id offset size (w : W) :
  FdService_readFile svc id offset size w =
    if decide (MAX_REQUESTING_DATA < size) then
      (Err (Exception ILLEGAL_ARGUMENT (String.append "Unexpectedly large size: " (pretty size))), w)
    else if decide (size < 0) then
      (Err (Exception ILLEGAL_ARGUMENT (String.append "Invalid size: " (pretty size))), w)
    else if decide (offset < 0) then
      (Err (Exception ILLEGAL_ARGUMENT (String.append "Invalid offset: " (pretty offset))), w)
    else match fd_pool svc !! id with
         | None => (Err (StatusFrom ERROR_UNKNOWN_FD), w)
         | Some c => (Ok (subrange (file_content w (served_file c)) offset (offset + size)), w)
         end.
Proof. apply readFile_eq. Qed.

(** printing descriptors joined by colons and parsing them back gives the
    read-only configuration of these descriptors: the file, the optional
    Merkle tree and the optional signature, in this order. *)
Theorem ro_fds_roundtrip {W File} `{PosixFile W File} `{!FdTable W File} (id : N) (ids : list N) (w : W) :
  (length ids <= 2)%nat -> Forall (λ n, Z.of_N n <= i32_MAX ∧ fd_open w (Z.of_N n)) (id :: ids) ->
  parse_arg_ro_fds (join COLON (pretty <$> id :: ids)) w =
    (Ok (Z.of_N id, Readonly (from_raw_fd (Z.of_N id)) (from_raw_fd ∘ Z.of_N <$> ids !! 0%nat)
                      (from_raw_fd ∘ Z.of_N <$> ids !! 1%nat)), w).
Proof. apply parse_arg_ro_fds_ok. Qed.

(** a pool built from the command line is well formed: each entry serves
    the descriptor it is indexed by, and each writable file was empty, which
    is what [VerifiedFileEditor] requires of a new file. *)
Theorem parsed_pool_ok {W File} `{PosixFile W File} `{!FdTable W File} ro rw (w : W) pool w' :
  (∀ fd (w : W) r w', fcntl_getfd fd w = (r, w') -> w' = w) ->
  parse_args ro rw w = (Ok pool, w') -> pool_ok w' pool.
Proof. intros Hpure Hp. by apply (parse_args_inv Hpure) in Hp as [-> ?]. Qed.

Section Witness.
#[local] Existing Instance debug_profile.

(** Files without fs-verity metadata; every descriptor below 100 is open. *)
#[local] Program Instance mem_ioctl : VerityIoctl (gmap Z bytes) Z := {
  read_verity_metadata _ _ _ w := (Err (Sys ENODATA), w)
}.
Next Obligation. done. Qed.
#[local] Instance mem_fds : FdTable (gmap Z bytes) Z := {
  fcntl_getfd fd w := (Ok (if fd <? 100 then 0 else -1), w);
  from_raw_fd fd := fd
}.

Definition sample_pool : FdService Z :=
  {| fd_pool := <[4 := ReadWrite 4]> {[3 := Readonly 3 None None]} |}.

Lemma fd_server_readonly_immutable_witness :
  file_content (serve_all sample_pool [WriteFile 3 [7] 0; Resize 3 0; WriteFile 4 [7] 0]
                  ({[3 := [1; 2]]} : gmap Z bytes)) 3
    = file_content ({[3 := [1; 2]]} : gmap Z bytes) 3.
Proof.
  refine (fd_server_readonly_immutable sample_pool _ {[3 := [1; 2]]} 3 _ _).
  - intros f arg buf w r w' Hr. by injection Hr as <- <-.
  - intros [id Hid]. unfold sample_pool in Hid. cbn [fd_pool] in Hid.
    apply lookup_insert_Some in Hid as [[_ Hid]|[_ Hid]]; [discriminate Hid|].
    apply lookup_singleton_Some in Hid as [_ Hid]. discriminate Hid.
Defined.

Lemma ro_fds_roundtrip_witness :
  parse_arg_ro_fds (join COLON (pretty <$> 3%N :: [5; 6]%N)) (∅ : gmap Z bytes) =
    (Ok (3, Readonly 3 (Some 5) (Some 6)), ∅).
Proof.
  refine (ro_fds_roundtrip 3 [5; 6]%N ∅ _ _).
  - reflexivity.
  - repeat constructor; first [unfold i32_MAX; lia | exists 0; by split].
Defined.

Lemma parsed_pool_ok_witness :
  ∃ pool w', parse_args ["3:5"%string] ["4"%string] ({[3 := [1]]} : gmap Z bytes) = (Ok pool, w') ∧
    pool_ok w' pool.
Proof.
  eexists _, _. split; [vm_compute; reflexivity|].
  refine (parsed_pool_ok ["3:5"%string] ["4"%string] {[3 := [1]]} _ _ _ _).
  - intros fd w r w' Hr. by injection Hr as _ <-.
  - vm_compute. reflexivity.
Defined.
End Witness.
