(* ===== verification/FdServerSpec.v ===== *)
(** * authfs/fd_server: what the service promises

    An abstract specification of fd_server, a map from numbers to contents with
    five requests on it, and the proof that the service over regular files
    implements it, request by request and for every history.  The map knows
    nothing of files, of descriptors or of validation order; what the kernel
    answers for a file without a separate tree or signature is left open. *)

From S2P Require Import Prelude Io Common Content File VirtFd FdServer.

(** ** The specification *)
Inductive served :=
| SReadonly (data : bytes) (tree signature : option bytes)
| SReadWrite (data : bytes).
Abbreviation store := (gmap Z served).

Definition served_data (f : served) : bytes := match f with SReadonly d _ _ | SReadWrite d => d end.

Inductive reply :=
| RBytes (r : outcome Status bytes)
| RCount (r : outcome Status Z)
| RUnit (r : outcome Status unit).

(** The arguments of a read, as the service checks them. *)
Definition range_error (offset size : Z) : option Status :=
  if decide (MAX_REQUESTING_DATA < size) then
    Some (Exception ILLEGAL_ARGUMENT (String.append "Unexpectedly large size: " (pretty size)))
  else if decide (size < 0) then Some (Exception ILLEGAL_ARGUMENT (String.append "Invalid size: " (pretty size)))
  else if decide (offset < 0) then Some (Exception ILLEGAL_ARGUMENT (String.append "Invalid offset: " (pretty offset)))
  else None.
(** A part of a content, if the specification knows the content. *)
Definition part_of (data : option bytes) (offset size : Z) : option (outcome Status bytes) :=
  (λ d, Ok (subrange d offset (offset + size))) <$> data.
Definition metadata_of (part : served -> option (option bytes)) (s : store) (id offset size : Z)
    : option (outcome Status bytes) :=
  match s !! id with
  | None => Some (Err (StatusFrom ERROR_UNKNOWN_FD))
  | Some f => match part f with
              | None => Some (Err (Exception UNSUPPORTED_OPERATION "Unsupported"))
              | Some data => part_of data offset size
              end
  end.
Definition tree_of_served (f : served) : option (option bytes) :=
  match f with SReadonly _ tree _ => Some tree | SReadWrite _ => None end.
Definition signature_of_served (f : served) : option (option bytes) :=
  match f with SReadonly _ _ sig => Some sig | SReadWrite _ => None end.

(** The answer that the specification gives, where it gives one. *)
Definition answer (s : store) (rq : request) : option reply :=
  match rq with
  | ReadFile id offset size =>
      Some (RBytes match range_error offset size, s !! id with
                   | Some e, _ => Err e
                   | None, None => Err (StatusFrom ERROR_UNKNOWN_FD)
                   | None, Some f => Ok (subrange (served_data f) offset (offset + size))
                   end)
  | ReadMerkleTree id offset size =>
      match range_error offset size with
      | Some e => Some (RBytes (Err e))
      | None => RBytes <$> metadata_of tree_of_served s id offset size
      end
  | ReadSignature id => RBytes <$> metadata_of signature_of_served s id 0 MAX_REQUESTING_DATA
  | WriteFile id buf offset =>
      match s !! id with
      | None => Some (RCount (Err (StatusFrom ERROR_UNKNOWN_FD)))
      | Some (SReadonly _ _ _) => Some (RCount (Err (StatusFrom INVALID_OPERATION)))
      | Some (SReadWrite _) =>
          if decide (offset < 0) then Some (RCount (Err (Exception ILLEGAL_ARGUMENT "Invalid offset")))
          else if decide (i32_MAX < len buf) then Some (RCount (Err (Exception ILLEGAL_ARGUMENT "Buffer size is too big")))
          else None
      end
  | Resize id size =>
      match s !! id with
      | None => Some (RUnit (Err (StatusFrom ERROR_UNKNOWN_FD)))
      | Some (SReadonly _ _ _) => Some (RUnit (Err (StatusFrom INVALID_OPERATION)))
      | Some (SReadWrite _) =>
          if decide (size < 0) then Some (RUnit (Err (Exception ILLEGAL_ARGUMENT "Invalid size to resize to")))
          else None
      end
  end.

Definition reads (rq : request) : Prop :=
  match rq with ReadFile _ _ _ | ReadMerkleTree _ _ _ | ReadSignature _ => True | _ => False end.

(** Only a write or a resize of a writable number changes the map: a write in
    range stores a non-empty prefix of the buffer and returns its length, a
    resize cuts or extends with zeros.  What the operating system does with an
    empty write, or beyond the largest file, is left open. *)
Inductive served_step (s : store) : request -> reply -> store -> Prop :=
| st_write id buf offset d n :
    s !! id = Some (SReadWrite d) -> 0 <= offset -> buf <> [] -> len buf <= i32_MAX -> offset + len buf <= i64_MAX ->
    0 < n <= len buf ->
    served_step s (WriteFile id buf offset) (RCount (Ok n))
      (<[id := SReadWrite (write_bytes d (Z.to_nat offset) (take (Z.to_nat n) buf))]> s)
| st_resize id size d :
    s !! id = Some (SReadWrite d) -> 0 <= size <= i64_MAX ->
    served_step s (Resize id size) (RUnit (Ok ())) (<[id := SReadWrite (resize_bytes d (Z.to_nat size))]> s)
| st_write_open id buf offset d d' r :
    s !! id = Some (SReadWrite d) -> buf = [] ∨ i64_MAX < offset + len buf ->
    answer s (WriteFile id buf offset) = None ->
    served_step s (WriteFile id buf offset) (RCount r) (<[id := SReadWrite d']> s)
| st_resize_open id size d d' r :
    s !! id = Some (SReadWrite d) -> i64_MAX < size ->
    served_step s (Resize id size) (RUnit r) (<[id := SReadWrite d']> s)
| st_answer rq r :
    (∀ r', answer s rq = Some r' -> r = r') -> is_Some (answer s rq) ∨ reads rq -> served_step s rq r s.

(** A history of requests with their replies. *)
Inductive served_history (s : store) : list (request * reply) -> store -> Prop :=
| sh_start : served_history s [] s
| sh_step l s1 rq r s2 : served_history s l s1 -> served_step s1 rq r s2 -> served_history s (l ++ [(rq, r)]) s2.

(** ** The service *)
Definition call {W S} `{IVirtFdService W S} (svc : S) (rq : request) (w : W) : reply * W :=
  match rq with
  | ReadFile id offset size => let '(r, w') := readFile svc id offset size w in (RBytes r, w')
  | ReadMerkleTree id offset size => let '(r, w') := readFsverityMerkleTree svc id offset size w in (RBytes r, w')
  | ReadSignature id => let '(r, w') := readFsveritySignature svc id w in (RBytes r, w')
  | WriteFile id buf offset => let '(r, w') := writeFile svc id buf offset w in (RCount r, w')
  | Resize id size => let '(r, w') := resizeFile svc id size w in (RUnit r, w')
  end.
Definition call_all {W S} `{IVirtFdService W S} (svc : S) (rqs : list request) (w : W) : list (request * reply) * W :=
  foldl (λ '(l, w) rq, let '(r, w') := call svc rq w in (l ++ [(rq, r)], w')) ([], w) rqs.

Section Refinement.
Context `{Profile} {W File : Type} `{PosixFile W File} `{!VerityIoctl W File}.
Context (verity_frame : ∀ f arg buf (w : W) r w',
  read_verity_metadata f arg buf w = (r, w') -> ∀ g : File, file_content w' g = file_content w g).

Definition config_content (w : W) (c : FdConfig File) : served :=
  match c with
  | Readonly f tree sig => SReadonly (file_content w f) (file_content w <$> tree) (file_content w <$> sig)
  | ReadWrite f => SReadWrite (file_content w f)
  end.
Definition content_of (svc : FdService File) (w : W) : store := config_content w <$> fd_pool svc.

Definition config_files (c : FdConfig File) : list File :=
  match c with
  | Readonly f tree sig => f :: option_list tree ++ option_list sig
  | ReadWrite f => [f]
  end.
(** No writable file is served under another number as well. *)
Definition unaliased (svc : FdService File) : Prop :=
  ∀ id f, fd_pool svc !! id = Some (ReadWrite f) ->
  ∀ id' c, fd_pool svc !! id' = Some c -> f ∈ config_files c -> id' = id.

Lemma config_content_ext w w' c :
  (∀ g, g ∈ config_files c -> file_content w' g = file_content w g) -> config_content w' c = config_content w c.
Proof.
  intros Hg. destruct c as [f tree sig|f]; cbn in *; [|f_equal; apply Hg; set_solver].
  f_equal; [apply Hg; set_solver| |].
  - destruct tree; [|done]. cbn. f_equal. apply Hg. cbn. set_solver.
  - destruct sig; [|done]. cbn. f_equal. apply Hg. set_solver.
Qed.
Lemma content_same svc w w' : same_files w w' -> content_of svc w' = content_of svc w.
Proof. intros Hs. apply map_fmap_ext. intros id c _. apply config_content_ext. intros g _. apply Hs. Qed.
(** A change of one writable file is a change of its entry. *)
Lemma content_insert svc id f w w' :
  unaliased svc -> fd_pool svc !! id = Some (ReadWrite f) ->
  (∀ g, g <> f -> file_content w' g = file_content w g) ->
  content_of svc w' = <[id := SReadWrite (file_content w' f)]> (content_of svc w).
Proof.
  intros Hun Hf Hg. apply map_eq. intros id'. unfold content_of. destruct (decide (id' = id)) as [->|Hne].
  - by rewrite lookup_insert_eq, lookup_fmap, Hf.
  - rewrite lookup_insert_ne, !lookup_fmap by done. destruct (fd_pool svc !! id') as [c|] eqn:Hc; [|done]. cbn. f_equal.
    apply config_content_ext. intros g Hin. apply Hg. intros ->. by eapply Hne, Hun.
Qed.

(** The checks at the start of a read. *)
Lemma validated {A} offset size (k : Z -> Z -> M W Status A) w :
  (size ← lift (validate_and_cast_size size); offset ← lift (validate_and_cast_offset offset); k size offset) w =
    match range_error offset size with Some e => (Err e, w) | None => k size offset w end.
Proof.
  unfold range_error, validate_and_cast_size, validate_and_cast_offset, try_unsigned.
  case_decide; [by replace (size >? MAX_REQUESTING_DATA) with true by lia|].
  replace (size >? MAX_REQUESTING_DATA) with false by lia.
  case_decide; [by replace (0 <=? size) with false by lia|]. replace (0 <=? size) with true by lia.
  erewrite M_bind_lift by done.
  case_decide; [by replace (0 <=? offset) with false by lia|]. replace (0 <=? offset) with true by lia. done.
Qed.
Lemma range_ok offset size : range_error offset size = None -> 0 <= size <= MAX_REQUESTING_DATA ∧ 0 <= offset.
Proof. unfold range_error. repeat case_decide; naive_solver lia. Qed.

Lemma refine_read svc id offset size w r w' :
  readFile svc id offset size w = (r, w') -> answer (content_of svc w) (ReadFile id offset size) = Some (RBytes r) ∧ w' = w.
Proof.
  cbn [readFile FdService_IVirtFdService]. unfold FdService_readFile. rewrite validated. cbn [answer].
  destruct (range_error offset size) eqn:Hr; [by intros [= <- <-]|]. apply range_ok in Hr as [Hs Ho].
  unfold content_of, get_file_config. rewrite lookup_fmap. destruct (fd_pool svc !! id) as [c|]; [|by intros [= <- <-]].
  erewrite M_bind_lift by done. unfold map_errM.
  destruct c; rewrite read_into_buf_ok by lia; by intros [= <- <-].
Qed.
Lemma refine_tree svc id offset size w r w' r' :
  readFsverityMerkleTree svc id offset size w = (r, w') ->
  answer (content_of svc w) (ReadMerkleTree id offset size) = Some r' -> RBytes r = r'.
Proof.
  cbn [readFsverityMerkleTree FdService_IVirtFdService]. unfold FdService_readFsverityMerkleTree. rewrite validated. cbn [answer].
  destruct (range_error offset size) eqn:Hr; [by intros [= <- <-] [= <-]|]. apply range_ok in Hr as [Hs Ho].
  unfold metadata_of, content_of, get_file_config. rewrite lookup_fmap.
  destruct (fd_pool svc !! id) as [c|]; [|by intros [= <- <-] [= <-]]. erewrite M_bind_lift by done. unfold map_errM.
  destruct c as [f [t|] sig|f]; cbn; [|done|by intros [= <- <-] [= <-]].
  rewrite read_into_buf_ok by lia. by intros [= <- <-] [= <-].
Qed.
Lemma refine_signature svc id w r w' r' :
  readFsveritySignature svc id w = (r, w') -> answer (content_of svc w) (ReadSignature id) = Some r' -> RBytes r = r'.
Proof.
  cbn [readFsveritySignature FdService_IVirtFdService answer]. unfold FdService_readFsveritySignature.
  unfold metadata_of, content_of, get_file_config. rewrite lookup_fmap.
  destruct (fd_pool svc !! id) as [c|]; [|by intros [= <- <-] [= <-]]. erewrite M_bind_lift by done. unfold map_errM.
  destruct c as [f t [sig|]|f]; cbn; [|done|by intros [= <- <-] [= <-]].
  rewrite read_into_buf_ok by (unfold MAX_REQUESTING_DATA; lia). by intros [= <- <-] [= <-].
Qed.

(** Requests that read change no file, whatever they return. *)
Lemma tree_frame (svc : FdService File) id offset size : preserves same_files (readFsverityMerkleTree (W := W) svc id offset size).
Proof.
  pose proof same_files_pre. pose proof read_into_buf_frame. pose proof (read_metadata_frame verity_frame).
  pose proof read_truncated_frame. cbn. unfold FdService_readFsverityMerkleTree. frame.
Qed.
Lemma signature_frame (svc : FdService File) id : preserves same_files (readFsveritySignature (W := W) svc id).
Proof.
  pose proof same_files_pre. pose proof read_into_buf_frame. pose proof (read_metadata_frame verity_frame).
  pose proof read_truncated_frame. cbn. unfold FdService_readFsveritySignature. frame.
Qed.

(** A reply that the specification gives, without a change. *)
Lemma step_answer s rq r : answer s rq = Some r -> served_step s rq r s.
Proof. intros Ha. apply st_answer; [congruence|by left]. Qed.

(** A write or a resize changes no other file, whatever it returns. *)
Lemma write_frame (svc : FdService File) id f g buf offset :
  fd_pool svc !! id = Some (ReadWrite f) -> g <> f ->
  preserves (λ w w' : W, file_content w' g = file_content w g) (writeFile svc id buf offset).
Proof.
  intros Hp Hne. assert (PreOrder (λ w w' : W, file_content w' g = file_content w g)) by (split; congruence).
  cbn. unfold FdService_writeFile, get_file_config. rewrite Hp. frame; simplify_eq/=.
  intros w. destruct (file_write_at _ _ _ _) eqn:Hr. by eapply posix_write_frame.
Qed.
Lemma resize_frame (svc : FdService File) id f g size :
  fd_pool svc !! id = Some (ReadWrite f) -> g <> f ->
  preserves (λ w w' : W, file_content w' g = file_content w g) (resizeFile svc id size).
Proof.
  intros Hp Hne. assert (PreOrder (λ w w' : W, file_content w' g = file_content w g)) by (split; congruence).
  cbn. unfold FdService_resize, get_file_config. rewrite Hp. frame; simplify_eq/=.
  intros w. destruct (set_len _ _ _) eqn:Hr. by eapply posix_set_len_frame.
Qed.

(** The rejections of a write and of a resize are those of the specification. *)
Lemma write_answer svc id buf offset w r :
  answer (content_of svc w) (WriteFile id buf offset) = Some r ->
  ∃ e, r = RCount (Err e) ∧ writeFile svc id buf offset w = (Err e, w).
Proof.
  cbn. unfold content_of, FdService_writeFile, get_file_config, try_unsigned. rewrite lookup_fmap.
  destruct (fd_pool svc !! id) as [[f tree sig|f]|]; cbn; [by intros [= <-]; eexists| |by intros [= <-]; eexists].
  erewrite M_bind_lift by done. case_decide.
  - replace (0 <=? offset) with false by lia. intros [= <-]. by eexists.
  - replace (0 <=? offset) with true by lia. erewrite M_bind_lift by done. case_decide; [|done].
    replace (len buf >? i32_MAX) with true by lia. intros [= <-]. by eexists.
Qed.
Lemma resize_answer svc id size w r :
  answer (content_of svc w) (Resize id size) = Some r ->
  ∃ e, r = RUnit (Err e) ∧ resizeFile svc id size w = (Err e, w).
Proof.
  cbn. unfold content_of, FdService_resize, get_file_config. rewrite lookup_fmap.
  destruct (fd_pool svc !! id) as [[f tree sig|f]|]; cbn; [by intros [= <-]; eexists| |by intros [= <-]; eexists].
  erewrite M_bind_lift by done. case_decide; [|done].
  replace (size <? 0) with true by lia. intros [= <-]. by eexists.
Qed.
Lemma write_accepted svc id buf offset w :
  answer (content_of svc w) (WriteFile id buf offset) = None ->
  ∃ f, fd_pool svc !! id = Some (ReadWrite f) ∧ content_of svc w !! id = Some (SReadWrite (file_content w f)) ∧
    0 <= offset ∧ len buf <= i32_MAX.
Proof.
  cbn. unfold content_of. rewrite lookup_fmap. destruct (fd_pool svc !! id) as [[f tree sig|f]|]; cbn; [done| |done].
  repeat case_decide; try done. intros _. exists f. split_and!; [done|done|lia|lia].
Qed.
Lemma resize_accepted svc id size w :
  answer (content_of svc w) (Resize id size) = None ->
  ∃ f, fd_pool svc !! id = Some (ReadWrite f) ∧ content_of svc w !! id = Some (SReadWrite (file_content w f)) ∧ 0 <= size.
Proof.
  cbn. unfold content_of. rewrite lookup_fmap. destruct (fd_pool svc !! id) as [[f tree sig|f]|]; cbn; [done| |done].
  case_decide; [done|]. intros _. exists f. split_and!; [done|done|lia].
Qed.

Lemma refine_write svc id buf offset w r w' :
  unaliased svc -> writeFile svc id buf offset w = (r, w') ->
  served_step (content_of svc w) (WriteFile id buf offset) (RCount r) (content_of svc w').
Proof.
  intros Hun Hc. destruct (answer (content_of svc w) (WriteFile id buf offset)) eqn:Ha.
  - destruct (write_answer _ _ _ _ _ _ Ha) as (e & -> & Hw). rewrite Hw in Hc. injection Hc as <- <-. by apply step_answer.
  - destruct (write_accepted _ _ _ _ _ Ha) as (f & Hp & Hid & Ho & Hl).
    rewrite (content_insert svc id f w w');
      [|done|done|intros g Hne; pose proof (write_frame svc id f g buf offset Hp Hne w) as Hf; by rewrite Hc in Hf].
    destruct (decide (buf = [] ∨ i64_MAX < offset + len buf)) as [|Hr]; [by eapply st_write_open|].
    apply Decidable.not_or in Hr as [Hne Hmax].
    destruct (writeFile_ok svc id buf offset f w) as (n & w2 & Hw & Hn & Hd); [done|done|lia..|].
    cbn in Hc. rewrite Hw in Hc. injection Hc as <- <-. rewrite Hd. apply st_write; [done|lia|done|lia|lia|done].
Qed.
Lemma refine_resize svc id size w r w' :
  unaliased svc -> resizeFile svc id size w = (r, w') ->
  served_step (content_of svc w) (Resize id size) (RUnit r) (content_of svc w').
Proof.
  intros Hun Hc. destruct (answer (content_of svc w) (Resize id size)) eqn:Ha.
  - destruct (resize_answer _ _ _ _ _ Ha) as (e & -> & Hw). rewrite Hw in Hc. injection Hc as <- <-. by apply step_answer.
  - destruct (resize_accepted _ _ _ _ Ha) as (f & Hp & Hid & Hs).
    rewrite (content_insert svc id f w w');
      [|done|done|intros g Hne; pose proof (resize_frame svc id f g size Hp Hne w) as Hf; by rewrite Hc in Hf].
    destruct (decide (i64_MAX < size)); [by eapply st_resize_open|].
    destruct (resizeFile_ok svc id size f w) as (w2 & Hw & Hd); [done|lia|].
    cbn in Hc. rewrite Hw in Hc. injection Hc as <- <-. rewrite Hd. apply st_resize; [done|lia].
Qed.

(** Every request is a step of the specification. *)
Lemma call_refines svc rq w r w' :
  unaliased svc -> call svc rq w = (r, w') -> served_step (content_of svc w) rq r (content_of svc w').
Proof.
  intros Hun. destruct rq as [id off size|id off size|id|id buf off|id size]; cbn [call]; intros Hc.
  - destruct (readFile svc id off size w) as [r1 w1] eqn:Hr. injection Hc as <- <-.
    apply refine_read in Hr as [Ha ->]. by apply step_answer.
  - destruct (readFsverityMerkleTree svc id off size w) as [r1 w1] eqn:Hr. injection Hc as <- <-.
    pose proof (tree_frame svc id off size w) as Hf. rewrite Hr in Hf. cbn in Hf. rewrite (content_same svc _ _ Hf).
    apply st_answer; [intros r0; by apply (refine_tree _ _ _ _ _ _ _ _ Hr)|by right].
  - destruct (readFsveritySignature svc id w) as [r1 w1] eqn:Hr. injection Hc as <- <-.
    pose proof (signature_frame svc id w) as Hf. rewrite Hr in Hf. cbn in Hf. rewrite (content_same svc _ _ Hf).
    apply st_answer; [intros r0; by apply (refine_signature _ _ _ _ _ _ Hr)|by right].
  - destruct (writeFile svc id buf off w) as [r1 w1] eqn:Hr. injection Hc as <- <-. by apply refine_write.
  - destruct (resizeFile svc id size w) as [r1 w1] eqn:Hr. injection Hc as <- <-. by apply refine_resize.
Qed.
End Refinement.

(** C19: fd_server implements a map from numbers to contents.  Take any history
    of requests, valid or not, on a service whose writable files are served
    under one number each.  Read as contents, the pool goes through a history
    of the specification with the very replies that the service gave: reads,
    with their validation errors, return the range of the content at that
    point; a write in range stores the part of the buffer whose length it
    returns, a resize cuts or pads with zeros, both in this entry alone; and
    nothing else changes an entry. *)
Theorem fd_server_refines `{Profile} {W File} `{PosixFile W File} `{!VerityIoctl W File}
    (svc : FdService File) rqs (w : W) l w' :
  (∀ f arg buf (w : W) r w', read_verity_metadata f arg buf w = (r, w') ->
     ∀ g : File, file_content w' g = file_content w g) ->
  unaliased svc -> call_all svc rqs w = (l, w') ->
  map fst l = rqs ∧ served_history (content_of svc w) l (content_of svc w').
Proof.
  intros Hframe Hun. revert l w'. induction rqs as [|rq rqs IH] using rev_ind; intros l w'; unfold call_all.
  - intros [= <- <-]. split; [done|constructor].
  - rewrite foldl_app. fold (call_all svc rqs w). destruct (call_all svc rqs w) as [l1 w1] eqn:Hl.
    destruct (IH _ _ eq_refl) as [Hm Hh]. cbn. destruct (call svc rq w1) as [r w2] eqn:Hc. intros [= <- <-].
    split; [rewrite map_app, Hm; done|]. eapply sh_step; [done|]. by eapply call_refines.
Qed.

Section Witness.
#[local] Existing Instance debug_profile.
#[local] Program Instance no_verity_ioctl : VerityIoctl (gmap Z bytes) Z := {
  read_verity_metadata _ _ _ w := (Err (Sys ENODATA), w)
}.
Next Obligation. done. Qed.

Definition sample_requests : list request :=
  [WriteFile 4 [7; 8] 1; WriteFile 3 [7] 0; Resize 4 2; ReadFile 4 0 10; ReadMerkleTree 3 0 4096; ReadFile 5 0 1].

Lemma fd_server_refines_witness :
  ∃ l w', call_all sample_pool sample_requests ({[3 := [1; 2]]} : gmap Z bytes) = (l, w') ∧
    l !! 3%nat = Some (ReadFile 4 0 10, RBytes (Ok [0; 7])) ∧
    map fst l = sample_requests ∧
    served_history (content_of sample_pool ({[3 := [1; 2]]} : gmap Z bytes)) l (content_of sample_pool w').
Proof.
  eexists _, _. split; [vm_compute; reflexivity|]. split; [reflexivity|].
  refine (fd_server_refines sample_pool sample_requests {[3 := [1; 2]]} _ _ _ _ _).
  - intros f arg buf w r w' Hr. by injection Hr as <- <-.
  - intros id f Hf id' c Hc Hin. unfold sample_pool in Hf, Hc. cbn [fd_pool] in Hf, Hc.
    apply lookup_insert_Some in Hf as [[<- [= <-]]|[_ Hf]]; [|by apply lookup_singleton_Some in Hf as [_ ?]].
    apply lookup_insert_Some in Hc as [[<- _]|[_ Hc]]; [done|].
    apply lookup_singleton_Some in Hc as [<- <-]. cbn in Hin. set_solver.
  - vm_compute. reflexivity.
Defined.
End Witness.
