(* ===== verification/RemoteFile.v ===== *)
(** * authfs/src/file/remote_file.rs: files behind the binder service

    Readers and the editor that authfs uses for a file served by fd_server.
    The service is any instance of [IVirtFdService]; what the readers
    guarantee against an arbitrary one ([BufferTyped], [FillsPrefix]) is what
    the integrity theorems need, and over fd_server itself ([FdServer.v]) they
    meet the contracts of an honest store. *)

From S2P Require Import Prelude Io Parse Common Crypto FsverityCommon MerkleSpec Content Builder File Verifier Editor VirtFd FdServer Sha256Ref.

(** [map_err(|e| io::Error::new(io::ErrorKind::Other, e.get_description()))]. *)
Definition remote_error `{StatusDescription} (e : Status) : io_error := IoNew Other (get_description e).

(** Copies a reply into the buffer: [buf[..size].copy_from_slice(&chunk[..size])]. *)
Definition fill_buffer {E} (buf chunk : bytes) : outcome E (Z * bytes) :=
  let size := Z.min (len buf) (len chunk) in
  _ ← slice_to buf size;
  head ← slice_to chunk size;
  Ok (size, head ++ drop (Z.to_nat size) buf).

Definition remote_read_chunk `{Profile} `{StatusDescription} {W S} `{IVirtFdService W S}
    (service : S) (remote_fd chunk_index : Z) (buf : ChunkBuffer) : M W io_error (Z * ChunkBuffer) :=
  start ← lift (mul_u64 chunk_index CHUNK_SIZE);
  offset ← lift (try_i64 (RawOs EOVERFLOW) start);
  chunk ← map_errM remote_error (readFile service remote_fd offset (as_i32 (len buf)));
  lift (fill_buffer buf chunk).

Record RemoteFileReader (S : Type) := { rr_service : S; rr_file_fd : Z }.
Record RemoteMerkleTreeReader (S : Type) := { rm_service : S; rm_file_fd : Z }.
Record RemoteFileEditor (S : Type) := { re_service : S; re_file_fd : Z }.
Arguments rr_service {S}. Arguments rr_file_fd {S}.
Arguments rm_service {S}. Arguments rm_file_fd {S}.
Arguments re_service {S}. Arguments re_file_fd {S}.

Definition RemoteFileReader_new {S} (service : S) (file_fd : Z) : RemoteFileReader S :=
  {| rr_service := service; rr_file_fd := file_fd |}.
Definition RemoteMerkleTreeReader_new {S} (service : S) (file_fd : Z) : RemoteMerkleTreeReader S :=
  {| rm_service := service; rm_file_fd := file_fd |}.
Definition RemoteFileEditor_new {S} (service : S) (file_fd : Z) : RemoteFileEditor S :=
  {| re_service := service; re_file_fd := file_fd |}.

Section Remote.
Context `{Profile} `{StatusDescription} {W S : Type} `{IVirtFdService W S}.

Definition RemoteFileReader_read_chunk (self : RemoteFileReader S) (chunk_index : Z)
    (buf : ChunkBuffer) : M W io_error (Z * ChunkBuffer) :=
  remote_read_chunk (rr_service self) (rr_file_fd self) chunk_index buf.

Definition RemoteMerkleTreeReader_read_chunk (self : RemoteMerkleTreeReader S) (chunk_index : Z)
    (buf : ChunkBuffer) : M W io_error (Z * ChunkBuffer) :=
  start ← lift (mul_u64 chunk_index CHUNK_SIZE);
  offset ← lift (try_i64 (RawOs EOVERFLOW) start);
  chunk ← map_errM remote_error
    (readFsverityMerkleTree (rm_service self) (rm_file_fd self) offset (as_i32 (len buf)));
  lift (fill_buffer buf chunk).

Definition RemoteFileEditor_write_at (self : RemoteFileEditor S) (buf : bytes) (offset : Z)
    : M W io_error Z :=
  offset ← lift (try_i64 (RawOs EOVERFLOW) offset);
  size ← map_errM remote_error (writeFile (re_service self) (re_file_fd self) buf offset);
  mret (as_u64 size).

Definition RemoteFileEditor_resize (self : RemoteFileEditor S) (size : Z) : M W io_error unit :=
  size ← lift (try_i64 (RawOs EOVERFLOW) size);
  map_errM remote_error (resizeFile (re_service self) (re_file_fd self) size).

Definition RemoteFileEditor_read_chunk (self : RemoteFileEditor S) (chunk_index : Z)
    (buf : ChunkBuffer) : M W io_error (Z * ChunkBuffer) :=
  remote_read_chunk (re_service self) (re_file_fd self) chunk_index buf.
End Remote.

#[export] Instance RemoteFileReader_ReadByChunk `{Profile} `{StatusDescription} {W S} `{IVirtFdService W S}
    : ReadByChunk W (RemoteFileReader S) := RemoteFileReader_read_chunk.
#[export] Instance RemoteMerkleTreeReader_ReadByChunk `{Profile} `{StatusDescription} {W S}
    `{IVirtFdService W S} : ReadByChunk W (RemoteMerkleTreeReader S) := RemoteMerkleTreeReader_read_chunk.
#[export] Instance RemoteFileEditor_ReadByChunk `{Profile} `{StatusDescription} {W S} `{IVirtFdService W S}
    : ReadByChunk W (RemoteFileEditor S) := RemoteFileEditor_read_chunk.
#[export] Instance RemoteFileEditor_RandomWrite `{Profile} `{StatusDescription} {W S} `{IVirtFdService W S}
    : RandomWrite W (RemoteFileEditor S) := {
  write_at := RemoteFileEditor_write_at;
  resize_to := RemoteFileEditor_resize
}.

(** ** Against an arbitrary service *)
Section AnyService.
Context `{Profile} `{StatusDescription} {W S : Type} `{IVirtFdService W S}.

Lemma fill_buffer_ok {E} (buf chunk : bytes) :
  fill_buffer (E := E) buf chunk =
    Ok (Z.min (len buf) (len chunk),
        take (length buf) chunk ++ drop (length chunk) buf).
Proof.
  unfold fill_buffer, slice_to. rewrite !slice_ok, !bind_Ok by lia. rewrite subrange_0. do 2 f_equal.
  destruct (decide (length chunk <= length buf)%nat).
  - rewrite Z.min_r by lia. by rewrite Nat2Z.id, !take_ge by lia.
  - rewrite Z.min_l by lia. by rewrite Nat2Z.id, !drop_ge by lia.
Qed.
Lemma fill_buffer_inv {E} (buf chunk : bytes) n buf' :
  fill_buffer (E := E) buf chunk = Ok (n, buf') ->
  length buf' = length buf ∧ 0 <= n <= len buf ∧ drop (Z.to_nat n) buf' = drop (Z.to_nat n) buf.
Proof.
  rewrite fill_buffer_ok. intros [= <- <-]. rewrite length_app, length_take, length_drop.
  split_and!; [lia|lia|lia|]. destruct (decide (length chunk <= length buf)%nat).
  - rewrite Z.min_r, Nat2Z.id, take_ge by lia. by rewrite drop_app_length.
  - rewrite Z.min_l, Nat2Z.id by lia.
    rewrite !drop_ge; [done|lia|rewrite length_app, length_take, length_drop; lia].
Qed.

Lemma remote_read_inv (svc : S) fd i buf w n buf' w' :
  remote_read_chunk svc fd i buf w = (Ok (n, buf'), w') ->
  length buf' = length buf ∧ 0 <= n <= len buf ∧ drop (Z.to_nat n) buf' = drop (Z.to_nat n) buf.
Proof. intros Hr. unfold remote_read_chunk in Hr. binv Hr. by eapply fill_buffer_inv. Qed.
Lemma remote_tree_read_inv (f : RemoteMerkleTreeReader S) i buf w n buf' w' :
  read_chunk f i buf w = (Ok (n, buf'), w') ->
  length buf' = length buf ∧ 0 <= n <= len buf ∧ drop (Z.to_nat n) buf' = drop (Z.to_nat n) buf.
Proof.
  intros Hr. unfold read_chunk, RemoteMerkleTreeReader_ReadByChunk, RemoteMerkleTreeReader_read_chunk in Hr.
  binv Hr. by eapply fill_buffer_inv.
Qed.

#[export] Instance RemoteFileReader_typed : BufferTyped W (RemoteFileReader S).
Proof. intros f i buf w n buf' w' Hb Hr. apply remote_read_inv in Hr as [-> _]. done. Qed.
#[export] Instance RemoteFileEditor_typed : BufferTyped W (RemoteFileEditor S).
Proof. intros f i buf w n buf' w' Hb Hr. apply remote_read_inv in Hr as [-> _]. done. Qed.
#[export] Instance RemoteMerkleTreeReader_typed : BufferTyped W (RemoteMerkleTreeReader S).
Proof. intros f i buf w n buf' w' Hb Hr. apply remote_tree_read_inv in Hr as [-> _]. done. Qed.
#[export] Instance RemoteFileReader_fills : FillsPrefix W (RemoteFileReader S).
Proof. intros f i buf w n buf' w' Hb Hr. apply remote_read_inv in Hr as (_ & ? & ?). split; [clia|done]. Qed.
#[export] Instance RemoteFileEditor_fills : FillsPrefix W (RemoteFileEditor S).
Proof. intros f i buf w n buf' w' Hb Hr. apply remote_read_inv in Hr as (_ & ? & ?). split; [clia|done]. Qed.
End AnyService.

(** ** Over fd_server *)
Section OverFdServer.
Context `{Profile} `{StatusDescription} {W File : Type} `{PosixFile W File} `{!VerityIoctl W File}.

Lemma fill_buffer_chunk {E} buf data i :
  length buf = CHUNK -> 0 <= i ->
  fill_buffer (E := E) buf (chunk_of data i) =
    Ok (len (chunk_of data i), chunk_of data i ++ drop (length (chunk_of data i)) buf).
Proof.
  intros Hb Hi. pose proof (length_chunk_of data i Hi). rewrite fill_buffer_ok.
  rewrite Z.min_r, take_ge by lia. done.
Qed.

Lemma remote_reads (svc : FdService File) fd c (w : W) i buf :
  fd_pool svc !! fd = Some c -> 0 <= i -> i * CHUNK_SIZE <= i64_MAX -> length buf = CHUNK ->
  remote_read_chunk svc fd i buf w =
    (Ok (len (chunk_of (file_content w (served_file c)) i),
         chunk_of (file_content w (served_file c)) i
           ++ drop (length (chunk_of (file_content w (served_file c)) i)) buf), w).
Proof.
  intros Hp Hi Hmax Hb. unfold remote_read_chunk. unfold i64_MAX in Hmax.
  erewrite M_bind_lift by (apply mul_u64_ok; clia).
  unfold try_i64, i64_MAX. replace (i * CHUNK_SIZE <=? 2 ^ 63 - 1) with true by lia.
  erewrite M_bind_lift by done. unfold map_errM. rewrite M_bind_eq. rewrite Hb.
  change (as_i32 (Z.of_nat CHUNK)) with CHUNK_SIZE. cbn [readFile FdService_IVirtFdService].
  rewrite readFile_eq, Hp. rewrite !decide_False by (unfold MAX_REQUESTING_DATA; clia).
  cbn [map_err]. fold (chunk_of (file_content w (served_file c)) i). by rewrite fill_buffer_chunk.
Qed.

Lemma RemoteFileReader_reads (f : RemoteFileReader (FdService File)) c (w : W) :
  fd_pool (rr_service f) !! rr_file_fd f = Some c -> len (file_content w (served_file c)) <= i64_MAX ->
  reads_content f w (file_content w (served_file c)).
Proof. intros Hp Hmax i buf Hi Hlt Hb. apply remote_reads; [done|done|lia|done]. Qed.

Lemma RemoteMerkleTreeReader_reads (f : RemoteMerkleTreeReader (FdService File)) file tree sig (w : W) :
  fd_pool (rm_service f) !! rm_file_fd f = Some (Readonly file (Some tree) sig) ->
  len (file_content w tree) <= i64_MAX -> reads_content f w (file_content w tree).
Proof.
  intros Hp Hmax i buf Hi Hlt Hb. unfold read_chunk, RemoteMerkleTreeReader_ReadByChunk,
    RemoteMerkleTreeReader_read_chunk. unfold i64_MAX in Hmax.
  erewrite M_bind_lift by (apply mul_u64_ok; clia).
  unfold try_i64, i64_MAX. replace (i * CHUNK_SIZE <=? 2 ^ 63 - 1) with true by lia.
  erewrite M_bind_lift by done. unfold map_errM. rewrite M_bind_eq, Hb.
  change (as_i32 (Z.of_nat CHUNK)) with CHUNK_SIZE.
  cbn [readFsverityMerkleTree FdService_IVirtFdService].
  rewrite (readMerkleTree_alt _ _ _ _ file tree sig) by (first [done | unfold MAX_REQUESTING_DATA; clia]).
  cbn [map_err]. fold (chunk_of (file_content w tree) i). by rewrite fill_buffer_chunk.
Qed.

(** The writable file behind an editor. *)
Definition remote_content (w : W) (f : RemoteFileEditor (FdService File)) : bytes :=
  match fd_pool (re_service f) !! re_file_fd f with
  | Some (ReadWrite file) => file_content w file
  | _ => []
  end.
Definition remote_writable (_ : W) (f : RemoteFileEditor (FdService File)) : Prop :=
  ∃ file, fd_pool (re_service f) !! re_file_fd f = Some (ReadWrite file).

#[export] Program Instance RemoteFileEditor_stores : StoresContent W (RemoteFileEditor (FdService File)) := {
  content := remote_content;
  stored_max := i64_MAX;
  write_max := i32_MAX;
  store_ok := remote_writable
}.
Next Obligation. unfold i32_MAX. clia. Qed.
Next Obligation.
  intros f w [file Hp] Hmax i buf Hi Hlt Hb. unfold remote_content in *. rewrite Hp in *.
  apply (remote_reads _ _ (ReadWrite file)); [done|done|lia|done].
Qed.
Next Obligation.
  intros f buf off w [file Hp] Hne Hl Hoff Hmax. unfold remote_content. rewrite Hp.
  destruct (writeFile_ok (re_service f) (re_file_fd f) buf off file w) as (n & w' & Hw & Hn & Hc); [done..|].
  exists n, w'. cbn [write_at RemoteFileEditor_RandomWrite]. unfold RemoteFileEditor_write_at, try_i64.
  replace (off <=? i64_MAX) with true by lia. erewrite M_bind_lift by done. unfold map_errM.
  rewrite M_bind_eq. cbn [writeFile FdService_IVirtFdService]. rewrite Hw. cbn [map_err].
  unfold as_u64. rewrite Z.mod_small by (unfold i32_MAX in *; lia). split_and!; try done; try lia.
  by exists file.
Qed.
Next Obligation.
  intros f n w [file Hp] Hn. unfold remote_content. rewrite Hp.
  destruct (resizeFile_ok (re_service f) (re_file_fd f) n file w) as (w' & Hw & Hc); [done..|].
  exists w'. cbn [resize_to RemoteFileEditor_RandomWrite]. unfold RemoteFileEditor_resize, try_i64.
  replace (n <=? i64_MAX) with true by lia. erewrite M_bind_lift by done. unfold map_errM.
  cbn [resizeFile FdService_IVirtFdService]. rewrite Hw. split_and!; [done|by exists file|done].
Qed.

(** fd_server answers a read past the end with no bytes. *)
#[export] Instance RemoteFileEditor_past_end : ReadsPastEnd W (RemoteFileEditor (FdService File)).
Proof.
  intros f i buf w [file Hp] Hi Hlen Hmax Hb. right. exists 0. cbn in Hlen, Hmax. unfold remote_content in Hlen.
  rewrite Hp in Hlen. etransitivity; [by apply (remote_reads _ _ (ReadWrite file))|]. cbn [served_file].
  assert (chunk_of (file_content w file) i = []) as ->; [|done].
  apply length_zero_iff_nil. pose proof (len_chunk_of (file_content w file) i Hi). lia.
Qed.

Lemma remote_verified_reads `{Sha256Spec} (svc : FdService File) fd file tree sig (w : W) :
  let data := file_content w file in
  0 < len data <= MAX_VERIFIED_SIZE -> fd_pool svc !! fd = Some (Readonly file (Some tree) sig) ->
  file_content w tree = dump_of data ->
  reads_content {| vf_chunked_file := RemoteFileReader_new svc fd; vf_file_size := len data;
                   vf_merkle_tree := RemoteMerkleTreeReader_new svc fd;
                   vf_root_hash := verifier_root data |} w data.
Proof.
  intros data Hn Hp Ht. apply reader_serves; [done|done|done|..]; cbn [vf_chunked_file vf_merkle_tree].
  - apply (RemoteFileReader_reads _ (Readonly file (Some tree) sig)); [done|].
    cbn. fold data. unfold MAX_VERIFIED_SIZE, i64_MAX in *. lia.
  - rewrite <- Ht. apply (RemoteMerkleTreeReader_reads _ file tree sig); [done|].
    rewrite Ht. by apply len_dump.
Qed.
End OverFdServer.

(** ** Claims *)

(** C7: end to end, a writable authfs file stored by fd_server.  Starting
    from an empty [--rw-fds] file, any sequence of writes and resizes through
    the verified editor, the binder client and the server succeeds, the
    backing file ends up with exactly the content that pwrite and ftruncate
    define, and the editor's digest is the fs-verity digest of that content. *)
Theorem remote_edit_history `{Profile} `{Sha256Spec} `{StatusDescription} {W File}
    `{PosixFile W File} `{!VerityIoctl W File} fuel (svc : FdService File) fd file (w : W) es max :
  debug_assertions = false -> (CHUNK < fuel)%nat -> max <= i64_MAX -> Forall (edit_bound max) es ->
  fd_pool svc !! fd = Some (ReadWrite file) -> file_content w file = [] ->
  let '(self, t) := VerifiedFileEditor_new (RemoteFileEditor_new svc fd) in
  ∃ st', run_edits fuel self es (t, w) = (Ok (), st') ∧
    file_content st'.2 file = foldl apply_edit [] es ∧
    VerifiedFileEditor_calculate_fsverity_digest self st' =
      (Ok (fsverity_digest (foldl apply_edit [] es)), st').
Proof.
  intros Hdbg Hf Hmax Hes Hp Hc. unfold i64_MAX in Hmax.
  destruct (history_digest (W := W) fuel (RemoteFileEditor_new svc fd) w es max)
    as (st' & Hr & Hc' & Hd); [done|done|done|lia|done|by exists file| |].
  - cbn. unfold remote_content. cbn. by rewrite Hp.
  - exists st'. split_and!; [done| |done]. cbn in Hc'. unfold remote_content in Hc'. cbn in Hc'.
    by rewrite Hp in Hc'.
Qed.

(** end to end, a verified read-only authfs file served by fd_server with
    the file and its Merkle tree: the verified reader over the two remote
    readers serves exactly the file, chunk by chunk. *)
Theorem remote_verified_file_served `{Profile} `{Sha256Spec} `{StatusDescription} {W File}
    `{PosixFile W File} `{!VerityIoctl W File} (svc : FdService File) fd file tree sig (w : W) :
  let data := file_content w file in
  0 < len data <= MAX_VERIFIED_SIZE -> fd_pool svc !! fd = Some (Readonly file (Some tree) sig) ->
  file_content w tree = dump_of data ->
  reads_content {| vf_chunked_file := RemoteFileReader_new svc fd; vf_file_size := len data;
                   vf_merkle_tree := RemoteMerkleTreeReader_new svc fd;
                   vf_root_hash := verifier_root data |} w data.
Proof. apply remote_verified_reads. Qed.

(** the count that a server returns for a write is not checked.  A
    negative reply becomes a count of almost 2^64 bytes, more than the buffer
    holds, although the comment on the cast assumes at most [buf.len()]; with
    overflow checks the loop of [write_all_at] then panics. *)
Theorem remote_write_count_unchecked `{Profile} `{StatusDescription} {W Svc} `{IVirtFdService W Svc}
    fuel (f : RemoteFileEditor Svc) buf off n (w w' : W) :
  overflow_checks = true -> buf <> [] -> len buf < 2 ^ 31 -> 0 <= off <= i64_MAX ->
  - 2 ^ 31 <= n < 0 -> 2 ^ 31 <= off ->
  writeFile (re_service f) (re_file_fd f) buf off w = (Ok n, w') ->
  write_at f buf off w = (Ok (2 ^ 64 + n), w') ∧
  write_all_at (S fuel) f buf off w = (Panic, w').
Proof.
  intros Hov Hne Hl Hoff Hn Hoff2 Hw. assert (0 < len buf) by (destruct buf; [done|simpl; lia]).
  assert (write_at f buf off w = (Ok (2 ^ 64 + n), w')) as Hwa.
  { cbn [write_at RemoteFileEditor_RandomWrite]. unfold RemoteFileEditor_write_at, try_i64.
    replace (off <=? i64_MAX) with true by lia. erewrite M_bind_lift by done. unfold map_errM.
    rewrite M_bind_eq, Hw. cbn [map_err]. unfold as_u64. do 2 f_equal. unfold mret, M_ret. do 2 f_equal.
    symmetry. apply (Z.mod_unique _ _ (-1)); lia. }
  split; [done|]. unfold write_all_at. cbn [write_all_loop].
  replace (0 <? len buf) with true by lia. unfold slice_from.
  erewrite M_bind_lift by (apply slice_ok; lia). rewrite subrange_full by lia.
  erewrite M_bind_Ok by exact Hwa. erewrite M_bind_lift by (apply add_u64_ok; lia).
  rewrite M_bind_eq. cbn [lift]. unfold add_u64 at 1, checked_u.
  assert (fits 64 (off + (2 ^ 64 + n)) = false) as ->.
  { unfold fits. apply andb_false_iff. right. apply Z.ltb_ge. lia. }
  by rewrite Hov.
Qed.

Section Witness.
#[local] Existing Instance debug_profile.
#[local] Existing Instance mem_ioctl.
#[local] Instance no_description : StatusDescription := λ _, ""%string.

Lemma remote_edit_history_witness :
  ∃ st', run_edits (H := release_profile)
           (H1 := RemoteFileEditor_ReadByChunk (H := release_profile) (H1 := FdService_IVirtFdService (H := release_profile)))
           (H2 := RemoteFileEditor_RandomWrite (H := release_profile) (H1 := FdService_IVirtFdService (H := release_profile)))
           4097 {| ve_file := RemoteFileEditor_new sample_pool 4 |} sample_edits (ml_new, ∅ : gmap Z bytes)
           = (Ok (), st') ∧
    file_content st'.2 4 = foldl apply_edit [] sample_edits ∧
    VerifiedFileEditor_calculate_fsverity_digest (H := release_profile)
      {| ve_file := RemoteFileEditor_new sample_pool 4 |} st' =
      (Ok (fsverity_digest (foldl apply_edit [] sample_edits)), st').
Proof.
  refine (remote_edit_history (H := release_profile) 4097 sample_pool 4 4 (∅ : gmap Z bytes)
    sample_edits 10000 eq_refl _ _ _ eq_refl eq_refl).
  - clia.
  - unfold i64_MAX. lia.
  - repeat constructor; simpl; lia.
Defined.

Definition tree_pool : FdService Z := {| fd_pool := {[3 := Readonly 3 (Some 4) None]} |}.

Lemma remote_verified_file_served_witness :
  ∃ data, data = zeros 5000 ∧
    reads_content {| vf_chunked_file := RemoteFileReader_new tree_pool 3; vf_file_size := len data;
                     vf_merkle_tree := RemoteMerkleTreeReader_new tree_pool 3;
                     vf_root_hash := verifier_root data |} (local_world data) data.
Proof.
  destruct sample_5000 as (data & He & Hs & _). exists data. split; [exact He|].
  pose proof (remote_verified_file_served (File := Z) tree_pool 3 3 4 None (local_world data)) as Hr.
  cbv zeta in Hr. cbn [file_content mem_posix] in Hr. rewrite (local_world_3 data), (local_world_4 data) in Hr.
  exact (Hr Hs eq_refl eq_refl).
Defined.

(** A server that answers every write with -1. *)
#[local] Instance bad_service : IVirtFdService unit unit := {
  readFile _ _ _ _ := mret [];
  readFsverityMerkleTree _ _ _ _ := mret [];
  readFsveritySignature _ _ := mret [];
  writeFile _ _ _ _ := mret (-1);
  resizeFile _ _ _ := mret ()
}.
Lemma remote_write_count_unchecked_witness :
  write_at (RemoteFileEditor_new () 3) [1; 2] (2 ^ 31) () = (Ok (2 ^ 64 + -1), ()) ∧
  write_all_at 5 (RemoteFileEditor_new () 3) [1; 2] (2 ^ 31) () = (Panic, ()).
Proof.
  refine (remote_write_count_unchecked 4 (RemoteFileEditor_new () 3) [1; 2] (2 ^ 31) (-1) () ()
    eq_refl _ _ _ _ _ eq_refl); first [discriminate | simpl; lia | unfold i64_MAX; lia].
Defined.
End Witness.
