(* ===== verification/FuseFs.v ===== *)
(** * authfs/src/fusefs.rs: the file system

    The FUSE handlers over a fixed pool of files.  The state is the world [W]
    of the local files and of the service, and the Merkle leaves of every
    writable file, by inode (in the source, inside the editors of the pool).
    The kernel's side of a read or write is a writer or reader of its own
    ([IoWrite], [IoRead]). *)

From S2P Require Import Prelude Io Service Parse Common Crypto FsverityCommon MerkleSpec Content Builder File Verifier Editor VirtFd FdServer RemoteFile Sha256Ref.

Definition DEFAULT_METADATA_TIMEOUT : Z := 5 * 1000000000.

Inductive FileConfig (File Svc : Type) :=
| LocalVerifiedReadonlyFile (reader : VerifiedFileReader (LocalFileReader File) (LocalFileReader File))
    (file_size : Z)
| LocalUnverifiedReadonlyFile (reader : LocalFileReader File) (file_size : Z)
| RemoteVerifiedReadonlyFile
    (reader : VerifiedFileReader (RemoteFileReader Svc) (RemoteMerkleTreeReader Svc)) (file_size : Z)
| RemoteUnverifiedReadonlyFile (reader : RemoteFileReader Svc) (file_size : Z)
| RemoteVerifiedNewFile (editor : VerifiedFileEditor (RemoteFileEditor Svc)).
Arguments LocalVerifiedReadonlyFile {File Svc}.
Arguments LocalUnverifiedReadonlyFile {File Svc}.
Arguments RemoteVerifiedReadonlyFile {File Svc}.
Arguments RemoteUnverifiedReadonlyFile {File Svc}.
Arguments RemoteVerifiedNewFile {File Svc}.

Record AuthFs (File Svc : Type) := { file_pool : gmap Z (FileConfig File Svc); max_write : Z }.
Arguments file_pool {File Svc}. Arguments max_write {File Svc}.

Definition AuthFs_new {File Svc} (file_pool : gmap Z (FileConfig File Svc)) (max_write : Z) : AuthFs File Svc :=
  {| file_pool := file_pool; max_write := max_write |}.

Definition AuthFs_get_file_config {File Svc} (self : AuthFs File Svc) (inode : Z)
    : outcome io_error (FileConfig File Svc) :=
  ok_or (RawOs ENOENT) (file_pool self !! inode).

Definition O_ACCMODE : Z := 3.
Definition O_RDONLY : Z := 0.

Definition check_access_mode (flags mode : Z) : outcome io_error unit :=
  if Z.land flags (as_u32 O_ACCMODE) =? as_u32 mode then Ok () else Err (RawOs EACCES).

Definition blk_size : Z := CHUNK_SIZE.

Inductive FileMode := ReadOnlyMode | ReadWriteMode.

Definition create_stat `{Profile} (ino file_size : Z) (file_mode : FileMode) : outcome io_error stat64 :=
  let mode := match file_mode with
              | ReadOnlyMode => Z.lor S_IFREG S_IRUSR
              | ReadWriteMode => Z.lor (Z.lor S_IFREG S_IRUSR) S_IWUSR
              end in
  size ← try_i64 (RawOs EFBIG) file_size;
  nblocks ← divide_roundup file_size 512;
  nblocks ← try_i64 (RawOs EFBIG) nblocks;
  Ok {| st_ino := ino; st_mode := mode; st_dev := 0; st_nlink := 1; st_uid := 0; st_gid := 0;
        st_rdev := 0; st_size := size; st_blksize := blk_size; st_blocks := nblocks |}.

Definition offset_to_chunk_index (offset : Z) : outcome io_error Z := div_u64 offset CHUNK_SIZE.

(** The closure of [read_chunks]. *)
Definition read_chunks_step `{Profile} {O W T} `{IoWrite O} `{ReadByChunk W T} (file : T)
    (total : Z) (item : Z * Z) : M (O * W) io_error Z :=
  let '(current_offset, planned_data_size) := item in
  chunk_index ← lift (offset_to_chunk_index current_offset);
  '(read_size, buf) ← on_snd (read_chunk file chunk_index (zeros CHUNK_SIZE));
  if read_size <? planned_data_size then fail (RawOs ENODATA)
  else
    begin_ ← lift (rem_u64 current_offset CHUNK_SIZE);
    end_ ← lift (add_u64 begin_ planned_data_size);
    data ← lift (slice buf begin_ end_);
    s ← on_fst (io_write data);
    if negb (s =? planned_data_size) then fail (RawOs EIO)
    else lift (add_u64 total s).

Definition read_chunks `{Profile} {O W T} `{IoWrite O} `{ReadByChunk W T} (file : T)
    (file_size offset size : Z) : M (O * W) io_error Z :=
  let remaining := saturating_sub file_size offset in
  let size_to_read := Z.min size remaining in
  fold_chunks (csi_fuel size_to_read) (csi_new size_to_read offset CHUNK_SIZE)
    (read_chunks_step file) 0.

(** Directories are not listed: [EmptyDirectoryIterator::next]. *)
Inductive EmptyDirectoryIterator := empty_directory_iterator.
Definition EmptyDirectoryIterator_next {DirEntry} (_ : EmptyDirectoryIterator) : option DirEntry := None.

(** [loop_forever]: the file system that the message loop serves is the given
    one; the caller keeps the trees of its editors. *)
Definition loop_forever {W File Svc} `{FuseLib W (AuthFs File Svc)} (file_pool : gmap Z (FileConfig File Svc))
    (mountpoint : string) : M W io_error unit :=
  let max_read := 65536 in
  let max_write := 65536 in
  dev_fuse ← expectM open_dev_fuse;
  _ ← expectM (fuse_mount mountpoint "authfs" (Z.lor MS_NOSUID MS_NODEV)
        [MountFD dev_fuse; RootMode root_mode; AllowOther; UserId 0; GroupId 0; MaxRead max_read]);
  start_message_loop dev_fuse max_write max_read (AuthFs_new file_pool max_write).

(** ** The handlers *)
Section Handlers.
Context `{Profile} `{Sha256Ffi} `{StatusDescription} {W File Svc : Type} `{OsFile W File} `{IVirtFdService W Svc}.

Abbreviation trees := (gmap Z MerkleLeaves).

(** An operation of the editor with this inode, on its own leaves. *)
Definition with_tree {E A} (inode : Z) (m : M (MerkleLeaves * W) E A) : M (trees * W) E A :=
  λ '(ts, w),
    match ts !! inode with
    | Some t => let '(r, (t', w')) := m (t, w) in (r, (<[inode := t']> ts, w'))
    | None => (Panic, (ts, w))
    end.
Definition with_tree_out {O E A} (inode : Z) (m : M (O * (MerkleLeaves * W)) E A)
    : M (O * (trees * W)) E A :=
  λ '(o, (ts, w)),
    match ts !! inode with
    | Some t => let '(r, (o', (t', w'))) := m (o, (t, w)) in (r, (o', (<[inode := t']> ts, w')))
    | None => (Panic, (o, (ts, w)))
    end.
Definition without_tree {O E A} (m : M (O * W) E A) : M (O * (trees * W)) E A :=
  λ '(o, (ts, w)), let '(r, (o', w')) := m (o, w) in (r, (o', (ts, w'))).

Definition max_buffer_size (self : AuthFs File Svc) : Z := max_write self.

(** [FsOptions::WRITEBACK_CACHE]. *)
Definition WRITEBACK_CACHE : Z := 0x10000.
Definition init (_capable : Z) : outcome io_error Z := Ok WRITEBACK_CACHE.

(** The attributes that [lookup] and [getattr] report. *)
Definition stat_of (self : AuthFs File Svc) (inode : Z) : M (trees * W) io_error stat64 :=
  config ← lift (AuthFs_get_file_config self inode);
  match config with
  | LocalVerifiedReadonlyFile _ file_size
  | LocalUnverifiedReadonlyFile _ file_size
  | RemoteUnverifiedReadonlyFile _ file_size
  | RemoteVerifiedReadonlyFile _ file_size => lift (create_stat inode file_size ReadOnlyMode)
  | RemoteVerifiedNewFile editor =>
      size ← with_tree inode (VerifiedFileEditor_size editor);
      lift (create_stat inode size ReadWriteMode)
  end.

Definition lookup_ (self : AuthFs File Svc) (_parent : Z) (name : bytes) : M (trees * W) io_error Entry :=
  num ← lift (ok_or (RawOs EINVAL) (to_str name));
  inode ← lift (ok_or (RawOs ENOENT) (parse_u64 num));
  st ← stat_of self inode;
  mret {| en_inode := inode; en_generation := 0; en_attr := st;
          en_entry_timeout := DEFAULT_METADATA_TIMEOUT; en_attr_timeout := DEFAULT_METADATA_TIMEOUT |}.

Definition getattr (self : AuthFs File Svc) (inode : Z) (_handle : option Z)
    : M (trees * W) io_error (stat64 * Z) :=
  st ← stat_of self inode;
  mret (st, DEFAULT_METADATA_TIMEOUT).

(** [fuse::sys::OpenOptions::KEEP_CACHE]. *)
Definition KEEP_CACHE : Z := 2.

Definition open (self : AuthFs File Svc) (inode flags : Z) : outcome io_error (option Z * Z) :=
  config ← AuthFs_get_file_config self inode;
  _ ← match config with
      | LocalVerifiedReadonlyFile _ _
      | LocalUnverifiedReadonlyFile _ _
      | RemoteVerifiedReadonlyFile _ _
      | RemoteUnverifiedReadonlyFile _ _ => check_access_mode flags O_RDONLY
      | RemoteVerifiedNewFile _ => Ok ()
      end;
  Ok (None, KEEP_CACHE).

Definition read {O} `{IoWrite O} (self : AuthFs File Svc) (inode size offset : Z)
    : M (O * (trees * W)) io_error Z :=
  config ← lift (AuthFs_get_file_config self inode);
  match config with
  | LocalVerifiedReadonlyFile reader file_size => without_tree (read_chunks reader file_size offset size)
  | LocalUnverifiedReadonlyFile reader file_size => without_tree (read_chunks reader file_size offset size)
  | RemoteVerifiedReadonlyFile reader file_size => without_tree (read_chunks reader file_size offset size)
  | RemoteUnverifiedReadonlyFile reader file_size => without_tree (read_chunks reader file_size offset size)
  | RemoteVerifiedNewFile editor =>
      file_size ← on_snd (with_tree inode (VerifiedFileEditor_size editor));
      with_tree_out inode (read_chunks editor file_size offset size)
  end.

Definition write {I} `{IoRead I} (fuel : nat) (self : AuthFs File Svc) (inode size offset : Z)
    : M (I * (trees * W)) io_error Z :=
  config ← lift (AuthFs_get_file_config self inode);
  match config with
  | RemoteVerifiedNewFile editor =>
      buf ← on_fst (io_read_exact size);
      on_snd (with_tree inode (VerifiedFileEditor_write_at fuel editor buf offset))
  | _ => fail (RawOs EBADF)
  end.

(** [SetattrValid], the FATTR bits of the FUSE protocol. *)
Definition FATTR_MODE : Z := 0x1.
Definition FATTR_UID : Z := 0x2.
Definition FATTR_GID : Z := 0x4.
Definition FATTR_SIZE : Z := 0x8.
Definition contains (valid flag : Z) : bool := Z.land valid flag =? flag.

Definition set_size (st : stat64) (size : Z) : stat64 :=
  {| st_ino := st_ino st; st_mode := st_mode st; st_dev := st_dev st; st_nlink := st_nlink st;
     st_uid := st_uid st; st_gid := st_gid st; st_rdev := st_rdev st; st_size := size;
     st_blksize := st_blksize st; st_blocks := st_blocks st |}.

Definition setattr (self : AuthFs File Svc) (inode : Z) (attr : stat64) (_handle : option Z) (valid : Z)
    : M (trees * W) io_error (stat64 * Z) :=
  config ← lift (AuthFs_get_file_config self inode);
  match config with
  | RemoteVerifiedNewFile editor =>
      size ← with_tree inode (VerifiedFileEditor_size editor);
      new_attr ← lift (create_stat inode size ReadWriteMode);
      new_attr ←
        (if contains valid FATTR_SIZE then
           _ ← lift (debug_assert (st_size attr >=? 0));
           _ ← with_tree inode (VerifiedFileEditor_resize editor (as_u64 (st_size attr)));
           mret (set_size new_attr (st_size attr))
         else mret new_attr);
      if contains valid FATTR_MODE then fail (RawOs ENOSYS)
      else if contains valid FATTR_UID then fail (RawOs ENOSYS)
      else if contains valid FATTR_GID then fail (RawOs ENOSYS)
      else mret (new_attr, DEFAULT_METADATA_TIMEOUT)
  | _ => fail (RawOs EBADF)
  end.
End Handlers.

(** ** Reading *)

Lemma subrange_app {A} (l : list A) a b c :
  0 <= a <= b -> b <= c -> subrange l a c = subrange l a b ++ subrange l b c.
Proof.
  intros Ha Hb. unfold subrange. replace (Z.to_nat (c - a)) with (Z.to_nat (b - a) + Z.to_nat (c - b))%nat by lia.
  rewrite <- take_take_drop, drop_drop. do 3 f_equal. lia.
Qed.

Section ReadChunks.
Context `{Profile} {W T : Type} `{ReadByChunk W T}.

(** One piece, once the chunk is known to be the zero-padded block. *)
Lemma read_step_block (file : T) data total o s n buf w w' out :
  0 <= o -> 0 < s -> o mod CHUNK_SIZE + s <= CHUNK_SIZE -> o + s <= len data -> 0 <= total ->
  total + s < 2 ^ 64 ->
  read_chunk file (o / CHUNK_SIZE) (zeros CHUNK_SIZE) w = (Ok (n, buf), w') ->
  buf = block data (Z.to_nat (o / CHUNK_SIZE)) ->
  read_chunks_step file total (o, s) (out, w) =
    if n <? s then (Err (RawOs ENODATA), (out, w'))
    else (Ok (total + s), (out ++ subrange data o (o + s), w')).
Proof.
  intros Ho Hs Hc Hd Ht H64 Hr ->. pose proof (Z.mod_pos_bound o CHUNK_SIZE ltac:(clia)).
  pose proof (Z.div_mod o CHUNK_SIZE ltac:(clia)) as Hdm.
  pose proof (Z.div_pos o CHUNK_SIZE Ho ltac:(clia)).
  unfold read_chunks_step, offset_to_chunk_index.
  erewrite M_bind_lift by (apply div_u64_ok; clia). rewrite M_bind_eq. cbn [on_snd]. rewrite Hr.
  cbv beta iota. destruct (n <? s); [done|].
  erewrite M_bind_lift by (apply rem_u64_ok; clia). erewrite M_bind_lift by (apply add_u64_ok; clia).
  set (q := o / CHUNK_SIZE) in *. set (m := o mod CHUNK_SIZE) in *.
  assert (slice (E := io_error) (block data (Z.to_nat q)) m (m + s) = Ok (subrange data o (o + s))) as Hsl.
  { rewrite slice_ok by (rewrite ?length_block; clia). f_equal. unfold subrange. apply byte_at_ext.
    - rewrite !length_take, !length_drop, length_block. clia.
    - intros j. rewrite !byte_at_take, !byte_at_drop. repeat case_decide; try clia; try done.
      rewrite byte_at_block by clia. f_equal. clia. }
  erewrite M_bind_lift by exact Hsl. rewrite M_bind_eq. cbn [on_fst]. unfold io_write, vec_write.
  rewrite length_subrange by lia. rewrite (proj2 (Z.eqb_eq _ s)) by lia. cbn [negb].
  unfold lift. rewrite add_u64_ok by lia. do 2 f_equal. lia.
Qed.

(** A piece of the plan lies within one chunk. *)
Lemma plan_piece_bound rem o :
  0 < rem -> let s := Z.min rem (CHUNK_SIZE - o mod CHUNK_SIZE) in
  0 < s <= rem ∧ o mod CHUNK_SIZE + s <= CHUNK_SIZE.
Proof. intros Hr s. pose proof (Z.mod_pos_bound o CHUNK_SIZE ltac:(clia)). lia. Qed.

Lemma read_loop_serves (file : T) data w :
  reads_content file w data -> len data < 2 ^ 64 -> ∀ rem o, 0 <= rem -> ∀ total out,
  0 <= o -> o + rem <= len data -> 0 <= total -> total + rem < 2 ^ 64 ->
  try_fold (read_chunks_step file) total (plan rem o CHUNK_SIZE) (out, w) =
    (Ok (total + rem), (out ++ subrange data o (o + rem), w)).
Proof.
  intros Hrc H64. refine (plan_ind CHUNK_SIZE _ _ _ _); [clia|..].
  - intros o total out Ho Hd Ht Htr. rewrite plan_nil by lia. cbn [try_fold].
    unfold subrange. replace (Z.to_nat (o + 0 - o)) with O by lia. rewrite take_0, app_nil_r, Z.add_0_r. done.
  - intros rem o Hrem s Hs IH total out Ho Hd Ht Htr.
    destruct (plan_piece_bound rem o Hrem) as [_ Hb]. fold s in Hb.
    rewrite plan_cons by clia. fold s. cbn [try_fold].
    pose proof (Z.div_mod o CHUNK_SIZE ltac:(clia)). pose proof (Z.div_pos o CHUNK_SIZE Ho ltac:(clia)).
    pose proof (Z.mod_pos_bound o CHUNK_SIZE ltac:(clia)).
    assert (o / CHUNK_SIZE * CHUNK_SIZE < len data) as Hlt by clia.
    pose proof (Hrc (o / CHUNK_SIZE) (zeros CHUNK_SIZE) ltac:(lia) Hlt (length_zeros _)) as Hr.
    rewrite M_bind_eq. erewrite (read_step_block file data) by first [exact Hr | lia |
      rewrite <- (Z2Nat.id (o / CHUNK_SIZE)) at 1 2 by lia; apply chunk_of_over_zeros].
    rewrite len_chunk_of by lia.
    replace (_ <? s) with false by (symmetry; apply Z.ltb_ge; clia).
    rewrite IH by lia. rewrite <- app_assoc, <- subrange_app by lia.
    by replace (total + s + (rem - s)) with (total + rem) by lia; replace (o + s + (rem - s)) with (o + rem) by lia.
Qed.

Lemma read_chunks_serves (file : T) data w out offset size :
  reads_content file w data -> len data < 2 ^ 64 -> 0 <= offset < 2 ^ 64 -> 0 <= size <= u32_MAX ->
  let stop := Z.min (offset + size) (len data) in
  read_chunks file (len data) offset size (out, w) =
    (Ok (Z.max 0 (stop - offset)), (out ++ subrange data offset stop, w)).
Proof.
  intros Hrc H64 Ho Hs stop. unfold read_chunks, saturating_sub.
  set (n := Z.min size (Z.max 0 (len data - offset))).
  rewrite fold_chunks_plan; [|unfold csi_fuel; clia|clia|clia|unfold u32_MAX in Hs; clia].
  destruct (decide (offset <= len data)) as [Hle|Hgt].
  - rewrite (read_loop_serves file data) by (done || unfold u32_MAX in Hs; clia).
    replace (offset + n) with stop by lia. replace (0 + n) with (Z.max 0 (stop - offset)) by lia. done.
  - replace n with 0 by lia. rewrite plan_nil by lia. cbn [try_fold]. unfold subrange.
    replace (Z.to_nat (stop - offset)) with O by lia. rewrite take_0, app_nil_r.
    by replace (Z.max 0 (stop - offset)) with 0 by lia.
Qed.
End ReadChunks.

(** ** Verified reads over untrusted storage *)
Section Authentic.
Context `{Profile} `{Sha256Spec} {W F T : Type} `{ReadByChunk W F} `{ReadByChunk W T}
  `{!BufferTyped W F} `{!FillsPrefix W F} `{!BufferTyped W T}.

(** Everything the storage serves, chunks and Merkle pages, for these pieces. *)
Fixpoint served_to_read (r : VerifiedFileReader F T) (data : bytes) (ps : list (Z * Z)) (w : W)
    : list bytes :=
  match ps with
  | [] => []
  | (o, _) :: ps' =>
      let i := Z.to_nat (o / CHUNK_SIZE) in
      match read_chunk (vf_chunked_file r) (o / CHUNK_SIZE) (zeros CHUNK_SIZE) w with
      | (Ok (n, buf), w1) =>
          pad_chunk (take (Z.to_nat n) buf) ::
          served_pages (vf_merkle_tree r) (walk_steps (len data) i (S (height_of data))) w1
      | _ => []
      end ++
      match read_chunk r (o / CHUNK_SIZE) (zeros CHUNK_SIZE) w with
      | (Ok _, w') => served_to_read r data ps' w'
      | _ => []
      end
  end.

(** A verified chunk is the block, or there is a collision. *)
Lemma verified_chunk_block (r : VerifiedFileReader F T) data (i : nat) w n buf w' :
  0 < len data <= MAX_VERIFIED_SIZE -> vf_file_size r = len data -> vf_root_hash r = verifier_root data ->
  Z.of_nat i * CHUNK_SIZE < len data ->
  read_chunk r (Z.of_nat i) (zeros CHUNK_SIZE) w = (Ok (n, buf), w') ->
  ∃ w1, read_chunk (vf_chunked_file r) (Z.of_nat i) (zeros CHUNK_SIZE) w = (Ok (n, buf), w1) ∧
    (buf = block data i ∨
     collision (pad_chunk (take (Z.to_nat n) buf) ::
                  served_pages (vf_merkle_tree r) (walk_steps (len data) i (S (height_of data))) w1)
               (tree_blocks data)).
Proof.
  intros Hn Hsz Hroot Hi Hr.
  destruct (verified_read_sound r data i _ w n buf w' Hn Hsz Hroot Hi (length_zeros _) Hr)
    as (w1 & Hc & Hok). exists w1. split; [done|]. destruct Hok as [Hb|Hcol]; [left|by right].
  rewrite <- Hb. pose proof (read_chunk_typed _ _ _ _ _ _ _ (length_zeros _) Hc) as Hl.
  destruct (read_chunk_fills _ _ _ _ _ _ _ (length_zeros _) Hc) as [Hn' Hd].
  rewrite <- (take_drop (Z.to_nat n) buf) at 1. unfold pad_chunk. f_equal.
  rewrite Hd, length_take. unfold zeros. rewrite drop_replicate. f_equal. clia.
Qed.

Lemma read_loop_authentic (r : VerifiedFileReader F T) data :
  0 < len data <= MAX_VERIFIED_SIZE -> vf_file_size r = len data -> vf_root_hash r = verifier_root data ->
  ∀ rem o, 0 <= rem -> ∀ total out w res out' w',
  0 <= o -> o + rem <= len data -> 0 <= total -> total + rem < 2 ^ 64 ->
  try_fold (read_chunks_step r) total (plan rem o CHUNK_SIZE) (out, w) = (res, (out', w')) ->
  (∃ k, 0 <= k <= rem ∧ out' = out ++ subrange data o (o + k) ∧ (∀ n, res = Ok n -> k = rem ∧ n = total + k)) ∨
  collision (served_to_read r data (plan rem o CHUNK_SIZE) w) (tree_blocks data).
Proof.
  intros Hn Hsz Hroot. refine (plan_ind CHUNK_SIZE _ _ _ _); [clia|..].
  - intros o total out w res out' w' Ho Hd Ht Htr. rewrite plan_nil by lia. intros [= <- <- <-].
    left. exists 0. unfold subrange. replace (Z.to_nat (o + 0 - o)) with O by lia.
    rewrite take_0, app_nil_r. split_and!; [lia|lia|done|]. intros n [= <-]. lia.
  - intros rem o Hrem s Hs IH total out w res out' w' Ho Hd Ht Htr.
    destruct (plan_piece_bound rem o Hrem) as [_ Hb]. fold s in Hb.
    rewrite plan_cons by clia. fold s. cbn [try_fold served_to_read].
    pose proof (Z.div_mod o CHUNK_SIZE ltac:(clia)). pose proof (Z.div_pos o CHUNK_SIZE Ho ltac:(clia)).
    pose proof (Z.mod_pos_bound o CHUNK_SIZE ltac:(clia)).
    assert (∀ rr, (∃ x, (rr, (out, x)) = (res, (out', w')) ∧ ∀ n, rr <> Ok n) ->
      ∃ k, 0 <= k <= rem ∧ out' = out ++ subrange data o (o + k) ∧ ∀ n, res = Ok n -> k = rem ∧ n = total + k) as Hstop.
    { intros rr (x & [= -> <- <-] & Hne). exists 0. unfold subrange. replace (Z.to_nat (o + 0 - o)) with O by lia.
      rewrite take_0, app_nil_r. split_and!; [lia|lia|done|]. intros n Hr. by apply Hne in Hr. }
    rewrite M_bind_eq. destruct (read_chunk r (o / CHUNK_SIZE) (zeros CHUNK_SIZE) w) as [[[n buf]|e| |] w1] eqn:Hr.
    2-4: intros Hf; left; eapply Hstop; unfold read_chunks_step, offset_to_chunk_index in Hf;
         erewrite M_bind_lift in Hf by (apply div_u64_ok; clia); rewrite M_bind_eq in Hf; cbn [on_snd] in Hf;
         rewrite Hr in Hf; eexists; split; [exact Hf|done].
    rewrite <- (Z2Nat.id (o / CHUNK_SIZE)) in Hr by lia.
    apply (verified_chunk_block r data (Z.to_nat (o / CHUNK_SIZE))) in Hr as Hv; [|done|done|done|clia].
    destruct Hv as (w2 & Hc & Hblk). rewrite Z2Nat.id in Hr, Hc by lia. rewrite Hc.
    destruct Hblk as [Hblk|Hcol].
    2: { intros _. right. destruct Hcol as (x & y & Hx & Hy). exists x, y. rewrite elem_of_app. tauto. }
    rewrite (read_step_block r data total o s n buf w w1 out) by (done || lia).
    destruct (n <? s); [intros Hf; left; eapply Hstop; eexists; split; [exact Hf|done]|].
    intros Hf. edestruct (IH (total + s)) as [(k & Hk & Hout & Hres)|Hcol]; [| | | |exact Hf| |]; [lia..| |].
    + left. exists (s + k). rewrite <- app_assoc, <- subrange_app in Hout by lia.
      rewrite Z.add_assoc. split_and!; [lia|lia|done|]. intros m Hm. apply Hres in Hm. lia.
    + right. by apply collision_app_l.
Qed.

Lemma read_chunks_authentic (r : VerifiedFileReader F T) data offset size out w res out' w' :
  0 < len data <= MAX_VERIFIED_SIZE -> vf_file_size r = len data -> vf_root_hash r = verifier_root data ->
  0 <= offset < 2 ^ 64 -> 0 <= size <= u32_MAX ->
  read_chunks r (len data) offset size (out, w) = (res, (out', w')) ->
  let stop := Z.min (offset + size) (len data) in
  (∃ k, offset <= k ∧ out' = out ++ subrange data offset k ∧
        ∀ n, res = Ok n -> n = Z.max 0 (stop - offset) ∧ subrange data offset k = subrange data offset stop) ∨
  collision (served_to_read r data (plan (Z.max 0 (stop - offset)) offset CHUNK_SIZE) w) (tree_blocks data).
Proof.
  intros Hn Hsz Hroot Ho Hs Hr stop. unfold read_chunks, saturating_sub in Hr.
  replace (Z.min size _) with (Z.max 0 (stop - offset)) in Hr by lia.
  unfold MAX_VERIFIED_SIZE, u32_MAX in *.
  rewrite fold_chunks_plan in Hr; [|unfold csi_fuel; clia|clia|clia|clia].
  destruct (decide (offset <= len data)) as [Hle|Hgt].
  - eapply (read_loop_authentic r data) in Hr as [(k & Hk & Hout & Hres)|Hcol]; [| |done..|lia|lia|lia|lia|lia].
    + left. exists (offset + k). split_and!; [lia|done|]. intros n Hn'. apply Hres in Hn' as [-> ->].
      replace (offset + Z.max 0 (stop - offset)) with stop by lia. split; [lia|done].
    + by right.
  - replace (Z.max 0 (stop - offset)) with 0 in Hr |- * by lia. rewrite plan_nil in Hr by lia.
    injection Hr as <- <- <-. left. exists offset. unfold subrange.
    replace (Z.to_nat (offset - offset)) with O by lia. replace (Z.to_nat (stop - offset)) with O by lia.
    rewrite take_0, app_nil_r. split_and!; [lia|done|]. by intros n [= <-].
Qed.
End Authentic.

(** ** Handlers over an honest server *)

(** The request body of a write: exactly the bytes that are there. *)
#[export] Instance vec_read : IoRead bytes := λ n i,
  if n <=? len i then (Ok (take (Z.to_nat n) i), drop (Z.to_nat n) i)
  else (Err (IoNew UnexpectedEof "failed to fill whole buffer"), i).

Lemma create_stat_ok `{Profile} ino n mode :
  0 <= n < 2 ^ 64 ->
  create_stat ino n mode =
    if decide (n <= i64_MAX) then
      Ok {| st_ino := ino;
            st_mode := match mode with ReadOnlyMode => 0x8100 | ReadWriteMode => 0x8180 end;
            st_dev := 0; st_nlink := 1; st_uid := 0; st_gid := 0; st_rdev := 0; st_size := n;
            st_blksize := 4096; st_blocks := cdiv n 512 |}
    else Err (RawOs EFBIG).
Proof.
  intros Hn. unfold create_stat, try_i64. case_decide as Hle.
  2: { by replace (n <=? i64_MAX) with false by lia. }
  replace (n <=? i64_MAX) with true by lia. rewrite bind_Ok.
  unfold i64_MAX in Hle. rewrite divide_roundup_ok, bind_Ok by lia.
  assert (cdiv n 512 <= n) by (apply cdiv_le; lia).
  unfold i64_MAX. replace (cdiv n 512 <=? 2 ^ 63 - 1) with true by lia. rewrite bind_Ok. by destruct mode.
Qed.

Section Honest.
Context `{Profile} `{Sha256Spec} `{StatusDescription} {W File LFile : Type} `{!OsFile W LFile}
  `{PosixFile W File} `{!VerityIoctl W File}.

(** The editor of the pool at [inode], its leaves and the served file agree. *)
Definition file_in_step (fs : AuthFs LFile (FdService File)) (inode : Z)
    (editor : VerifiedFileEditor (RemoteFileEditor (FdService File)))
    (st : gmap Z MerkleLeaves * W) (data : bytes) : Prop :=
  file_pool fs !! inode = Some (RemoteVerifiedNewFile editor) ∧
  ∃ t, st.1 !! inode = Some t ∧ in_step editor (t, st.2) data.

Lemma editor_size_eq {F} (editor : VerifiedFileEditor F) t (w : W) :
  VerifiedFileEditor_size editor (t, w) = (Ok (ml_file_size t), (t, w)).
Proof. done. Qed.

Lemma editor_reads editor t (w : W) data :
  in_step editor (t, w) data -> len data <= i64_MAX ->
  reads_content (W := MerkleLeaves * W) editor (t, w) data.
Proof.
  intros (_ & Hok & Hc) Hmax i buf Hi Hlt Hb. cbn [fst snd] in *.
  unfold read_chunk, VerifiedFileEditor_ReadByChunk, VerifiedFileEditor_read_chunk. cbn [on_snd].
  pose proof (stored_read (ve_file editor) w Hok) as Hr. rewrite Hc in Hr. by rewrite Hr.
Qed.

Lemma read_in_step fs inode editor st data out size offset :
  file_in_step fs inode editor st data -> len data <= i64_MAX ->
  0 <= offset < 2 ^ 64 -> 0 <= size <= u32_MAX ->
  let stop := Z.min (offset + size) (len data) in
  read fs inode size offset (out, st) =
    (Ok (Z.max 0 (stop - offset)), (out ++ subrange data offset stop, st)).
Proof.
  intros (Hp & t & Ht & Hst) Hmax Ho Hs stop. destruct st as [ts w]. cbn [fst snd] in *.
  unfold read, AuthFs_get_file_config. rewrite Hp. erewrite M_bind_lift by done. cbv beta iota.
  rewrite M_bind_eq. cbn [on_snd with_tree]. rewrite Ht, editor_size_eq. cbv beta iota.
  destruct Hst as ((Hl & Hsz) & Hok & Hc). cbn [fst snd] in *. rewrite Hsz.
  rewrite insert_id by done. cbn [with_tree_out]. rewrite Ht.
  erewrite read_chunks_serves; [|by apply editor_reads|unfold i64_MAX in *; lia|done|done].
  by rewrite insert_id.
Qed.

Lemma write_in_step fuel fs inode editor st data buf (off : nat) :
  (CHUNK < fuel)%nat -> file_in_step fs inode editor st data -> len data <= i64_MAX ->
  Z.of_nat off + len buf <= i64_MAX ->
  ∃ st', write fuel fs inode (len buf) (Z.of_nat off) (buf, st) = (Ok (len buf), ([], st')) ∧
    file_in_step fs inode editor st' (write_bytes data off buf).
Proof.
  intros Hf (Hp & t & Ht & Hr & Hok & Hc) Hd Hmax. destruct st as [ts w]. cbn [fst snd] in *.
  unfold write, AuthFs_get_file_config. rewrite Hp. erewrite M_bind_lift by done. cbv beta iota.
  rewrite M_bind_eq. cbn [on_fst]. unfold io_read_exact, vec_read.
  rewrite (proj2 (Z.leb_le _ _)), Nat2Z.id, take_ge, drop_ge by lia. cbv beta iota. cbn [on_snd with_tree].
  rewrite Ht.
  destruct (write_at_honest fuel editor data buf off t w) as (t' & w' & Hw & Hr' & Hok' & Hc');
    [done|done|done|unfold i64_MAX in *; lia|done|done|done|].
  rewrite Hw. eexists. split; [done|]. split; [done|]. exists t'. split; [apply lookup_insert_eq|done].
Qed.

Lemma setattr_in_step fs inode editor st data attr h valid :
  file_in_step fs inode editor st data -> len data <= i64_MAX ->
  0 <= st_size attr <= i64_MAX -> contains valid FATTR_SIZE = true ->
  ∃ st', file_in_step fs inode editor st' (resize_bytes data (Z.to_nat (st_size attr))) ∧
    setattr fs inode attr h valid st =
      (if contains valid FATTR_MODE || contains valid FATTR_UID || contains valid FATTR_GID
       then Err (RawOs ENOSYS)
       else Ok ({| st_ino := inode; st_mode := 0x8180; st_dev := 0; st_nlink := 1; st_uid := 0;
                   st_gid := 0; st_rdev := 0; st_size := st_size attr; st_blksize := 4096;
                   st_blocks := cdiv (len data) 512 |}, DEFAULT_METADATA_TIMEOUT), st').
Proof.
  intros (Hp & t & Ht & Hr & Hok & Hc) Hd Hsz Hv. destruct st as [ts w]. cbn [fst snd] in *.
  unfold setattr, AuthFs_get_file_config. rewrite Hp. erewrite M_bind_lift by done. cbv beta iota.
  rewrite M_bind_eq. cbn [with_tree]. rewrite Ht, editor_size_eq. cbv beta iota.
  rewrite insert_id, (proj2 Hr) by done.
  rewrite create_stat_ok, decide_True by (unfold i64_MAX in *; lia). erewrite M_bind_lift by done.
  rewrite Hv. unfold as_u64. rewrite Z.mod_small by (unfold i64_MAX in *; lia).
  destruct (resize_honest editor (st_size attr) data t w) as (t' & w' & Hw & Hr' & Hok' & Hc');
    [done|done|unfold i64_MAX in *; clia|unfold i64_MAX in *; clia|done|done|done|].
  exists (<[inode := t']> ts, w'). split.
  { split; [done|]. exists t'. split; [apply lookup_insert_eq|done]. }
  rewrite !M_bind_eq. unfold lift at 1. rewrite debug_assert_ok by lia. rewrite M_bind_eq. cbn [with_tree].
  rewrite Ht, Hw. cbn. by destruct (contains valid FATTR_MODE), (contains valid FATTR_UID), (contains valid FATTR_GID).
Qed.
End Honest.

(** ** Claims *)

(** C6: reads of a verified read-only file are authentic, whatever the remote
    service does.  When [read] of such a file returns [Ok n], the reply is
    exactly the requested range of the authentic file, cut at its end, and [n]
    its length; when it fails, the reply is a prefix of authentic bytes.
    Otherwise what the service sent for this request contains a hash
    collision with the authentic file and tree. *)
Theorem authfs_read_authentic `{Profile} `{Sha256Spec} `{StatusDescription} {W LFile Svc}
    `{OsFile W LFile} `{IVirtFdService W Svc} (fs : AuthFs LFile Svc) inode r data
    size offset out ts (w : W) res out' st' :
  file_pool fs !! inode = Some (RemoteVerifiedReadonlyFile r (len data)) ->
  0 < len data <= MAX_VERIFIED_SIZE -> vf_file_size r = len data -> vf_root_hash r = verifier_root data ->
  0 <= offset < 2 ^ 64 -> 0 <= size <= u32_MAX ->
  read fs inode size offset (out, (ts, w)) = (res, (out', st')) ->
  let stop := Z.min (offset + size) (len data) in
  (∃ k, offset <= k ∧ out' = out ++ subrange data offset k ∧
        ∀ n, res = Ok n -> n = Z.max 0 (stop - offset) ∧ subrange data offset k = subrange data offset stop) ∨
  collision (served_to_read r data (plan (Z.max 0 (stop - offset)) offset CHUNK_SIZE) w) (tree_blocks data).
Proof.
  intros Hp Hn Hsz Hroot Ho Hs Hr. unfold read, AuthFs_get_file_config in Hr. rewrite Hp in Hr.
  erewrite M_bind_lift in Hr by done. cbn [without_tree] in Hr.
  destruct (read_chunks r (len data) offset size (out, w)) as [res1 [out1 w1]] eqn:Hrc.
  injection Hr as <- <- <-. by eapply read_chunks_authentic.
Qed.

(** end to end over fd_server, the verified read-only file is served:
    [read] returns the requested range of the backing file, cut at its end. *)
Theorem authfs_read_serves `{Profile} `{Sha256Spec} `{StatusDescription} {W LFile File}
    `{!OsFile W LFile} `{PosixFile W File} `{!VerityIoctl W File}
    (fs : AuthFs LFile (FdService File)) inode (svc : FdService File) fd file tree sig size offset out ts (w : W) :
  let data := file_content w file in
  0 < len data <= MAX_VERIFIED_SIZE -> fd_pool svc !! fd = Some (Readonly file (Some tree) sig) ->
  file_content w tree = dump_of data ->
  file_pool fs !! inode =
    Some (RemoteVerifiedReadonlyFile
            {| vf_chunked_file := RemoteFileReader_new svc fd; vf_file_size := len data;
               vf_merkle_tree := RemoteMerkleTreeReader_new svc fd;
               vf_root_hash := verifier_root data |} (len data)) ->
  0 <= offset < 2 ^ 64 -> 0 <= size <= u32_MAX ->
  let stop := Z.min (offset + size) (len data) in
  read fs inode size offset (out, (ts, w)) =
    (Ok (Z.max 0 (stop - offset)), (out ++ subrange data offset stop, (ts, w))).
Proof.
  intros data Hn Hfd Ht Hp Ho Hs stop. unfold read, AuthFs_get_file_config. rewrite Hp.
  erewrite M_bind_lift by done. cbn [without_tree]. rewrite (read_chunks_serves _ data); [done|..|done|done].
  - by apply (remote_verified_reads svc fd file tree sig).
  - unfold MAX_VERIFIED_SIZE in *. lia.
Qed.

(** C13: read after write on a writable file, through the handlers, the editor,
    the binder client and fd_server: a write of any buffer at any offset
    reports the whole buffer, and a later read of any range returns the file
    with that buffer written, zeros filling any hole. *)
Theorem authfs_write_then_read `{Profile} `{Sha256Spec} `{StatusDescription} {W LFile File}
    `{!OsFile W LFile} `{PosixFile W File} `{!VerityIoctl W File} fuel
    (fs : AuthFs LFile (FdService File)) inode editor (st : gmap Z MerkleLeaves * W) data buf (off : nat) size offset :
  (CHUNK < fuel)%nat -> file_in_step fs inode editor st data -> len data <= i64_MAX ->
  Z.of_nat off + len buf <= i64_MAX -> 0 <= offset < 2 ^ 64 -> 0 <= size <= u32_MAX ->
  let data' := write_bytes data off buf in
  let stop := Z.min (offset + size) (len data') in
  ∃ st1 st2,
    write fuel fs inode (len buf) (Z.of_nat off) (buf, st) = (Ok (len buf), ([], st1)) ∧
    read fs inode size offset ([] : bytes, st1) =
      (Ok (Z.max 0 (stop - offset)), (subrange data' offset stop, st2)) ∧
    file_in_step fs inode editor st2 data'.
Proof.
  intros Hf Hst Hd Hmax Ho Hs data' stop.
  destruct (write_in_step fuel fs inode editor st data buf off) as (st1 & Hw & Hst1); [done..|].
  assert (len data' <= i64_MAX) by (by apply (apply_edit_bound i64_MAX data (EWrite buf off))).
  exists st1, st1. split_and!; [done| |done]. by apply (read_in_step fs inode editor st1 data' [] size offset).
Qed.

(** Read-only files are protected by the handlers: opening one for
    writing is refused with EACCES, [write] and [setattr] answer EBADF and
    change nothing. *)
Theorem readonly_files_protected `{Profile} `{Sha256Ffi} `{StatusDescription} {W LFile Svc}
    `{OsFile W LFile} `{IVirtFdService W Svc} {I} `{IoRead I} fuel (fs : AuthFs LFile Svc) inode config
    flags size offset attr h valid (i : I) (st : gmap Z MerkleLeaves * W) :
  file_pool fs !! inode = Some config -> (∀ editor, config <> RemoteVerifiedNewFile editor) ->
  (Z.land flags O_ACCMODE <> O_RDONLY -> open fs inode flags = Err (RawOs EACCES)) ∧
  write fuel fs inode size offset (i, st) = (Err (RawOs EBADF), (i, st)) ∧
  setattr fs inode attr h valid st = (Err (RawOs EBADF), st).
Proof.
  intros Hp Hne. unfold open, write, setattr, AuthFs_get_file_config. rewrite Hp. cbn [ok_or].
  split; [|by destruct config; try (by destruct (Hne editor))]. intros Hacc. rewrite bind_Ok.
  assert (check_access_mode flags O_RDONLY = Err (RawOs EACCES)) as Hc.
  { unfold check_access_mode. change (as_u32 O_ACCMODE) with O_ACCMODE. change (as_u32 O_RDONLY) with O_RDONLY.
    by rewrite (proj2 (Z.eqb_neq _ _)). }
  destruct config; by first [rewrite Hc | destruct (Hne editor)].
Qed.

(** files are found by the decimal name of their inode: [lookup] of the
    printed number gives the entry and attributes of that inode, with the
    same errors as [getattr]. *)
Theorem lookup_by_number `{Profile} `{Sha256Ffi} `{StatusDescription} {W LFile Svc}
    `{OsFile W LFile} `{IVirtFdService W Svc} (fs : AuthFs LFile Svc) parent (n : N) h
    (st : gmap Z MerkleLeaves * W) :
  Z.of_N n <= u64_MAX ->
  lookup_ fs parent (bytes_of_string (pretty n)) st =
    (r ← getattr fs (Z.of_N n) h;
     mret {| en_inode := Z.of_N n; en_generation := 0; en_attr := r.1;
             en_entry_timeout := r.2; en_attr_timeout := r.2 |}) st.
Proof.
  intros Hn. unfold lookup_, getattr. rewrite to_str_pretty. erewrite M_bind_lift by done.
  rewrite parse_u64_pretty by done. erewrite M_bind_lift by done. rewrite !M_bind_eq.
  by destruct (stat_of fs (Z.of_N n) st) as [[] ?].
Qed.

(** [create_stat] on every size: below 2^63 the size and the number of
    512-byte blocks rounded up, with the mode of the file; from 2^63 on EFBIG.
    No size makes it panic, in any build. *)
Theorem create_stat_result `{Profile} ino n mode :
  0 <= n < 2 ^ 64 ->
  create_stat ino n mode =
    if decide (n <= i64_MAX) then
      Ok {| st_ino := ino;
            st_mode := match mode with ReadOnlyMode => 0x8100 | ReadWriteMode => 0x8180 end;
            st_dev := 0; st_nlink := 1; st_uid := 0; st_gid := 0; st_rdev := 0; st_size := n;
            st_blksize := 4096; st_blocks := cdiv n 512 |}
    else Err (RawOs EFBIG).
Proof. apply create_stat_ok. Qed.

(** [setattr] applies the size before it refuses the rest.  A request
    that sets the size together with the mode, owner or group answers ENOSYS,
    yet the file and its tree have been resized; and when it succeeds, the
    attributes returned carry the block count of the old size. *)
Theorem setattr_size_not_atomic `{Profile} `{Sha256Spec} `{StatusDescription} {W LFile File}
    `{!OsFile W LFile} `{PosixFile W File} `{!VerityIoctl W File}
    (fs : AuthFs LFile (FdService File)) inode editor (st : gmap Z MerkleLeaves * W) data attr h valid :
  file_in_step fs inode editor st data -> len data <= i64_MAX ->
  0 <= st_size attr <= i64_MAX -> contains valid FATTR_SIZE = true ->
  ∃ st', file_in_step fs inode editor st' (resize_bytes data (Z.to_nat (st_size attr))) ∧
    setattr fs inode attr h valid st =
      (if contains valid FATTR_MODE || contains valid FATTR_UID || contains valid FATTR_GID
       then Err (RawOs ENOSYS)
       else Ok ({| st_ino := inode; st_mode := 0x8180; st_dev := 0; st_nlink := 1; st_uid := 0;
                   st_gid := 0; st_rdev := 0; st_size := st_size attr; st_blksize := 4096;
                   st_blocks := cdiv (len data) 512 |}, DEFAULT_METADATA_TIMEOUT), st').
Proof. apply setattr_in_step. Qed.

(** reads of a writable file are not verified.  Whatever content [evil]
    the storage serves in place of the content of the tree, [read] returns
    the bytes of [evil]. *)
Theorem writable_file_read_unverified `{Profile} `{Sha256Spec} `{StatusDescription} {W LFile Svc}
    `{OsFile W LFile} `{IVirtFdService W Svc} (fs : AuthFs LFile Svc) inode editor t ts data evil
    size offset out (w : W) :
  file_pool fs !! inode = Some (RemoteVerifiedNewFile editor) -> ts !! inode = Some t ->
  represents t data -> len evil = len data -> len data < 2 ^ 64 ->
  reads_content (ve_file editor) w evil -> 0 <= offset < 2 ^ 64 -> 0 <= size <= u32_MAX ->
  let stop := Z.min (offset + size) (len evil) in
  read fs inode size offset (out, (ts, w)) =
    (Ok (Z.max 0 (stop - offset)), (out ++ subrange evil offset stop, (ts, w))).
Proof.
  intros Hp Ht Hr Hl H64 Hrc Ho Hs stop. unfold read, AuthFs_get_file_config. rewrite Hp.
  erewrite M_bind_lift by done. cbv beta iota. rewrite M_bind_eq. cbn [on_snd with_tree].
  rewrite Ht, editor_size_eq. cbv beta iota. rewrite insert_id by done. cbn [with_tree_out].
  rewrite Ht, (proj2 Hr), <- Hl. rewrite (read_chunks_serves editor evil); [by rewrite insert_id| |lia|done|done].
  intros i buf Hi Hlt Hb. unfold read_chunk, VerifiedFileEditor_ReadByChunk, VerifiedFileEditor_read_chunk.
  cbn [on_snd]. by rewrite Hrc.
Qed.

(** ** Witnesses *)
Section Witness.
#[local] Existing Instance debug_profile.
#[local] Existing Instance mem_ioctl.
#[local] Existing Instance no_description.

Definition remote_reader (data : bytes) :
    VerifiedFileReader (RemoteFileReader (FdService Z)) (RemoteMerkleTreeReader (FdService Z)) :=
  {| vf_chunked_file := RemoteFileReader_new tree_pool 3; vf_file_size := len data;
     vf_merkle_tree := RemoteMerkleTreeReader_new tree_pool 3; vf_root_hash := verifier_root data |}.
Definition ro_fs (data : bytes) : AuthFs Z (FdService Z) :=
  {| file_pool := {[1 := RemoteVerifiedReadonlyFile (remote_reader data) (len data)]}; max_write := 65536 |}.

Lemma authfs_read_authentic_witness :
  ∃ data res out' st', data = zeros 5000 ∧
  read (ro_fs data) 1 100 4090 ([] : bytes, (∅, local_world data)) = (res, (out', st')) ∧
  ((∃ k, 4090 <= k ∧ out' = [] ++ subrange data 4090 k ∧
        ∀ n, res = Ok n -> n = Z.max 0 (Z.min (4090 + 100) (len data) - 4090) ∧
          subrange data 4090 k = subrange data 4090 (Z.min (4090 + 100) (len data))) ∨
  collision (served_to_read (remote_reader data) data
    (plan (Z.max 0 (Z.min (4090 + 100) (len data) - 4090)) 4090 CHUNK_SIZE) (local_world data)) (tree_blocks data)).
Proof.
  destruct sample_5000 as (data & He & Hs & _).
  destruct (read (ro_fs data) 1 100 4090 ([] : bytes, (∅, local_world data))) as [res [out' st']] eqn:Hr.
  exists data, res, out', st'. split; [exact He|]. split; [exact Hr|].
  assert (Ho : 0 <= 4090 < 2 ^ 64) by lia. assert (Hz : 0 <= 100 <= u32_MAX) by (unfold u32_MAX; lia).
  exact (authfs_read_authentic (ro_fs data) 1 (remote_reader data) data 100 4090 [] ∅ (local_world data)
    res out' st' eq_refl Hs eq_refl eq_refl Ho Hz Hr).
Defined.

Lemma authfs_read_serves_witness :
  ∃ data, data = zeros 5000 ∧
  read (ro_fs data) 1 100 4090 ([] : bytes, (∅, local_world data)) =
    (Ok (Z.max 0 (Z.min (4090 + 100) (len data) - 4090)),
     ([] ++ subrange data 4090 (Z.min (4090 + 100) (len data)), (∅, local_world data))).
Proof.
  destruct sample_5000 as (data & He & Hs & _). exists data. split; [exact He|].
  pose proof (authfs_read_serves (ro_fs data) 1 tree_pool 3 3 4 None 100 4090 [] ∅ (local_world data)) as Hr.
  cbv zeta in Hr. cbn [file_content mem_posix] in Hr. rewrite (local_world_3 data), (local_world_4 data) in Hr.
  assert (Ho : 0 <= 4090 < 2 ^ 64) by lia. assert (Hz : 0 <= 100 <= u32_MAX) by (unfold u32_MAX; lia).
  exact (Hr Hs eq_refl eq_refl eq_refl Ho Hz).
Defined.

(** A new file at inode 7, backed by descriptor 4 of the server. *)
Definition new_editor : VerifiedFileEditor (RemoteFileEditor (FdService Z)) :=
  {| ve_file := RemoteFileEditor_new sample_pool 4 |}.
Definition rw_fs : AuthFs Z (FdService Z) :=
  {| file_pool := {[7 := RemoteVerifiedNewFile new_editor]}; max_write := 65536 |}.
Definition new_state : gmap Z MerkleLeaves * gmap Z bytes := ({[7 := ml_new]}, ∅).
Lemma new_state_in_step : file_in_step rw_fs 7 new_editor new_state [].
Proof.
  split; [done|]. exists ml_new. split; [done|]. split; [done|]. split; [by exists 4|done].
Qed.

Lemma authfs_write_then_read_witness :
  ∃ st1 st2,
    write 4097 rw_fs 7 (len [5; 6; 7]) (Z.of_nat 2) ([5; 6; 7], new_state) = (Ok (len [5; 6; 7]), ([], st1)) ∧
    read rw_fs 7 10 1 ([] : bytes, st1) =
      (Ok (Z.max 0 (Z.min (1 + 10) (len (write_bytes [] 2 [5; 6; 7])) - 1)),
       (subrange (write_bytes [] 2 [5; 6; 7]) 1 (Z.min (1 + 10) (len (write_bytes [] 2 [5; 6; 7]))), st2)) ∧
    file_in_step rw_fs 7 new_editor st2 (write_bytes [] 2 [5; 6; 7]).
Proof.
  refine (authfs_write_then_read 4097 rw_fs 7 new_editor new_state [] [5; 6; 7] 2 10 1 _
    new_state_in_step _ _ _ _); try clia; simpl; unfold i64_MAX, u32_MAX; lia.
Defined.

Lemma readonly_files_protected_witness :
  ∃ data, data = zeros 5000 ∧
  (Z.land 1 O_ACCMODE <> O_RDONLY -> open (ro_fs data) 1 1 = Err (RawOs EACCES)) ∧
  write 10 (ro_fs data) 1 2 0 ([1; 2] : bytes, new_state) = (Err (RawOs EBADF), ([1; 2], new_state)) ∧
  setattr (ro_fs data) 1 {| st_ino := 1; st_mode := 0; st_dev := 0; st_nlink := 1; st_uid := 0; st_gid := 0;
     st_rdev := 0; st_size := 0; st_blksize := 0; st_blocks := 0 |} None 8 new_state = (Err (RawOs EBADF), new_state).
Proof.
  destruct sample_5000 as (data & He & _). exists data. split; [exact He|].
  refine (readonly_files_protected 10 (ro_fs data) 1
    (RemoteVerifiedReadonlyFile (remote_reader data) (len data)) 1 2 0 _ None 8 [1; 2] new_state eq_refl _).
  discriminate.
Defined.

Lemma lookup_by_number_witness :
  lookup_ rw_fs 1 (bytes_of_string (pretty 7%N)) new_state =
    (r ← getattr rw_fs (Z.of_N 7) None;
     mret {| en_inode := Z.of_N 7; en_generation := 0; en_attr := r.1;
             en_entry_timeout := r.2; en_attr_timeout := r.2 |}) new_state.
Proof. refine (lookup_by_number rw_fs 1 7 None new_state _). unfold u64_MAX. lia. Defined.

Lemma create_stat_result_witness :
  create_stat 7 1000 ReadOnlyMode =
    if decide (1000 <= i64_MAX) then
      Ok {| st_ino := 7; st_mode := 0x8100; st_dev := 0; st_nlink := 1; st_uid := 0; st_gid := 0;
            st_rdev := 0; st_size := 1000; st_blksize := 4096; st_blocks := cdiv 1000 512 |}
    else Err (RawOs EFBIG).
Proof. refine (create_stat_result 7 1000 ReadOnlyMode _). lia. Defined.

Definition chmod_and_truncate : stat64 :=
  {| st_ino := 7; st_mode := 0x81ff; st_dev := 0; st_nlink := 1; st_uid := 0; st_gid := 0;
     st_rdev := 0; st_size := 9000; st_blksize := 0; st_blocks := 0 |}.
Lemma setattr_size_not_atomic_witness :
  ∃ st', file_in_step rw_fs 7 new_editor st' (resize_bytes [] (Z.to_nat (st_size chmod_and_truncate))) ∧
    setattr rw_fs 7 chmod_and_truncate None (Z.lor FATTR_SIZE FATTR_MODE) new_state
      = (Err (RawOs ENOSYS), st').
Proof.
  refine (setattr_size_not_atomic rw_fs 7 new_editor new_state [] chmod_and_truncate None
    (Z.lor FATTR_SIZE FATTR_MODE) new_state_in_step _ _ eq_refl); simpl; unfold i64_MAX; lia.
Defined.

(** The server replaced the two bytes [1; 2] by [5; 6]. *)
Lemma writable_file_read_unverified_witness :
  read rw_fs 7 10 0 ([] : bytes, ({[7 := tree_of [1; 2]]}, {[4 := [5; 6]]} : gmap Z bytes)) =
    (Ok 2, ([] ++ [5; 6], ({[7 := tree_of [1; 2]]}, {[4 := [5; 6]]}))).
Proof.
  refine (writable_file_read_unverified rw_fs 7 new_editor (tree_of [1; 2]) {[7 := tree_of [1; 2]]}
    [1; 2] [5; 6] 10 0 [] ({[4 := [5; 6]]} : gmap Z bytes) eq_refl _ (tree_of_represents _) eq_refl _ _ _ _).
  - apply lookup_singleton_eq.
  - simpl. lia.
  - refine (stored_read (ve_file new_editor) ({[4 := [5; 6]]} : gmap Z bytes) _ _);
      [by exists 4|vm_compute; discriminate].
  - lia.
  - unfold u32_MAX. lia.
Defined.
End Witness.
