(* ===== verification/Frames.v ===== *)
(** * What the authfs handlers leave alone

    Frame lemmas from fd_server up to the FUSE handlers: a write or a resize of
    one file changes no other file and no other tree, whatever it returns. *)

From S2P Require Import Prelude Io Common Crypto Content Builder File Editor VirtFd FdServer FdServerSpec RemoteFile FuseFs.

(** ** Loops and pairs *)

(** [R] on the world of a state that has another component. *)
Definition on_world {A W} (R : W -> W -> Prop) (st st' : A * W) : Prop := R st.2 st'.2.
#[export] Instance on_world_pre {A W} (R : W -> W -> Prop) `{!PreOrder R} : PreOrder (on_world (A := A) R).
Proof. split; [intros st; unfold on_world; reflexivity|]. intros st1 st2 st3 H12 H23. unfold on_world. by etrans. Qed.

Section Generic.
Context {W : Type} (R : W -> W -> Prop) `{!PreOrder R}.

Lemma preserves_get {E} : preserves R (get (E := E)).
Proof. intros w. cbn. reflexivity. Qed.
Lemma preserves_bind_Ok {E A B} (m : outcome E A) a (f : A -> M W E B) :
  m = Ok a -> preserves R (f a) -> preserves R (lift m ≫= f).
Proof. by intros ->. Qed.
Lemma preserves_on_snd {T E A} (m : M W E A) : preserves R m -> preserves (on_world (A := T) R) (on_snd m).
Proof. intros Hm [t w]. specialize (Hm w). cbn. by destruct (m w). Qed.
Lemma preserves_on_fst {T E A} (m : M T E A) : preserves (on_world (A := T) R) (on_fst m).
Proof. intros [t w]. cbn. destruct (m t). unfold on_world. cbn. reflexivity. Qed.
Lemma preserves_for_chunks `{Profile} {E B} (body : Z * Z -> M W E (option B)) :
  (∀ p, preserves R (body p)) -> ∀ fuel it, preserves R (for_chunks fuel it body).
Proof.
  intros Hb fuel. induction fuel as [|fuel IH]; intros it; cbn [for_chunks]; frame.
Qed.
End Generic.

(** [preserves R m] for the computations of authfs. *)
Ltac frames :=
  repeat first
    [ apply preserves_on_snd | apply preserves_on_fst; typeclasses eauto | apply preserves_get; typeclasses eauto
    | apply preserves_for_chunks; [typeclasses eauto|intros [? ?]] | frame_step ].

(** ** The editor *)
Section EditorFrame.
Context `{Profile} `{Sha256Ffi} {W F : Type} `{ReadByChunk W F} `{RandomWrite W F}.
Context (R : W -> W -> Prop) `{!PreOrder R} (f : F).
Context (read_frame : ∀ i buf, preserves R (read_chunk f i buf)).
Context (write_frame : ∀ buf off, preserves R (write_at f buf off)).
Context (resize_frame : ∀ n, preserves R (resize_to f n)).

Lemma write_all_frame fuel buf off : preserves R (write_all_at fuel f buf off).
Proof.
  unfold write_all_at. generalize 0 as i. revert off.
  induction fuel as [|fuel IH]; intros off i; cbn [write_all_loop]; frame.
Qed.
Lemma editor_write_frame fuel buf off :
  preserves (on_world (A := MerkleLeaves) R) (VerifiedFileEditor_write_at fuel {| ve_file := f |} buf off).
Proof.
  pose proof write_all_frame. unfold VerifiedFileEditor_write_at, write_at_iteration, new_chunk_hash,
    new_hash_for_incomplete_write, VerifiedFileEditor_read_chunk. frames.
Qed.
Lemma editor_resize_frame n :
  preserves (on_world (A := MerkleLeaves) R) (VerifiedFileEditor_resize {| ve_file := f |} n).
Proof.
  unfold VerifiedFileEditor_resize, rehash_new_tail, VerifiedFileEditor_read_chunk. frames.
Qed.
End EditorFrame.

(** ** Files behind fd_server *)
Section RemoteFrame.
Context `{Profile} `{StatusDescription} {W File : Type} `{PosixFile W File} `{!VerityIoctl W File}.

(** Every file but [f] is as it was. *)
Definition only_changes (f : File) (w w' : W) : Prop := ∀ g, g <> f -> file_content w' g = file_content w g.
#[export] Instance only_changes_pre f : PreOrder (only_changes f).
Proof. split; [by intros w|]. intros w1 w2 w3 H12 H23 g Hg. by rewrite H23, H12. Qed.

Context (svc : FdService File) (fd : Z) (f : File) (served : fd_pool svc !! fd = Some (ReadWrite f)).

Lemma read_service_frame id off n : preserves (only_changes f) (readFile (W := W) svc id off n).
Proof. intros w. destruct (readFile svc id off n w) eqn:Hr. by apply refine_read in Hr as [_ ->]. Qed.
Lemma remote_read_frame i buf : preserves (only_changes f) (read_chunk (W := W) (RemoteFileEditor_new svc fd) i buf).
Proof.
  pose proof read_service_frame. unfold read_chunk, RemoteFileEditor_ReadByChunk, RemoteFileEditor_read_chunk,
    remote_read_chunk. frame.
Qed.
Lemma remote_write_frame buf off : preserves (only_changes f) (write_at (W := W) (RemoteFileEditor_new svc fd) buf off).
Proof.
  assert (∀ off, preserves (only_changes f) (writeFile (W := W) svc fd buf off))
    by (intros off' w g Hg; by apply (write_frame svc fd f g)).
  cbn [write_at RemoteFileEditor_RandomWrite]. unfold RemoteFileEditor_write_at. frame.
Qed.
Lemma remote_resize_frame n : preserves (only_changes f) (resize_to (W := W) (RemoteFileEditor_new svc fd) n).
Proof.
  assert (∀ n, preserves (only_changes f) (resizeFile (W := W) svc fd n))
    by (intros n' w g Hg; by apply (resize_frame svc fd f g)).
  cbn [resize_to RemoteFileEditor_RandomWrite]. unfold RemoteFileEditor_resize. frame.
Qed.
End RemoteFrame.

(** ** The handlers *)
Section HandlerFrame.
Context `{Profile} `{Sha256Ffi} `{StatusDescription} {W LFile File : Type} `{!OsFile W LFile}
  `{PosixFile W File} `{!VerityIoctl W File}.

(** Every tree but that of [inode] and every file but [f] are as they were. *)
Definition only_affects (inode : Z) (f : File) (st st' : gmap Z MerkleLeaves * W) : Prop :=
  (∀ j, j <> inode -> st'.1 !! j = st.1 !! j) ∧ only_changes f st.2 st'.2.
#[export] Instance only_affects_pre i f : PreOrder (only_affects i f).
Proof.
  split; [by intros st|]. intros st1 st2 st3 [H12 K12] [H23 K23]. split; [|by etrans].
  intros j Hj. by rewrite H23, H12.
Qed.

Lemma with_tree_frame {E A} i f (m : M (MerkleLeaves * W) E A) :
  preserves (on_world (only_changes f)) m -> preserves (only_affects i f) (with_tree i m).
Proof.
  intros Hm [ts w]. unfold with_tree. destruct (ts !! i) as [t|]; [|reflexivity].
  specialize (Hm (t, w)). destruct (m (t, w)) as [r [t' w']]. split; [|done]. intros j Hj. by apply lookup_insert_ne.
Qed.

Context (fs : AuthFs LFile (FdService File)) (inode : Z) (svc : FdService File) (fd : Z) (f : File).
Abbreviation editor := {| ve_file := RemoteFileEditor_new svc fd |}.
Context (pooled : file_pool fs !! inode = Some (RemoteVerifiedNewFile editor)).
Context (served : fd_pool svc !! fd = Some (ReadWrite f)).

Lemma fuse_write_frame {I} `{IoRead I} fuel size offset :
  preserves (on_world (A := I) (only_affects inode f)) (write fuel fs inode size offset).
Proof.
  unfold write, AuthFs_get_file_config. rewrite pooled. eapply preserves_bind_Ok; [done|]. cbv beta iota. frames.
  apply with_tree_frame. apply (editor_write_frame (only_changes f) (RemoteFileEditor_new svc fd)); intros.
  - apply remote_read_frame.
  - by apply remote_write_frame.
Qed.
Lemma fuse_setattr_frame attr h valid : preserves (only_affects inode f) (setattr fs inode attr h valid).
Proof.
  assert (∀ n, preserves (only_affects inode f) (with_tree (W := W) inode (VerifiedFileEditor_resize editor n))).
  { intros n. apply with_tree_frame.
    apply (editor_resize_frame (only_changes f) (RemoteFileEditor_new svc fd)); intros.
    - apply remote_read_frame.
    - by apply remote_resize_frame. }
  assert (preserves (only_affects inode f) (with_tree (W := W) inode (VerifiedFileEditor_size editor))).
  { apply with_tree_frame. unfold VerifiedFileEditor_size. frames. }
  unfold setattr, AuthFs_get_file_config. rewrite pooled. eapply preserves_bind_Ok; [done|]. cbv beta iota. frames.
Qed.
End HandlerFrame.
