(* ===== verification/AuthfsSpec.v ===== *)
(** * authfs: the file system that it promises

    An abstract specification of the mounted authfs, a map from inodes to
    read-only and writable contents with one function for every FUSE request,
    and the proof that the handlers over local files, the editors, the remote
    readers and fd_server compute exactly that function: for every history of
    requests on any mix of files, with the same replies, errors included. *)

From S2P Require Import Prelude Io Service Parse Common Crypto FsverityCommon MerkleSpec Content Builder File Verifier Editor VirtFd FdServer FdServerSpec RemoteFile FuseFs Frames Sha256Ref.

(** ** The specification *)
Inductive node := ReadonlyNode (data : bytes) | WritableNode (data : bytes).
Abbreviation nodes := (gmap Z node).

Definition node_data (n : node) : bytes := match n with ReadonlyNode d | WritableNode d => d end.

(** The attributes of a file of [size] bytes, of which [counted] are in the
    number of blocks. *)
Definition attributes (inode : Z) (n : node) (size counted : Z) : stat64 :=
  {| st_ino := inode; st_mode := match n with ReadonlyNode _ => 0x8100 | WritableNode _ => 0x8180 end;
     st_dev := 0; st_nlink := 1; st_uid := 0; st_gid := 0; st_rdev := 0; st_size := size;
     st_blksize := 4096; st_blocks := cdiv counted 512 |}.
Definition node_attributes (inode : Z) (n : node) : stat64 :=
  attributes inode n (len (node_data n)) (len (node_data n)).

Inductive fuse_request :=
| FLookup (parent : Z) (name : bytes)
| FGetattr (inode : Z) (handle : option Z)
| FOpen (inode flags : Z)
| FRead (inode size offset : Z)
| FWrite (inode : Z) (buf : bytes) (offset : Z)
| FSetattr (inode : Z) (attr : stat64) (handle : option Z) (valid : Z).

Inductive fuse_reply :=
| REntry (r : outcome io_error Entry)
| RAttr (r : outcome io_error (stat64 * Z))
| ROpen (r : outcome io_error (option Z * Z))
| RData (r : outcome io_error Z) (data : bytes)
| RWritten (r : outcome io_error Z).

Definition find_node (ns : nodes) (inode : Z) : outcome io_error node := ok_or (RawOs ENOENT) (ns !! inode).

Definition spec_lookup (ns : nodes) (name : bytes) : outcome io_error Entry :=
  num ← ok_or (RawOs EINVAL) (to_str name);
  inode ← ok_or (RawOs ENOENT) (parse_u64 num);
  n ← find_node ns inode;
  Ok {| en_inode := inode; en_generation := 0; en_attr := node_attributes inode n;
        en_entry_timeout := DEFAULT_METADATA_TIMEOUT; en_attr_timeout := DEFAULT_METADATA_TIMEOUT |}.
Definition spec_getattr (ns : nodes) (inode : Z) : outcome io_error (stat64 * Z) :=
  n ← find_node ns inode; Ok (node_attributes inode n, DEFAULT_METADATA_TIMEOUT).
Definition spec_open (ns : nodes) (inode flags : Z) : outcome io_error (option Z * Z) :=
  n ← find_node ns inode;
  match n with
  | ReadonlyNode _ => if decide (Z.land flags 3 = 0) then Ok (None, KEEP_CACHE) else Err (RawOs EACCES)
  | WritableNode _ => Ok (None, KEEP_CACHE)
  end.
(** The requested range, cut at the end of the file. *)
Definition spec_read (ns : nodes) (inode size offset : Z) : fuse_reply :=
  match ns !! inode with
  | Some n => let stop := Z.min (offset + size) (len (node_data n)) in
              RData (Ok (Z.max 0 (stop - offset))) (subrange (node_data n) offset stop)
  | None => RData (Err (RawOs ENOENT)) []
  end.
Definition spec_write (ns : nodes) (inode : Z) (buf : bytes) (offset : Z) : fuse_reply * nodes :=
  match ns !! inode with
  | Some (WritableNode d) => (RWritten (Ok (len buf)), <[inode := WritableNode (write_bytes d (Z.to_nat offset) buf)]> ns)
  | Some (ReadonlyNode _) => (RWritten (Err (RawOs EBADF)), ns)
  | None => (RWritten (Err (RawOs ENOENT)), ns)
  end.
(** The size is set even when the request is then refused for its other
    attributes, and the blocks reported are those of the old size. *)
Definition spec_setattr (ns : nodes) (inode : Z) (attr : stat64) (valid : Z) : fuse_reply * nodes :=
  match ns !! inode with
  | Some (WritableNode d) =>
      let n' := WritableNode (if contains valid FATTR_SIZE then resize_bytes d (Z.to_nat (st_size attr)) else d) in
      (RAttr (if contains valid FATTR_MODE || contains valid FATTR_UID || contains valid FATTR_GID
              then Err (RawOs ENOSYS)
              else Ok (attributes inode n' (len (node_data n')) (len d), DEFAULT_METADATA_TIMEOUT)),
       <[inode := n']> ns)
  | Some (ReadonlyNode _) => (RAttr (Err (RawOs EBADF)), ns)
  | None => (RAttr (Err (RawOs ENOENT)), ns)
  end.

Definition spec_step (ns : nodes) (rq : fuse_request) : fuse_reply * nodes :=
  match rq with
  | FLookup _ name => (REntry (spec_lookup ns name), ns)
  | FGetattr inode _ => (RAttr (spec_getattr ns inode), ns)
  | FOpen inode flags => (ROpen (spec_open ns inode flags), ns)
  | FRead inode size offset => (spec_read ns inode size offset, ns)
  | FWrite inode buf offset => spec_write ns inode buf offset
  | FSetattr inode attr _ valid => spec_setattr ns inode attr valid
  end.

(** What the kernel may ask for: unsigned offsets, and no file that would
    exceed the largest size of a regular file. *)
Definition in_range (rq : fuse_request) : Prop :=
  match rq with
  | FRead _ size offset => 0 <= offset < 2 ^ 64 ∧ 0 <= size <= u32_MAX
  | FWrite _ buf offset => 0 <= offset ∧ offset + len buf <= i64_MAX
  | FSetattr _ attr _ valid => contains valid FATTR_SIZE = true -> 0 <= st_size attr <= i64_MAX
  | _ => True
  end.

(** A history: the replies in order, and what is left. *)
Fixpoint replies {S} (step : S -> fuse_request -> fuse_reply * S) (s : S) (rqs : list fuse_request)
    : list fuse_reply * S :=
  match rqs with
  | [] => ([], s)
  | rq :: rqs' =>
      let '(r, s1) := step s rq in
      let '(rs, s2) := replies step s1 rqs' in (r :: rs, s2)
  end.

(** Nothing but the writable contents changes. *)
Lemma spec_readonly ns rq i d :
  ns !! i = Some (ReadonlyNode d) -> (spec_step ns rq).2 !! i = Some (ReadonlyNode d).
Proof.
  intros Hi. destruct rq as [parent name|j h|j flags|j size offset|j buf offset|j attr h valid]; cbn; try done.
  - unfold spec_write. destruct (ns !! j) as [[|]|] eqn:Hj; try done. cbn. rewrite lookup_insert_ne; [done|]. intros ->. congruence.
  - unfold spec_setattr. destruct (ns !! j) as [[|]|] eqn:Hj; try done. cbn. rewrite lookup_insert_ne; [done|]. intros ->. congruence.
Qed.
Lemma spec_history_readonly ns rqs i d :
  ns !! i = Some (ReadonlyNode d) -> (replies spec_step ns rqs).2 !! i = Some (ReadonlyNode d).
Proof.
  revert ns. induction rqs as [|rq rqs IH]; intros ns Hi; [done|]. cbn [replies].
  pose proof (spec_readonly ns rq i d Hi) as H1. destruct (spec_step ns rq) as [r ns1]. cbn [snd] in H1.
  specialize (IH ns1 H1). by destruct (replies spec_step ns1 rqs).
Qed.

(** What it answers, on a small file system. *)
Example spec_replies :
  replies spec_step {[1 := ReadonlyNode [10; 20; 30]; 2 := WritableNode []]}
    [FRead 1 2 1; FWrite 2 [7; 8] 1; FRead 2 9 0; FWrite 1 [0] 0; FRead 3 1 0; FOpen 1 2] =
  ([RData (Ok 2) [20; 30]; RWritten (Ok 2); RData (Ok 3) [0; 7; 8]; RWritten (Err (RawOs EBADF));
    RData (Err (RawOs ENOENT)) []; ROpen (Err (RawOs EACCES))],
   {[1 := ReadonlyNode [10; 20; 30]; 2 := WritableNode [0; 7; 8]]}).
Proof. vm_compute. reflexivity. Qed.

(** ** The handlers *)
Definition fuse_step `{Profile} `{Sha256Ffi} `{StatusDescription} {W File Svc} `{OsFile W File} `{IVirtFdService W Svc}
    (fuel : nat) (fs : AuthFs File Svc) (st : gmap Z MerkleLeaves * W) (rq : fuse_request)
    : fuse_reply * (gmap Z MerkleLeaves * W) :=
  match rq with
  | FLookup parent name => let '(r, st') := lookup_ fs parent name st in (REntry r, st')
  | FGetattr inode handle => let '(r, st') := getattr fs inode handle st in (RAttr r, st')
  | FOpen inode flags => (ROpen (open fs inode flags), st)
  | FRead inode size offset => let '(r, (data, st')) := read fs inode size offset ([] : bytes, st) in (RData r data, st')
  | FWrite inode buf offset => let '(r, (_, st')) := write fuel fs inode (len buf) offset (buf, st) in (RWritten r, st')
  | FSetattr inode attr handle valid => let '(r, st') := setattr fs inode attr handle valid st in (RAttr r, st')
  end.

(** ** The refinement

    One kind of regular files, some of them local, the others served. *)
Section Refinement.
Context `{Profile} `{Sha256Spec} `{StatusDescription} {W File : Type} `{PosixFile W File} `{!VerityIoctl W File}.
Abbreviation config := (FileConfig File (FdService File)).
Abbreviation fs_state := (gmap Z MerkleLeaves * W)%type.

(** The file that a local reader was opened on when it held [data]. *)
Definition local_reader (f : File) (data : bytes) : LocalFileReader File := {| lf_file := f; lf_size := len data |}.

(** A file of the pool with the content that the specification gives it. *)
Inductive backed (st : fs_state) (inode : Z) : config -> node -> Prop :=
| backed_local_verified f tree data :
    0 < len data <= MAX_VERIFIED_SIZE -> file_content st.2 f = data -> file_content st.2 tree = dump_of data ->
    backed st inode
      (LocalVerifiedReadonlyFile
         {| vf_chunked_file := local_reader f data; vf_file_size := len data;
            vf_merkle_tree := local_reader tree (dump_of data); vf_root_hash := verifier_root data |} (len data))
      (ReadonlyNode data)
| backed_local f data :
    len data <= i64_MAX -> file_content st.2 f = data ->
    backed st inode (LocalUnverifiedReadonlyFile (local_reader f data) (len data)) (ReadonlyNode data)
| backed_remote_verified svc fd f tree sig data :
    fd_pool svc !! fd = Some (Readonly f (Some tree) sig) ->
    0 < len data <= MAX_VERIFIED_SIZE -> file_content st.2 f = data -> file_content st.2 tree = dump_of data ->
    backed st inode
      (RemoteVerifiedReadonlyFile
         {| vf_chunked_file := RemoteFileReader_new svc fd; vf_file_size := len data;
            vf_merkle_tree := RemoteMerkleTreeReader_new svc fd; vf_root_hash := verifier_root data |} (len data))
      (ReadonlyNode data)
| backed_remote svc fd c data :
    fd_pool svc !! fd = Some c -> len data <= i64_MAX -> file_content st.2 (served_file c) = data ->
    backed st inode (RemoteUnverifiedReadonlyFile (RemoteFileReader_new svc fd) (len data)) (ReadonlyNode data)
| backed_new svc fd f t data :
    fd_pool svc !! fd = Some (ReadWrite f) -> len data <= i64_MAX -> file_content st.2 f = data ->
    st.1 !! inode = Some t -> represents t data ->
    backed st inode (RemoteVerifiedNewFile {| ve_file := RemoteFileEditor_new svc fd |}) (WritableNode data).

(** The files behind a file of the pool. *)
Definition served_files (svc : FdService File) (fd : Z) : list File :=
  from_option config_files [] (fd_pool svc !! fd).
Definition backing (c : config) : list File :=
  match c with
  | LocalVerifiedReadonlyFile r _ => [lf_file (vf_chunked_file r); lf_file (vf_merkle_tree r)]
  | LocalUnverifiedReadonlyFile r _ => [lf_file r]
  | RemoteVerifiedReadonlyFile r _ => served_files (rr_service (vf_chunked_file r)) (rr_file_fd (vf_chunked_file r))
  | RemoteUnverifiedReadonlyFile r _ => served_files (rr_service r) (rr_file_fd r)
  | RemoteVerifiedNewFile e => served_files (re_service (ve_file e)) (re_file_fd (ve_file e))
  end.
(** No file that is written under one inode is behind another one. *)
Definition separate (fs : AuthFs File (FdService File)) : Prop :=
  ∀ i e, file_pool fs !! i = Some (RemoteVerifiedNewFile e) ->
  ∀ j c, j <> i -> file_pool fs !! j = Some c -> ∀ f, f ∈ backing (RemoteVerifiedNewFile e) -> f ∉ backing c.

(** The mounted file system is in the state [ns] of the specification. *)
Definition mounted (fs : AuthFs File (FdService File)) (st : fs_state) (ns : nodes) : Prop :=
  ∀ i, option_Forall2 (backed st i) (file_pool fs !! i) (ns !! i).

(** A file is as it was when its own tree and the files behind it are. *)
Lemma backed_frame st st' i c n :
  st'.1 !! i = st.1 !! i -> (∀ g, g ∈ backing c -> file_content st'.2 g = file_content st.2 g) ->
  backed st i c n -> backed st' i c n.
Proof.
  intros Ht Hg Hb. destruct Hb as [f tree data|f data|svc fd f tree sig data Hp|svc fd c data Hp|svc fd f t data Hp];
    cbn [backing local_reader lf_file vf_chunked_file vf_merkle_tree rr_service rr_file_fd re_service re_file_fd
      RemoteFileReader_new RemoteFileEditor_new ve_file] in Hg; unfold served_files in Hg; rewrite ?Hp in Hg;
    cbn [from_option config_files option_list app] in Hg.
  - apply backed_local_verified; rewrite ?Hg by set_solver; done.
  - apply backed_local; rewrite ?Hg by set_solver; done.
  - eapply backed_remote_verified; [exact Hp|..]; rewrite ?Hg by set_solver; done.
  - eapply backed_remote; [done|done|]. rewrite Hg; [done|]. destruct c; cbn; set_solver.
  - eapply backed_new; [exact Hp|..]; rewrite ?Hg, ?Ht by set_solver; done.
Qed.

(** ** Reads and attributes *)
Lemma backed_bound st i c n : backed st i c n -> len (node_data n) <= i64_MAX.
Proof. destruct 1; cbn [node_data]; unfold MAX_VERIFIED_SIZE, i64_MAX in *; lia. Qed.

(** The reader of a local file with its tree. *)
Lemma local_verified_reads f tree data (w : W) :
  0 < len data <= MAX_VERIFIED_SIZE -> file_content w f = data -> file_content w tree = dump_of data ->
  reads_content {| vf_chunked_file := local_reader f data; vf_file_size := len data;
                   vf_merkle_tree := local_reader tree (dump_of data); vf_root_hash := verifier_root data |} w data.
Proof.
  intros Hn Hf Ht. apply reader_serves; [done|done|done|..]; cbn [vf_chunked_file vf_merkle_tree].
  - rewrite <- Hf. apply (LocalFileReader_reads (local_reader f _)); [done|].
    cbn. rewrite Hf. unfold MAX_VERIFIED_SIZE, i64_MAX in *. lia.
  - rewrite <- Ht. apply (LocalFileReader_reads (local_reader tree _)); [done|]. cbn. rewrite Ht. by apply len_dump.
Qed.

(** An editor of the pool is in step with its node. *)
Lemma backed_in_step (fs : AuthFs File (FdService File)) st i e data :
  file_pool fs !! i = Some (RemoteVerifiedNewFile e) -> backed st i (RemoteVerifiedNewFile e) (WritableNode data) ->
  file_in_step fs i e st data.
Proof.
  intros Hp Hb. inversion Hb as [| | | |svc fd f t d Hfd Hl Hc Ht Hr]; subst. split; [done|]. exists t. split; [done|].
  split; [done|]. cbn. unfold remote_content. cbn. rewrite Hfd. split; [by exists f|done].
Qed.
Lemma in_step_backed (fs : AuthFs File (FdService File)) st i svc fd f data :
  file_in_step fs i {| ve_file := RemoteFileEditor_new svc fd |} st data -> fd_pool svc !! fd = Some (ReadWrite f) ->
  len data <= i64_MAX ->
  backed st i (RemoteVerifiedNewFile {| ve_file := RemoteFileEditor_new svc fd |}) (WritableNode data).
Proof.
  intros (Hp & t & Ht & Hr & _ & Hc) Hfd Hl. cbn in Hc. unfold remote_content in Hc. cbn in Hc. rewrite Hfd in Hc.
  by eapply backed_new.
Qed.

Lemma backed_read (fs : AuthFs File (FdService File)) st i c n out size offset :
  file_pool fs !! i = Some c -> backed st i c n -> 0 <= offset < 2 ^ 64 -> 0 <= size <= u32_MAX ->
  let stop := Z.min (offset + size) (len (node_data n)) in
  read fs i size offset (out, st) =
    (Ok (Z.max 0 (stop - offset)), (out ++ subrange (node_data n) offset stop, st)).
Proof.
  intros Hp Hb Ho Hs stop. apply backed_bound in Hb as Hl. unfold i64_MAX in Hl.
  destruct n as [data|data]; [|inversion Hb; subst; by eapply read_in_step; [apply backed_in_step|..]].
  destruct st as [ts w]. unfold read, AuthFs_get_file_config. rewrite Hp. erewrite M_bind_lift by done.
  inversion Hb; subst; cbn [without_tree node_data] in *; rewrite read_chunks_serves; try done; try lia.
  - by apply local_verified_reads.
  - by apply (LocalFileReader_reads (local_reader f _)).
  - by eapply remote_verified_reads.
  - by apply (RemoteFileReader_reads (RemoteFileReader_new svc fd) c0).
Qed.

Lemma create_attributes i n mode :
  mode = match n with ReadonlyNode _ => ReadOnlyMode | WritableNode _ => ReadWriteMode end ->
  len (node_data n) <= i64_MAX -> create_stat i (len (node_data n)) mode = Ok (node_attributes i n).
Proof. intros -> Hl. rewrite create_stat_ok by (unfold i64_MAX in *; lia). rewrite decide_True by done. by destruct n. Qed.
Lemma backed_stat (fs : AuthFs File (FdService File)) st i c n :
  file_pool fs !! i = Some c -> backed st i c n -> stat_of fs i st = (Ok (node_attributes i n), st).
Proof.
  intros Hp Hb. apply backed_bound in Hb as Hl. unfold stat_of, AuthFs_get_file_config. rewrite Hp.
  erewrite M_bind_lift by done. destruct st as [ts w].
  inversion Hb as [| | | |svc fd f t d Hfd Hd Hc Ht Hr]; subst;
    [unfold lift; f_equal; by apply (create_attributes i (ReadonlyNode _))..|].
  rewrite M_bind_eq. cbn [with_tree fst]. cbn in Ht. rewrite Ht, editor_size_eq. cbv beta iota. rewrite insert_id, (proj2 Hr) by done.
  unfold lift. f_equal. by apply (create_attributes i (WritableNode _)).
Qed.

(** ** One request *)
Context (fuel : nat) (enough : (CHUNK < fuel)%nat).
Context (fs : AuthFs File (FdService File)) (apart : separate fs).

Lemma mounted_cases st ns i :
  mounted fs st ns ->
  (file_pool fs !! i = None ∧ ns !! i = None) ∨
  ∃ c n, file_pool fs !! i = Some c ∧ ns !! i = Some n ∧ backed st i c n.
Proof. intros Hm. specialize (Hm i). inversion Hm; [right|left]; eauto 10. Qed.

(** A change of one editor's file and tree is a change of its node. *)
Lemma mounted_update st st' ns i svc fd f data :
  file_pool fs !! i = Some (RemoteVerifiedNewFile {| ve_file := RemoteFileEditor_new svc fd |}) ->
  fd_pool svc !! fd = Some (ReadWrite f) -> mounted fs st ns -> only_affects i f st st' ->
  file_in_step fs i {| ve_file := RemoteFileEditor_new svc fd |} st' data -> len data <= i64_MAX ->
  mounted fs st' (<[i := WritableNode data]> ns).
Proof.
  intros Hp Hfd Hm [Hts Hw] Hst Hl j. destruct (decide (j = i)) as [->|Hne].
  - rewrite Hp, lookup_insert_eq. constructor. by eapply in_step_backed.
  - rewrite lookup_insert_ne by done. destruct (mounted_cases st ns j Hm) as [[-> ->]|(c & n & Hc & -> & Hb)]; [constructor|].
    rewrite Hc. constructor. eapply backed_frame; [by apply Hts| |exact Hb]. intros g Hg. apply Hw. intros ->.
    eapply (apart i _ Hp j c); [done|done| |exact Hg]. cbn. unfold served_files. rewrite Hfd. cbn. set_solver.
Qed.

Lemma read_step st ns i size offset :
  mounted fs st ns -> 0 <= offset < 2 ^ 64 -> 0 <= size <= u32_MAX ->
  fuse_step fuel fs st (FRead i size offset) = (spec_read ns i size offset, st).
Proof.
  intros Hm Ho Hs. unfold fuse_step, spec_read. destruct (mounted_cases st ns i Hm) as [[Hp Hn]|(c & n & Hp & Hn & Hb)]; rewrite Hn.
  - unfold read, AuthFs_get_file_config. by rewrite Hp.
  - by erewrite backed_read by done.
Qed.
Lemma stat_step st ns i :
  mounted fs st ns -> stat_of fs i st = (n ← find_node ns i; Ok (node_attributes i n), st).
Proof.
  intros Hm. unfold find_node. destruct (mounted_cases st ns i Hm) as [[Hp Hn]|(c & n & Hp & Hn & Hb)]; rewrite Hn.
  - unfold stat_of, AuthFs_get_file_config. by rewrite Hp.
  - by erewrite backed_stat by done.
Qed.
Lemma lookup_step st ns parent name :
  mounted fs st ns -> fuse_step fuel fs st (FLookup parent name) = (REntry (spec_lookup ns name), st).
Proof.
  intros Hm. unfold fuse_step, spec_lookup, lookup_. destruct (to_str name) as [num|]; [|done].
  erewrite M_bind_lift by done. cbn [ok_or]. rewrite bind_Ok. destruct (parse_u64 num) as [i|]; [|done].
  erewrite M_bind_lift by done. rewrite M_bind_eq, (stat_step _ ns) by done. cbn [ok_or]. rewrite bind_Ok.
  by destruct (find_node ns i).
Qed.
Lemma getattr_step st ns i h :
  mounted fs st ns -> fuse_step fuel fs st (FGetattr i h) = (RAttr (spec_getattr ns i), st).
Proof.
  intros Hm. unfold fuse_step, spec_getattr, getattr. rewrite M_bind_eq, (stat_step _ ns) by done.
  by destruct (find_node ns i).
Qed.
Lemma open_step st ns i flags :
  mounted fs st ns -> fuse_step fuel fs st (FOpen i flags) = (ROpen (spec_open ns i flags), st).
Proof.
  intros Hm. unfold fuse_step, spec_open, find_node, open, AuthFs_get_file_config, check_access_mode.
  change (as_u32 O_ACCMODE) with 3. change (as_u32 O_RDONLY) with 0.
  destruct (mounted_cases st ns i Hm) as [[Hp Hn]|(c & n & Hp & Hn & Hb)]; rewrite Hn, Hp; [done|].
  cbn [ok_or]. rewrite !bind_Ok. inversion Hb; subst; try done;
    (case_decide as Hf; [by rewrite Hf|by rewrite (proj2 (Z.eqb_neq _ _) Hf)]).
Qed.

(** [setattr] of anything but the size. *)
Lemma setattr_keeps_size i e st data attr h valid :
  file_in_step fs i e st data -> len data <= i64_MAX -> contains valid FATTR_SIZE = false ->
  setattr fs i attr h valid st =
    (if contains valid FATTR_MODE || contains valid FATTR_UID || contains valid FATTR_GID then Err (RawOs ENOSYS)
     else Ok (node_attributes i (WritableNode data), DEFAULT_METADATA_TIMEOUT), st).
Proof.
  intros (Hp & t & Ht & Hr & _) Hl Hv. destruct st as [ts w]. cbn [fst snd] in *.
  unfold setattr, AuthFs_get_file_config. rewrite Hp. erewrite M_bind_lift by done. cbv beta iota.
  rewrite M_bind_eq. cbn [with_tree]. rewrite Ht, editor_size_eq. cbv beta iota. rewrite insert_id, (proj2 Hr) by done.
  erewrite M_bind_lift by (by apply (create_attributes i (WritableNode data))). rewrite Hv. erewrite M_bind_Ok by done.
  by destruct (contains valid FATTR_MODE), (contains valid FATTR_UID), (contains valid FATTR_GID).
Qed.

Lemma write_step st ns i buf offset :
  mounted fs st ns -> 0 <= offset -> offset + len buf <= i64_MAX ->
  ∃ st', fuse_step fuel fs st (FWrite i buf offset) = ((spec_write ns i buf offset).1, st') ∧
    mounted fs st' (spec_write ns i buf offset).2.
Proof.
  intros Hm Ho Hmax. unfold fuse_step, spec_write.
  destruct (mounted_cases st ns i Hm) as [[Hp Hn]|(c & n & Hp & Hn & Hb)]; rewrite Hn.
  { exists st. unfold write, AuthFs_get_file_config. by rewrite Hp. }
  destruct n as [data|data].
  { exists st. unfold write, AuthFs_get_file_config. rewrite Hp. by inversion Hb; subst. }
  apply backed_bound in Hb as Hl. inversion Hb as [| | | |svc fd f t d Hfd]; subst.
  destruct (write_in_step fuel fs i {| ve_file := RemoteFileEditor_new svc fd |} st (file_content st.2 f) buf (Z.to_nat offset))
    as (st' & Hw & Hst); [done|by apply backed_in_step|done|lia|].
  pose proof (fuse_write_frame fs i svc fd f Hp Hfd fuel (len buf) offset (buf, st)) as Hfr.
  rewrite Z2Nat.id in Hw by done. rewrite Hw in Hfr |- *. exists st'. split; [done|].
  eapply mounted_update; [exact Hp|exact Hfd|exact Hm|exact Hfr|exact Hst|].
  by apply (apply_edit_bound i64_MAX _ (EWrite buf (Z.to_nat offset))); [|cbn; lia].
Qed.
Lemma setattr_step st ns i attr h valid :
  mounted fs st ns -> (contains valid FATTR_SIZE = true -> 0 <= st_size attr <= i64_MAX) ->
  ∃ st', fuse_step fuel fs st (FSetattr i attr h valid) = ((spec_setattr ns i attr valid).1, st') ∧
    mounted fs st' (spec_setattr ns i attr valid).2.
Proof.
  intros Hm Hsz. unfold fuse_step, spec_setattr.
  destruct (mounted_cases st ns i Hm) as [[Hp Hn]|(c & n & Hp & Hn & Hb)]; rewrite Hn.
  { exists st. unfold setattr, AuthFs_get_file_config. by rewrite Hp. }
  destruct n as [data|data].
  { exists st. unfold setattr, AuthFs_get_file_config. rewrite Hp. by inversion Hb; subst. }
  apply backed_bound in Hb as Hl. inversion Hb as [| | | |svc fd f t d Hfd]; subst.
  pose proof (backed_in_step fs st i _ _ Hp Hb) as Hst. destruct (contains valid FATTR_SIZE) eqn:Hv.
  - destruct (setattr_in_step fs i _ st _ attr h valid Hst) as (st' & Hst' & Hr); [done|by apply Hsz|done|].
    pose proof (fuse_setattr_frame fs i svc fd f Hp Hfd attr h valid st) as Hfr.
    rewrite Hr in Hfr |- *. exists st'. split.
    + cbn [node_data]. rewrite length_resize_bytes. rewrite Z2Nat.id by (by apply Hsz). done.
    + eapply mounted_update; [exact Hp|exact Hfd|exact Hm|exact Hfr|exact Hst'|].
      rewrite length_resize_bytes. specialize (Hsz eq_refl). lia.
  - erewrite setattr_keeps_size by done. exists st. split; [done|]. cbn [snd]. by rewrite insert_id.
Qed.

(** Every request in range is answered as specified, and leaves the state that
    the specification leaves. *)
Lemma step_refines st ns rq :
  mounted fs st ns -> in_range rq ->
  ∃ st', fuse_step fuel fs st rq = ((spec_step ns rq).1, st') ∧ mounted fs st' (spec_step ns rq).2.
Proof.
  intros Hm Hr. destruct rq as [parent name|i h|i flags|i size offset|i buf offset|i attr h valid]; cbn [spec_step fst snd].
  - exists st. split; [by apply lookup_step|done].
  - exists st. split; [by apply getattr_step|done].
  - exists st. split; [by apply open_step|done].
  - exists st. destruct Hr. split; [by apply read_step|done].
  - destruct Hr. by apply write_step.
  - by apply setattr_step.
Qed.
Lemma history_refines st ns rqs :
  mounted fs st ns -> Forall in_range rqs ->
  ∃ st', replies (fuse_step fuel fs) st rqs = ((replies spec_step ns rqs).1, st') ∧
    mounted fs st' (replies spec_step ns rqs).2.
Proof.
  intros Hm Hrs. revert st ns Hm. induction Hrs as [|rq rqs Hr Hrs IH]; intros st ns Hm; [by exists st|].
  cbn [replies]. destruct (step_refines st ns rq Hm Hr) as (st1 & -> & Hm1).
  destruct (spec_step ns rq) as [r ns1]. cbn [fst snd] in *. destruct (IH st1 ns1 Hm1) as (st2 & -> & Hm2).
  destruct (replies spec_step ns1 rqs) as [rs ns2]. by exists st2.
Qed.
End Refinement.

(** ** Claims *)

(** C2: authfs over fd_server is the file system of the specification.  Take any
    mix of local and remote, verified and unverified, read-only and writable
    files, in which no written file is behind two inodes, over regular files
    with the contents of the specification.  Every history of requests in
    range, on known and unknown inodes, gets exactly the replies of the
    specification, counts, data, attributes and errors; and afterwards every
    file again holds the content that the specification says, with its
    editor's tree the Merkle tree of that content. *)
Theorem authfs_refines `{Profile} `{Sha256Spec} `{StatusDescription} {W File} `{PosixFile W File} `{!VerityIoctl W File}
    fuel (fs : AuthFs File (FdService File)) (st : gmap Z MerkleLeaves * W) ns rqs :
  (CHUNK < fuel)%nat -> separate fs -> mounted fs st ns -> Forall in_range rqs ->
  ∃ st', replies (fuse_step fuel fs) st rqs = ((replies spec_step ns rqs).1, st') ∧
    mounted fs st' (replies spec_step ns rqs).2.
Proof. intros Hf Hs Hm Hr. by apply history_refines. Qed.

Section Witness.
#[local] Existing Instance debug_profile.
#[local] Existing Instance no_description.
#[local] Existing Instance no_verity_ioctl.

(** A verified read-only file, the same file read locally, and a new file. *)
Definition three_pool : FdService Z :=
  {| fd_pool := <[5 := ReadWrite 5]> {[3 := Readonly 3 (Some 4) None]} |}.
Definition three_files (data : bytes) : AuthFs Z (FdService Z) :=
  {| file_pool :=
       <[1 := RemoteVerifiedReadonlyFile
                {| vf_chunked_file := RemoteFileReader_new three_pool 3; vf_file_size := len data;
                   vf_merkle_tree := RemoteMerkleTreeReader_new three_pool 3; vf_root_hash := verifier_root data |}
                (len data)]>
       (<[2 := LocalUnverifiedReadonlyFile (local_reader 3 data) (len data)]>
       {[7 := RemoteVerifiedNewFile {| ve_file := RemoteFileEditor_new three_pool 5 |}]});
     max_write := 65536 |}.
Definition three_nodes (data : bytes) : nodes :=
  <[1 := ReadonlyNode data]> (<[2 := ReadonlyNode data]> {[7 := WritableNode []]}).

Lemma three_separate data : separate (three_files data).
Proof.
  intros i e Hi j c Hne Hj f Hf Hfc. unfold three_files in Hi, Hj. cbn [file_pool] in Hi, Hj.
  assert (i = 7 ∧ e = {| ve_file := RemoteFileEditor_new three_pool 5 |}) as [-> ->].
  { apply lookup_insert_Some in Hi as [[_ [=]]|[_ Hi]]. apply lookup_insert_Some in Hi as [[_ [=]]|[_ Hi]].
    by apply lookup_singleton_Some in Hi as [<- [= <-]]. }
  assert (f = 5) as -> by (cbn in Hf; set_solver).
  apply lookup_insert_Some in Hj as [[_ <-]|[_ Hj]]; [cbn in Hfc; set_solver|].
  apply lookup_insert_Some in Hj as [[_ <-]|[_ Hj]]; [cbn in Hfc; set_solver|].
  apply lookup_singleton_Some in Hj as [<- _]. done.
Qed.
Lemma three_mounted data :
  0 < len data <= MAX_VERIFIED_SIZE -> mounted (three_files data) ({[7 := ml_new]}, local_world data) (three_nodes data).
Proof.
  intros Hl i. unfold three_files, three_nodes. cbn [file_pool].
  destruct (decide (i = 1)) as [->|]; [|destruct (decide (i = 2)) as [->|]; [|destruct (decide (i = 7)) as [->|]]].
  - rewrite !lookup_insert_eq. constructor.
    eapply backed_remote_verified; [reflexivity|done|apply local_world_3|apply local_world_4].
  - rewrite !(lookup_insert_ne _ 1), !lookup_insert_eq by done. constructor.
    apply backed_local; [unfold MAX_VERIFIED_SIZE, i64_MAX in *; lia|apply local_world_3].
  - rewrite !lookup_insert_ne, !lookup_singleton_eq by done. constructor.
    eapply backed_new; [reflexivity|cbn; unfold i64_MAX; lia|reflexivity|reflexivity|apply represents_new].
  - rewrite !lookup_insert_ne, !lookup_singleton_ne by done. constructor.
Qed.

Definition three_requests : list fuse_request :=
  [FOpen 1 1; FWrite 7 [5; 6; 7] 2; FWrite 1 [9] 0; FRead 7 10 1; FGetattr 9 None; FRead 1 100 4090].

Lemma authfs_refines_witness :
  ∃ data st', data = zeros 5000 ∧
    replies (fuse_step 4097 (three_files data)) ({[7 := ml_new]}, local_world data) three_requests =
      ((replies spec_step (three_nodes data) three_requests).1, st') ∧
    mounted (three_files data) st' (replies spec_step (three_nodes data) three_requests).2.
Proof.
  destruct sample_5000 as (data & He & Hs & _). exists data.
  destruct (authfs_refines 4097 (three_files data) ({[7 := ml_new]}, local_world data) (three_nodes data) three_requests
    ltac:(clia) (three_separate data) (three_mounted data Hs)) as (st' & Hr & Hm).
  - repeat constructor; simpl; unfold i64_MAX, u32_MAX; lia.
  - exists st'. split; [exact He|]. split; [exact Hr|exact Hm].
Defined.
End Witness.
