(* ===== verification/AuthfsSafety.v ===== *)
(** * authfs: no answer of the service makes a read panic

    The reads of authfs against a service that answers whatever it likes, short
    and oversized replies and errors included, and against a failing operating
    system.  A panic would take down a FUSE thread; the theorem says that a read
    returns a count or an error, for every file of the pool, in every build
    profile, and that its loops end.  [safe] is the small program logic for
    it: a computation that neither panics nor runs out of fuel, with a
    postcondition for its result. *)

From S2P Require Import Prelude Io Common Crypto FsverityCommon MerkleSpec Content Builder File Verifier VerifierFaults Editor VirtFd FdServer RemoteFile FuseFs Sha256Ref.

(** ** Safe computations *)
Definition safe {W E A} (m : M W E A) (Q : A -> Prop) : Prop :=
  ∀ w, match (m w).1 with Ok a => Q a | Err _ => True | Panic | NoFuel => False end.

Section Safe.
Context {W E : Type}.
Lemma safe_mret {A} (a : A) (Q : A -> Prop) : Q a -> safe (W := W) (E := E) (mret a) Q.
Proof. by intros ? ?. Qed.
Lemma safe_fail {A} (e : E) (Q : A -> Prop) : safe (W := W) (fail e) Q.
Proof. by intros ?. Qed.
Lemma safe_lift {A} (m : outcome E A) a (Q : A -> Prop) : m = Ok a -> Q a -> safe (W := W) (lift m) Q.
Proof. by intros -> ? ?. Qed.
Lemma safe_bind {A B} (m : M W E A) (f : A -> M W E B) P Q :
  safe m P -> (∀ a, P a -> safe (f a) Q) -> safe (m ≫= f) Q.
Proof.
  intros Hm Hf w. rewrite M_bind_eq. specialize (Hm w). destruct (m w) as [[a| | |] w']; [|done..]. by apply Hf.
Qed.
Lemma safe_bind_lift {A B} (m : outcome E A) a (f : A -> M W E B) Q :
  m = Ok a -> safe (f a) Q -> safe (lift m ≫= f) Q.
Proof. intros -> Hf w. by apply Hf. Qed.
Lemma safe_bind_try {A B} (m : outcome E A) (f : A -> M W E B) Q :
  m <> Panic -> m <> NoFuel -> (∀ a, m = Ok a -> safe (f a) Q) -> safe (lift m ≫= f) Q.
Proof. intros Hp Hn Hf w. rewrite M_bind_eq. cbn [lift]. destruct m; try done. by apply Hf. Qed.
Lemma safe_map_errM {E' A} (g : E -> E') (m : M W E A) Q : safe m Q -> safe (map_errM g m) Q.
Proof. intros Hm w. specialize (Hm w). unfold map_errM. by destruct (m w) as [[] ?]. Qed.
Lemma safe_on_snd {T A} (m : M W E A) Q : safe m Q -> safe (W := T * W) (on_snd m) Q.
Proof. intros Hm [t w]. specialize (Hm w). cbn. by destruct (m w). Qed.
Lemma safe_on_fst {T A} (m : M W E A) Q : safe m Q -> safe (W := W * T) (on_fst m) Q.
Proof. intros Hm [w t]. specialize (Hm w). cbn. by destruct (m w). Qed.
Lemma safe_try_fold {A B} (f : A -> B -> M W E A) (I : A -> Prop) (P : B -> Prop) l acc :
  (∀ a b, I a -> P b -> safe (f a b) I) -> Forall P l -> I acc -> safe (try_fold f acc l) I.
Proof.
  intros Hf Hl. revert acc. induction Hl as [|b l Hb _ IH]; intros acc Ha; [by apply safe_mret|].
  cbn [try_fold]. eapply safe_bind; [by apply Hf|]. intros a' Ha'. by apply IH.
Qed.
Lemma safe_impl {A} (m : M W E A) P Q : safe m P -> (∀ a, P a -> Q a) -> safe m Q.
Proof. intros Hm HPQ w. specialize (Hm w). destruct (m w) as [[] ?]; naive_solver. Qed.
End Safe.

(** A reader that never panics on the chunks below a limit, in bytes. *)
Definition reads_safely {W F} `{ReadByChunk W F} (f : F) (limit : Z) : Prop :=
  ∀ i buf, 0 <= i -> i * CHUNK_SIZE < limit -> length buf = CHUNK ->
    safe (read_chunk (W := W) f i buf) (λ r, 0 <= r.1 <= CHUNK_SIZE ∧ length r.2 = CHUNK).

(** ** The readers *)

(** A binder call returns a reply or a status. *)
Class AnswersCalls (W S : Type) `{IVirtFdService W S} := {
  readFile_answers s fd off size : safe (W := W) (readFile s fd off size) (λ _, True);
  readMerkle_answers s fd off size : safe (W := W) (readFsverityMerkleTree s fd off size) (λ _, True)
}.
(** A system call returns a result or an error. *)
Class OsAnswers (W File : Type) `{OsFile W File} :=
  read_exact_answers f n off : 0 <= n -> safe (W := W) (read_exact_at f n off) (λ d, len d = n).

Section Readers.
Context `{Profile} `{StatusDescription} {W : Type}.

Lemma fill_buffer_safe (buf chunk : bytes) :
  length buf = CHUNK ->
  safe (W := W) (E := io_error) (lift (fill_buffer buf chunk)) (λ r, 0 <= r.1 <= CHUNK_SIZE ∧ length r.2 = CHUNK).
Proof.
  intros Hb. eapply safe_lift; [apply fill_buffer_ok|]. cbn. rewrite length_app, length_take, length_drop. clia.
Qed.
Lemma try_i64_cases e x : try_i64 (E := io_error) e x <> Panic ∧ try_i64 (E := io_error) e x <> NoFuel.
Proof. unfold try_i64. by destruct (x <=? i64_MAX). Qed.

Section Service.
Context {S : Type} `{AnswersCalls W S}.
Lemma remote_reads_safely (s : S) fd i buf :
  0 <= i -> i * CHUNK_SIZE < 2 ^ 64 -> length buf = CHUNK ->
  safe (W := W) (remote_read_chunk s fd i buf) (λ r, 0 <= r.1 <= CHUNK_SIZE ∧ length r.2 = CHUNK).
Proof.
  intros Hi H64 Hb. unfold remote_read_chunk. eapply safe_bind_lift; [apply mul_u64_ok; clia|].
  destruct (try_i64_cases (RawOs EOVERFLOW) (i * CHUNK_SIZE)). apply safe_bind_try; [done|done|]. intros off _.
  eapply safe_bind; [apply safe_map_errM, readFile_answers|]. intros chunk _. by apply fill_buffer_safe.
Qed.
Lemma RemoteFileReader_safe (f : RemoteFileReader S) : reads_safely (W := W) f (2 ^ 64).
Proof. intros i buf Hi H64 Hb. by apply remote_reads_safely. Qed.
Lemma RemoteFileEditor_safe (f : RemoteFileEditor S) : reads_safely (W := W) f (2 ^ 64).
Proof. intros i buf Hi H64 Hb. by apply remote_reads_safely. Qed.
Lemma RemoteMerkleTreeReader_safe (f : RemoteMerkleTreeReader S) : reads_safely (W := W) f (2 ^ 64).
Proof.
  intros i buf Hi H64 Hb. unfold read_chunk, RemoteMerkleTreeReader_ReadByChunk, RemoteMerkleTreeReader_read_chunk.
  eapply safe_bind_lift; [apply mul_u64_ok; clia|].
  destruct (try_i64_cases (RawOs EOVERFLOW) (i * CHUNK_SIZE)). apply safe_bind_try; [done|done|]. intros off _.
  eapply safe_bind; [apply safe_map_errM, readMerkle_answers|]. intros chunk _. by apply fill_buffer_safe.
Qed.
End Service.

Lemma LocalFileReader_safe {File} `{OsAnswers W File} (f : LocalFileReader File) :
  lf_size f <= i64_MAX -> reads_safely (W := W) f (2 ^ 64).
Proof.
  intros Hsz i buf Hi H64 Hb. unfold read_chunk, LocalFileReader_ReadByChunk, LocalFileReader_read_chunk.
  eapply safe_bind_lift; [apply mul_u64_ok; clia|]. destruct (i * CHUNK_SIZE >=? lf_size f) eqn:Hge.
  { apply safe_mret. cbn. clia. }
  unfold i64_MAX in Hsz. eapply safe_bind_lift; [apply add_u64_ok; clia|]. eapply safe_bind_lift; [apply sub_u64_ok; clia|].
  eapply safe_bind_lift; [apply debug_assert_ok; clia|].
  eapply safe_bind_lift; [unfold slice_to; apply slice_ok; clia|].
  eapply safe_bind; [apply read_exact_answers; clia|]. intros d Hd. apply safe_mret. cbn.
  rewrite length_app, length_drop. clia.
Qed.
End Readers.

(** ** The verifier *)

(** A step of the walk lies in a page of the tree. *)
Definition step_within (step : Z * Z) : Prop :=
  0 <= step.1 ∧ step.1 * CHUNK_SIZE < 2 ^ 64 ∧ 0 <= step.2 ∧ step.2 + HASH_SIZE <= CHUNK_SIZE.

Lemma level_start_le n m x : 0 < n <= MAX_VERIFIED_SIZE -> level_start n m x <= Z.of_nat m * 2 ^ 42.
Proof.
  intros Hn. induction m as [|m IH]; cbn [level_start]; [lia|].
  pose proof (nodes_bounds n m Hn). destruct (x =? m)%nat; lia.
Qed.
Lemma walk_steps_within n (i : nat) :
  0 < n <= MAX_VERIFIED_SIZE -> Z.of_nat i * CHUNK_SIZE < n ->
  Forall step_within (walk_steps n i (S (Z.to_nat (tree_height n)))).
Proof.
  intros Hn Hi. apply Forall_fmap, Forall_true. intros x. unfold step_of, step_within. cbn [compose fst snd].
  set (m := S (Z.to_nat (tree_height n))).
  assert (Z.of_nat m <= 7) as Hm.
  { unfold m. pose proof (tree_height_nonneg n ltac:(lia)). pose proof (tree_height_le n 6) as Hh.
    change (CHUNK_SIZE * 128 ^ (6 + 1)) with MAX_VERIFIED_SIZE in Hh. lia. }
  pose proof (level_start_nonneg n m x Hn). pose proof (level_start_le n m x Hn). destruct (step_offset i x).
  assert (hash_index i x / PER_PAGE <= i)%nat.
  { rewrite <- hash_index_S. unfold hash_index. apply Nat.Div0.div_le_upper_bound.
    assert (1 <= 128 ^ S x)%nat by (apply Nat.neq_0_lt_0, Nat.pow_nonzero; lia). nia. }
  unfold MAX_VERIFIED_SIZE in Hn. split_and!; clia.
Qed.

Section Verifier.
Context `{Profile} `{Sha256Spec} {W F T : Type} `{ReadByChunk W F} `{ReadByChunk W T}.

Lemma check_step_safe (mt : T) actual step :
  reads_safely (W := W) mt (2 ^ 64) -> step_within step -> safe (W := W) (check_step mt actual step) (λ _, True).
Proof.
  destruct step as [ci off]. intros Hmt (Hc & Hc64 & Ho & Hoh). cbn [fst snd] in *. unfold check_step.
  eapply safe_bind; [apply safe_map_errM, Hmt; [done|done|apply length_zeros]|]. intros [n p] [_ Hp]. cbn [snd] in Hp.
  eapply safe_bind_lift; [apply slice_ok; clia|]. case_bool_decide; [|apply safe_fail].
  eapply safe_lift; [by rewrite hash_full_page|done].
Qed.
Lemma verity_check_safe (mt : T) n (i : nat) chunk :
  reads_safely (W := W) mt (2 ^ 64) -> 0 < n <= MAX_VERIFIED_SIZE -> Z.of_nat i * CHUNK_SIZE < n ->
  len chunk <= CHUNK_SIZE -> safe (W := W) (verity_check chunk (Z.of_nat i) n mt) (λ _, True).
Proof.
  intros Hmt Hn Hi Hc. unfold verity_check.
  eapply safe_bind_lift; [by rewrite (proj2 (Z.eqb_neq _ _)) by lia|].
  eapply safe_bind_lift; [by rewrite hash_with_padding_ok|]. eapply safe_bind_lift; [by apply fsverity_walk_ok|].
  eapply (safe_try_fold _ (λ _, True)); [|by apply walk_steps_within|done].
  intros a b _ Hb. by apply check_step_safe.
Qed.

Lemma VerifiedFileReader_safe (r : VerifiedFileReader F T) :
  reads_safely (W := W) (vf_chunked_file r) (2 ^ 64) -> reads_safely (W := W) (vf_merkle_tree r) (2 ^ 64) ->
  vf_file_size r <= MAX_VERIFIED_SIZE -> reads_safely (W := W) r (vf_file_size r).
Proof.
  intros Hf Hmt Hsz i buf Hi Hlt Hb. unfold read_chunk at 1, VerifiedFileReader_ReadByChunk, VerifiedFileReader_read_chunk.
  unfold MAX_VERIFIED_SIZE in Hsz. eapply safe_bind; [apply Hf; [done|lia|done]|]. intros [n b] [Hn Hl]. cbn [fst snd] in *.
  eapply safe_bind_lift; [unfold slice_to; apply slice_ok; clia|].
  eapply safe_bind; [apply safe_map_errM; rewrite <- (Z2Nat.id i) by done; apply verity_check_safe|].
  - done.
  - unfold MAX_VERIFIED_SIZE. clia.
  - clia.
  - rewrite subrange_0, length_take. clia.
  - intros root _. case_bool_decide; [by apply safe_mret|apply safe_fail].
Qed.
End Verifier.

(** ** The handler *)
Section Handler.
Context `{Profile} {O W T : Type} `{IoWrite O} `{ReadByChunk W T}.
Context (Hout : ∀ data, safe (W := O) (io_write data) (λ _, True)).

Lemma read_step_safe (file : T) limit total o s :
  reads_safely (W := W) file limit -> 0 <= o -> 0 < s -> o mod CHUNK_SIZE + s <= CHUNK_SIZE -> o + s <= limit ->
  0 <= total -> total + s < 2 ^ 64 ->
  safe (W := O * W) (read_chunks_step file total (o, s)) (λ n, n = total + s).
Proof.
  intros Hf Ho Hs Hc Hl Ht H64. pose proof (Z.div_mod o CHUNK_SIZE ltac:(clia)).
  pose proof (Z.div_pos o CHUNK_SIZE Ho ltac:(clia)). pose proof (Z.mod_pos_bound o CHUNK_SIZE ltac:(clia)).
  unfold read_chunks_step, offset_to_chunk_index.
  eapply safe_bind_lift; [apply div_u64_ok; clia|].
  eapply safe_bind; [apply safe_on_snd, Hf; [done|clia|apply length_zeros]|]. intros [n b] [_ Hb]. cbn [snd] in Hb.
  destruct (n <? s); [apply safe_fail|]. eapply safe_bind_lift; [apply rem_u64_ok; clia|].
  eapply safe_bind_lift; [apply add_u64_ok; clia|]. eapply safe_bind_lift; [apply slice_ok; clia|].
  eapply safe_bind; [apply safe_on_fst, Hout|]. intros k _. destruct (k =? s) eqn:Hk; [|apply safe_fail]. cbn [negb].
  eapply safe_lift; [apply add_u64_ok; lia|]. lia.
Qed.
Lemma read_loop_safe (file : T) limit :
  reads_safely (W := W) file limit -> ∀ rem o, 0 <= rem -> ∀ total,
  0 <= o -> o + rem <= limit -> 0 <= total -> total + rem < 2 ^ 64 ->
  safe (W := O * W) (try_fold (read_chunks_step file) total (plan rem o CHUNK_SIZE)) (λ n, n = total + rem).
Proof.
  intros Hf. refine (plan_ind CHUNK_SIZE _ _ _ _); [clia|..].
  - intros o total Ho Hl Ht H64. rewrite plan_nil by lia. apply safe_mret. lia.
  - intros rem o Hrem s Hs IH total Ho Hl Ht H64. destruct (plan_piece_bound rem o Hrem) as [_ Hb]. fold s in Hb.
    rewrite plan_cons by clia. fold s. cbn [try_fold].
    eapply safe_bind; [apply (read_step_safe file limit); [done|lia..]|]. intros n ->.
    eapply safe_impl; [apply IH; lia|]. intros n ->. lia.
Qed.
Lemma read_chunks_safe (file : T) file_size offset size :
  reads_safely (W := W) file file_size -> 0 <= file_size < 2 ^ 64 -> 0 <= offset < 2 ^ 64 -> 0 <= size ->
  safe (W := O * W) (read_chunks file file_size offset size)
    (λ n, n = Z.max 0 (Z.min (offset + size) file_size - offset)).
Proof.
  intros Hf Hsz Ho Hs w. unfold read_chunks, saturating_sub. set (n := Z.min size (Z.max 0 (file_size - offset))).
  rewrite fold_chunks_plan; [|unfold csi_fuel; clia|clia|clia|lia]. destruct (decide (n = 0)) as [Hz|Hz].
  - rewrite Hz, plan_nil by lia. cbn. lia.
  - pose proof (read_loop_safe file file_size Hf n offset ltac:(lia) 0 ltac:(lia) ltac:(lia) ltac:(lia) ltac:(lia) w) as Hl.
    destruct (try_fold _ _ _ _) as [[] ?]; try done. cbn [fst] in *. lia.
Qed.
End Handler.

(** ** Claims *)

(** A count of at most [size] bytes, or an error. *)
Definition returns_within (size : Z) (r : outcome io_error Z) : Prop :=
  match r with Ok n => 0 <= n <= size | Err _ => True | Panic | NoFuel => False end.

Section Read.
Context `{Profile} `{Sha256Spec} `{StatusDescription} {O W File Svc : Type} `{OsAnswers W File} `{AnswersCalls W Svc}
  `{IoWrite O}.

(** What a file of the pool is known to be: sizes of the machine's width, a
    verified file within the verifier's range, a tree for a writable file. *)
Definition config_ok (ts : gmap Z MerkleLeaves) (inode : Z) (c : FileConfig File Svc) : Prop :=
  match c with
  | LocalVerifiedReadonlyFile r n =>
      vf_file_size r = n ∧ 0 <= n <= MAX_VERIFIED_SIZE ∧
      lf_size (vf_chunked_file r) <= i64_MAX ∧ lf_size (vf_merkle_tree r) <= i64_MAX
  | LocalUnverifiedReadonlyFile r n => 0 <= n < 2 ^ 64 ∧ lf_size r <= i64_MAX
  | RemoteVerifiedReadonlyFile r n => vf_file_size r = n ∧ 0 <= n <= MAX_VERIFIED_SIZE
  | RemoteUnverifiedReadonlyFile _ n => 0 <= n < 2 ^ 64
  | RemoteVerifiedNewFile _ => ∃ t, ts !! inode = Some t ∧ 0 <= ml_file_size t < 2 ^ 64
  end.

Lemma reads_safely_below {W' F} `{ReadByChunk W' F} (f : F) limit limit' :
  reads_safely (W := W') f limit -> limit' <= limit -> reads_safely (W := W') f limit'.
Proof. intros Hf Hle i buf Hi Hlt Hb. apply Hf; [done|lia|done]. Qed.
Lemma editor_reads_safely (e : VerifiedFileEditor (RemoteFileEditor Svc)) limit :
  limit <= 2 ^ 64 -> reads_safely (W := MerkleLeaves * W) e limit.
Proof.
  intros Hl i buf Hi Hlt Hb. unfold read_chunk, VerifiedFileEditor_ReadByChunk, VerifiedFileEditor_read_chunk.
  apply safe_on_snd, RemoteFileEditor_safe; [done|lia|done].
Qed.

(** C23: no answer of the service makes a read panic.  Whatever fd_server or the
    operating system answers, a FUSE read of any inode at any offset returns,
    with an error or with the number of bytes from the offset to the end of the
    request or of the file; it does not panic, in any build profile, and its
    loop over the chunks ends. *)
Theorem authfs_read_never_panics (fs : AuthFs File Svc) inode size offset (out : O) ts (w : W) :
  (∀ data, safe (W := O) (io_write data) (λ _, True)) ->
  (∀ c, file_pool fs !! inode = Some c -> config_ok ts inode c) -> 0 <= offset < 2 ^ 64 -> 0 <= size ->
  returns_within size (read fs inode size offset (out, (ts, w))).1.
Proof.
  intros Hout Hcfg Ho Hs. unfold read, AuthFs_get_file_config.
  destruct (file_pool fs !! inode) as [c|] eqn:Hc; [|done]. specialize (Hcfg c eq_refl). erewrite M_bind_lift by reflexivity.
  assert (∀ (T : Type) (HT : ReadByChunk W T) (f : T) n, reads_safely (W := W) f n -> 0 <= n < 2 ^ 64 ->
    returns_within size (without_tree (E := io_error) (read_chunks f n offset size) (out, (ts, w))).1) as Hread.
  { intros T HT f n Hf Hn. pose proof (read_chunks_safe Hout f n offset size Hf Hn Ho Hs (out, w)) as Hr.
    cbn [without_tree]. destruct (read_chunks f n offset size (out, w)) as [[k| | |] [o' w']]; try done. cbn [fst returns_within] in *. lia. }
  destruct c as [r n|r n|r n|r n|e]; cbn [config_ok] in Hcfg; unfold MAX_VERIFIED_SIZE in Hcfg.
  - destruct Hcfg as (<- & Hn & Hf & Ht). apply Hread; [|lia].
    apply VerifiedFileReader_safe; [by apply LocalFileReader_safe..|unfold MAX_VERIFIED_SIZE; lia].
  - destruct Hcfg as [Hn Hf]. apply Hread; [|done]. eapply reads_safely_below; [by apply LocalFileReader_safe|lia].
  - destruct Hcfg as [<- Hn]. apply Hread; [|lia].
    apply VerifiedFileReader_safe; [apply RemoteFileReader_safe|apply RemoteMerkleTreeReader_safe|unfold MAX_VERIFIED_SIZE; lia].
  - apply Hread; [|done]. eapply reads_safely_below; [apply RemoteFileReader_safe|lia].
  - destruct Hcfg as (t & Ht & Hn). assert (on_snd (with_tree inode (VerifiedFileEditor_size e)) (out, (ts, w)) =
      (Ok (ml_file_size t), (out, (ts, w)))) as Hsize by (cbn; rewrite Ht; cbn; do 3 f_equal; by apply insert_id).
    erewrite M_bind_Ok by exact Hsize. cbn [with_tree_out]. rewrite Ht.
    pose proof (read_chunks_safe Hout e (ml_file_size t) offset size (editor_reads_safely e (ml_file_size t) ltac:(lia)) Hn Ho Hs (out, (t, w))) as Hr.
    destruct (read_chunks e _ offset size _) as [[k| | |] [o' [t' w']]]; try done. cbn [fst returns_within] in *. lia.
Qed.
End Read.

Section Witness.
#[local] Existing Instance debug_profile.
#[local] Instance no_description : StatusDescription := λ _, ""%string.

(** A service that answers a read with too many bytes and has no tree. *)
#[local] Instance hostile_service : IVirtFdService (gmap Z bytes) unit := {
  readFile _ _ _ _ := mret (replicate 5000 7);
  readFsverityMerkleTree _ _ _ _ := fail (StatusFrom ERROR_IO);
  readFsveritySignature _ _ := mret [];
  writeFile _ _ _ _ := mret (-1);
  resizeFile _ _ _ := mret ()
}.
#[local] Instance hostile_answers : AnswersCalls (gmap Z bytes) unit.
Proof. by split. Qed.
#[local] Instance mem_answers : OsAnswers (gmap Z bytes) Z.
Proof.
  intros f n off Hn w. destruct (read_exact_at f n off w) as [[d| | |] w'] eqn:Hr; cbn [fst];
    [by eapply read_exact_len|done|..]; cbn in Hr; unfold mem_read in Hr; by case_match.
Qed.
Definition hostile_fs : AuthFs Z unit :=
  AuthFs_new {[2 := RemoteVerifiedReadonlyFile
    {| vf_chunked_file := RemoteFileReader_new () 3; vf_file_size := 5000;
       vf_merkle_tree := RemoteMerkleTreeReader_new () 3; vf_root_hash := [] |} 5000]} 65536.

Lemma hostile_configs c : file_pool hostile_fs !! 2 = Some c -> config_ok ∅ 2 c.
Proof.
  intros Hc. unfold hostile_fs in Hc. cbn [AuthFs_new file_pool] in Hc. apply lookup_singleton_Some in Hc as [_ <-].
  cbn. unfold MAX_VERIFIED_SIZE. lia.
Qed.
Lemma vec_write_safe data : safe (W := bytes) (io_write data) (λ _, True).
Proof. by intros o. Qed.

Lemma authfs_read_never_panics_witness :
  returns_within 100 (read hostile_fs 2 100 4090 ([] : bytes, (∅, ∅ : gmap Z bytes))).1.
Proof.
  exact (authfs_read_never_panics hostile_fs 2 100 4090 ([] : bytes) ∅ (∅ : gmap Z bytes)
    vec_write_safe hostile_configs ltac:(lia) ltac:(lia)).
Defined.
End Witness.
