(* ===== verification/AuthfsMain.v ===== *)
(** * authfs/src/main.rs: options and the pool of files

    The option parsers of the command line and [prepare_file_pool].  What
    structopt collected is the record [Args]; what the service manager has
    registered for fd_server is [binder]; opening local files is the class
    [FileOpen]. *)

From S2P Require Import Prelude Io Service Parse Common Crypto FsverityCommon MerkleSpec Content Builder File Verifier Editor VirtFd FdServer RemoteFile FuseFs Sha256Ref.

(** [anyhow::Error] of this program. *)
Inductive main_error :=
| OptParseInt
| OptInvalid (message : string)
| SignatureError (status : Status)
| MainIo (e : io_error)
| MainFsverity (e : FsverityError).

Record OptionRemoteRoFile := {
  rro_ino : Z; rro_remote_id : Z; rro_file_size : Z; rro_certificate_path : string
}.
Record OptionRemoteRoFileUnverified := { rru_ino : Z; rru_remote_id : Z; rru_file_size : Z }.
Record OptionRemoteRwFile := { rrw_ino : Z; rrw_remote_id : Z }.
Record OptionLocalFileRo := {
  lro_ino : Z; lro_file_path : string; lro_merkle_tree_dump_path : string;
  lro_signature_path : string; lro_certificate_path : string
}.
Record OptionLocalRoFileUnverified := { lru_ino : Z; lru_file_path : string }.

Record Args := {
  mount_point : string;
  remote_ro_file : list OptionRemoteRoFile;
  remote_ro_file_unverified : list OptionRemoteRoFileUnverified;
  remote_new_rw_file : list OptionRemoteRwFile;
  local_ro_file : list OptionLocalFileRo;
  local_ro_file_unverified : list OptionLocalRoFileUnverified;
  arg_debug : bool
}.

(** ** Option parsers *)
Definition invalid_option (option : string) : main_error :=
  OptInvalid (String.append "Invalid option: " option).

(** [strs[i]], which panics out of range. *)
Definition index {E A} (l : list A) (i : nat) : outcome E A := unwrap (l !! i).

Definition parse_remote_ro_file_option (option : string) : outcome main_error OptionRemoteRoFile :=
  let strs := split_on COLON option in
  if negb (len strs =? 4) then Err (invalid_option option)
  else
    s ← index strs 0; ino ← ok_or OptParseInt (parse_u64 s);
    s ← index strs 1; remote_id ← ok_or OptParseInt (parse_i32 s);
    s ← index strs 2; file_size ← ok_or OptParseInt (parse_u64 s);
    cert ← index strs 3;
    Ok {| rro_ino := ino; rro_remote_id := remote_id; rro_file_size := file_size;
          rro_certificate_path := cert |}.

Definition parse_remote_ro_file_unverified_option (option : string)
    : outcome main_error OptionRemoteRoFileUnverified :=
  let strs := split_on COLON option in
  if negb (len strs =? 3) then Err (invalid_option option)
  else
    s ← index strs 0; ino ← ok_or OptParseInt (parse_u64 s);
    s ← index strs 1; remote_id ← ok_or OptParseInt (parse_i32 s);
    s ← index strs 2; file_size ← ok_or OptParseInt (parse_u64 s);
    Ok {| rru_ino := ino; rru_remote_id := remote_id; rru_file_size := file_size |}.

Definition parse_remote_new_rw_file_option (option : string) : outcome main_error OptionRemoteRwFile :=
  let strs := split_on COLON option in
  if negb (len strs =? 2) then Err (invalid_option option)
  else
    s ← index strs 0; ino ← unwrap (parse_u64 s);
    s ← index strs 1; remote_id ← unwrap (parse_i32 s);
    Ok {| rrw_ino := ino; rrw_remote_id := remote_id |}.

Definition parse_local_file_ro_option (option : string) : outcome main_error OptionLocalFileRo :=
  let strs := split_on COLON option in
  if negb (len strs =? 5) then Err (invalid_option option)
  else
    s ← index strs 0; ino ← ok_or OptParseInt (parse_u64 s);
    file_path ← index strs 1;
    merkle_tree_dump_path ← index strs 2;
    signature_path ← index strs 3;
    cert ← index strs 4;
    Ok {| lro_ino := ino; lro_file_path := file_path; lro_merkle_tree_dump_path := merkle_tree_dump_path;
          lro_signature_path := signature_path; lro_certificate_path := cert |}.

Definition parse_local_ro_file_unverified_ro_option (option : string)
    : outcome main_error OptionLocalRoFileUnverified :=
  let strs := split_on COLON option in
  if negb (len strs =? 2) then Err (invalid_option option)
  else
    s ← index strs 0; ino ← ok_or OptParseInt (parse_u64 s);
    file_path ← index strs 1;
    Ok {| lru_ino := ino; lru_file_path := file_path |}.

(** ** The pool *)
Class FileOpen (W File : Type) := {
  file_open : string -> M W io_error File;
  read_to_end : File -> M W io_error bytes
}.

Section Pool.
Context `{Profile} `{Sha256Ffi} `{StatusDescription} {W File Svc : Type} `{OsFile W File} `{FileOpen W File}
  `{IVirtFdService W Svc} (binder : option Svc).

(** [file::get_local_binder]. *)
Definition get_local_binder : outcome main_error Svc := get_interface binder.

Definition new_config_remote_verified_file (remote_id file_size : Z) : M W main_error (FileConfig File Svc) :=
  svc ← lift get_local_binder;
  signature ← map_errM SignatureError (readFsveritySignature svc remote_id);
  reader ← map_errM MainFsverity
    (VerifiedFileReader_new always_succeed (RemoteFileReader_new svc remote_id) file_size signature
       (RemoteMerkleTreeReader_new svc remote_id));
  mret (RemoteVerifiedReadonlyFile reader file_size).

Definition new_config_remote_unverified_file (remote_id file_size : Z) : M W main_error (FileConfig File Svc) :=
  svc ← lift get_local_binder;
  mret (RemoteUnverifiedReadonlyFile (RemoteFileReader_new svc remote_id) file_size).

Definition new_config_local_ro_file (protected_file merkle_tree_dump signature : string)
    : M W main_error (FileConfig File Svc) :=
  file ← map_errM MainIo (file_open protected_file);
  file_size ← map_errM MainIo (metadata_len file);
  file_reader ← map_errM MainIo (LocalFileReader_new file);
  tree_file ← map_errM MainIo (file_open merkle_tree_dump);
  merkle_tree_reader ← map_errM MainIo (LocalFileReader_new tree_file);
  sig_file ← map_errM MainIo (file_open signature);
  sig ← map_errM MainIo (read_to_end sig_file);
  reader ← map_errM MainFsverity
    (VerifiedFileReader_new always_succeed file_reader file_size sig merkle_tree_reader);
  mret (LocalVerifiedReadonlyFile reader file_size).

Definition new_config_local_ro_file_unverified (file_path : string) : M W main_error (FileConfig File Svc) :=
  file ← map_errM MainIo (file_open file_path);
  reader ← map_errM MainIo (LocalFileReader_new file);
  mret (LocalUnverifiedReadonlyFile reader (LocalFileReader_len reader)).

(** The editor, and the leaves it starts with. *)
Definition new_config_remote_new_verified_file (remote_id : Z)
    : M W main_error (FileConfig File Svc * MerkleLeaves) :=
  svc ← lift get_local_binder;
  let '(editor, leaves) := VerifiedFileEditor_new (RemoteFileEditor_new svc remote_id) in
  mret (RemoteVerifiedNewFile editor, leaves).

(** The pool and the leaves of its editors; [file_pool.insert] drops a
    configuration that was there before. *)
Abbreviation pool_state := (gmap Z (FileConfig File Svc) * gmap Z MerkleLeaves)%type.
Definition pool_insert (ino : Z) (config : FileConfig File Svc) (leaves : option MerkleLeaves)
    (p : pool_state) : pool_state :=
  (<[ino := config]> p.1, partial_alter (λ _, leaves) ino p.2).

Definition prepare_file_pool (args : Args) : M W main_error pool_state :=
  p ← try_fold (λ p c,
        config ← new_config_remote_verified_file (rro_remote_id c) (rro_file_size c);
        mret (pool_insert (rro_ino c) config None p)) (∅, ∅) (remote_ro_file args);
  p ← try_fold (λ p c,
        config ← new_config_remote_unverified_file (rru_remote_id c) (rru_file_size c);
        mret (pool_insert (rru_ino c) config None p)) p (remote_ro_file_unverified args);
  p ← try_fold (λ p c,
        '(config, leaves) ← new_config_remote_new_verified_file (rrw_remote_id c);
        mret (pool_insert (rrw_ino c) config (Some leaves) p)) p (remote_new_rw_file args);
  p ← try_fold (λ p c,
        config ← new_config_local_ro_file (lro_file_path c) (lro_merkle_tree_dump_path c) (lro_signature_path c);
        mret (pool_insert (lro_ino c) config None p)) p (local_ro_file args);
  try_fold (λ p c,
    config ← new_config_local_ro_file_unverified (lru_file_path c);
    mret (pool_insert (lru_ino c) config None p)) p (local_ro_file_unverified args).

(** [main]; the message loop comes back only by an error. *)
Definition main `{FuseLib W (AuthFs File Svc)} (args : Args) : M W main_error Empty_set :=
  file_pool ← prepare_file_pool args;
  _ ← map_errM MainIo (loop_forever file_pool.1 (mount_point args));
  fail (OptInvalid "Unexpected exit after the handler loop").

(** ** Invariant: exactly the writable files have leaves, initially empty *)
Definition pool_wf (p : pool_state) : Prop :=
  (∀ ino editor, p.1 !! ino = Some (RemoteVerifiedNewFile editor) -> p.2 !! ino = Some ml_new) ∧
  (∀ ino t, p.2 !! ino = Some t -> ∃ editor, p.1 !! ino = Some (RemoteVerifiedNewFile editor)).

Definition readonly_config (c : FileConfig File Svc) : Prop :=
  ∀ editor, c <> RemoteVerifiedNewFile editor.

Lemma pool_insert_ro ino c p : pool_wf p -> readonly_config c -> pool_wf (pool_insert ino c None p).
Proof.
  intros [Hn Ht] Hc. split; cbn [pool_insert fst snd].
  - intros i e Hi. apply lookup_insert_Some in Hi as [[<- ->]|[Hne Hi]]; [by destruct (Hc e)|].
    rewrite lookup_partial_alter_ne by done. by eapply Hn.
  - intros i t Hi. destruct (decide (i = ino)) as [->|Hne]; [by rewrite lookup_partial_alter_eq in Hi|].
    rewrite lookup_partial_alter_ne in Hi by done. destruct (Ht i t Hi) as [e He]. exists e.
    by rewrite lookup_insert_ne.
Qed.
Lemma pool_insert_rw ino editor p :
  pool_wf p -> pool_wf (pool_insert ino (RemoteVerifiedNewFile editor) (Some ml_new) p).
Proof.
  intros [Hn Ht]. split; cbn [pool_insert fst snd].
  - intros i e Hi. destruct (decide (i = ino)) as [->|Hne]; [by rewrite lookup_partial_alter_eq|].
    rewrite lookup_insert_ne in Hi by done. rewrite lookup_partial_alter_ne by done. by eapply Hn.
  - intros i t Hi. destruct (decide (i = ino)) as [->|Hne]; [exists editor; apply lookup_insert_eq|].
    rewrite lookup_partial_alter_ne in Hi by done. destruct (Ht i t Hi) as [e He]. exists e.
    by rewrite lookup_insert_ne.
Qed.

Lemma try_fold_pool {A} (f : pool_state -> A -> M W main_error pool_state) (l : list A) :
  (∀ p x w p' w', pool_wf p -> f p x w = (Ok p', w') -> pool_wf p') ->
  ∀ p w p' w', pool_wf p -> try_fold f p l w = (Ok p', w') -> pool_wf p'.
Proof.
  intros Hf. induction l as [|x l IH]; intros p w p' w' Hp Hr; cbn [try_fold] in Hr.
  - by injection Hr as <- _.
  - apply M_bind_inv in Hr as (p1 & w1 & Hs1 & Hr). eapply IH; [|exact Hr]. by eapply Hf.
Qed.

Lemma remote_verified_ro id size w c w' :
  new_config_remote_verified_file id size w = (Ok c, w') -> readonly_config c.
Proof. intros Hr. unfold new_config_remote_verified_file in Hr. binv Hr. done. Qed.
Lemma remote_unverified_ro id size w c w' :
  new_config_remote_unverified_file id size w = (Ok c, w') -> readonly_config c.
Proof. intros Hr. unfold new_config_remote_unverified_file in Hr. binv Hr. done. Qed.
Lemma local_ro a b d w c w' : new_config_local_ro_file a b d w = (Ok c, w') -> readonly_config c.
Proof. intros Hr. unfold new_config_local_ro_file in Hr. binv Hr. done. Qed.
Lemma local_unverified_ro a w c w' :
  new_config_local_ro_file_unverified a w = (Ok c, w') -> readonly_config c.
Proof. intros Hr. unfold new_config_local_ro_file_unverified in Hr. binv Hr. done. Qed.

Lemma prepare_file_pool_wf args w p w' :
  prepare_file_pool args w = (Ok p, w') -> pool_wf p.
Proof.
  assert (pool_wf (∅, ∅)) as Hs0 by (split; intros ? ?; cbn [fst snd]; by rewrite lookup_empty).
  intros Hr. unfold prepare_file_pool in Hr.
  apply M_bind_inv in Hr as (p1 & w1 & Hs1 & Hr). apply try_fold_pool in Hs1; [|clear|done].
  2: { intros p x w p' w' Hp Hr. apply M_bind_inv in Hr as (c & w1 & Hc & [= <- _]).
       apply pool_insert_ro; [done|]. by eapply remote_verified_ro. }
  apply M_bind_inv in Hr as (p2 & w2 & Hs2 & Hr). apply try_fold_pool in Hs2; [|clear|done].
  2: { intros p x w p' w' Hp Hr. apply M_bind_inv in Hr as (c & w1 & Hc & [= <- _]).
       apply pool_insert_ro; [done|]. by eapply remote_unverified_ro. }
  apply M_bind_inv in Hr as (p3 & w3 & Hs3 & Hr). apply try_fold_pool in Hs3; [|clear|done].
  2: { intros p x w p' w' Hp Hr. apply M_bind_inv in Hr as ([c lv] & w1 & Hc & [= <- _]).
       apply M_bind_inv in Hc as (svc & w2 & _ & [= <- <- _]). by apply pool_insert_rw. }
  apply M_bind_inv in Hr as (p4 & w4 & Hs4 & Hr). apply try_fold_pool in Hs4; [|clear|done].
  2: { intros p x w p' w' Hp Hr. apply M_bind_inv in Hr as (c & w1 & Hc & [= <- _]).
       apply pool_insert_ro; [done|]. by eapply local_ro. }
  apply try_fold_pool in Hr; [done|clear|done].
  intros p x w p' w' Hp Hr. apply M_bind_inv in Hr as (c & w1 & Hc & [= <- _]).
       apply pool_insert_ro; [done|]. by eapply local_unverified_ro.
Qed.
End Pool.

(** ** Option lemmas *)
Lemma remote_ro_option_ok (ino id size : N) path :
  Z.of_N ino <= u64_MAX -> Z.of_N id <= i32_MAX -> Z.of_N size <= u64_MAX -> no_char COLON path = true ->
  parse_remote_ro_file_option (join COLON [pretty ino; pretty id; pretty size; path]) =
    Ok {| rro_ino := Z.of_N ino; rro_remote_id := Z.of_N id; rro_file_size := Z.of_N size;
          rro_certificate_path := path |}.
Proof.
  intros Hi Hd Hs Hp. unfold parse_remote_ro_file_option.
  rewrite split_join by first [done | repeat constructor; first [done | by apply pretty_N_no_char]].
  cbn. rewrite parse_u64_pretty by done. cbn. rewrite parse_i32_pretty by done. cbn.
  by rewrite parse_u64_pretty by done.
Qed.
Lemma remote_unverified_option_ok (ino id size : N) :
  Z.of_N ino <= u64_MAX -> Z.of_N id <= i32_MAX -> Z.of_N size <= u64_MAX ->
  parse_remote_ro_file_unverified_option (join COLON [pretty ino; pretty id; pretty size]) =
    Ok {| rru_ino := Z.of_N ino; rru_remote_id := Z.of_N id; rru_file_size := Z.of_N size |}.
Proof.
  intros Hi Hd Hs. unfold parse_remote_ro_file_unverified_option.
  rewrite split_join by first [done | repeat constructor; by apply pretty_N_no_char].
  cbn. rewrite parse_u64_pretty by done. cbn. rewrite parse_i32_pretty by done. cbn.
  by rewrite parse_u64_pretty by done.
Qed.
Lemma remote_rw_option_ok (ino id : N) :
  Z.of_N ino <= u64_MAX -> Z.of_N id <= i32_MAX ->
  parse_remote_new_rw_file_option (join COLON [pretty ino; pretty id]) =
    Ok {| rrw_ino := Z.of_N ino; rrw_remote_id := Z.of_N id |}.
Proof.
  intros Hi Hd. unfold parse_remote_new_rw_file_option.
  rewrite split_join by first [done | repeat constructor; by apply pretty_N_no_char].
  cbn. rewrite parse_u64_pretty by done. cbn. by rewrite parse_i32_pretty by done.
Qed.

(** ** Claims *)

(** the pool that authfs starts with is well formed: every writable file
    has a Merkle tree, that of the empty file, and no other inode has one,
    whatever the options, also when several name the same inode. *)
Theorem prepared_pool_wf `{Profile} `{Sha256Ffi} `{StatusDescription} {W File Svc}
    `{OsFile W File} `{FileOpen W File} `{IVirtFdService W Svc} (binder : option Svc) args (w : W) p w' :
  prepare_file_pool binder args w = (Ok p, w') -> pool_wf p.
Proof. apply prepare_file_pool_wf. Qed.

(** the option of a verified remote file is parsed back to the inode, the
    remote descriptor, the size and the certificate path it was printed from. *)
Theorem remote_ro_option_roundtrip (ino id size : N) path :
  Z.of_N ino <= u64_MAX -> Z.of_N id <= i32_MAX -> Z.of_N size <= u64_MAX -> no_char COLON path = true ->
  parse_remote_ro_file_option (join COLON [pretty ino; pretty id; pretty size; path]) =
    Ok {| rro_ino := Z.of_N ino; rro_remote_id := Z.of_N id; rro_file_size := Z.of_N size;
          rro_certificate_path := path |}.
Proof. apply remote_ro_option_ok. Qed.

(** a malformed number in [--remote-new-rw-file] panics, where every other
    option parser returns an error. *)
Theorem rw_option_panics a b :
  no_char COLON a = true -> no_char COLON b = true -> parse_u64 a = None ∨ parse_i32 b = None ->
  parse_remote_new_rw_file_option (join COLON [a; b]) = Panic ∧
  ∀ c, no_char COLON c = true ->
    parse_remote_ro_file_unverified_option (join COLON [a; b; c]) = Err OptParseInt.
Proof.
  intros Ha Hb Hp. unfold parse_remote_new_rw_file_option, parse_remote_ro_file_unverified_option.
  rewrite split_join by (done || by repeat constructor). split.
  - cbn. destruct (parse_u64 a), Hp as [|Hp]; try done; cbn; by rewrite Hp.
  - intros c Hc. rewrite split_join by (done || by repeat constructor).
    cbn. destruct (parse_u64 a), Hp as [|Hp]; try done; cbn; by rewrite Hp.
Qed.

(** no signature is checked.  The authenticator of authfs accepts every
    signature, so for any content of its choice a server that serves the
    matching Merkle tree gets a verified file with that content's root hash,
    whatever bytes it sends as the signature. *)
Theorem any_signature_accepted `{Profile} `{Sha256Spec} `{StatusDescription} {W File Svc}
    `{OsFile W File} `{IVirtFdService W Svc} (svc : Svc) id evil sig (w : W) :
  0 < len evil <= MAX_VERIFIED_SIZE ->
  readFsveritySignature svc id w = (Ok sig, w) ->
  reads_content (RemoteMerkleTreeReader_new svc id) w (dump_of evil) ->
  new_config_remote_verified_file (File := File) (Some svc) id (len evil) w =
    (Ok (RemoteVerifiedReadonlyFile
           {| vf_chunked_file := RemoteFileReader_new svc id; vf_file_size := len evil;
              vf_merkle_tree := RemoteMerkleTreeReader_new svc id;
              vf_root_hash := verifier_root evil |} (len evil)), w).
Proof.
  intros Hn Hs Hrc. unfold new_config_remote_verified_file, map_errM. erewrite M_bind_lift by done.
  rewrite M_bind_eq, Hs. cbn [map_err]. rewrite M_bind_eq.
  by rewrite (new_accepts always_succeed _ sig _ w evil) by done.
Qed.

Section Witness.
#[local] Existing Instance debug_profile.
#[local] Existing Instance mem_ioctl.
#[local] Existing Instance no_description.
#[local] Instance mem_open : FileOpen (gmap Z bytes) Z := {
  file_open _ w := (Ok 9, w);
  read_to_end f w := (Ok (mem_content w f), w)
}.

Definition sample_args : Args :=
  {| mount_point := "/mnt"; remote_ro_file := [];
     remote_ro_file_unverified := [{| rru_ino := 7; rru_remote_id := 3; rru_file_size := 2 |}];
     remote_new_rw_file := [{| rrw_ino := 7; rrw_remote_id := 4 |}];
     local_ro_file := []; local_ro_file_unverified := [{| lru_ino := 8; lru_file_path := "/f" |}];
     arg_debug := false |}.

Lemma prepared_pool_wf_witness :
  ∃ p w', prepare_file_pool (Some sample_pool) sample_args (∅ : gmap Z bytes) = (Ok p, w') ∧ pool_wf p.
Proof.
  eexists _, _. split; [reflexivity|].
  refine (prepared_pool_wf (Some sample_pool) sample_args (∅ : gmap Z bytes) _ _ _). reflexivity.
Defined.

Lemma remote_ro_option_roundtrip_witness :
  parse_remote_ro_file_option (join COLON [pretty 5%N; pretty 10%N; pretty 1234%N; "/path/to/cert"%string]) =
    Ok {| rro_ino := 5; rro_remote_id := 10; rro_file_size := 1234; rro_certificate_path := "/path/to/cert" |}.
Proof.
  refine (remote_ro_option_roundtrip 5 10 1234 "/path/to/cert" _ _ _ eq_refl);
    unfold u64_MAX, i32_MAX; lia.
Defined.

Lemma rw_option_panics_witness :
  parse_remote_new_rw_file_option (join COLON ["x"%string; "1"%string]) = Panic ∧
  ∀ c, no_char COLON c = true ->
    parse_remote_ro_file_unverified_option (join COLON ["x"%string; "1"%string; c]) = Err OptParseInt.
Proof. refine (rw_option_panics "x" "1" eq_refl eq_refl (or_introl eq_refl)). Defined.

(** The server of [tree_pool], with a third file as the signature. *)
Definition signed_pool : FdService Z := {| fd_pool := {[3 := Readonly 3 (Some 4) (Some 5)]} |}.
Lemma any_signature_accepted_witness :
  ∃ evil, evil = zeros 5000 ∧
  new_config_remote_verified_file (File := Z) (Some signed_pool) 3 (len evil) (local_world evil) =
    (Ok (RemoteVerifiedReadonlyFile
           {| vf_chunked_file := RemoteFileReader_new signed_pool 3; vf_file_size := len evil;
              vf_merkle_tree := RemoteMerkleTreeReader_new signed_pool 3;
              vf_root_hash := verifier_root evil |} (len evil)), local_world evil).
Proof.
  destruct sample_5000 as (data & He & Hs & _). exists data. split; [exact He|].
  refine (any_signature_accepted signed_pool 3 data [] (local_world data) Hs _ _).
  - cbn. unfold FdService_readFsveritySignature. erewrite M_bind_lift by reflexivity.
    unfold map_errM. rewrite read_into_buf_ok by (unfold MAX_REQUESTING_DATA; lia). cbn.
    unfold local_world. rewrite !mem_content_insert. by rewrite !decide_False by lia.
  - pose proof (RemoteMerkleTreeReader_reads (RemoteMerkleTreeReader_new signed_pool 3) 3 4 (Some 5)
      (local_world data) eq_refl) as Hr.
    cbn [file_content mem_posix] in Hr. rewrite local_world_4 in Hr. by apply Hr, len_dump.
Defined.
End Witness.
