(* ===== verification/Compos.v ===== *)
(** * compos: pvm_exec, compsvc and compsvc_worker

    The three programs hand file descriptors from the host to a task in the
    VM as command-line strings: pvm_exec starts fd_server and sends the
    metadata to compsvc, compsvc builds the arguments of its worker, the worker
    builds those of authfs and opens the files that authfs exposes.  What clap
    extracted from a command line is a record here, jails and processes are
    parameters.  The theorems follow a descriptor through the whole chain. *)

From S2P Require Import Prelude Io Service Parse Common Crypto FsverityCommon MerkleSpec Content Builder File Verifier Editor VirtFd FdServer RemoteFile FuseFs AuthfsMain.
From Stdlib Require Import Ascii.
#[local] Open Scope Z_scope.

#[local] Infix "+++" := String.append (right associativity, at level 60).

(** ** The AIDL metadata *)
Record InputFdAnnotation := { in_fd : Z; in_file_size : Z }.
Record OutputFdAnnotation := { out_fd : Z }.
Record Metadata := {
  input_fd_annotations : list InputFdAnnotation;
  output_fd_annotations : list OutputFdAnnotation
}.

(** [minijail::Error] as the code distinguishes it. *)
Inductive jail_error := ReturnCode (exit_code : Z) | Killed (signal : Z) | JailOther.

(** The minijail library: a jail, the process it runs (the program, the
    descriptors it keeps, its arguments), its end. *)
Class Minijail (W J : Type) := {
  jail_new : M W jail_error J;
  jail_namespace_vfs : J -> M W jail_error unit;
  jail_run : J -> string -> list Z -> list string -> M W jail_error Z;
  jail_run_remap : J -> string -> list (Z * Z) -> list string -> M W jail_error Z;
  jail_wait : J -> M W jail_error unit;
  jail_kill : J -> M W jail_error unit
}.

(** ** pvm_exec.rs *)
Module PvmExec.

Definition FD_SERVER_BIN : string := "/apex/com.android.virt/bin/fd_server".

(** The arguments of fd_server and the descriptors it inherits. *)
Definition fd_server_command (metadata : Metadata) (debuggable : bool) : list string * list Z :=
  let inheritable_fds := if debuggable then [1; 2] else [] in
  let ro := (λ m, ["--ro-fds"%string; pretty (in_fd m)]) <$> input_fd_annotations metadata in
  let rw := (λ m, ["--rw-fds"%string; pretty (out_fd m)]) <$> output_fd_annotations metadata in
  (FD_SERVER_BIN :: concat ro ++ concat rw,
   inheritable_fds ++ (in_fd <$> input_fd_annotations metadata)
     ++ (out_fd <$> output_fd_annotations metadata)).

(** fcntl(F_GETFD) and fstat(2), which return an errno on failure. *)
Class PvmOs (W : Type) := {
  pvm_fcntl : Z -> M W Z Z;
  fstat_size : Z -> M W Z Z
}.

Inductive pvm_error :=
| PvmParseInt | PvmErrno (errno : Z) | PvmBail (message : string) | PvmJail (e : jail_error)
| PvmBinder (e : Status).

Definition spawn_fd_server {W J} `{Minijail W J} (metadata : Metadata) (debuggable : bool) : M W pvm_error J :=
  let '(args, inheritable_fds) := fd_server_command metadata debuggable in
  jail ← map_errM PvmJail jail_new;
  _pid ← map_errM PvmJail (jail_run jail FD_SERVER_BIN inheritable_fds args);
  mret jail.

Record matches := {
  m_in_fd : list string; m_out_fd : list string; m_args : list string; m_debug : bool
}.
Record Config := { c_args : list string; c_metadata : Metadata; c_debuggable : bool }.

Section Parse.
Context {W : Type} `{PvmOs W}.

Definition is_fd_valid (fd : Z) : M W pvm_error bool :=
  retval ← map_errM PvmErrno (pvm_fcntl fd);
  mret (retval >=? 0).

Definition parse_arg_fd (arg : string) : M W pvm_error Z :=
  fd ← lift (ok_or PvmParseInt (parse_i32 arg));
  valid ← is_fd_valid fd;
  if negb valid then fail (PvmBail ("Bad FD: " +++ pretty fd)) else mret fd.

Definition parse_args (m : matches) : M W pvm_error Config :=
  inputs ← collectM (λ arg,
    fd ← parse_arg_fd arg;
    file_size ← map_errM PvmErrno (fstat_size fd);
    mret {| in_fd := fd; in_file_size := file_size |}) (m_in_fd m);
  outputs ← collectM (λ arg, fd ← parse_arg_fd arg; mret {| out_fd := fd |}) (m_out_fd m);
  mret {| c_args := m_args m;
          c_metadata := {| input_fd_annotations := inputs; output_fd_annotations := outputs |};
          c_debuggable := m_debug m |}.
End Parse.

(** [main]: the value is the exit status.  [service] is what the service manager
    answers for compsvc; the guard ends fd_server when the call is over,
    whatever its outcome. *)
Definition get_local_service {W} (service : option (list string -> Metadata -> M W Status Z))
    : M W pvm_error (list string -> Metadata -> M W Status Z) :=
  lift (unwrap service).

Definition main {W J} `{Minijail W J} `{PvmOs W} (service : option (list string -> Metadata -> M W Status Z))
    (m : matches) : M W pvm_error Z :=
  config ← parse_args m;
  fd_server_jail ← spawn_fd_server (c_metadata config) (c_debuggable config);
  exit_code ← guard (jail_kill fd_server_jail)
    (execute ← get_local_service service;
     map_errM PvmBinder (execute (c_args config) (c_metadata config)));
  if exit_code >? 0 then mret (as_i32 exit_code) else mret 0.

End PvmExec.

(** ** compsvc.rs *)
Module CompSvc.

Definition WORKER_BIN : string := "/system/bin/compsvc_worker".
Definition AUTHFS_MOUNTPOINT : string := "/data/local/tmp/authfs_mnt".
Definition FAILED_TRANSACTION : Z := -129.
Definition UNKNOWN_ERROR : Z := -2147483648.

Record CompService := { worker_bin : string; task_bin : string; debuggable : bool }.

Definition build_worker_args {E} (self : CompService) (args : list string) (metadata : Metadata)
    : outcome E (list string) :=
  let ins := (λ a, ["--in-fd"%string; pretty (in_fd a) +++ ":" +++ pretty (in_file_size a)])
               <$> input_fd_annotations metadata in
  let outs := (λ a, ["--out-fd"%string; pretty (out_fd a)]) <$> output_fd_annotations metadata in
  rest ← slice_from args 1;
  Ok ([WORKER_BIN; "--authfs-root"%string; AUTHFS_MOUNTPOINT] ++ concat ins ++ concat outs
        ++ (if debuggable self then ["--debug"%string] else [])
        ++ ["--"%string] ++ [task_bin self] ++ rest).

Section Service.
Context {W J : Type} `{Minijail W J}.

Definition run_worker_in_jail_and_wait (self : CompService) (args : list string) : M W jail_error unit :=
  jail ← jail_new;
  _ ← jail_namespace_vfs jail;
  let inheritable_fds := if debuggable self then [1; 2] else [] in
  _pid ← jail_run jail (worker_bin self) inheritable_fds args;
  jail_wait jail.

Definition execute (self : CompService) (args : list string) (metadata : Metadata) : M W Status Z :=
  worker_args ← lift (build_worker_args self args metadata);
  r ← tryM (run_worker_in_jail_and_wait self worker_args);
  match r with
  | inr _ => mret 0
  | inl (ReturnCode _) => fail (StatusFrom FAILED_TRANSACTION)
  | inl _ => fail (StatusFrom UNKNOWN_ERROR)
  end.
End Service.

(** What clap extracted from the command line; [task_bin] is required. *)
Record matches := { m_task_bin : string; m_debug : bool }.
Definition parse_args (m : matches) : CompService :=
  {| task_bin := m_task_bin m; worker_bin := WORKER_BIN; debuggable := m_debug m |}.


(** [main]: the service is registered and its threads joined. *)
Definition SERVICE_NAME : string := "compsvc".
Definition new_binder (service : CompService) : CompService := service.
Definition main {W} `{ServiceManager W CompService} (m : matches) : M W string Empty_set :=
  let service := parse_args m in
  _ ← map_errM (λ _, "Failed to register service " +++ SERVICE_NAME)
        (add_service SERVICE_NAME (new_binder service));
  _ ← expectM join_thread_pool;
  fail "Unexpected exit after join_thread_pool"%string.

End CompSvc.

(** ** compsvc_worker.rs *)
Module Worker.

Definition AUTHFS_BIN : string := "/apex/com.android.virt/bin/authfs".
Definition AUTHFS_SETUP_POLL_INTERVAL_MS : Z := 50.
Definition AUTHFS_SETUP_TIMEOUT_MS : Z := 10 * 1000.
Definition FUSE_SUPER_MAGIC : Z := 0x65735546.

Record InFdAnnotation := { wi_fd : Z; wi_file_size : Z }.
Record OutFdAnnotation := { wo_fd : Z }.
Record Config := {
  authfs_root : string; in_fds : list InFdAnnotation; out_fds : list OutFdAnnotation;
  w_args : list string; w_debuggable : bool
}.

(** The arguments of authfs and the descriptors it keeps. *)
Definition authfs_command (config : Config) : list string * list Z :=
  let ins := (λ c, ["--remote-ro-file-unverified"%string;
                    pretty (wi_fd c) +++ ":" +++ pretty (wi_fd c) +++ ":" +++ pretty (wi_file_size c)])
               <$> in_fds config in
  let outs := (λ c, ["--remote-new-rw-file"%string; pretty (wo_fd c) +++ ":" +++ pretty (wo_fd c)])
                <$> out_fds config in
  ([AUTHFS_BIN; authfs_root config] ++ concat ins ++ concat outs,
   if w_debuggable config then [1; 2] else []).

(** statfs(2), the clock (milliseconds) and sleep. *)
Class WorkerOs (W : Type) := {
  statfs_type : string -> M W Z Z;
  elapsed_since : Z -> M W Z Z;
  now : M W Z Z;
  sleep : Z -> M W Z unit
}.

Inductive worker_error :=
| WErrno (errno : Z) | WParseInt | WBail (message : string) | WJail (e : jail_error) | WIo (e : io_error).

Definition spawn_authfs {W J} `{Minijail W J} (config : Config) : M W worker_error J :=
  jail ← map_errM WJail jail_new;
  let '(args, preserve_fds) := authfs_command config in
  _pid ← map_errM WJail (jail_run jail AUTHFS_BIN preserve_fds args);
  mret jail.

Section Wait.
Context {W : Type} `{WorkerOs W}.

Definition is_fuse (path : string) : M W worker_error bool :=
  ty ← map_errM WErrno (statfs_type path);
  mret (ty =? FUSE_SUPER_MAGIC).

Fixpoint wait_loop (fuel : nat) (root : string) (start_time : Z) : M W worker_error unit :=
  match fuel with
  | O => lift NoFuel
  | S fuel' =>
      ready ← is_fuse root;
      if (ready : bool) then mret ()
      else
        elapsed ← map_errM WErrno (elapsed_since start_time);
        if elapsed >? AUTHFS_SETUP_TIMEOUT_MS then fail (WBail "Time out mounting authfs")
        else
          _ ← map_errM WErrno (sleep AUTHFS_SETUP_POLL_INTERVAL_MS);
          wait_loop fuel' root start_time
  end.
Definition wait_until_authfs_ready (fuel : nat) (root : string) : M W worker_error unit :=
  start_time ← map_errM WErrno now;
  wait_loop fuel root start_time.
End Wait.

(** [OpenOptions::new().read(true).write(writable).open(path)] and [as_raw_fd]. *)
Class WorkerFiles (W File : Type) := {
  open_path : string -> bool -> M W io_error File;
  as_raw_fd : File -> Z
}.

Section Task.
Context {W J File : Type} `{Minijail W J} `{WorkerFiles W File}.

Definition open_authfs_file (root : string) (basename : Z) (writable : bool) : M W io_error File :=
  open_path (root +++ "/" +++ pretty basename) writable.

(** Every file, with the descriptor number the task sees it under. *)
Definition open_authfs_files_for_mapping (config : Config) : M W io_error (list (File * Z)) :=
  ins ← collectM (λ conf, f ← open_authfs_file (authfs_root config) (wi_fd conf) false; mret (f, wi_fd conf))
          (in_fds config);
  outs ← collectM (λ conf, f ← open_authfs_file (authfs_root config) (wo_fd conf) true; mret (f, wo_fd conf))
          (out_fds config);
  mret (ins ++ outs).

Definition spawn_jailed_task (config : Config) (fd_mapping : list (File * Z)) : M W worker_error J :=
  jail ← map_errM WJail jail_new;
  let preserve_fds := ((λ '(f, id), (as_raw_fd f, id)) <$> fd_mapping)
                        ++ (if w_debuggable config then [(1, 1); (2, 2)] else []) in
  arg0 ← lift (unwrap (w_args config !! 0%nat));
  _pid ← map_errM WJail (jail_run_remap jail arg0 preserve_fds (w_args config));
  mret jail.
End Task.

Record matches := {
  m_authfs_root : string; m_in_fd : list string; m_out_fd : list string;
  m_args : list string; m_debug : bool
}.

(** [str::find(':')] with [split_at]: the text before and from the colon on. *)
Fixpoint split_at_colon (s : string) : option (string * string) :=
  match s with
  | EmptyString => None
  | String c s' =>
      if Ascii.eqb c COLON then Some (EmptyString, s)
      else '(a, b) ← split_at_colon s'; Some (String c a, b)
  end.
(** [&s[1..]]. *)
Definition tail_1 {E} (s : string) : outcome E string :=
  match s with EmptyString => Panic | String _ s' => Ok s' end.

Definition parse_in_fd (arg : string) : outcome worker_error InFdAnnotation :=
  match split_at_colon arg with
  | Some (fd, size) =>
      fd ← ok_or WParseInt (parse_i32 fd);
      size ← tail_1 size;
      file_size ← ok_or WParseInt (parse_u64 size);
      Ok {| wi_fd := fd; wi_file_size := file_size |}
  | None => Err (WBail ("Invalid argument: " +++ arg))
  end.

Definition parse_args (m : matches) : outcome worker_error Config :=
  ins ← try_map parse_in_fd (m_in_fd m);
  outs ← try_map (λ arg, fd ← ok_or WParseInt (parse_i32 arg); Ok {| wo_fd := fd |}) (m_out_fd m);
  Ok {| authfs_root := m_authfs_root m; in_fds := ins; out_fds := outs; w_args := m_args m;
        w_debuggable := m_debug m |}.

(** The exit status of the worker, given how the task ended. *)
Definition exit_of (jail_result : jail_error + unit) : outcome worker_error Z :=
  match jail_result with
  | inr _ => Ok 0
  | inl (ReturnCode exit_code) => Ok (as_i32 exit_code)
  | inl _ => Err (WBail "Unexpected minijail error")
  end.

(** [main]; the guard ends authfs when the task is over or could not start. *)
Definition main {W J File} `{Minijail W J} `{WorkerOs W} `{WorkerFiles W File} (fuel : nat) (m : matches)
    : M W worker_error Z :=
  config ← lift (parse_args m);
  authfs_jail ← spawn_authfs config;
  jail_result ← guard (jail_kill authfs_jail)
    (_ ← wait_until_authfs_ready fuel (authfs_root config);
     fd_mapping ← map_errM WIo (open_authfs_files_for_mapping config);
     jail ← spawn_jailed_task config fd_mapping;
     tryM (jail_wait jail));
  lift (exit_of jail_result).

End Worker.

(** ** Reading a command line back *)

(** The strings that follow a flag, up to the [--] that ends the options. *)
Fixpoint values_after (flag : string) (args : list string) : list string :=
  match args with
  | [] => []
  | a :: rest =>
      if String.eqb a "--" then []
      else if String.eqb a flag then
             match rest with
             | v :: rest' => v :: values_after flag rest'
             | [] => []
             end
      else values_after flag rest
  end.
Fixpoint has_flag (flag : string) (args : list string) : bool :=
  match args with
  | [] => false
  | a :: rest => if String.eqb a "--" then false else String.eqb a flag || has_flag flag rest
  end.
Fixpoint after_dashes (args : list string) : list string :=
  match args with
  | [] => []
  | a :: rest => if String.eqb a "--" then rest else after_dashes rest
  end.

(** A string that is not an option. *)
Definition plain (s : string) : bool :=
  match s with String c _ => negb (Ascii.eqb c "-") | EmptyString => true end.

#[local] Arguments String.eqb : simpl never.
(** Decides the comparisons of closed strings in the goal. *)
Ltac eval_eqb :=
  repeat match goal with
  | |- context [String.eqb ?a ?b] =>
      let v := eval vm_compute in (String.eqb a b) in
      first [constr_eq v true | constr_eq v false]; change (String.eqb a b) with v
  end; cbv iota; cbn [orb].

Section CommandLines.

Lemma plain_not_flag s c rest : plain s = true -> String.eqb s (String "-" (String c rest)) = false.
Proof. intros Hp. apply String.eqb_neq. by intros ->. Qed.
Lemma plain_not_dashes s : plain s = true -> String.eqb s "--" = false.
Proof. apply plain_not_flag. Qed.

(** Pairs of a flag and plain values, then other words. *)
Lemma values_after_same {A} (f : A -> string) flag (l : list A) rest :
  String.eqb flag "--" = false -> 
  values_after flag (concat ((λ x, [flag; f x]) <$> l) ++ rest) = (f <$> l) ++ values_after flag rest.
Proof.
  intros Hf. induction l as [|x l IH]; [done|]. cbn [fmap list_fmap concat app values_after].
  by rewrite Hf, String.eqb_refl, IH.
Qed.
Lemma values_after_other {A} (f : A -> string) flag flag' (l : list A) rest :
  String.eqb flag "--" = false -> String.eqb flag flag' = false -> (∃ c r, flag' = String "-" (String c r)) ->
  Forall (λ x, plain (f x) = true) l ->
  values_after flag' (concat ((λ x, [flag; f x]) <$> l) ++ rest) = values_after flag' rest.
Proof.
  intros Hf Hff (c & r & ->) Hl. induction Hl as [|x l Hx Hl IH]; [done|].
  cbn [fmap list_fmap concat app values_after].
  by rewrite Hf, Hff, plain_not_dashes, plain_not_flag, IH.
Qed.
Lemma has_flag_skip {A} (f : A -> string) flag flag' (l : list A) rest :
  String.eqb flag "--" = false -> String.eqb flag flag' = false -> (∃ c r, flag' = String "-" (String c r)) ->
  Forall (λ x, plain (f x) = true) l ->
  has_flag flag' (concat ((λ x, [flag; f x]) <$> l) ++ rest) = has_flag flag' rest.
Proof.
  intros Hf Hff (c & r & ->) Hl. induction Hl as [|x l Hx Hl IH]; [done|].
  cbn [fmap list_fmap concat app has_flag].
  by rewrite Hf, Hff, plain_not_dashes, plain_not_flag, IH.
Qed.
Lemma after_dashes_skip {A} (f : A -> string) flag (l : list A) rest :
  String.eqb flag "--" = false -> Forall (λ x, plain (f x) = true) l ->
  after_dashes (concat ((λ x, [flag; f x]) <$> l) ++ rest) = after_dashes rest.
Proof.
  intros Hf Hl. induction Hl as [|x l Hx Hl IH]; [done|].
  cbn [fmap list_fmap concat app after_dashes]. by rewrite Hf, plain_not_dashes, IH.
Qed.
End CommandLines.

(** ** Printed descriptors *)
Lemma digits_plain s t : digits_only s = true -> s <> EmptyString -> plain (s +++ t) = true.
Proof.
  intros Hs Hne. destruct s as [|c s]; [done|]. apply digits_only_head in Hs as [d Hd]. simpl.
  destruct (Ascii.eqb c "-") eqn:E; [|done]. apply Ascii.eqb_eq in E as ->. discriminate Hd.
Qed.
Lemma string_app_nil s : s +++ EmptyString = s.
Proof. induction s as [|c s IH]; [done|]. exact (f_equal (String c) IH). Qed.
Lemma pretty_plain (z : Z) t : 0 <= z -> plain (pretty z +++ t) = true.
Proof.
  intros Hz. rewrite pretty_Z_nonneg by done. apply digits_plain; [apply pretty_N_digits|apply pretty_N_nonempty].
Qed.
Lemma pretty_plain_nil (z : Z) : 0 <= z -> plain (pretty z) = true.
Proof. intros Hz. rewrite <- (string_app_nil (pretty z)). by apply pretty_plain. Qed.

Lemma split_at_colon_app s t :
  no_char COLON s = true -> Worker.split_at_colon (s +++ String COLON t) = Some (s, String COLON t).
Proof.
  induction s as [|c s IH]; cbn [no_char]; intros Hs; [done|].
  apply andb_true_iff in Hs as [Hc Hs]. apply negb_true_iff in Hc.
  change (String c s +++ ?t) with (String c (s +++ t)). cbn [Worker.split_at_colon].
  rewrite Hc. by rewrite IH.
Qed.

Definition in_range_input (a : InputFdAnnotation) : Prop :=
  0 <= in_fd a <= i32_MAX ∧ 0 <= in_file_size a <= u64_MAX.
Definition in_range_output (a : OutputFdAnnotation) : Prop := 0 <= out_fd a <= i32_MAX.

Lemma parse_i32_Z z : 0 <= z <= i32_MAX -> parse_i32 (pretty z) = Some z.
Proof.
  intros Hz. rewrite pretty_Z_nonneg, parse_i32_pretty by (rewrite ?Z2N.id; lia). by rewrite Z2N.id by lia.
Qed.
Lemma parse_u64_Z z : 0 <= z <= u64_MAX -> parse_u64 (pretty z) = Some z.
Proof.
  intros Hz. rewrite pretty_Z_nonneg, parse_u64_pretty by (rewrite ?Z2N.id; lia). by rewrite Z2N.id by lia.
Qed.

Lemma parse_in_fd_ok a :
  in_range_input a ->
  Worker.parse_in_fd (pretty (in_fd a) +++ ":" +++ pretty (in_file_size a)) =
    Ok {| Worker.wi_fd := in_fd a; Worker.wi_file_size := in_file_size a |}.
Proof.
  intros [Hfd Hsz]. unfold Worker.parse_in_fd. change (":" +++ ?s) with (String COLON s).
  rewrite split_at_colon_app.
  2: { rewrite pretty_Z_nonneg by lia. by apply pretty_N_no_char. }
  rewrite parse_i32_Z by done. cbn. by rewrite parse_u64_Z by done.
Qed.

(** ** compsvc to its worker *)
Definition worker_matches (args : list string) : Worker.matches :=
  {| Worker.m_authfs_root := default EmptyString (values_after "--authfs-root" args !! 0%nat);
     Worker.m_in_fd := values_after "--in-fd" args;
     Worker.m_out_fd := values_after "--out-fd" args;
     Worker.m_args := after_dashes args;
     Worker.m_debug := has_flag "--debug" args |}.

Definition worker_config (self : CompSvc.CompService) (rest : list string) (metadata : Metadata)
    : Worker.Config :=
  {| Worker.authfs_root := CompSvc.AUTHFS_MOUNTPOINT;
     Worker.in_fds := (λ a, {| Worker.wi_fd := in_fd a; Worker.wi_file_size := in_file_size a |})
                        <$> input_fd_annotations metadata;
     Worker.out_fds := (λ a, {| Worker.wo_fd := out_fd a |}) <$> output_fd_annotations metadata;
     Worker.w_args := CompSvc.task_bin self :: rest;
     Worker.w_debuggable := CompSvc.debuggable self |}.

Lemma try_map_fmap {E A B C} (f : B -> outcome E C) (g : A -> B) (h : A -> C) (l : list A) :
  (∀ x, x ∈ l -> f (g x) = Ok (h x)) -> try_map f (g <$> l) = Ok (h <$> l).
Proof.
  intros Hf. induction l as [|x l IH]; [done|]. cbn [fmap list_fmap try_map].
  rewrite Hf by (by apply list_elem_of_here). rewrite bind_Ok, IH; [done|].
  intros y Hy. apply Hf. by apply list_elem_of_further.
Qed.

(** The values of [--in-fd] and [--out-fd]. *)
Definition in_value (a : InputFdAnnotation) : string := pretty (in_fd a) +++ ":" +++ pretty (in_file_size a).
Definition out_value (a : OutputFdAnnotation) : string := pretty (out_fd a).

Section WorkerArgs.
Context (self : CompSvc.CompService) (rest : list string) (metadata : Metadata).
Context (Hin : Forall in_range_input (input_fd_annotations metadata))
        (Hout : Forall in_range_output (output_fd_annotations metadata)).

Abbreviation tail_args := ((if CompSvc.debuggable self then ["--debug"%string] else [])
        ++ ["--"%string] ++ [CompSvc.task_bin self] ++ rest).
Abbreviation built :=
  ([CompSvc.WORKER_BIN; "--authfs-root"%string; CompSvc.AUTHFS_MOUNTPOINT]
     ++ concat ((λ a, ["--in-fd"%string; in_value a]) <$> input_fd_annotations metadata)
     ++ concat ((λ a, ["--out-fd"%string; out_value a]) <$> output_fd_annotations metadata) ++ tail_args).

Lemma in_values_plain : Forall (λ a, plain (in_value a) = true) (input_fd_annotations metadata).
Proof. eapply Forall_impl; [exact Hin|]. intros a [Ha _]. apply pretty_plain. lia. Qed.
Lemma out_values_plain : Forall (λ a, plain (out_value a) = true) (output_fd_annotations metadata).
Proof. eapply Forall_impl; [exact Hout|]. intros a Ha. apply pretty_plain_nil. unfold in_range_output in Ha. lia. Qed.

Lemma worker_matches_built :
  worker_matches built =
    {| Worker.m_authfs_root := CompSvc.AUTHFS_MOUNTPOINT;
       Worker.m_in_fd := in_value <$> input_fd_annotations metadata;
       Worker.m_out_fd := out_value <$> output_fd_annotations metadata;
       Worker.m_args := CompSvc.task_bin self :: rest;
       Worker.m_debug := CompSvc.debuggable self |}.
Proof.
  pose proof in_values_plain as Hi. pose proof out_values_plain as Ho.
  assert (∀ flag, flag <> "--"%string -> flag <> "--debug"%string -> values_after flag tail_args = []) as Ht.
  { intros flag Hf1 Hf2. destruct (CompSvc.debuggable self); cbn [app values_after]; eval_eqb; [|done].
    destruct (String.eqb_spec "--debug" flag); [by subst|done]. }
  unfold worker_matches. cbn [app]. f_equal.
  - cbn [values_after after_dashes has_flag]. eval_eqb. rewrite (values_after_same in_value "--in-fd") by done.
    rewrite (values_after_other out_value "--out-fd" "--in-fd") by (done || by do 2 eexists).
    rewrite Ht by done. by rewrite app_nil_r.
  - cbn [values_after after_dashes has_flag]. eval_eqb. rewrite (values_after_other in_value "--in-fd" "--out-fd") by (done || by do 2 eexists).
    rewrite (values_after_same out_value "--out-fd") by done. rewrite Ht by done. by rewrite app_nil_r.
  - cbn [values_after after_dashes has_flag]. eval_eqb. rewrite (after_dashes_skip in_value "--in-fd") by done.
    rewrite (after_dashes_skip out_value "--out-fd") by done. by destruct (CompSvc.debuggable self); cbn [app after_dashes has_flag]; eval_eqb.
  - cbn [values_after after_dashes has_flag]. eval_eqb. rewrite (has_flag_skip in_value "--in-fd") by (done || by do 2 eexists).
    rewrite (has_flag_skip out_value "--out-fd") by (done || by do 2 eexists).
    by destruct (CompSvc.debuggable self); cbn [app after_dashes has_flag]; eval_eqb.
Qed.

Lemma build_worker_args_ok {E} a0 :
  CompSvc.build_worker_args (E := E) self (a0 :: rest) metadata = Ok built.
Proof.
  unfold CompSvc.build_worker_args, slice_from. rewrite slice_ok by (cbn [length]; lia). rewrite bind_Ok.
  do 8 f_equal. unfold subrange. change (Z.to_nat 1) with 1%nat. cbn [drop]. apply take_ge. cbn [length]. lia.
Qed.

Lemma worker_parse_built :
  Worker.parse_args (worker_matches built) = Ok (worker_config self rest metadata).
Proof.
  rewrite worker_matches_built. unfold Worker.parse_args. cbn [Worker.m_in_fd Worker.m_out_fd].
  rewrite (try_map_fmap _ _ (λ a, {| Worker.wi_fd := in_fd a; Worker.wi_file_size := in_file_size a |})).
  2: { intros a Ha. apply parse_in_fd_ok. by eapply Forall_forall. }
  rewrite bind_Ok. rewrite (try_map_fmap _ _ (λ a, {| Worker.wo_fd := out_fd a |})); [done|].
  intros a Ha. assert (in_range_output a) as Hr by (by eapply Forall_forall).
  unfold out_value. by rewrite parse_i32_Z by exact Hr.
Qed.
End WorkerArgs.

(** ** The worker to authfs *)
Section AuthfsArgs.
Context (config : Worker.Config).
Context (Hin : Forall (λ c, 0 <= Worker.wi_fd c <= i32_MAX ∧ 0 <= Worker.wi_file_size c <= u64_MAX)
                 (Worker.in_fds config))
        (Hout : Forall (λ c, 0 <= Worker.wo_fd c <= i32_MAX) (Worker.out_fds config))
        (Hroot : plain (Worker.authfs_root config) = true).

Lemma authfs_ro_values :
  try_map parse_remote_ro_file_unverified_option
    (values_after "--remote-ro-file-unverified" (Worker.authfs_command config).1) =
  Ok ((λ c, {| rru_ino := Worker.wi_fd c; rru_remote_id := Worker.wi_fd c;
               rru_file_size := Worker.wi_file_size c |}) <$> Worker.in_fds config).
Proof.
  unfold Worker.authfs_command. cbn [fst app values_after]. eval_eqb. rewrite plain_not_dashes, plain_not_flag by done.
  rewrite (values_after_same (λ c, pretty (Worker.wi_fd c) +++ ":" +++ pretty (Worker.wi_fd c)
             +++ ":" +++ pretty (Worker.wi_file_size c))) by done.
  rewrite <- (app_nil_r (concat _)), (values_after_other (λ c, pretty (Worker.wo_fd c) +++ ":"
             +++ pretty (Worker.wo_fd c)) "--remote-new-rw-file").
  2-3: done. 2: by do 2 eexists.
  2: { eapply Forall_impl; [exact Hout|]. intros c Hc. apply pretty_plain. cbn in Hc. lia. }
  cbn [values_after]. rewrite app_nil_r. apply try_map_fmap. intros c Hc.
  eapply Forall_forall in Hin as [Hfd Hsz]; [|exact Hc].
  assert (∀ z, 0 <= z -> pretty z = pretty (Z.to_N z)) as Hp by (intros; by apply pretty_Z_nonneg).
  rewrite !Hp by lia.
  pose proof (remote_unverified_option_ok (Z.to_N (Worker.wi_fd c)) (Z.to_N (Worker.wi_fd c))
    (Z.to_N (Worker.wi_file_size c))) as Hok.
  rewrite !Z2N.id in Hok by lia. cbn [join] in Hok. apply Hok; unfold u64_MAX, i32_MAX in *; lia.
Qed.

Lemma authfs_rw_values :
  try_map parse_remote_new_rw_file_option
    (values_after "--remote-new-rw-file" (Worker.authfs_command config).1) =
  Ok ((λ c, {| rrw_ino := Worker.wo_fd c; rrw_remote_id := Worker.wo_fd c |}) <$> Worker.out_fds config).
Proof.
  unfold Worker.authfs_command. cbn [fst app values_after]. eval_eqb. rewrite plain_not_dashes, plain_not_flag by done.
  rewrite (values_after_other (λ c, pretty (Worker.wi_fd c) +++ ":" +++ pretty (Worker.wi_fd c)
             +++ ":" +++ pretty (Worker.wi_file_size c)) "--remote-ro-file-unverified").
  2-3: done. 2: by do 2 eexists.
  2: { eapply Forall_impl; [exact Hin|]. intros c [Hc _]. apply pretty_plain. lia. }
  rewrite <- (app_nil_r (concat _)), (values_after_same (λ c, pretty (Worker.wo_fd c) +++ ":"
             +++ pretty (Worker.wo_fd c))) by done.
  cbn [values_after]. rewrite app_nil_r. apply try_map_fmap. intros c Hc.
  eapply Forall_forall in Hout as Hfd; [|exact Hc]. cbn in Hfd.
  rewrite !pretty_Z_nonneg by lia.
  pose proof (remote_rw_option_ok (Z.to_N (Worker.wo_fd c)) (Z.to_N (Worker.wo_fd c))) as Hok.
  rewrite !Z2N.id in Hok by lia. cbn [join] in Hok. apply Hok; unfold u64_MAX, i32_MAX in *; lia.
Qed.
End AuthfsArgs.

(** ** Waiting for authfs *)

(** What the loop relies on: a clock that does not run backwards and that a
    sleep advances by at least its duration; system calls return. *)
Class WorkerClock (W : Type) `{Worker.WorkerOs W} := {
  clock : W -> Z;
  now_clock w : Worker.now w = (Ok (clock w), w);
  elapsed_clock s w : Worker.elapsed_since s w = (Ok (clock w - s), w);
  sleep_clock d w : 0 <= d -> ∃ w', Worker.sleep d w = (Ok (), w') ∧ clock w + d <= clock w';
  statfs_clock p w r w' : Worker.statfs_type p w = (r, w') -> r <> NoFuel ∧ r <> Panic ∧ clock w <= clock w'
}.

Section WaitLemmas.
Context {W : Type} `{WorkerClock W}.

(** After [k] polls at least [50 k] milliseconds have passed. *)
Lemma wait_loop_ends fuel root start (w : W) :
  Worker.AUTHFS_SETUP_TIMEOUT_MS + 2 * Worker.AUTHFS_SETUP_POLL_INTERVAL_MS
    <= clock w - start + Z.of_nat fuel * Worker.AUTHFS_SETUP_POLL_INTERVAL_MS ->
  (0 < fuel)%nat ->
  ∃ r w', Worker.wait_loop fuel root start w = (r, w') ∧ r <> NoFuel ∧ r <> Panic.
Proof.
  unfold Worker.AUTHFS_SETUP_TIMEOUT_MS, Worker.AUTHFS_SETUP_POLL_INTERVAL_MS.
  revert w. induction fuel as [|fuel IH]; intros w Hc Hf; [lia|]. cbn [Worker.wait_loop].
  unfold Worker.is_fuse, map_errM. rewrite !M_bind_eq.
  destruct (Worker.statfs_type root w) as [r1 w1] eqn:Hs. apply statfs_clock in Hs as (Hn & Hp & Hc1).
  destruct r1 as [ty|e| |]; cbn; [|by do 2 eexists|done|done].
  destruct (ty =? _); [by do 2 eexists|]. rewrite M_bind_eq, elapsed_clock. cbn [map_err].
  destruct (clock w1 - start >? Worker.AUTHFS_SETUP_TIMEOUT_MS) eqn:Ht; [by do 2 eexists|].
  rewrite Z.gtb_ltb in Ht. apply Z.ltb_ge in Ht. unfold Worker.AUTHFS_SETUP_TIMEOUT_MS in Ht.
  rewrite M_bind_eq. unfold Worker.AUTHFS_SETUP_POLL_INTERVAL_MS.
  destruct (sleep_clock 50 w1 ltac:(lia)) as (w2 & -> & Hc2). cbn [map_err].
  apply IH; lia.
Qed.
End WaitLemmas.

(** ** Claims *)

(** the command line that compsvc builds for its worker is read back to
    the metadata of the request: every input descriptor with its size, every
    output descriptor, the debug flag, and as the command to run the task of
    the service followed by the client's arguments; the client's own program
    name is not used. *)
Theorem worker_args_roundtrip (self : CompSvc.CompService) a0 rest metadata :
  Forall in_range_input (input_fd_annotations metadata) ->
  Forall in_range_output (output_fd_annotations metadata) ->
  ∃ args, CompSvc.build_worker_args (E := Status) self (a0 :: rest) metadata = Ok args ∧
    Worker.parse_args (worker_matches args) = Ok (worker_config self rest metadata).
Proof.
  intros Hin Hout. eexists. split; [apply build_worker_args_ok|by apply worker_parse_built].
Qed.

(** a descriptor keeps its number from the request to authfs.  The
    options that the worker builds for authfs parse to pool entries whose
    inode and remote descriptor are the descriptor of the request, with its
    size; so the file that the task opens by that number is served from the
    same descriptor of fd_server. *)
Theorem authfs_args_roundtrip (config : Worker.Config) :
  Forall (λ c, 0 <= Worker.wi_fd c <= i32_MAX ∧ 0 <= Worker.wi_file_size c <= u64_MAX)
    (Worker.in_fds config) ->
  Forall (λ c, 0 <= Worker.wo_fd c <= i32_MAX) (Worker.out_fds config) ->
  plain (Worker.authfs_root config) = true ->
  try_map parse_remote_ro_file_unverified_option
    (values_after "--remote-ro-file-unverified" (Worker.authfs_command config).1) =
    Ok ((λ c, {| rru_ino := Worker.wi_fd c; rru_remote_id := Worker.wi_fd c;
                 rru_file_size := Worker.wi_file_size c |}) <$> Worker.in_fds config) ∧
  try_map parse_remote_new_rw_file_option
    (values_after "--remote-new-rw-file" (Worker.authfs_command config).1) =
    Ok ((λ c, {| rrw_ino := Worker.wo_fd c; rrw_remote_id := Worker.wo_fd c |}) <$> Worker.out_fds config).
Proof. intros Hin Hout Hroot. split; [by apply authfs_ro_values|by apply authfs_rw_values]. Qed.

(** waiting for the authfs mount ends: with a clock that sleeps advance,
    202 polls are enough for the ten-second limit at one poll every 50 ms;
    the loop then returned or reported the timeout. *)
Theorem wait_until_authfs_ready_ends {W} `{WorkerClock W} root (w : W) :
  ∃ r w', Worker.wait_until_authfs_ready 202 root w = (r, w') ∧ r <> NoFuel ∧ r <> Panic.
Proof.
  unfold Worker.wait_until_authfs_ready, map_errM. rewrite M_bind_eq, now_clock. cbn [map_err].
  apply wait_loop_ends; [|lia].
  unfold Worker.AUTHFS_SETUP_TIMEOUT_MS, Worker.AUTHFS_SETUP_POLL_INTERVAL_MS. lia.
Qed.

(** compsvc never returns an exit code: a task that fails is a failed
    transaction, and the only successful reply is 0, although the interface
    documents the exit code of the program. *)
Theorem execute_reports_only_zero {W J} `{Minijail W J} self args metadata (w : W) n w' :
  CompSvc.execute self args metadata w = (Ok n, w') -> n = 0.
Proof.
  unfold CompSvc.execute. intros Hr. apply M_bind_inv in Hr as (wargs & w1 & _ & Hr).
  apply M_bind_inv in Hr as ([[c|s|]|[]] & w2 & _ & Hr); unfold fail, mret, M_ret in Hr; by simplify_eq.
Qed.

(** a request without arguments panics the service: the slice that skips
    the program name is out of range for an empty list. *)
Theorem empty_args_panic {E} self metadata :
  CompSvc.build_worker_args (E := E) self [] metadata = Panic.
Proof. reflexivity. Qed.

Section Witness.

Definition sample_service : CompSvc.CompService :=
  {| CompSvc.worker_bin := CompSvc.WORKER_BIN; CompSvc.task_bin := "/system/bin/sleep";
     CompSvc.debuggable := true |}.
Definition sample_metadata : Metadata :=
  {| input_fd_annotations := [{| in_fd := 3; in_file_size := 1234 |}];
     output_fd_annotations := [{| out_fd := 4 |}] |}.

Lemma worker_args_roundtrip_witness :
  ∃ args, CompSvc.build_worker_args (E := Status) sample_service ["sh"; "10"]%string sample_metadata = Ok args ∧
    Worker.parse_args (worker_matches args) = Ok (worker_config sample_service ["10"%string] sample_metadata).
Proof.
  refine (worker_args_roundtrip sample_service "sh" ["10"%string] sample_metadata _ _);
    repeat constructor; simpl; unfold i32_MAX, u64_MAX; lia.
Defined.

Lemma authfs_args_roundtrip_witness :
  let config := worker_config sample_service [] sample_metadata in
  try_map parse_remote_ro_file_unverified_option
    (values_after "--remote-ro-file-unverified" (Worker.authfs_command config).1) =
    Ok ((λ c, {| rru_ino := Worker.wi_fd c; rru_remote_id := Worker.wi_fd c;
                 rru_file_size := Worker.wi_file_size c |}) <$> Worker.in_fds config) ∧
  try_map parse_remote_new_rw_file_option
    (values_after "--remote-new-rw-file" (Worker.authfs_command config).1) =
    Ok ((λ c, {| rrw_ino := Worker.wo_fd c; rrw_remote_id := Worker.wo_fd c |}) <$> Worker.out_fds config).
Proof.
  refine (authfs_args_roundtrip (worker_config sample_service [] sample_metadata) _ _ eq_refl);
    repeat constructor; simpl; unfold i32_MAX, u64_MAX; lia.
Defined.

(** A clock of exact sleeps; the mount never appears. *)
#[local] Instance slow_os : Worker.WorkerOs Z := {
  Worker.statfs_type _ w := (Ok 0, w);
  Worker.elapsed_since s w := (Ok (w - s), w);
  Worker.now w := (Ok w, w);
  Worker.sleep d w := (Ok (), w + d)
}.
#[local] Program Instance slow_clock : WorkerClock Z := { clock w := w }.
Next Obligation. done. Qed.
Next Obligation. done. Qed.
Next Obligation. intros d w Hd. eexists. split; [done|]. lia. Qed.
Next Obligation. intros p w r w' [= <- <-]. split_and!; [done|done|lia]. Qed.
Lemma wait_until_authfs_ready_ends_witness :
  (∃ r w', Worker.wait_until_authfs_ready 202 "/mnt" 0 = (r, w') ∧ r <> NoFuel ∧ r <> Panic) ∧
  (Worker.wait_until_authfs_ready 202 "/mnt" 0).1 = Err (Worker.WBail "Time out mounting authfs").
Proof.
  split; [exact (wait_until_authfs_ready_ends "/mnt" 0)|]. vm_compute. reflexivity.
Defined.

(** A jail whose processes end with status 0. *)
#[local] Instance quiet_jail : Minijail Z unit := {
  jail_new := mret ();
  jail_namespace_vfs _ := mret ();
  jail_run _ _ _ _ := mret 1;
  jail_run_remap _ _ _ _ := mret 1;
  jail_wait _ := mret ();
  jail_kill _ := mret ()
}.
Lemma execute_reports_only_zero_witness :
  ∃ n w', CompSvc.execute sample_service ["sh"%string] sample_metadata 7 = (Ok n, w') ∧ n = 0.
Proof.
  eexists _, _. split; [reflexivity|].
  refine (execute_reports_only_zero sample_service ["sh"%string] sample_metadata 7 _ _ _).
  reflexivity.
Defined.
End Witness.
