(* ===== verification/JailTrace.v ===== *)
(** * compos: the processes that pvm_exec and compsvc_worker start and end

    Both programs start a helper (fd_server, authfs) in a jail, do their work
    while it runs and end it from a [scopeguard].  What the minijail library
    was asked to do, and how the worker looked for the mount and opened its
    files, is a log of events in the world; a weakest-precondition style
    predicate [post] follows the log through a program on every path (value,
    error, panic).  The theorems give all possible logs of the two [main]
    functions. *)

From S2P Require Import Prelude Io Parse File VirtFd Compos.
#[local] Open Scope Z_scope.

(** What a jail was asked to do, the flag saying whether it succeeded; a
    statfs(2) with its errno or its file system type; an open(2) with the
    descriptor that it gave. *)
Inductive jail_event (J : Type) :=
| EvRun (jail : J) (path : string) (fds : list Z) (args : list string) (ok : bool)
| EvTask (jail : J) (path : string) (fds : list (Z * Z)) (args : list string) (ok : bool)
| EvWait (jail : J) (result : jail_error + unit)
| EvKill (jail : J)
| EvStatfs (path : string) (answer : Z + Z)
| EvOpen (path : string) (writable : bool) (descriptor : option Z).
Arguments EvRun {J}. Arguments EvTask {J}. Arguments EvWait {J}. Arguments EvKill {J}.
Arguments EvStatfs {J}. Arguments EvOpen {J}.

Definition is_ok {E A} (r : outcome E A) : bool := match r with Ok _ => true | _ => false end.
(** The call came back, with a value or an error. *)
Definition returned {E A} (r : outcome E A) : Prop :=
  match r with Ok _ | Err _ => True | _ => False end.
Definition result_of {E A} (d : E + A) (r : outcome E A) : E + A :=
  match r with Ok a => inr a | Err e => inl e | _ => d end.
Definition value_of {E A B} (f : A -> B) (r : outcome E A) : option B :=
  match r with Ok a => Some (f a) | _ => None end.

(** ** Postconditions over a log *)
Section Post.
Context {W Ev : Type} (log : W -> list Ev).

(** Every run of [m] appends some events to the log, and its result and these
    events are in [Q]. *)
Definition post {E A} (m : M W E A) (Q : outcome E A -> list Ev -> Prop) : Prop :=
  ∀ w r w', m w = (r, w') -> ∃ evs, log w' = log w ++ evs ∧ Q r evs.

(** Comes back without an event. *)
Definition silent {E A} (m : M W E A) : Prop := post m (λ r evs, returned r ∧ evs = []).

Lemma post_mono {E A} (m : M W E A) (Q Q' : outcome E A -> list Ev -> Prop) :
  post m Q -> (∀ r evs, Q r evs -> Q' r evs) -> post m Q'.
Proof. intros Hm Hq w r w' Hr. destruct (Hm w r w' Hr) as (evs & Hl & HQ). eauto. Qed.
Lemma post_lift {E A} (o : outcome E A) (Q : outcome E A -> list Ev -> Prop) : Q o [] -> post (lift o) Q.
Proof. intros HQ w r w' [= <- <-]. exists []. by rewrite app_nil_r. Qed.
Lemma post_mret {E A} (a : A) (Q : outcome E A -> list Ev -> Prop) : Q (Ok a) [] -> post (mret a) Q.
Proof. apply (post_lift (Ok a)). Qed.
Lemma post_bind {E A B} (m : M W E A) (f : A -> M W E B) (Q : outcome E B -> list Ev -> Prop) :
  post m (λ r evs, match r with
                   | Ok a => post (f a) (λ r' evs', Q r' (evs ++ evs'))
                   | Err e => Q (Err e) evs
                   | Panic => Q Panic evs
                   | NoFuel => Q NoFuel evs
                   end) ->
  post (m ≫= f) Q.
Proof.
  intros Hm w r w' Hr. rewrite M_bind_eq in Hr. destruct (m w) as [r1 w1] eqn:Hr1.
  destruct (Hm w r1 w1 Hr1) as (evs & Hl & HQ).
  destruct r1; [|by simplify_eq; eauto..].
  destruct (HQ w1 r w' Hr) as (evs' & Hl' & HQ'). exists (evs ++ evs'). split; [|done].
  by rewrite Hl', Hl, <- app_assoc.
Qed.
Lemma post_map_errM {E E' A} (g : E -> E') (m : M W E A) (Q : outcome E' A -> list Ev -> Prop) :
  post m (λ r evs, Q (map_err g r) evs) -> post (map_errM g m) Q.
Proof.
  intros Hm w r w'. unfold map_errM. destruct (m w) as [r1 w1] eqn:Hr1. intros [= <- <-]. by eapply Hm.
Qed.
Lemma post_tryM {E E' A} (m : M W E A) (Q : outcome E' (E + A) -> list Ev -> Prop) :
  post m (λ r evs, Q match r with
                     | Ok a => Ok (inr a) | Err e => Ok (inl e) | Panic => Panic | NoFuel => NoFuel
                     end evs) ->
  post (tryM m) Q.
Proof.
  intros Hm w r w'. unfold tryM. destruct (m w) as [r1 w1] eqn:Hr1.
  destruct (Hm w r1 w1 Hr1) as (evs & Hl & HQ). intros Heq. exists evs. by destruct r1; simplify_eq.
Qed.
(** The guard: the release runs after the body and does not change its result. *)
Lemma post_guard {E E' A} (release : M W E' unit) (body : M W E A) (Q : outcome E A -> list Ev -> Prop) :
  post body (λ r evs, r <> NoFuel ∧ post release (λ _ evs', Q r (evs ++ evs'))) ->
  post (guard release body) Q.
Proof.
  intros Hb w r w'. unfold guard. destruct (body w) as [r1 w1] eqn:Hr1.
  destruct (Hb w r1 w1 Hr1) as (evs & Hl & Hn & HQ). destruct (release w1) as [r2 w2] eqn:Hr2.
  destruct (HQ w1 r2 w2 Hr2) as (evs' & Hl' & HQ'). intros Heq. exists (evs ++ evs').
  destruct r1; simplify_eq/=; by rewrite Hl', Hl, <- app_assoc.
Qed.

Lemma post_silent_bind {E A B} (m : M W E A) (f : A -> M W E B) (Q : outcome E B -> list Ev -> Prop) :
  silent m -> (∀ e, Q (Err e) []) -> (∀ a, post (f a) Q) -> post (m ≫= f) Q.
Proof.
  intros Hm He Hf. apply post_bind. eapply post_mono; [exact Hm|].
  intros [a|e| |] evs [Hr ->]; [apply Hf|apply He|done|done].
Qed.
Lemma silent_mret {E A} (a : A) : silent (mret (M := M W E) a).
Proof. by apply post_mret. Qed.
Lemma silent_fail {E A} (e : E) : silent (fail (A := A) e).
Proof. by apply (post_lift (Err e)). Qed.
Lemma silent_map_errM {E E' A} (g : E -> E') (m : M W E A) : silent m -> silent (map_errM g m).
Proof. intros Hm. apply post_map_errM. eapply post_mono; [exact Hm|]. by intros [] evs [? ->]. Qed.
Lemma silent_bind {E A B} (m : M W E A) (f : A -> M W E B) :
  silent m -> (∀ a, silent (f a)) -> silent (m ≫= f).
Proof. intros Hm Hf. by apply post_silent_bind. Qed.
Lemma silent_collectM {E A B} (f : A -> M W E B) l : (∀ x, silent (f x)) -> silent (collectM f l).
Proof.
  intros Hf. induction l as [|x l IH]; [apply silent_mret|]. cbn [collectM].
  apply silent_bind; [done|]. intros y. apply silent_bind; [done|]. intros ys. apply silent_mret.
Qed.
End Post.

(** ** The log of the minijail library *)
Class JailLog (W J : Type) `{Minijail W J} := {
  jail_log : W -> list (jail_event J);
  log_new : silent jail_log jail_new;
  log_namespace j : silent jail_log (jail_namespace_vfs j);
  log_run j path fds args :
    post jail_log (jail_run j path fds args)
      (λ r evs, returned r ∧ evs = [EvRun j path fds args (is_ok r)]);
  log_run_remap j path fds args :
    post jail_log (jail_run_remap j path fds args)
      (λ r evs, returned r ∧ evs = [EvTask j path fds args (is_ok r)]);
  log_wait j :
    post jail_log (jail_wait j) (λ r evs, returned r ∧ evs = [EvWait j (result_of (inr ()) r)]);
  log_kill j : post jail_log (jail_kill j) (λ r evs, evs = [EvKill j])
}.

(** What the worker asks of the mount point and of the files of authfs is in
    the log, its use of the clock is not. *)
Class WorkerLog (W J File : Type) `{JailLog W J} `{Worker.WorkerOs W} `{Worker.WorkerFiles W File} := {
  log_statfs p :
    post jail_log (Worker.statfs_type p) (λ r evs, returned r ∧ evs = [EvStatfs p (result_of (inr 0) r)]);
  log_open p wr :
    post jail_log (Worker.open_path p wr)
      (λ r evs, returned r ∧ evs = [EvOpen p wr (value_of Worker.as_raw_fd r)]);
  now_quiet : silent jail_log Worker.now;
  elapsed_quiet s : silent jail_log (Worker.elapsed_since s);
  sleep_quiet d : silent jail_log (Worker.sleep d)
}.
Class PvmQuiet (W J : Type) `{JailLog W J} `{PvmExec.PvmOs W} := {
  pvm_fcntl_quiet fd : silent jail_log (PvmExec.pvm_fcntl fd);
  fstat_quiet fd : silent jail_log (PvmExec.fstat_size fd)
}.

(** ** The possible histories *)
Definition failed {E A} (r : outcome E A) : Prop := match r with Err _ | Panic => True | _ => False end.

(** compsvc_worker, for the configuration it parsed. *)
Section WorkerSpec.
Context {J : Type} (config : Worker.Config).

Definition authfs_started (j : J) (ok : bool) : jail_event J :=
  EvRun j Worker.AUTHFS_BIN (Worker.authfs_command config).2 (Worker.authfs_command config).1 ok.

(** A look at the mount point that does not find authfs; the wait, which ends
    with one that does; a wait that failed. *)
Definition not_mounted (e : jail_event J) : Prop :=
  ∃ ty, e = EvStatfs (Worker.authfs_root config) (inr ty) ∧ ty <> Worker.FUSE_SUPER_MAGIC.
Definition mounted (evs : list (jail_event J)) : Prop :=
  ∃ polls, Forall not_mounted polls ∧
    evs = polls ++ [EvStatfs (Worker.authfs_root config) (inr Worker.FUSE_SUPER_MAGIC)].
Inductive gave_up : Worker.worker_error -> list (jail_event J) -> Prop :=
| timed_out polls : Forall not_mounted polls -> polls <> [] -> gave_up (Worker.WBail "Time out mounting authfs") polls
| statfs_failed polls e : Forall not_mounted polls ->
    gave_up (Worker.WErrno e) (polls ++ [EvStatfs (Worker.authfs_root config) (inl e)]).

(** The files of the request in order, inputs read-only and outputs writable;
    each is the file of that name in authfs. *)
Definition requested : list (Z * bool) :=
  ((λ c, (Worker.wi_fd c, false)) <$> Worker.in_fds config) ++
  ((λ c, (Worker.wo_fd c, true)) <$> Worker.out_fds config).
Definition open_event (file : Z * bool) (descriptor : option Z) : jail_event J :=
  EvOpen (String.append (Worker.authfs_root config) (String.append "/" (pretty file.1))) file.2 descriptor.
Definition opened (files : list (Z * bool)) (raws : list Z) : list (jail_event J) :=
  zip_with (λ file raw, open_event file (Some raw)) files raws.

(** The task gets, under the number of each file, the descriptor that opening
    that file gave. *)
Definition task_descriptors (raws : list Z) : list (Z * Z) :=
  zip raws requested.*1 ++ (if Worker.w_debuggable config then [(1, 1); (2, 2)] else []).

Inductive worker_trace : outcome Worker.worker_error Z -> list (jail_event J) -> Prop :=
| no_authfs e : worker_trace (Err e) []
| authfs_failed e j : worker_trace (Err e) [authfs_started j false]
| mount_failed e j wait : gave_up e wait -> worker_trace (Err e) (authfs_started j true :: wait ++ [EvKill j])
| open_failed e j wait before file after raws :
    mounted wait -> requested = before ++ file :: after -> length raws = length before ->
    worker_trace (Err (Worker.WIo e))
      (authfs_started j true :: wait ++ opened before raws ++ [open_event file None; EvKill j])
| no_task r j wait raws :
    failed r -> mounted wait -> length raws = length requested ->
    worker_trace r (authfs_started j true :: wait ++ opened requested raws ++ [EvKill j])
| task_failed e j wait raws j' arg0 :
    mounted wait -> length raws = length requested -> head (Worker.w_args config) = Some arg0 ->
    worker_trace (Err e)
      (authfs_started j true :: wait ++ opened requested raws
         ++ [EvTask j' arg0 (task_descriptors raws) (Worker.w_args config) false; EvKill j])
| task_ran j wait raws j' arg0 result :
    mounted wait -> length raws = length requested -> head (Worker.w_args config) = Some arg0 ->
    worker_trace (Worker.exit_of result)
      (authfs_started j true :: wait ++ opened requested raws
         ++ [EvTask j' arg0 (task_descriptors raws) (Worker.w_args config) true; EvWait j' result; EvKill j]).
End WorkerSpec.

(** pvm_exec, for the configuration it parsed. *)
Inductive pvm_trace {J} (config : PvmExec.Config)
    : outcome PvmExec.pvm_error Z -> list (jail_event J) -> Prop :=
| no_fd_server r : failed r -> pvm_trace config r []
| fd_server_failed r j : failed r ->
    pvm_trace config r [EvRun j PvmExec.FD_SERVER_BIN
                   (PvmExec.fd_server_command (PvmExec.c_metadata config) (PvmExec.c_debuggable config)).2
                   (PvmExec.fd_server_command (PvmExec.c_metadata config) (PvmExec.c_debuggable config)).1 false]
| fd_server_ran r j : r <> NoFuel ->
    pvm_trace config r [EvRun j PvmExec.FD_SERVER_BIN
                   (PvmExec.fd_server_command (PvmExec.c_metadata config) (PvmExec.c_debuggable config)).2
                   (PvmExec.fd_server_command (PvmExec.c_metadata config) (PvmExec.c_debuggable config)).1 true;
                 EvKill j].

(** ** compsvc_worker *)
Section WorkerTrace.
Context {W J File : Type} `{WorkerLog W J File} `{!WorkerClock W}.
Abbreviation log := (jail_log (W := W) (J := J)).

(** The wait: what was seen, whatever the fuel. *)
Definition waited (config : Worker.Config) (r : outcome Worker.worker_error unit) (evs : list (jail_event J)) : Prop :=
  match r with
  | Ok _ => mounted config evs
  | Err e => gave_up config e evs
  | _ => True
  end.
Lemma waited_cons config e evs r :
  not_mounted config e -> waited config r evs -> waited config r (e :: evs).
Proof.
  intros He Hw. destruct r as [[]|err| |]; [| |done..].
  - destruct Hw as (polls & Hp & ->). exists (e :: polls). by split; [constructor|].
  - destruct Hw as [polls Hp Hne|polls n Hp]; [constructor; [by constructor|done]|].
    apply (statfs_failed config (e :: polls)). by constructor.
Qed.

Lemma elapsed_post {A} s (f : Z -> M W Worker.worker_error A) (Q : outcome Worker.worker_error A -> list (jail_event J) -> Prop) :
  (∀ t, post log (f t) Q) -> post log (map_errM Worker.WErrno (Worker.elapsed_since s) ≫= f) Q.
Proof.
  intros Hf w r w' Hr. unfold map_errM in Hr. rewrite M_bind_eq, elapsed_clock in Hr. cbn [map_err] in Hr.
  exact (Hf _ w r w' Hr).
Qed.
Lemma sleep_post {A} d (f : M W Worker.worker_error A) (Q : outcome Worker.worker_error A -> list (jail_event J) -> Prop) :
  0 <= d -> post log f Q -> post log (_ ← map_errM Worker.WErrno (Worker.sleep d); f) Q.
Proof.
  intros Hd Hf w r w' Hr. destruct (sleep_clock d w Hd) as (w1 & Hs & _). unfold map_errM in Hr.
  rewrite M_bind_eq, Hs in Hr. cbn [map_err] in Hr. destruct (Hf w1 r w' Hr) as (evs & Hl & HQ).
  destruct (sleep_quiet d w _ w1 Hs) as (evs1 & Hl1 & _ & ->). exists evs. by rewrite Hl, Hl1, app_nil_r.
Qed.

Lemma wait_loop_log fuel config start :
  post log (Worker.wait_loop fuel (Worker.authfs_root config) start) (waited config).
Proof.
  induction fuel as [|fuel IH]; [by apply post_lift|]. cbn [Worker.wait_loop].
  apply post_bind, post_bind, post_map_errM. eapply post_mono; [apply log_statfs|].
  intros [ty|e| |] evs [Hr ->]; cbn [map_err result_of]; [|by apply (statfs_failed config []); constructor|done..].
  apply post_mret. rewrite app_nil_r. destruct (Z.eqb_spec ty Worker.FUSE_SUPER_MAGIC) as [->|Hne].
  { apply post_mret. exists []. by split; [constructor|]. }
  assert (not_mounted config (EvStatfs (J := J) (Worker.authfs_root config) (inr ty))) as Hn by (by exists ty).
  apply elapsed_post. intros t. destruct (t >? _).
  - apply (post_lift _ (Err _)). apply timed_out; [by constructor|done].
  - apply sleep_post; [unfold Worker.AUTHFS_SETUP_POLL_INTERVAL_MS; lia|].
    eapply post_mono; [exact IH|]. intros r evs Hw. by apply waited_cons.
Qed.
Lemma wait_until_log config :
  post log (Worker.wait_until_authfs_ready 202 (Worker.authfs_root config))
    (λ r evs, returned r ∧ waited config r evs).
Proof.
  intros w r w' Hr. unfold Worker.wait_until_authfs_ready, map_errM in Hr.
  rewrite M_bind_eq, now_clock in Hr. cbn [map_err] in Hr.
  destruct (wait_loop_log 202 config (clock w) w r w' Hr) as (evs & Hl & Hw). exists evs. split; [done|].
  split; [|done]. destruct (wait_loop_ends 202 (Worker.authfs_root config) (clock w) w) as (r' & w1 & Heq & Hn & Hp); [|lia|].
  - unfold Worker.AUTHFS_SETUP_TIMEOUT_MS, Worker.AUTHFS_SETUP_POLL_INTERVAL_MS. lia.
  - rewrite Hr in Heq. injection Heq as <- <-. by destruct r.
Qed.

(** Opening some files in order: all of them, each with its own number, or
    those before one that cannot be opened. *)
Definition opens (config : Worker.Config) (files : list (Z * bool)) (r : outcome io_error (list (File * Z)))
    (evs : list (jail_event J)) : Prop :=
  match r with
  | Ok l => l.*2 = files.*1 ∧ evs = opened config files (Worker.as_raw_fd <$> l.*1)
  | Err _ => ∃ before file after raws, files = before ++ file :: after ∧ length raws = length before ∧
      evs = opened config before raws ++ [open_event config file None]
  | _ => False
  end.
Lemma opens_cons config f file files raw r evs :
  raw = Worker.as_raw_fd f -> opens config files r evs ->
  opens config (file :: files) (l ← r; Ok ((f, file.1) :: l)) (open_event config file (Some raw) :: evs).
Proof.
  intros -> Ho. destruct r as [l|e| |]; cbn in Ho |- *; [| |done..].
  - destruct Ho as [Hl ->]. by rewrite Hl.
  - destruct Ho as (before & file' & after & raws & -> & Hl & ->).
    exists (file :: before), file', after, (Worker.as_raw_fd f :: raws). cbn. by rewrite Hl.
Qed.
Lemma open_collect {A} config (number : A -> Z) wr l :
  post log (collectM (λ c, f ← Worker.open_authfs_file (Worker.authfs_root config) (number c) wr; mret (f, number c)) l)
    (opens config ((λ c, (number c, wr)) <$> l)).
Proof.
  induction l as [|x l IH]; [by apply post_mret|].
  cbn [collectM fmap list_fmap]. apply post_bind, post_bind. eapply post_mono; [apply log_open|].
  intros [f|e| |] evs [Hr ->]; cbn [value_of]; [|by exists [], (number x, wr), ((λ c, (number c, wr)) <$> l), []|done..].
  apply post_mret, post_bind. eapply post_mono; [exact IH|]. intros r evs Ho.
  pose proof (opens_cons config f (number x, wr) _ _ r evs eq_refl Ho) as Hc.
  destruct r as [fs|e| |]; [apply post_mret|..]; cbn [app]; rewrite ?app_nil_r; exact Hc.
Qed.
Lemma open_mapping config :
  post log (Worker.open_authfs_files_for_mapping config) (opens config (requested config)).
Proof.
  unfold requested. apply post_bind. eapply post_mono; [apply open_collect|].
  intros [ins|e| |] evs Hi; [| |done..].
  2: { destruct Hi as (before & file & after & raws & -> & Hl & ->). rewrite <- app_assoc. cbn. by do 4 eexists. }
  destruct Hi as [Hi ->]. apply post_bind. eapply post_mono; [apply open_collect|].
  assert (length (Worker.as_raw_fd <$> ins.*1) = length ((λ c, (Worker.wi_fd c, false)) <$> Worker.in_fds config)) as Hl.
  { rewrite !length_fmap, <- (length_fmap snd ins), Hi. by rewrite !length_fmap. }
  intros [outs|e| |] evs Ho; [| |done..].
  - destruct Ho as [Ho ->]. apply post_mret. rewrite !app_nil_r. split; [by rewrite !fmap_app, Hi, Ho|].
    unfold opened. by rewrite !fmap_app, zip_with_app.
  - destruct Ho as (before & file & after & raws & -> & Hl' & ->).
    eexists (_ ++ before), file, after, ((Worker.as_raw_fd <$> ins.*1) ++ raws). split; [by rewrite <- app_assoc|].
    rewrite !length_app, Hl, Hl'. split; [done|]. unfold opened. by rewrite zip_with_app, <- app_assoc.
Qed.

Lemma spawn_authfs_log config :
  post log (Worker.spawn_authfs config) (λ r evs,
    match r with
    | Ok j => evs = [authfs_started config j true]
    | Err _ => evs = [] ∨ ∃ j, evs = [authfs_started config j false]
    | _ => False
    end).
Proof.
  apply post_silent_bind; [apply silent_map_errM, log_new|by left|]. intros j. unfold authfs_started.
  destruct (Worker.authfs_command config) as [args fds] eqn:Hc. apply post_bind, post_map_errM.
  eapply post_mono; [apply log_run|]. intros [pid|e| |] evs [Hr ->]; try done; cbn.
  - by apply post_mret.
  - right. by exists j.
Qed.

(** The events of the task, given how it went and the descriptors it gets. *)
Definition task_events (config : Worker.Config) (raws : list Z) (r : outcome Worker.worker_error (jail_error + unit))
    (evs : list (jail_event J)) : Prop :=
  match r with
  | Ok result => ∃ j arg0, head (Worker.w_args config) = Some arg0 ∧
      evs = [EvTask j arg0 (task_descriptors config raws) (Worker.w_args config) true; EvWait j result]
  | Err _ => evs = [] ∨ ∃ j arg0, head (Worker.w_args config) = Some arg0 ∧
      evs = [EvTask j arg0 (task_descriptors config raws) (Worker.w_args config) false]
  | Panic => evs = []
  | NoFuel => False
  end.
Lemma task_log config mapping :
  mapping.*2 = (requested config).*1 ->
  post log (jail ← Worker.spawn_jailed_task config mapping; tryM (jail_wait jail))
    (task_events config (Worker.as_raw_fd <$> mapping.*1)).
Proof.
  intros Hm. apply post_bind, post_silent_bind; [apply silent_map_errM, log_new|by left|]. intros j.
  apply post_bind, post_lift.
  destruct (Worker.w_args config !! 0%nat) as [arg0|] eqn:Ha; cbn; [|done]. rewrite <- head_lookup in Ha.
  apply post_bind, post_map_errM. eapply post_mono; [apply log_run_remap|].
  set (fds := _ ++ _ : list (Z * Z)).
  assert (fds = task_descriptors config (Worker.as_raw_fd <$> mapping.*1)) as Hf.
  { unfold fds, task_descriptors. f_equal. rewrite <- Hm. clear. induction mapping as [|[f id] l IH]; [done|].
    cbn. by rewrite IH. }
  intros [pid|e| |] evs [Hr ->]; try done; cbn; rewrite Hf; [|right; by exists j, arg0].
  apply post_mret, post_tryM. eapply post_mono; [apply log_wait|].
  intros [[]|e| |] evs [Hr' ->]; try done; cbn; by exists j, arg0.
Qed.

(** What the guard of [main] protects: the trace but for the start and the end
    of authfs. *)
Lemma guarded_log config j :
  post log (_ ← Worker.wait_until_authfs_ready 202 (Worker.authfs_root config);
            fd_mapping ← map_errM Worker.WIo (Worker.open_authfs_files_for_mapping config);
            jail ← Worker.spawn_jailed_task config fd_mapping;
            tryM (jail_wait jail))
    (λ r evs, r <> NoFuel ∧
       worker_trace config (result ← r; Worker.exit_of result) (authfs_started config j true :: evs ++ [EvKill j])).
Proof.
  apply post_bind. eapply post_mono; [apply wait_until_log|].
  intros [[]|e| |] wait [Hr Hw]; cbn in Hw; [|split; [done|by constructor]|done..].
  apply post_bind, post_map_errM. eapply post_mono; [apply open_mapping|].
  intros [fs|e| |] evs Ho; cbn in Ho |- *; [| |done..].
  2: { destruct Ho as (before & file & after & raws & Hq & Hl & ->). split; [done|].
       rewrite <- !app_assoc. by eapply (open_failed config e j wait before file after raws). }
  destruct Ho as [Hf ->]. assert (length (Worker.as_raw_fd <$> fs.*1) = length (requested config)) as Hl.
  { rewrite !length_fmap, <- (length_fmap snd fs), Hf. by rewrite !length_fmap. }
  eapply post_mono; [by apply task_log|]. intros r evs Ht. rewrite <- !app_assoc.
  destruct r as [result|e| |]; cbn in Ht.
  - destruct Ht as (j' & arg0 & Ha & ->). split; [done|]. by eapply task_ran.
  - split; [done|]. destruct Ht as [->|(j' & arg0 & Ha & ->)]; [by apply no_task|by eapply task_failed].
  - subst evs. split; [done|]. by apply no_task.
  - done.
Qed.

Lemma worker_main_trace m config :
  Worker.parse_args m = Ok config ->
  post log (Worker.main (File := File) 202 m) (worker_trace config).
Proof.
  intros Hc. apply post_bind, post_lift. rewrite Hc.
  apply post_bind. eapply post_mono; [apply spawn_authfs_log|].
  intros [j|e| |] evs Hj; try done; [|destruct Hj as [->|[j ->]]; by constructor]. subst evs.
  apply post_bind, post_guard. eapply post_mono; [apply (guarded_log config j)|]. intros r evs [Hn Ht].
  split; [done|]. eapply post_mono; [apply log_kill|]. intros _ evs' ->.
  destruct r as [result|e| |]; [apply post_lift; rewrite app_nil_r|..|done]; exact Ht.
Qed.
End WorkerTrace.

(** ** pvm_exec *)
Section PvmTrace.
Context {W J : Type} `{PvmQuiet W J}.
Abbreviation log := (jail_log (W := W) (J := J)).

Lemma parse_arg_fd_quiet arg : silent log (PvmExec.parse_arg_fd arg).
Proof.
  unfold PvmExec.parse_arg_fd. apply silent_bind.
  { destruct (parse_i32 arg); [apply silent_mret|apply silent_fail]. }
  intros fd. apply silent_bind.
  { apply silent_bind; [apply silent_map_errM, pvm_fcntl_quiet|]. intros r. apply silent_mret. }
  intros valid. destruct (negb valid); [apply silent_fail|apply silent_mret].
Qed.
Lemma pvm_parse_quiet m : silent log (PvmExec.parse_args m).
Proof.
  apply silent_bind; [apply silent_collectM; intros arg|intros ins].
  - apply silent_bind; [apply parse_arg_fd_quiet|]. intros fd.
    apply silent_bind; [apply silent_map_errM, fstat_quiet|]. intros n. apply silent_mret.
  - apply silent_bind; [apply silent_collectM; intros arg|intros outs; apply silent_mret].
    apply silent_bind; [apply parse_arg_fd_quiet|]. intros fd. apply silent_mret.
Qed.

(** [main] after the arguments were parsed. *)
Lemma pvm_launch_trace service (config : PvmExec.Config) :
  (∀ execute args metadata, service = Some execute -> silent log (execute args metadata)) ->
  post log (fd_server_jail ← PvmExec.spawn_fd_server (PvmExec.c_metadata config) (PvmExec.c_debuggable config);
            exit_code ← guard (jail_kill fd_server_jail)
              (execute ← PvmExec.get_local_service service;
               map_errM PvmExec.PvmBinder (execute (PvmExec.c_args config) (PvmExec.c_metadata config)));
            if exit_code >? 0 then mret (as_i32 exit_code) else mret 0) (pvm_trace config).
Proof.
  intros Hs. apply post_bind. unfold PvmExec.spawn_fd_server.
  destruct (PvmExec.fd_server_command _ _) as [args fds] eqn:Hc.
  apply post_silent_bind; [apply silent_map_errM, log_new|by constructor|]. intros j.
  apply post_bind, post_map_errM. eapply post_mono; [apply log_run|].
  replace args with (PvmExec.fd_server_command (PvmExec.c_metadata config) (PvmExec.c_debuggable config)).1
    by (by rewrite Hc).
  replace fds with (PvmExec.fd_server_command (PvmExec.c_metadata config) (PvmExec.c_debuggable config)).2
    by (by rewrite Hc).
  intros [pid|e| |] evs [Hr ->]; try done; [|by constructor]. apply post_mret. cbn [app is_ok].
  apply post_bind, post_guard. eapply (post_mono _ _ (λ r evs, r <> NoFuel ∧ evs = [])).
  { unfold PvmExec.get_local_service. apply post_bind, post_lift. destruct service as [execute|]; [|done].
    cbn [unwrap app]. apply post_map_errM. eapply post_mono; [by apply Hs|].
    intros [] evs [? ->]; try done. }
  intros r evs [Hn ->]. split; [done|]. eapply post_mono; [apply log_kill|]. intros _ evs' ->.
  destruct r as [code|e| |]; try done; [|by constructor..].
  destruct (code >? 0); apply post_mret; by constructor.
Qed.
End PvmTrace.

(** ** Claims *)

(** C21: the worker, on every path.  With a clock that sleeps advance the
    program ends, and what it did is one of seven: it started nothing; authfs
    could not be started; no statfs(2) of the mount point found FUSE before the
    time was over, or one failed; a file of the request could not be opened; no
    jail or no program for the task; the task could not be started; or, a
    statfs(2) having found FUSE at the mount point and then every file of the
    request having been opened there by its number, inputs read-only and
    outputs writable, the task was started with exactly these descriptors under
    exactly these numbers, was waited for, and its status is the result.  On
    every path authfs, once started, is killed at the end and not before. *)
Theorem worker_ends_authfs {W J File} `{WorkerLog W J File} `{!WorkerClock W} m config (w : W) :
  Worker.parse_args m = Ok config ->
  ∃ r w' evs, Worker.main (J := J) (File := File) 202 m w = (r, w') ∧
    jail_log w' = jail_log w ++ evs ∧ worker_trace config r evs.
Proof.
  intros Hc. destruct (Worker.main (J := J) (File := File) 202 m w) as [r w'] eqn:Hr.
  destruct (worker_main_trace m config Hc w r w' Hr) as (evs & Hl & Ht). eauto 6.
Qed.

(** C22: the processes of pvm_exec, on every path after its arguments were
    accepted: fd_server, once started with the descriptors of the request, is
    killed before the program ends, whether the service is missing (a panic),
    the call fails or it returns. *)
Theorem pvm_exec_ends_fd_server {W J} `{PvmQuiet W J} service m config (w w1 : W) :
  (∀ execute args metadata, service = Some execute -> silent jail_log (execute args metadata)) ->
  PvmExec.parse_args m w = (Ok config, w1) ->
  ∃ r w' evs, PvmExec.main (J := J) service m w = (r, w') ∧
    jail_log w' = jail_log w ++ evs ∧ pvm_trace config r evs.
Proof.
  intros Hs Hp. destruct (PvmExec.main (J := J) service m w) as [r w'] eqn:Hr.
  destruct (pvm_parse_quiet m w _ w1 Hp) as (evs0 & Hl0 & _ & ->). rewrite app_nil_r in Hl0.
  unfold PvmExec.main in Hr. erewrite M_bind_Ok in Hr by exact Hp.
  destruct (pvm_launch_trace service config Hs w1 r w' Hr) as (evs & Hl & Ht).
  exists r, w', evs. by rewrite <- Hl0.
Qed.

Section Witness.

(** A world with a clock, jails numbered by a counter, and the log. *)
Record jail_world := { jw_time : Z; jw_next : Z; jw_log : list (jail_event Z) }.
Definition record_event (e : jail_event Z) (w : jail_world) : jail_world :=
  {| jw_time := jw_time w; jw_next := jw_next w; jw_log := jw_log w ++ [e] |}.

(** Processes start; the task ends with status 3. *)
#[local] Instance world_jail : Minijail jail_world Z := {
  jail_new w := (Ok (jw_next w), {| jw_time := jw_time w; jw_next := jw_next w + 1; jw_log := jw_log w |});
  jail_namespace_vfs _ := mret ();
  jail_run j p fds args w := (Ok 1, record_event (EvRun j p fds args true) w);
  jail_run_remap j p fds args w := (Ok 2, record_event (EvTask j p fds args true) w);
  jail_wait j w := (Err (ReturnCode 3), record_event (EvWait j (inl (ReturnCode 3))) w);
  jail_kill j w := (Ok (), record_event (EvKill j) w)
}.
(** The events of a computation that is a pair of a result and a world. *)
Ltac log_law evs :=
  intros w r w' Hr; cbn in Hr; injection Hr as <- <-; exists evs; cbn; rewrite ?app_nil_r; by split.
#[local] Program Instance world_log : JailLog jail_world Z := { jail_log := jw_log }.
Next Obligation. log_law (@nil (jail_event Z)). Qed.
Next Obligation. intros j. log_law (@nil (jail_event Z)). Qed.
Next Obligation. intros j p fds args. log_law [EvRun j p fds args true]. Qed.
Next Obligation. intros j p fds args. log_law [EvTask j p fds args true]. Qed.
Next Obligation. intros j. log_law [EvWait j (inl (ReturnCode 3))]. Qed.
Next Obligation. intros j. log_law [EvKill j]. Qed.

(** authfs is mounted after 120 milliseconds, and files get the descriptors
    from 40 on. *)
Definition mount_type (w : jail_world) : Z := if jw_time w <? 120 then 0x1021994 else Worker.FUSE_SUPER_MAGIC.
#[local] Instance world_os : Worker.WorkerOs jail_world := {
  Worker.statfs_type p w := (Ok (mount_type w), record_event (EvStatfs p (inr (mount_type w))) w);
  Worker.elapsed_since s w := (Ok (jw_time w - s), w);
  Worker.now w := (Ok (jw_time w), w);
  Worker.sleep d w := (Ok (), {| jw_time := jw_time w + d; jw_next := jw_next w; jw_log := jw_log w |})
}.
#[local] Instance world_files : Worker.WorkerFiles jail_world Z := {
  Worker.open_path p wr w :=
    let raw := 40 + Z.of_nat (length (jw_log w)) in (Ok raw, record_event (EvOpen p wr (Some raw)) w);
  Worker.as_raw_fd f := f
}.
#[local] Program Instance world_worker_log : WorkerLog jail_world Z Z.
Next Obligation. intros p w r w' [= <- <-]. by exists [EvStatfs p (inr (mount_type w))]. Qed.
Next Obligation. intros p wr w r w' [= <- <-]. by eexists [EvOpen p wr (Some _)]. Qed.
Next Obligation. log_law (@nil (jail_event Z)). Qed.
Next Obligation. intros s. log_law (@nil (jail_event Z)). Qed.
Next Obligation. intros d. log_law (@nil (jail_event Z)). Qed.
#[local] Program Instance world_clock : WorkerClock jail_world := { clock := jw_time }.
Next Obligation. done. Qed.
Next Obligation. done. Qed.
Next Obligation. intros d w Hd. eexists. split; [done|]. cbn. lia. Qed.
Next Obligation. intros p w r w' [= <- <-]. split_and!; [done|done|cbn; lia]. Qed.
#[local] Instance world_pvm : PvmExec.PvmOs jail_world := {
  PvmExec.pvm_fcntl fd w := (Ok 0, w);
  PvmExec.fstat_size fd w := (Ok 10, w)
}.
#[local] Program Instance world_pvm_quiet : PvmQuiet jail_world Z.
Next Obligation. intros p. log_law (@nil (jail_event Z)). Qed.
Next Obligation. intros p. log_law (@nil (jail_event Z)). Qed.

Definition start_world : jail_world := {| jw_time := 0; jw_next := 7; jw_log := [] |}.
Definition sample_matches : Worker.matches :=
  {| Worker.m_authfs_root := "/mnt"; Worker.m_in_fd := ["3:10"%string]; Worker.m_out_fd := ["4"%string];
     Worker.m_args := ["/bin/task"%string]; Worker.m_debug := false |}.
Definition sample_config : Worker.Config :=
  {| Worker.authfs_root := "/mnt"; Worker.in_fds := [{| Worker.wi_fd := 3; Worker.wi_file_size := 10 |}];
     Worker.out_fds := [{| Worker.wo_fd := 4 |}]; Worker.w_args := ["/bin/task"%string];
     Worker.w_debuggable := false |}.

Lemma worker_ends_authfs_witness :
  (∃ r w' evs, Worker.main (J := Z) (File := Z) 202 sample_matches start_world = (r, w') ∧
    jail_log w' = jail_log start_world ++ evs ∧ worker_trace sample_config r evs) ∧
  Worker.main (J := Z) (File := Z) 202 sample_matches start_world =
    (Ok 3, {| jw_time := 150; jw_next := 9; jw_log :=
       [EvRun 7 Worker.AUTHFS_BIN [] [Worker.AUTHFS_BIN; "/mnt"; "--remote-ro-file-unverified"; "3:3:10";
                                      "--remote-new-rw-file"; "4:4"]%string true;
        EvStatfs "/mnt" (inr 0x1021994); EvStatfs "/mnt" (inr 0x1021994); EvStatfs "/mnt" (inr 0x1021994);
        EvStatfs "/mnt" (inr Worker.FUSE_SUPER_MAGIC);
        EvOpen "/mnt/3" false (Some 45); EvOpen "/mnt/4" true (Some 46);
        EvTask 8 "/bin/task" [(45, 3); (46, 4)] ["/bin/task"%string] true;
        EvWait 8 (inl (ReturnCode 3)); EvKill 7] |}).
Proof.
  split; [refine (worker_ends_authfs sample_matches sample_config start_world _); vm_compute; reflexivity|].
  vm_compute. reflexivity.
Defined.

Definition pvm_matches : PvmExec.matches :=
  {| PvmExec.m_in_fd := ["3"%string]; PvmExec.m_out_fd := ["4"%string]; PvmExec.m_args := ["sh"%string];
     PvmExec.m_debug := false |}.
Definition pvm_config : PvmExec.Config :=
  {| PvmExec.c_args := ["sh"%string];
     PvmExec.c_metadata := {| input_fd_annotations := [{| in_fd := 3; in_file_size := 10 |}];
                              output_fd_annotations := [{| out_fd := 4 |}] |};
     PvmExec.c_debuggable := false |}.
Lemma pvm_exec_ends_fd_server_witness :
  (∃ r w' evs, PvmExec.main (J := Z) None pvm_matches start_world = (r, w') ∧
    jail_log w' = jail_log start_world ++ evs ∧ pvm_trace pvm_config r evs) ∧
  PvmExec.main (J := Z) None pvm_matches start_world =
    (Panic, {| jw_time := 0; jw_next := 8; jw_log :=
       [EvRun 7 PvmExec.FD_SERVER_BIN [3; 4] [PvmExec.FD_SERVER_BIN; "--ro-fds"; "3"; "--rw-fds"; "4"]%string true;
        EvKill 7] |}).
Proof.
  split; [|vm_compute; reflexivity].
  refine (pvm_exec_ends_fd_server None pvm_matches pvm_config start_world start_world _ _);
    [discriminate|vm_compute; reflexivity].
Defined.
End Witness.
