(* ===== verification/ComposRun.v ===== *)
(** * compos end to end: from the command line of pvm_exec to the files of the task

    The pieces of the chain composed the way the programs start each other:
    pvm_exec parses its descriptors and starts fd_server with them, compsvc
    builds the command line of its worker, the worker that of authfs, and
    authfs prepares its pool over the service that fd_server provides.  The
    options of each program are read back from the command line that the one
    before it built.  Jails, the binder transport and the mount are left out:
    a descriptor keeps its number across them. *)

From S2P Require Import Prelude Io Parse Common Crypto Sha256Ref FsverityCommon MerkleSpec Content Builder File Verifier Editor VirtFd FdServer RemoteFile FuseFs FdServerSpec Frames AuthfsSpec AuthfsMain Compos.
#[local] Open Scope Z_scope.

Inductive chain_error :=
| ChainPvm (e : PvmExec.pvm_error) | ChainFdServer (e : arg_error) | ChainService (e : Status)
| ChainWorker (e : Worker.worker_error) | ChainAuthfs (e : main_error).

(** What clap and structopt hand to fd_server and authfs. *)
Definition fd_server_ro (args : list string) : list string := values_after "--ro-fds" args.
Definition fd_server_rw (args : list string) : list string := values_after "--rw-fds" args.
Definition authfs_args (args : list string) : outcome main_error Args :=
  unverified ← try_map parse_remote_ro_file_unverified_option
                 (values_after "--remote-ro-file-unverified" args);
  new_rw ← try_map parse_remote_new_rw_file_option (values_after "--remote-new-rw-file" args);
  Ok {| mount_point := default EmptyString (args !! 1%nat);
        remote_ro_file := []; remote_ro_file_unverified := unverified; remote_new_rw_file := new_rw;
        local_ro_file := []; local_ro_file_unverified := []; arg_debug := has_flag "--debug" args |}.

Section Chain.
Context `{Profile} `{Sha256Ffi} `{StatusDescription} {W File : Type} `{OsFile W File} `{FileOpen W File}
  `{VerityIoctl W File} `{FdTable W File} `{PvmExec.PvmOs W}.

(** The service of fd_server, the pool of authfs and the configuration of the worker. *)
Definition compos_setup (self : CompSvc.CompService) (m : PvmExec.matches)
    : M W chain_error
        (FdService File * (gmap Z (FileConfig File (FdService File)) * gmap Z MerkleLeaves) * Worker.Config) :=
  config ← map_errM ChainPvm (PvmExec.parse_args m);
  let '(fd_server, _) := PvmExec.fd_server_command (PvmExec.c_metadata config) (PvmExec.c_debuggable config) in
  pool ← map_errM ChainFdServer (FdServer.parse_args (fd_server_ro fd_server) (fd_server_rw fd_server));
  let svc := {| fd_pool := pool |} in
  worker ← lift (map_err ChainService
                   (CompSvc.build_worker_args self (PvmExec.c_args config) (PvmExec.c_metadata config)));
  wconfig ← lift (map_err ChainWorker (Worker.parse_args (worker_matches worker)));
  let '(authfs, _) := Worker.authfs_command wconfig in
  args ← lift (map_err ChainAuthfs (authfs_args authfs));
  files ← map_errM ChainAuthfs (prepare_file_pool (Some svc) args);
  mret (svc, files, wconfig).
End Chain.

(** pvm_exec and fd_server see the same table of open files. *)
Class SharedTable (W File : Type) `{PosixFile W File} `{!FdTable W File} `{!PvmExec.PvmOs W} := {
  pvm_fcntl_open fd w : fd_open w fd -> ∃ r, PvmExec.pvm_fcntl fd w = (Ok r, w) ∧ 0 <= r;
  fstat_open fd w : fd_open w fd ->
    PvmExec.fstat_size fd w = (Ok (len (file_content w (from_raw_fd fd))), w)
}.

(** ** Generic lemmas on folds and collections *)
Lemma try_fold_pure {W E A B C} (f : A -> B -> M W E A) (h : C -> B) (g : A -> C -> A) l (w : W) :
  (∀ acc x, x ∈ l -> f acc (h x) w = (Ok (g acc x), w)) ->
  ∀ acc, try_fold f acc (h <$> l) w = (Ok (foldl g acc l), w).
Proof.
  intros Hf. induction l as [|x l IH]; intros acc; [done|]. cbn [fmap list_fmap try_fold foldl].
  erewrite M_bind_Ok by (apply Hf, list_elem_of_here). apply IH.
  intros acc' y Hy. by apply Hf, list_elem_of_further.
Qed.
Lemma collectM_pure {W E A B C} (f : B -> M W E C) (h : A -> B) (g : A -> C) l (w : W) :
  (∀ x, x ∈ l -> f (h x) w = (Ok (g x), w)) -> collectM f (h <$> l) w = (Ok (g <$> l), w).
Proof.
  intros Hf. induction l as [|x l IH]; [done|]. cbn [fmap list_fmap collectM].
  erewrite M_bind_Ok by (apply Hf, list_elem_of_here).
  by erewrite M_bind_Ok by (apply IH; intros y Hy; by apply Hf, list_elem_of_further).
Qed.

(** A map filled at the keys of a list. *)
Lemma lookup_foldl_insert {A} (c : Z -> A) l (m : gmap Z A) k :
  foldl (λ m k, <[k := c k]> m) m l !! k = if decide (k ∈ l) then Some (c k) else m !! k.
Proof.
  revert m. induction l as [|x l IH]; intros m; [by rewrite decide_False by (by intros ?%elem_of_nil)|].
  cbn [foldl]. rewrite IH. destruct (decide (k ∈ l)) as [Hk|Hk].
  - by rewrite decide_True by (by apply list_elem_of_further).
  - destruct (decide (k = x)) as [->|Hne].
    + rewrite lookup_insert_eq. by rewrite decide_True by (by apply list_elem_of_here).
    + rewrite lookup_insert_ne by done. rewrite decide_False; [done|]. by intros [|]%elem_of_cons.
Qed.

(** ** The stages, for open descriptors in range *)
Section Stages.
Context `{Profile} `{Sha256Spec} `{StatusDescription} {W File : Type} `{SharedTable W File}
  `{!VerityIoctl W File} `{!FileOpen W File}.
Context (w : W) (ins outs : list Z).

Abbreviation content fd := (file_content w (from_raw_fd fd : File)).

Definition usable_input (fd : Z) : Prop :=
  0 <= fd <= i32_MAX ∧ fd_open w fd ∧ len (content fd) <= i64_MAX.
Definition usable_output (fd : Z) : Prop := 0 <= fd <= i32_MAX ∧ fd_open w fd ∧ content fd = [].
Context (Hins : Forall usable_input ins) (Houts : Forall usable_output outs).

Lemma input_usable fd : fd ∈ ins -> usable_input fd.
Proof. by apply Forall_forall. Qed.
Lemma output_usable fd : fd ∈ outs -> usable_output fd.
Proof. by apply Forall_forall. Qed.

(** What pvm_exec says of the descriptors. *)
Definition metadata_of : Metadata :=
  {| input_fd_annotations := (λ fd, {| in_fd := fd; in_file_size := len (content fd) |}) <$> ins;
     output_fd_annotations := (λ fd, {| out_fd := fd |}) <$> outs |}.

Lemma parse_arg_fd_ok fd :
  0 <= fd <= i32_MAX -> fd_open w fd -> PvmExec.parse_arg_fd (pretty fd) w = (Ok fd, w).
Proof.
  intros Hr Ho. unfold PvmExec.parse_arg_fd. rewrite parse_i32_Z by done. erewrite M_bind_lift by done.
  destruct (pvm_fcntl_open fd w Ho) as (r & Hf & Hr0). unfold PvmExec.is_fd_valid, map_errM.
  rewrite !M_bind_eq, Hf. cbn. by replace (r >=? 0) with true by lia.
Qed.

Lemma pvm_parse_ok args debug :
  PvmExec.parse_args {| PvmExec.m_in_fd := pretty <$> ins; PvmExec.m_out_fd := pretty <$> outs;
                        PvmExec.m_args := args; PvmExec.m_debug := debug |} w =
    (Ok {| PvmExec.c_args := args; PvmExec.c_metadata := metadata_of; PvmExec.c_debuggable := debug |}, w).
Proof.
  unfold PvmExec.parse_args. cbn [PvmExec.m_in_fd PvmExec.m_out_fd PvmExec.m_args PvmExec.m_debug].
  erewrite M_bind_Ok; [|apply (collectM_pure _ _ (λ fd, {| in_fd := fd; in_file_size := len (content fd) |}))].
  2: { intros fd (Hr & Ho & _)%input_usable. erewrite M_bind_Ok by (by apply parse_arg_fd_ok).
       unfold map_errM. rewrite M_bind_eq, fstat_open by done. done. }
  erewrite M_bind_Ok; [|apply (collectM_pure _ _ (λ fd, {| out_fd := fd |}))]; [done|].
  intros fd (Hr & Ho & _)%output_usable. by erewrite M_bind_Ok by (by apply parse_arg_fd_ok).
Qed.

(** The command line of fd_server gives back the descriptors. *)
Lemma fd_server_values debug :
  let args := (PvmExec.fd_server_command metadata_of debug).1 in
  fd_server_ro args = pretty <$> ins ∧ fd_server_rw args = pretty <$> outs.
Proof.
  assert (Forall (λ a, plain (pretty (in_fd a)) = true) (input_fd_annotations metadata_of)) as Hpi.
  { apply Forall_fmap, Forall_forall. intros fd [? _]%input_usable. apply pretty_plain_nil. cbn. lia. }
  unfold PvmExec.fd_server_command, fd_server_ro, fd_server_rw. cbn [fst values_after]. eval_eqb.
  rewrite (values_after_same (λ a, pretty (in_fd a)) "--ro-fds") by done.
  rewrite (values_after_other (λ a, pretty (in_fd a)) "--ro-fds" "--rw-fds") by (done || by do 2 eexists).
  rewrite <- (app_nil_r (concat (_ <$> output_fd_annotations _))).
  rewrite (values_after_same (λ a, pretty (out_fd a)) "--rw-fds") by done.
  rewrite (values_after_other (λ a, pretty (out_fd a)) "--rw-fds" "--ro-fds"); [|done|done|by do 2 eexists|].
  2: { apply Forall_fmap, Forall_forall. intros fd [? _]%output_usable. apply pretty_plain_nil. cbn. lia. }
  cbn [values_after metadata_of input_fd_annotations output_fd_annotations].
  by rewrite !app_nil_r, <- !list_fmap_compose.
Qed.

(** fd_server's pool. *)
Definition served_pool : gmap Z (FdConfig File) :=
  foldl (λ m fd, <[fd := ReadWrite (from_raw_fd fd)]> m)
    (foldl (λ m fd, <[fd := Readonly (from_raw_fd fd) None None]> m) ∅ ins) outs.

Lemma fd_server_parse_ok :
  FdServer.parse_args (pretty <$> ins) (pretty <$> outs) w = (Ok served_pool, w).
Proof.
  unfold FdServer.parse_args. erewrite M_bind_Ok.
  2: { apply (try_fold_pure _ _ (λ m fd, <[fd := Readonly (from_raw_fd fd) None None]> m)).
       intros m fd (Hr & Ho & _)%input_usable. rewrite pretty_Z_nonneg by lia.
       erewrite M_bind_Ok; [|apply (parse_arg_ro_fds_ok (Z.to_N fd) [])]; [|cbn; lia|].
       - by rewrite Z2N.id by lia.
       - apply Forall_singleton. split; rewrite Z2N.id by lia; [lia|done]. }
  apply (try_fold_pure _ _ (λ m fd, <[fd := ReadWrite (from_raw_fd fd)]> m)).
  intros m fd (Hr & Ho & Hc)%output_usable. unfold parse_arg_rw_fds. rewrite parse_i32_Z by done.
  rewrite M_bind_eq. erewrite M_bind_lift by done. erewrite M_bind_Ok by (by apply fd_to_file_ok).
  unfold map_errM. rewrite M_bind_eq, posix_len. cbn [map_err]. by rewrite Hc.
Qed.
Lemma served_pool_lookup fd :
  served_pool !! fd =
    if decide (fd ∈ outs) then Some (ReadWrite (from_raw_fd fd))
    else if decide (fd ∈ ins) then Some (Readonly (from_raw_fd fd) None None) else None.
Proof. unfold served_pool. by rewrite !lookup_foldl_insert, lookup_empty. Qed.

(** authfs's pool over a service. *)
Section Pool.
Context (svc : FdService File).
Definition input_config (fd : Z) : FileConfig File (FdService File) :=
  RemoteUnverifiedReadonlyFile (RemoteFileReader_new svc fd) (len (content fd)).
Definition output_config (fd : Z) : FileConfig File (FdService File) :=
  RemoteVerifiedNewFile {| ve_file := RemoteFileEditor_new svc fd |}.
Definition authfs_pool :=
  foldl (λ p fd, pool_insert fd (output_config fd) (Some ml_new) p)
    (foldl (λ p fd, pool_insert fd (input_config fd) None p) (∅, ∅) ins) outs.

Lemma prepare_ok mnt dbg :
  prepare_file_pool (Some svc)
    {| mount_point := mnt; remote_ro_file := [];
       remote_ro_file_unverified :=
         (λ fd, {| rru_ino := fd; rru_remote_id := fd; rru_file_size := len (content fd) |}) <$> ins;
       remote_new_rw_file := (λ fd, {| rrw_ino := fd; rrw_remote_id := fd |}) <$> outs;
       local_ro_file := []; local_ro_file_unverified := []; arg_debug := dbg |} w = (Ok authfs_pool, w).
Proof.
  unfold prepare_file_pool. cbn [remote_ro_file remote_ro_file_unverified remote_new_rw_file local_ro_file
    local_ro_file_unverified try_fold]. erewrite M_bind_Ok by done.
  erewrite M_bind_Ok by (by apply (try_fold_pure _ _ (λ p fd, pool_insert fd (input_config fd) None p))).
  erewrite M_bind_Ok
    by (by apply (try_fold_pure _ _ (λ p fd, pool_insert fd (output_config fd) (Some ml_new) p))).
  done.
Qed.

Lemma pool_fold_lookup (c : Z -> FileConfig File (FdService File)) lv l p fd :
  let p' := foldl (λ p fd, pool_insert fd (c fd) lv p) p l in
  (p'.1 !! fd = if decide (fd ∈ l) then Some (c fd) else p.1 !! fd) ∧
  (p'.2 !! fd = if decide (fd ∈ l) then lv else p.2 !! fd).
Proof.
  revert p. induction l as [|x l IH]; intros p; cbn [foldl].
  { by rewrite !decide_False by (by intros ?%elem_of_nil). }
  destruct (IH (pool_insert x (c x) lv p)) as [IH1 IH2]. rewrite IH1, IH2. clear IH IH1 IH2.
  destruct (decide (fd ∈ l)) as [Hk|Hk]; [by rewrite !decide_True by (by apply list_elem_of_further)|].
  cbn [pool_insert fst snd]. destruct (decide (fd = x)) as [->|Hne].
  - rewrite lookup_insert_eq, lookup_partial_alter_eq. by rewrite !decide_True by apply list_elem_of_here.
  - rewrite lookup_insert_ne, lookup_partial_alter_ne by done.
    by rewrite !decide_False by (by intros [|]%elem_of_cons).
Qed.
Lemma authfs_pool_lookup fd :
  (authfs_pool.1 !! fd =
     if decide (fd ∈ outs) then Some (output_config fd)
     else if decide (fd ∈ ins) then Some (input_config fd) else None) ∧
  (fd ∈ outs -> authfs_pool.2 !! fd = Some ml_new).
Proof.
  unfold authfs_pool. destruct (pool_fold_lookup output_config (Some ml_new) outs
    (foldl (λ p fd, pool_insert fd (input_config fd) None p) (∅, ∅) ins) fd) as [-> ->].
  destruct (pool_fold_lookup input_config None ins (∅, ∅) fd) as [-> _].
  split; [cbn [fst]; by rewrite lookup_empty|]. intros Hfd. by rewrite decide_True.
Qed.
End Pool.

Lemma metadata_in_range :
  Forall in_range_input (input_fd_annotations metadata_of) ∧
  Forall in_range_output (output_fd_annotations metadata_of).
Proof.
  split; apply Forall_fmap, Forall_forall; [intros fd (Hr & _ & Hl)%input_usable|intros fd [Hr _]%output_usable].
  - split; [done|]. cbn. unfold u64_MAX, i64_MAX in *. lia.
  - done.
Qed.

(** The options of authfs, from the command line that the worker builds. *)
Lemma authfs_args_ok self rest :
  authfs_args (Worker.authfs_command (worker_config self rest metadata_of)).1 =
    Ok {| mount_point := CompSvc.AUTHFS_MOUNTPOINT; remote_ro_file := [];
          remote_ro_file_unverified :=
            (λ fd, {| rru_ino := fd; rru_remote_id := fd; rru_file_size := len (content fd) |}) <$> ins;
          remote_new_rw_file := (λ fd, {| rrw_ino := fd; rrw_remote_id := fd |}) <$> outs;
          local_ro_file := []; local_ro_file_unverified := [];
          arg_debug := has_flag "--debug" (Worker.authfs_command (worker_config self rest metadata_of)).1 |}.
Proof.
  assert (Forall (λ c, 0 <= Worker.wi_fd c <= i32_MAX ∧ 0 <= Worker.wi_file_size c <= u64_MAX)
    (Worker.in_fds (worker_config self rest metadata_of))) as Hi.
  { apply Forall_fmap, metadata_in_range. }
  assert (Forall (λ c, 0 <= Worker.wo_fd c <= i32_MAX) (Worker.out_fds (worker_config self rest metadata_of)))
    as Ho by (apply Forall_fmap, metadata_in_range).
  unfold authfs_args. rewrite authfs_ro_values, bind_Ok by done. rewrite authfs_rw_values, bind_Ok by done.
  cbn [worker_config Worker.in_fds Worker.out_fds metadata_of input_fd_annotations output_fd_annotations].
  by rewrite <- !list_fmap_compose.
Qed.

Lemma compos_setup_ok self a0 rest debug :
  compos_setup self {| PvmExec.m_in_fd := pretty <$> ins; PvmExec.m_out_fd := pretty <$> outs;
                       PvmExec.m_args := a0 :: rest; PvmExec.m_debug := debug |} w =
    (Ok ({| fd_pool := served_pool |}, authfs_pool {| fd_pool := served_pool |},
         worker_config self rest metadata_of), w).
Proof.
  unfold compos_setup, map_errM. rewrite M_bind_eq, pvm_parse_ok. cbn [map_err PvmExec.c_metadata
    PvmExec.c_debuggable PvmExec.c_args].
  destruct (fd_server_values debug) as [Hro Hrw].
  destruct (PvmExec.fd_server_command metadata_of debug) as [fargs fds]. cbn [fst] in Hro, Hrw.
  rewrite Hro, Hrw. rewrite M_bind_eq, fd_server_parse_ok. cbn [map_err].
  erewrite M_bind_lift by (by rewrite build_worker_args_ok).
  erewrite M_bind_lift by (by rewrite worker_parse_built by apply metadata_in_range).
  pose proof (authfs_args_ok self rest) as Ha.
  destruct (Worker.authfs_command (worker_config self rest metadata_of)) as [aargs afds]. cbn [fst] in Ha.
  erewrite M_bind_lift by (by rewrite Ha). rewrite M_bind_eq, prepare_ok. done.
Qed.

(** The files of the pool, over the service. *)
Abbreviation svc := {| fd_pool := served_pool |}.
Lemma input_served mw fd out size offset :
  fd ∈ ins -> fd ∉ outs -> 0 <= offset < 2 ^ 64 -> 0 <= size <= u32_MAX ->
  let stop := Z.min (offset + size) (len (content fd)) in
  read {| file_pool := (authfs_pool svc).1; max_write := mw |} fd size offset (out, ((authfs_pool svc).2, w)) =
    (Ok (Z.max 0 (stop - offset)),
     (out ++ subrange (content fd) offset stop, ((authfs_pool svc).2, w))).
Proof.
  intros Hi Hno Ho Hs stop. apply input_usable in Hi as Hu. destruct Hu as (_ & _ & Hl).
  unfold read, AuthFs_get_file_config. cbn [file_pool]. rewrite (proj1 (authfs_pool_lookup svc fd)), decide_False, decide_True by done.
  erewrite M_bind_lift by done. unfold input_config. cbn [without_tree].
  rewrite (read_chunks_serves _ (content fd)); [done|..|done|done]; [|unfold i64_MAX in *; lia].
  apply (RemoteFileReader_reads _ (Readonly (from_raw_fd fd) None None)); [|done].
  cbn [rr_service rr_file_fd RemoteFileReader_new fd_pool].
  rewrite served_pool_lookup, decide_False by done. by rewrite decide_True.
Qed.
Lemma output_in_step mw fd :
  fd ∈ outs ->
  file_in_step {| file_pool := (authfs_pool svc).1; max_write := mw |} fd
    {| ve_file := RemoteFileEditor_new svc fd |} ((authfs_pool svc).2, w) [].
Proof.
  intros Ho. destruct (authfs_pool_lookup svc fd) as [H1' H2']. rewrite decide_True in H1' by done. split; [exact H1'|].
  exists ml_new. split; [by apply H2'|].
  assert (served_pool !! fd = Some (ReadWrite (from_raw_fd fd))) as Hp
    by (by rewrite served_pool_lookup, decide_True).
  split_and!; [apply represents_new|by eexists|].
  cbn. unfold remote_content. cbn. rewrite Hp. by apply output_usable in Ho as (_ & _ & ?).
Qed.

(** The task's files as a file system: the inputs, and empty outputs. *)
Definition task_nodes : nodes :=
  foldl (λ m fd, <[fd := WritableNode []]> m) (foldl (λ m fd, <[fd := ReadonlyNode (content fd)]> m) ∅ ins) outs.
Lemma task_nodes_lookup fd :
  task_nodes !! fd =
    if decide (fd ∈ outs) then Some (WritableNode [])
    else if decide (fd ∈ ins) then Some (ReadonlyNode (content fd)) else None.
Proof. unfold task_nodes. by rewrite !lookup_foldl_insert, lookup_empty. Qed.

(** The outputs are files of their own. *)
Definition distinct_outputs : Prop :=
  ∀ out fd, out ∈ outs -> fd ∈ ins ++ outs -> (from_raw_fd fd : File) = from_raw_fd out -> fd = out.

Lemma task_mounted mw :
  mounted {| file_pool := (authfs_pool svc).1; max_write := mw |} ((authfs_pool svc).2, w) task_nodes.
Proof.
  intros fd. cbn [file_pool]. rewrite task_nodes_lookup, (proj1 (authfs_pool_lookup svc fd)).
  destruct (decide (fd ∈ outs)) as [Ho|Ho]; [constructor|destruct (decide (fd ∈ ins)) as [Hi|Hi]; constructor].
  - apply (in_step_backed _ _ _ _ _ (from_raw_fd fd) _ (output_in_step mw fd Ho)); [|cbn; unfold i64_MAX; lia].
    cbn [fd_pool]. by rewrite served_pool_lookup, decide_True.
  - apply input_usable in Hi as Hu. destruct Hu as (_ & _ & Hl).
    eapply backed_remote; [|exact Hl|]; [cbn [fd_pool]; by rewrite served_pool_lookup, decide_False, decide_True|done].
Qed.
Lemma task_backing fd f :
  f ∈ served_files svc fd -> f = from_raw_fd fd ∧ fd ∈ ins ++ outs.
Proof.
  unfold served_files. cbn [fd_pool]. rewrite served_pool_lookup. rewrite elem_of_app.
  repeat case_decide; cbn; set_solver.
Qed.
Lemma task_separate mw :
  distinct_outputs -> separate {| file_pool := (authfs_pool svc).1; max_write := mw |}.
Proof.
  intros Hd i e Hi j c Hne Hj f Hf Hc. cbn [file_pool] in Hi, Hj.
  rewrite (proj1 (authfs_pool_lookup svc i)) in Hi. rewrite (proj1 (authfs_pool_lookup svc j)) in Hj.
  unfold input_config, output_config in Hi, Hj.
  destruct (decide (i ∈ outs)) as [Ho|]; [|by destruct (decide (i ∈ ins))]. injection Hi as <-.
  apply task_backing in Hf as [-> _]. assert (from_raw_fd i ∈ served_files svc j) as Hb.
  { destruct (decide (j ∈ outs)); [by injection Hj as <-|]. case_decide; [by injection Hj as <-|done]. }
  apply task_backing in Hb as [Heq Hin]. apply Hne, Hd; [done|done|by symmetry].
Qed.
End Stages.

(** What a file in step says of the host's file. *)
Lemma in_step_host `{Profile} `{Sha256Spec} `{StatusDescription} {W File LFile} `{!OsFile W LFile}
    `{PosixFile W File} `{!VerityIoctl W File} (fs : AuthFs LFile (FdService File)) inode svc fd file st data :
  file_in_step fs inode {| ve_file := RemoteFileEditor_new svc fd |} st data ->
  fd_pool svc !! fd = Some (ReadWrite file) -> file_content st.2 file = data.
Proof.
  intros (_ & t & _ & _ & _ & Hc) Hp. cbn in Hc. unfold remote_content in Hc. cbn in Hc. by rewrite Hp in Hc.
Qed.

(** ** Claims *)

(** end to end, from the command line of pvm_exec to the files that the task
    sees.  For input descriptors that are open and output descriptors that are
    open and empty, no descriptor being both, the whole chain sets up: every
    program accepts the command line that the one before it built.  In the
    file system that authfs then serves, under the number of each input
    descriptor a read returns the requested range of the host's file, and
    under the number of each output descriptor a write of any buffer at any
    offset ends up, exactly, in the host's file, whose digest the editor
    tracks from the empty file on. *)
Theorem compos_end_to_end `{Profile} `{Sha256Spec} `{StatusDescription} {W File} `{SharedTable W File}
    `{!VerityIoctl W File} `{!FileOpen W File} (self : CompSvc.CompService) (w : W) ins outs a0 rest debug mw fuel :
  Forall (usable_input (File := File) w) ins -> Forall (usable_output (File := File) w) outs ->
  (∀ fd, fd ∈ ins -> fd ∉ outs) -> (CHUNK < fuel)%nat ->
  ∃ svc files,
    compos_setup self {| PvmExec.m_in_fd := pretty <$> ins; PvmExec.m_out_fd := pretty <$> outs;
                         PvmExec.m_args := a0 :: rest; PvmExec.m_debug := debug |} w =
      (Ok (svc, files, worker_config self rest (metadata_of (File := File) w ins outs)), w) ∧
    let fs := {| file_pool := files.1; max_write := mw |} in
    (∀ fd out size offset, fd ∈ ins -> 0 <= offset < 2 ^ 64 -> 0 <= size <= u32_MAX ->
       let data := file_content w (from_raw_fd fd : File) in
       let stop := Z.min (offset + size) (len data) in
       read fs fd size offset (out, (files.2, w)) =
         (Ok (Z.max 0 (stop - offset)), (out ++ subrange data offset stop, (files.2, w)))) ∧
    (∀ fd buf (off : nat), fd ∈ outs -> Z.of_nat off + len buf <= i64_MAX ->
       ∃ st', write fuel fs fd (len buf) (Z.of_nat off) (buf, (files.2, w)) = (Ok (len buf), ([], st')) ∧
         file_content st'.2 (from_raw_fd fd : File) = write_bytes [] off buf ∧
         file_in_step fs fd {| ve_file := RemoteFileEditor_new svc fd |} st' (write_bytes [] off buf)).
Proof.
  intros Hi Ho Hd Hf. eexists _, _. split; [by apply compos_setup_ok|]. split.
  - intros fd out size offset Hfd Hoff Hs. apply input_served; auto.
  - intros fd buf off Hfd Hmax.
    destruct (write_in_step fuel {| file_pool := (authfs_pool w ins outs {| fd_pool := served_pool ins outs |}).1;
      max_write := mw |} fd {| ve_file := RemoteFileEditor_new {| fd_pool := served_pool ins outs |} fd |}
      ((authfs_pool w ins outs {| fd_pool := served_pool ins outs |}).2, w) [] buf off)
      as (st' & Hw & Hst); [done|by apply output_in_step|cbn; unfold i64_MAX; lia|done|].
    exists st'. split; [exact Hw|]. split; [|done]. eapply in_step_host; [exact Hst|].
    cbn [fd_pool]. by rewrite served_pool_lookup, decide_True.
Qed.

(** C11: what the task of a request can do.  When moreover the outputs are files
    of their own, the mounted file system is the one of the specification: the
    inputs with the contents of the caller's descriptors and, for each output,
    an empty writable file.  Every history of requests in range gets exactly
    its replies; at the end the caller's input files are as they were, each of
    the caller's output files holds what the specification says, and, in a
    build without debug assertions, the digest that authfs computes for it is
    the fs-verity digest of that content. *)
Theorem compos_task_history `{Profile} `{Sha256Spec} `{StatusDescription} {W File} `{SharedTable W File}
    `{!VerityIoctl W File} `{!FileOpen W File} (self : CompSvc.CompService) (w : W) ins outs a0 rest debug mw fuel :
  Forall (usable_input (File := File) w) ins -> Forall (usable_output (File := File) w) outs ->
  (∀ fd, fd ∈ ins -> fd ∉ outs) -> distinct_outputs (File := File) ins outs -> (CHUNK < fuel)%nat ->
  ∃ svc files,
    compos_setup self {| PvmExec.m_in_fd := pretty <$> ins; PvmExec.m_out_fd := pretty <$> outs;
                         PvmExec.m_args := a0 :: rest; PvmExec.m_debug := debug |} w =
      (Ok (svc, files, worker_config self rest (metadata_of (File := File) w ins outs)), w) ∧
    ∀ rqs, Forall in_range rqs ->
    let after := replies spec_step (task_nodes (File := File) w ins outs) rqs in
    ∃ st', replies (fuse_step fuel {| file_pool := files.1; max_write := mw |}) (files.2, w) rqs = (after.1, st') ∧
      (∀ fd, fd ∈ ins -> file_content st'.2 (from_raw_fd fd : File) = file_content w (from_raw_fd fd : File)) ∧
      (∀ fd, fd ∈ outs -> ∃ data t, after.2 !! fd = Some (WritableNode data) ∧
         file_content st'.2 (from_raw_fd fd : File) = data ∧ st'.1 !! fd = Some t ∧
         (debug_assertions = false -> calculate_fsverity_digest t = Ok (fsverity_digest data))).
Proof.
  intros Hi Ho Hd Hdist Hf. eexists _, _. split; [by apply compos_setup_ok|]. intros rqs Hrqs after.
  set (svc := {| fd_pool := served_pool ins outs |}).
  set (fs := {| file_pool := (authfs_pool w ins outs svc).1; max_write := mw |}).
  assert (separate fs) as Hsep by (by apply task_separate).
  assert (mounted fs ((authfs_pool w ins outs svc).2, w) (task_nodes w ins outs)) as Hm0 by (by apply task_mounted).
  destruct (history_refines fuel Hf fs Hsep _ _ rqs Hm0 Hrqs) as (st' & Hr & Hm).
  exists st'. split; [exact Hr|]. split.
  - intros fd Hfd. specialize (Hm fd). rewrite (spec_history_readonly _ rqs fd (file_content w (from_raw_fd fd))) in Hm
      by (rewrite task_nodes_lookup, decide_False, decide_True; auto).
    cbn [file_pool fs] in Hm. rewrite (proj1 (authfs_pool_lookup w ins outs svc fd)), decide_False, decide_True in Hm by auto.
    inversion Hm as [? ? Hb|]; subst. inversion Hb as [| | |s d c data Hp Hl Hc|]; subst.
    cbn [svc fd_pool] in Hp. rewrite served_pool_lookup, decide_False, decide_True in Hp by auto. by injection Hp as <-.
  - intros fd Hfd. specialize (Hm fd). cbn [file_pool fs] in Hm.
    rewrite (proj1 (authfs_pool_lookup w ins outs svc fd)), decide_True in Hm by auto.
    inversion Hm as [? n Hb Heq1 Heq2|]; subst. inversion Hb as [| | | |s d f t data Hp Hl Hc Ht Hrep]; subst.
    cbn [svc fd_pool] in Hp. rewrite served_pool_lookup, decide_True in Hp by auto. injection Hp as <-.
    eexists _, t. split; [done|]. split; [done|]. split; [done|]. intros Hdbg.
    apply calculate_digest_ok; [done|done|]. unfold i64_MAX in Hl. lia.
Qed.

Section Witness.
#[local] Existing Instance debug_profile.
#[local] Existing Instance mem_ioctl.
#[local] Existing Instance mem_fds.
#[local] Existing Instance mem_open.
#[local] Existing Instance no_description.
#[local] Instance mem_pvm : PvmExec.PvmOs (gmap Z bytes) := {
  PvmExec.pvm_fcntl fd w := (Ok (if fd <? 100 then 0 else -1), w);
  PvmExec.fstat_size fd w := (Ok (len (mem_content w fd)), w)
}.
#[local] Program Instance mem_shared : SharedTable (gmap Z bytes) Z.
Next Obligation. intros fd w (r & [= <-] & Hr). cbn in Hr |- *. by eexists. Qed.
Next Obligation. done. Qed.

Definition host_files : gmap Z bytes := {[3 := [10; 20; 30; 40]]}.

Lemma compos_end_to_end_witness :
  ∃ svc files,
    compos_setup (File := Z) sample_service
      {| PvmExec.m_in_fd := ["3"%string]; PvmExec.m_out_fd := ["4"%string];
         PvmExec.m_args := ["sh"; "10"]%string; PvmExec.m_debug := true |} host_files =
      (Ok (svc, files, worker_config sample_service ["10"%string] (metadata_of (File := Z) host_files [3] [4])),
       host_files) ∧
    read {| file_pool := files.1; max_write := 65536 |} 3 100 1 ([] : bytes, (files.2, host_files)) =
      (Ok 3, ([20; 30; 40], (files.2, host_files))) ∧
    ∃ st', write 4097 {| file_pool := files.1; max_write := 65536 |} 4 2 1 ([7; 8], (files.2, host_files)) =
        (Ok 2, ([], st')) ∧
      file_content st'.2 4 = [0; 7; 8].
Proof.
  destruct (compos_end_to_end sample_service host_files [3] [4] "sh" ["10"%string] true 65536 4097)
    as (svc & files & Hs & Hr & Hw).
  - apply Forall_singleton. split; [unfold i32_MAX; lia|]. split; [exists 0; by split|]. vm_compute. discriminate.
  - apply Forall_singleton. split; [unfold i32_MAX; lia|]. split; [exists 0; by split|done].
  - intros fd ->%list_elem_of_singleton. by intros ?%list_elem_of_singleton.
  - clia.
  - exists svc, files. split; [exact Hs|]. split.
    + exact (Hr 3 [] 100 1 ltac:(by apply list_elem_of_singleton) ltac:(lia) ltac:(unfold u32_MAX; lia)).
    + destruct (Hw 4 [7; 8] 1%nat ltac:(by apply list_elem_of_singleton) ltac:(cbn; unfold i64_MAX; lia))
        as (st' & H1 & H2 & _). exists st'. split; [exact H1|exact H2].
Defined.

Definition task_requests : list fuse_request :=
  [FRead 3 100 1; FWrite 4 [7; 8] 1; FWrite 3 [0] 0; FRead 4 10 0].
Lemma compos_task_history_witness :
  ∃ svc files st',
    compos_setup (File := Z) sample_service
      {| PvmExec.m_in_fd := ["3"%string]; PvmExec.m_out_fd := ["4"%string];
         PvmExec.m_args := ["sh"; "10"]%string; PvmExec.m_debug := true |} host_files =
      (Ok (svc, files, worker_config sample_service ["10"%string] (metadata_of (File := Z) host_files [3] [4])),
       host_files) ∧
    replies (fuse_step 4097 {| file_pool := files.1; max_write := 65536 |}) (files.2, host_files) task_requests =
      ([RData (Ok 3) [20; 30; 40]; RWritten (Ok 2); RWritten (Err (RawOs EBADF)); RData (Ok 3) [0; 7; 8]], st') ∧
    file_content st'.2 4 = [0; 7; 8].
Proof.
  destruct (compos_task_history sample_service host_files [3] [4] "sh" ["10"%string] true 65536 4097)
    as (svc & files & Hs & Hr).
  - apply Forall_singleton. split; [unfold i32_MAX; lia|]. split; [exists 0; by split|]. vm_compute. discriminate.
  - apply Forall_singleton. split; [unfold i32_MAX; lia|]. split; [exists 0; by split|done].
  - intros fd ->%list_elem_of_singleton. by intros ?%list_elem_of_singleton.
  - intros out fd _ _ Heq. exact Heq.
  - clia.
  - destruct (Hr task_requests) as (st' & Hrep & _ & Hout).
    { repeat constructor; simpl; unfold i64_MAX, u32_MAX; lia. }
    exists svc, files, st'. split; [exact Hs|]. split; [exact Hrep|].
    destruct (Hout 4 ltac:(by apply list_elem_of_singleton)) as (data & t & Hn & Hd & _).
    assert (data = [0; 7; 8]) as -> by (vm_compute in Hn; congruence). exact Hd.
Defined.
End Witness.
