(* ===== verification/ZipInode.v ===== *)
(** * zipfuse/src/inode.rs: the inode table of a zip archive

    The table built once from the archive's entries, by path.  The archive is
    the zip library's: an entry ([zip_file]) is what the library reports of it.
    [table_of] is the invariant of the table (a tree of directories, every
    entry in range with the right kind and path); [resolve] looks a path up; the
    theorems say that the table is exactly the archive's paths. *)

From S2P Require Import Prelude Io Parse.

(** ** The archive, as the zip library presents it *)
Record zip_file := {
  z_name : string;
  (** [enclosed_name().map(|p| p.iter())] *)
  z_enclosed_name : option (list string);
  z_is_file : bool;
  z_unix_mode : option Z;
  z_size : Z;
  (** the decompressed content *)
  z_read_to_end : outcome io_error bytes
}.
Inductive zip_error := ZipError | InvalidName (message : string) | DotDot.
Definition ZipArchive : Type := list (outcome zip_error zip_file).
Definition by_index (archive : ZipArchive) (i : nat) : outcome zip_error zip_file :=
  default (Err ZipError) (archive !! i).

(** ** Inodes *)
Definition INVALID : Z := 0.
Definition ROOT : Z := 1.

Inductive InodeKind := KDirectory | KFile.
Record DirectoryEntry := { de_inode : Z; de_kind : InodeKind }.
Inductive InodeDataData :=
| Directory (entries : gmap string DirectoryEntry)
| File (zip_index : nat).
Record InodeData := { size : Z; mode : Z; data : InodeDataData }.
Record InodeTable := { table : list InodeData }.

Definition is_dir (self : InodeData) : bool :=
  match data self with Directory _ => true | File _ => false end.

Definition get_directory (self : InodeData) : option (gmap string DirectoryEntry) :=
  match data self with Directory hash => Some hash | File _ => None end.

Definition get_zip_index (self : InodeData) : option nat :=
  match data self with File zip_index => Some zip_index | Directory _ => None end.

Definition new_dir (mode_ : Z) : InodeData := {| mode := mode_; size := 0; data := Directory ∅ |}.

Definition new_file (zip_index : nat) (zf : zip_file) : InodeData :=
  {| mode := default 0 (z_unix_mode zf); size := z_size zf; data := File zip_index |}.

Definition add_to_directory {E} (self : InodeData) (name : string) (entry : DirectoryEntry)
    : outcome E InodeData :=
  match data self with
  | Directory hashtable =>
      _ ← assert_ (bool_decide (hashtable !! name = None));
      Ok {| size := size self; mode := mode self; data := Directory (<[name := entry]> hashtable) |}
  | File _ => Panic
  end.

Definition get (self : InodeTable) (inode : Z) : option InodeData :=
  if inode =? INVALID then None else zlookup (table self) inode.

(** [*get_mut(inode).unwrap() = d]. *)
Definition set_inode (self : InodeTable) (inode : Z) (d : InodeData) : InodeTable :=
  {| table := <[Z.to_nat inode := d]> (table self) |}.

Definition put (self : InodeTable) (d : InodeData) : Z * InodeTable :=
  (len (table self), {| table := table self ++ [d] |}).

Definition find {E} (self : InodeTable) (parent : Z) (name : string) : outcome E (option Z) :=
  d ← unwrap (get self parent);
  directory ← unwrap (get_directory d);
  Ok (de_inode <$> directory !! name).

Definition add {E} (self : InodeTable) (parent : Z) (name : string) (d : InodeData)
    : outcome E (Z * InodeTable) :=
  found ← find self parent name;
  _ ← assert_ (bool_decide (found = None));
  let kind := if is_dir d then KDirectory else KFile in
  let '(inode, self) := put self d in
  p ← unwrap (get self parent);
  p' ← add_to_directory p name {| de_inode := inode; de_kind := kind |};
  Ok (inode, set_inode self parent p').

Definition DEFAULT_DIR_MODE : Z := Z.lor S_IRUSR S_IXUSR.

(** [CString::new(name).unwrap()]. *)
Definition cstring_new {E} (name : string) : outcome E string :=
  if no_char (Ascii.ascii_of_nat 0) name then Ok name else Panic.

(** The loop over the components of one entry's path. *)
Fixpoint add_path (t : InodeTable) (i : nat) (file : zip_file) (parent : Z) (iter : list string)
    : outcome zip_error InodeTable :=
  match iter with
  | [] => Ok t
  | name :: iter' =>
      if String.eqb name ".." then Err DotDot
      else
        let is_leaf := match iter' with [] => true | _ => false end in
        let is_file := z_is_file file && is_leaf in
        name ← cstring_new name;
        found ← find t parent name;
        match found with
        | Some found =>
            if negb is_file && is_leaf then
              d ← unwrap (get t found);
              let t := set_inode t found
                         {| size := size d; mode := default 0 (z_unix_mode file); data := data d |} in
              add_path t i file found iter'
            else add_path t i file found iter'
        | None =>
            let d := if is_file then new_file i file
                     else if is_leaf then new_dir (default DEFAULT_DIR_MODE (z_unix_mode file))
                     else new_dir DEFAULT_DIR_MODE in
            '(new, t) ← add t parent name d;
            add_path t i file new iter'
        end
  end.

(** The loop over the entries, from index [i]. *)
Fixpoint add_entries (t : InodeTable) (i : nat) (rest : list (outcome zip_error zip_file))
    : outcome zip_error InodeTable :=
  match rest with
  | [] => Ok t
  | entry :: rest' =>
      file ← entry;
      path ← ok_or (InvalidName (String.append (z_name file) " is an invalid name")) (z_enclosed_name file);
      t ← add_path t i file ROOT path;
      add_entries t (S i) rest'
  end.

Definition from_zip (archive : ZipArchive) : outcome zip_error InodeTable :=
  let t := {| table := [] |} in
  let '(inode, t) := put t (new_dir 0) in
  _ ← assert_ (inode =? INVALID);
  let '(inode, t) := put t (new_dir 0) in
  _ ← assert_ (inode =? ROOT);
  add_entries t 0 archive.

(** ** Specification: paths *)

(** The inode a path leads to. *)
Fixpoint resolve (t : InodeTable) (parent : Z) (path : list string) : option Z :=
  match path with
  | [] => Some parent
  | name :: path' =>
      d ← get t parent;
      es ← get_directory d;
      e ← es !! name;
      resolve t (de_inode e) path'
  end.

Definition kind_of (d : InodeData) : InodeKind := if is_dir d then KDirectory else KFile.

(** The mode of the inode with path [p]: none, that of an implied directory, or
    that of an entry of this path (a file inode may have got it from a directory
    entry of the same path). *)
Definition mode_from (archive : ZipArchive) (d : InodeData) (p : list string) : Prop :=
  mode d = 0 ∨ is_dir d = true ∧ mode d = DEFAULT_DIR_MODE ∨
  ∃ zi zf, archive !! zi = Some (Ok zf) ∧ z_enclosed_name zf = Some p ∧ z_unix_mode zf = Some (mode d) ∧
    (is_dir d = true -> z_is_file zf = false).

(** [paths] gives each inode its path, index 0 being unused. *)
Record table_of (archive : ZipArchive) (t : InodeTable) (paths : list (list string)) : Prop := {
  to_len : length paths = length (table t);
  to_root : paths !! 1%nat = Some [];
  to_zero : table t !! 0%nat = Some (new_dir 0);
  to_entry i d es name e :
    table t !! i = Some d -> data d = Directory es -> es !! name = Some e ->
    ∃ d' p, table t !! Z.to_nat (de_inode e) = Some d' ∧ Z.of_nat i < de_inode e ∧ 1 < de_inode e ∧
      de_kind e = kind_of d' ∧ paths !! i = Some p ∧ paths !! Z.to_nat (de_inode e) = Some (p ++ [name]);
  to_reach i p : (1 <= i)%nat -> paths !! i = Some p -> resolve t ROOT p = Some (Z.of_nat i);
  to_file i d zi p :
    table t !! i = Some d -> data d = File zi -> paths !! i = Some p ->
    ∃ zf, archive !! zi = Some (Ok zf) ∧ z_is_file zf = true ∧ z_enclosed_name zf = Some p ∧
      size d = z_size zf;
  to_justified i p :
    (2 <= i)%nat -> paths !! i = Some p ->
    ∃ zi zf q, archive !! zi = Some (Ok zf) ∧ z_enclosed_name zf = Some (p ++ q);
  to_dir i d es p :
    (2 <= i)%nat -> table t !! i = Some d -> data d = Directory es -> paths !! i = Some p ->
    ∃ zi zf q, archive !! zi = Some (Ok zf) ∧ z_enclosed_name zf = Some (p ++ q) ∧ (q = [] -> z_is_file zf = false);
  to_mode i d p : table t !! i = Some d -> paths !! i = Some p -> mode_from archive d p
}.

(** ** Lemmas *)
Lemma get_nat t (i : nat) : (1 <= i)%nat -> get t (Z.of_nat i) = table t !! i.
Proof.
  intros Hi. unfold get, INVALID. rewrite (proj2 (Z.eqb_neq _ _)), zlookup_nat, Nat2Z.id by lia. done.
Qed.
Lemma get_inv t x d : get t x = Some d -> 1 <= x ∧ table t !! Z.to_nat x = Some d.
Proof.
  unfold get, zlookup, INVALID. destruct (Z.eqb_spec x 0); [done|]. destruct (Z.ltb_spec x 0); [done|].
  split; [lia|done].
Qed.

Lemma resolve_app t parent p q :
  resolve t parent (p ++ q) = (x ← resolve t parent p; resolve t x q).
Proof.
  revert parent. induction p as [|n p IH]; intros parent; [done|]. cbn [app resolve].
  destruct (get t parent) as [d|]; [|done]. simpl. destruct (get_directory d) as [es|]; [|done]. simpl.
  destruct (es !! n) as [e|]; [|done]. simpl. apply IH.
Qed.

(** [t'] has every directory entry of [t]. *)
Definition extends (t t' : InodeTable) : Prop :=
  ∀ x d es, get t x = Some d -> get_directory d = Some es ->
    ∃ d' es', get t' x = Some d' ∧ get_directory d' = Some es' ∧ es ⊆ es'.
#[local] Instance extends_pre : PreOrder extends.
Proof.
  split.
  - intros t x d es Hg Hd. by exists d, es.
  - intros t1 t2 t3 H12 H23 x d es Hg Hd.
    destruct (H12 x d es Hg Hd) as (d2 & es2 & Hg2 & Hd2 & Hs2).
    destruct (H23 x d2 es2 Hg2 Hd2) as (d3 & es3 & Hg3 & Hd3 & Hs3).
    exists d3, es3. split_and!; [done|done|by etrans].
Qed.
Lemma resolve_extends t t' parent p x :
  extends t t' -> resolve t parent p = Some x -> resolve t' parent p = Some x.
Proof.
  intros Hext. revert parent. induction p as [|n p IH]; intros parent Hr; [done|]. cbn [resolve] in *.
  destruct (get t parent) as [d|] eqn:Hg; [|done]. simpl in Hr.
  destruct (get_directory d) as [es|] eqn:Hd; [|done]. simpl in Hr.
  destruct (es !! n) as [e|] eqn:He; [|done]. simpl in Hr.
  destruct (Hext parent d es Hg Hd) as (d' & es' & -> & Hd' & Hs). simpl. rewrite Hd'. simpl.
  rewrite (lookup_weaken _ _ _ _ He Hs). simpl. by apply IH.
Qed.

Section TableOf.
Context (archive : ZipArchive).

(** A path leads to the inode it is the path of. *)
Lemma resolve_path t paths (i : nat) p q x :
  table_of archive t paths -> (1 <= i)%nat -> paths !! i = Some p ->
  resolve t (Z.of_nat i) q = Some x ->
  ∃ j, x = Z.of_nat j ∧ (1 <= j)%nat ∧ paths !! j = Some (p ++ q).
Proof.
  intros Ht. revert i p. induction q as [|n q IH]; intros i p Hi Hp Hr.
  - injection Hr as <-. exists i. by rewrite app_nil_r.
  - cbn [resolve] in Hr. rewrite get_nat in Hr by done.
    destruct (table t !! i) as [d|] eqn:Hd; [|done]. simpl in Hr.
    unfold get_directory in Hr. destruct (data d) as [es|] eqn:Hes; [|done]. simpl in Hr.
    destruct (es !! n) as [e|] eqn:He; [|done]. simpl in Hr.
    destruct (to_entry _ _ _ Ht i d es n e Hd Hes He) as (d' & p' & Hd' & _ & H1 & _ & Hp' & Hpn).
    assert (p' = p) as -> by congruence. rewrite <- (Z2Nat.id (de_inode e)) in Hr by lia.
    destruct (IH (Z.to_nat (de_inode e)) (p ++ [n])) as (j & -> & Hj & Hpj); [lia|done|done|].
    exists j. by rewrite <- app_assoc in Hpj.
Qed.

Lemma to_len_2 t paths : table_of archive t paths -> (2 <= length (table t))%nat.
Proof. intros Ht. rewrite <- (to_len _ _ _ Ht). apply lookup_lt_Some with (x := []), (to_root _ _ _ Ht). Qed.

(** *** Changing the mode of an inode *)
Definition chmod (t : InodeTable) (j : nat) (d : InodeData) (m : Z) : InodeTable :=
  set_inode t (Z.of_nat j) {| size := size d; mode := m; data := data d |}.

Lemma chmod_lookup t j d m i :
  table t !! j = Some d ->
  table (chmod t j d m) !! i =
    if decide (i = j) then Some {| size := size d; mode := m; data := data d |} else table t !! i.
Proof.
  intros Hj. cbn. rewrite Nat2Z.id. case_decide as Hi.
  - subst. apply list_lookup_insert_eq. by apply lookup_lt_Some in Hj.
  - by rewrite list_lookup_insert_ne.
Qed.
Lemma chmod_inv t j d m i d1 :
  table t !! j = Some d -> table (chmod t j d m) !! i = Some d1 ->
  ∃ d0, table t !! i = Some d0 ∧ data d0 = data d1 ∧ size d0 = size d1.
Proof.
  intros Hj. rewrite (chmod_lookup t j d m i Hj). case_decide; [|by exists d1].
  subst. intros [= <-]. by exists d.
Qed.
Lemma chmod_fwd t j d m i d0 :
  table t !! j = Some d -> table t !! i = Some d0 ->
  ∃ d1, table (chmod t j d m) !! i = Some d1 ∧ data d1 = data d0 ∧ kind_of d1 = kind_of d0.
Proof.
  intros Hj Hi. rewrite (chmod_lookup t j d m i Hj). case_decide; [|by exists d0].
  subst. eexists. split; [done|]. by simplify_eq.
Qed.
Lemma chmod_extends t j d m : (1 <= j)%nat -> table t !! j = Some d -> extends t (chmod t j d m).
Proof.
  intros Hj1 Hj x d0 es Hg Hd. unfold get in *. destruct (x =? INVALID); [done|].
  unfold zlookup in *. destruct (x <? 0); [done|].
  destruct (chmod_fwd t j d m _ d0 Hj Hg) as (d1 & H1 & Hdat & _). exists d1, es.
  unfold get_directory in *. by rewrite Hdat.
Qed.
Lemma chmod_table_of t paths j d m :
  table_of archive t paths -> (1 <= j)%nat -> table t !! j = Some d ->
  (∀ p, paths !! j = Some p -> mode_from archive {| size := size d; mode := m; data := data d |} p) ->
  table_of archive (chmod t j d m) paths.
Proof.
  intros Ht Hj1 Hj Hm. pose proof (chmod_extends t j d m Hj1 Hj) as Hext. split.
  - rewrite (to_len _ _ _ Ht). cbn. by rewrite length_insert.
  - apply (to_root _ _ _ Ht).
  - rewrite (chmod_lookup t j d m 0 Hj), decide_False by lia. apply (to_zero _ _ _ Ht).
  - intros i d1 es n e Hi Hes He. destruct (chmod_inv t j d m i d1 Hj Hi) as (d0 & H0 & Hdat & _).
    destruct (to_entry _ _ _ Ht i d0 es n e H0) as (d' & p & Hd' & Hlt & H1 & Hk & Hp); [congruence|done|].
    destruct (chmod_fwd t j d m _ d' Hj Hd') as (d2 & H2 & _ & Hk2). exists d2, p. by rewrite Hk2.
  - intros i p Hi Hp. eapply resolve_extends; [done|]. by apply (to_reach _ _ _ Ht).
  - intros i d1 zi p Hi Hf Hp. destruct (chmod_inv t j d m i d1 Hj Hi) as (d0 & H0 & Hdat & Hs).
    rewrite <- Hs. apply (to_file _ _ _ Ht i d0 zi p); congruence.
  - apply (to_justified _ _ _ Ht).
  - intros i d1 es p Hi2 Hi Hes Hp. destruct (chmod_inv t j d m i d1 Hj Hi) as (d0 & H0 & Hdat & _).
    apply (to_dir _ _ _ Ht i d0 es p); congruence.
  - intros i d1 p Hi Hp. rewrite (chmod_lookup t j d m i Hj) in Hi. case_decide; [|by apply (to_mode _ _ _ Ht i)].
    subst. injection Hi as <-. by apply Hm.
Qed.

(** *** Linking a new inode *)
Definition linked (t : InodeTable) (k : nat) (dp : InodeData) (es : gmap string DirectoryEntry)
    (name : string) (d : InodeData) : InodeTable :=
  {| table := <[k := {| size := size dp; mode := mode dp;
                        data := Directory (<[name := {| de_inode := len (table t); de_kind := kind_of d |}]> es) |}]>
                (table t) ++ [d] |}.

Lemma find_ok {E} t (k : nat) name dp es :
  (1 <= k)%nat -> table t !! k = Some dp -> data dp = Directory es ->
  find (E := E) t (Z.of_nat k) name = Ok (de_inode <$> es !! name).
Proof.
  intros Hk Hdp Hes. unfold find, get_directory. rewrite get_nat, Hdp by done. cbn [unwrap].
  by rewrite bind_Ok, Hes.
Qed.
Lemma add_ok {E} t (k : nat) name d dp es :
  (1 <= k)%nat -> table t !! k = Some dp -> data dp = Directory es -> es !! name = None ->
  add (E := E) t (Z.of_nat k) name d = Ok (len (table t), linked t k dp es name d).
Proof.
  intros Hk Hdp Hes Hn. pose proof (lookup_lt_Some _ _ _ Hdp). unfold add.
  rewrite (find_ok t k name dp es), bind_Ok, Hn by done. cbn [put]. rewrite bool_decide_true by done.
  cbn [assert_]. rewrite bind_Ok, get_nat by done. cbn [table]. rewrite lookup_app_l, Hdp by done.
  cbn [unwrap]. rewrite bind_Ok. unfold add_to_directory. rewrite Hes, bool_decide_true by done.
  cbn [assert_]. rewrite !bind_Ok. unfold linked, set_inode. cbn [table].
  by rewrite Nat2Z.id, insert_app_l.
Qed.
Lemma find_inv {E} t (k : nat) name r :
  (1 <= k)%nat -> find (E := E) t (Z.of_nat k) name = Ok r ->
  ∃ dp es, table t !! k = Some dp ∧ data dp = Directory es ∧ r = de_inode <$> es !! name.
Proof.
  intros Hk. unfold find, get_directory. rewrite get_nat by done.
  destruct (table t !! k) as [dp|]; [|done]. cbn [unwrap]. rewrite bind_Ok.
  destruct (data dp) as [es|] eqn:Hes; [|done]. cbn [unwrap]. rewrite bind_Ok. intros [= <-].
  by exists dp, es.
Qed.

Section Linked.
Context (t : InodeTable) (paths : list (list string)) (k : nat) (dp : InodeData)
  (es : gmap string DirectoryEntry) (name : string) (d : InodeData) (p : list string).
Context (Ht : table_of archive t paths) (Hk : (1 <= k)%nat) (Hdp : table t !! k = Some dp)
  (Hes : data dp = Directory es) (Hn : es !! name = None) (Hp : paths !! k = Some p).
Context (Hd : data d = Directory ∅ ∨ ∃ zi zf, data d = File zi ∧ archive !! zi = Some (Ok zf) ∧
  z_is_file zf = true ∧ z_enclosed_name zf = Some (p ++ [name]) ∧ size d = z_size zf).
Context (Hj : ∃ zi zf q, archive !! zi = Some (Ok zf) ∧ z_enclosed_name zf = Some ((p ++ [name]) ++ q) ∧
  (is_dir d = true -> q = [] -> z_is_file zf = false)).
Context (Hm : mode_from archive d (p ++ [name])).

Let t' := linked t k dp es name d.
Let n := length (table t).

Lemma linked_new : table t' !! n = Some d.
Proof. cbn. rewrite lookup_app_r by (rewrite length_insert; done). by rewrite length_insert, Nat.sub_diag. Qed.
Lemma linked_parent :
  table t' !! k = Some {| size := size dp; mode := mode dp;
    data := Directory (<[name := {| de_inode := len (table t); de_kind := kind_of d |}]> es) |}.
Proof.
  pose proof (lookup_lt_Some _ _ _ Hdp). cbn. rewrite lookup_app_l by (by rewrite length_insert).
  by apply list_lookup_insert_eq.
Qed.
Lemma linked_other i : i <> k -> (i < n)%nat -> table t' !! i = table t !! i.
Proof.
  intros Hi Hlt. cbn. rewrite lookup_app_l by (by rewrite length_insert). by apply list_lookup_insert_ne.
Qed.
Lemma linked_lt i d1 : table t' !! i = Some d1 -> (i < n)%nat ∨ i = n ∧ d1 = d.
Proof.
  intros Hi. pose proof (lookup_lt_Some _ _ _ Hi) as Hlt. cbn in Hlt.
  rewrite length_app, length_insert in Hlt. simpl in Hlt. fold n in Hlt.
  destruct (decide (i = n)) as [->|]; [|left; lia]. right. rewrite linked_new in Hi. by simplify_eq.
Qed.
(** The old inodes keep their kind and what they had. *)
Lemma linked_old i d0 :
  table t !! i = Some d0 ->
  ∃ d1, table t' !! i = Some d1 ∧ kind_of d1 = kind_of d0 ∧ size d1 = size d0 ∧
    (∀ zi, data d1 = File zi <-> data d0 = File zi) ∧ mode d1 = mode d0 ∧ is_dir d1 = is_dir d0.
Proof.
  intros Hi. pose proof (lookup_lt_Some _ _ _ Hi). destruct (decide (i = k)) as [->|Hne].
  - eexists. split; [apply linked_parent|]. assert (d0 = dp) as -> by congruence.
    unfold kind_of, is_dir. cbn. rewrite Hes. split_and!; [done|done| |done|done]. by split.
  - exists d0. by rewrite linked_other.
Qed.
Lemma linked_extends : extends t t'.
Proof.
  intros x d0 es0 Hg Hd0. unfold get in *. destruct (x =? INVALID) eqn:Hx; [done|].
  unfold zlookup in *. destruct (x <? 0); [done|]. pose proof (lookup_lt_Some _ _ _ Hg).
  destruct (decide (Z.to_nat x = k)) as [Hxk|Hne].
  - rewrite Hxk in *. eexists _, _. split; [apply linked_parent|]. split; [done|].
    assert (es0 = es) as ->; [|by apply insert_subseteq].
    assert (d0 = dp) as -> by congruence. unfold get_directory in Hd0. rewrite Hes in Hd0. by injection Hd0.
  - exists d0, es0. by rewrite linked_other.
Qed.
Lemma linked_resolves : resolve t' ROOT (p ++ [name]) = Some (Z.of_nat n).
Proof.
  rewrite resolve_app, (resolve_extends t t' ROOT p (Z.of_nat k)) by
    (apply linked_extends || by apply (to_reach _ _ _ Ht)).
  cbn [mbind option_bind resolve]. rewrite get_nat, linked_parent by done. cbn. by rewrite lookup_insert_eq.
Qed.

Lemma linked_entry i d1 es1 m e :
  table t' !! i = Some d1 -> data d1 = Directory es1 -> es1 !! m = Some e ->
  (i = k ∧ m = name ∧ e = {| de_inode := len (table t); de_kind := kind_of d |}) ∨
  ∃ d0 es0, table t !! i = Some d0 ∧ data d0 = Directory es0 ∧ es0 !! m = Some e.
Proof.
  intros Hi Hes1 He. destruct (linked_lt i d1 Hi) as [Hlt|[-> ->]].
  - destruct (decide (i = k)) as [->|Hne].
    + rewrite linked_parent in Hi. simplify_eq/=.
      apply lookup_insert_Some in He as [[<- <-]|[_ He]]; [by left|]. right. by exists dp, es.
    + rewrite linked_other in Hi by done. right. by exists d1, es1.
  - destruct Hd as [Hd'|(zi & zf & Hd' & _)]; rewrite Hd' in Hes1; [|done].
    injection Hes1 as <-. by rewrite lookup_empty in He.
Qed.

Lemma linked_table_of : table_of archive t' (paths ++ [p ++ [name]]).
Proof.
  pose proof (to_len _ _ _ Ht) as Hlen. pose proof (to_len_2 _ _ Ht). pose proof (lookup_lt_Some _ _ _ Hdp).
  assert (∀ i q, paths !! i = Some q -> (paths ++ [p ++ [name]]) !! i = Some q) as Hold
    by (intros i q Hq; by apply lookup_app_l_Some).
  assert ((paths ++ [p ++ [name]]) !! n = Some (p ++ [name])) as Hnew
    by (rewrite lookup_app_r by lia; by rewrite Hlen, Nat.sub_diag).
  split.
  - cbn. rewrite !length_app, length_insert. simpl. lia.
  - apply Hold, (to_root _ _ _ Ht).
  - rewrite linked_other by (unfold n; lia). apply (to_zero _ _ _ Ht).
  - intros i d1 es1 m e Hi Hes1 He.
    destruct (linked_entry i d1 es1 m e Hi Hes1 He) as [(-> & -> & ->)|(d0 & es0 & Hd0 & Hes0 & He0)].
    + cbn [de_inode de_kind]. rewrite Nat2Z.id. exists d, p. split_and!; [apply linked_new|lia|lia|done|auto|done].
    + destruct (to_entry _ _ _ Ht i d0 es0 m e Hd0 Hes0 He0) as (d' & q & Hd' & Hlt & H1 & Hkind & Hq & Hqm).
      destruct (linked_old _ d' Hd') as (d2 & Hd2 & Hk2 & _). exists d2, q. rewrite Hk2. auto 10.
  - intros i q Hi Hq. apply lookup_app_Some in Hq as [Hq|[Hge Hq]].
    + eapply resolve_extends; [apply linked_extends|]. by apply (to_reach _ _ _ Ht).
    + apply list_lookup_singleton_Some in Hq as [Hz <-]. rewrite linked_resolves. f_equal. f_equal. unfold n. lia.
  - intros i d1 zi q Hi Hf Hq. destruct (linked_lt i d1 Hi) as [Hlt|[-> ->]].
    + destruct (lookup_lt_is_Some_2 (table t) i Hlt) as [d0 Hd0].
      destruct (linked_old i d0 Hd0) as (d2 & Hd2 & _ & Hs2 & Hf2 & _). assert (d2 = d1) as -> by congruence.
      rewrite Hs2. apply (to_file _ _ _ Ht i d0 zi q); [done|by apply Hf2|].
      apply lookup_app_Some in Hq as [Hq|[Hge _]]; [done|lia].
    + rewrite Hnew in Hq. injection Hq as <-.
      destruct Hd as [Hd'|(zi' & zf & Hd' & Hz)]; [congruence|]. assert (zi' = zi) as -> by congruence. by exists zf.
  - intros i q Hi Hq. apply lookup_app_Some in Hq as [Hq|[_ Hq]]; [by apply (to_justified _ _ _ Ht i)|].
    apply list_lookup_singleton_Some in Hq as [_ <-]. destruct Hj as (zi & zf & r & ? & ? & _). by exists zi, zf, r.
  - intros i d1 es1 q Hi2 Hi Hes1 Hq. destruct (linked_lt i d1 Hi) as [Hlt|[-> ->]].
    + destruct (lookup_lt_is_Some_2 (table t) i Hlt) as [d0 Hd0].
      destruct (linked_old i d0 Hd0) as (d2 & Hd2 & _ & _ & _ & _ & Hdir). assert (d2 = d1) as -> by congruence.
      unfold is_dir in Hdir. rewrite Hes1 in Hdir. destruct (data d0) as [es0|] eqn:Hes0; [|done].
      apply (to_dir _ _ _ Ht i d0 es0 q Hi2 Hd0 Hes0). apply lookup_app_Some in Hq as [Hq|[Hge _]]; [done|lia].
    + rewrite Hnew in Hq. injection Hq as <-. destruct Hj as (zi & zf & r & Hz & Hzn & Hr). exists zi, zf, r.
      split_and!; [done|done|]. apply Hr. unfold is_dir. by rewrite Hes1.
  - intros i d1 q Hi Hq. destruct (linked_lt i d1 Hi) as [Hlt|[-> ->]].
    + destruct (lookup_lt_is_Some_2 (table t) i Hlt) as [d0 Hd0].
      destruct (linked_old i d0 Hd0) as (d2 & Hd2 & _ & _ & _ & Hmd & Hdir). assert (d2 = d1) as -> by congruence.
      unfold mode_from. rewrite Hmd, Hdir. apply (to_mode _ _ _ Ht i d0 q Hd0).
      apply lookup_app_Some in Hq as [Hq|[Hge _]]; [done|lia].
    + rewrite Hnew in Hq. by injection Hq as <-.
Qed.
End Linked.

(** *** One path component *)
Definition good_name (name : string) : Prop :=
  name <> ".." ∧ no_char (Ascii.ascii_of_nat 0) name = true.

Lemma add_path_step t paths i file (k : nat) p name iter dp es :
  table_of archive t paths -> (1 <= k)%nat -> paths !! k = Some p ->
  table t !! k = Some dp -> data dp = Directory es -> good_name name ->
  archive !! i = Some (Ok file) -> z_enclosed_name file = Some (p ++ name :: iter) ->
  ∃ t1 paths1 k1, table_of archive t1 paths1 ∧ (1 <= k1)%nat ∧ paths1 !! k1 = Some (p ++ [name]) ∧
    extends t t1 ∧ add_path t i file (Z.of_nat k) (name :: iter) = add_path t1 i file (Z.of_nat k1) iter.
Proof.
  intros Ht Hk Hp Hdp Hes [Hdd Hz] Hi Hname. cbn [add_path].
  rewrite (proj2 (String.eqb_neq _ _) Hdd). unfold cstring_new. rewrite Hz, bind_Ok.
  rewrite (find_ok t k name dp es) by done. rewrite bind_Ok.
  destruct (es !! name) as [e|] eqn:He; cbn [fmap option_fmap option_map].
  - destruct (to_entry _ _ _ Ht k dp es name e Hdp Hes He) as (d' & p' & Hd' & _ & H1 & _ & Hp' & Hpn).
    assert (p' = p) as -> by congruence. rewrite <- (Z2Nat.id (de_inode e)) by lia.
    set (k1 := Z.to_nat (de_inode e)) in *. assert (1 <= k1)%nat by lia.
    destruct (negb _ && _) eqn:Hleaf.
    + rewrite get_nat, Hd' by done. cbn [unwrap]. rewrite bind_Ok.
      exists (chmod t k1 d' (default 0 (z_unix_mode file))), paths, k1.
      split_and!; [|done|done|by apply chmod_extends|done]. apply chmod_table_of; [done..|].
      intros q Hq. assert (q = p ++ [name]) as -> by congruence. unfold mode_from. cbn [mode].
      destruct (z_unix_mode file) as [m|] eqn:Hm; [|by left]. right. right. exists i, file.
      destruct iter; [|by rewrite andb_false_r in Hleaf]. split_and!; [done|done|done|]. intros _.
      by destruct (z_is_file file).
    + by exists t, paths, k1.
  - erewrite add_ok by done. rewrite bind_Ok.
    match goal with |- context [linked _ _ _ _ _ ?d0] => set (d := d0) end.
    exists (linked t k dp es name d), (paths ++ [p ++ [name]]), (length (table t)).
    pose proof (to_len_2 _ _ Ht). split_and!; [|lia| |by eapply linked_extends|done].
    + eapply linked_table_of; [done..| | |].
      * unfold d. destruct (z_is_file file) eqn:Hf, iter; cbn; auto. right. exists i, file. auto 6.
      * exists i, file, iter. rewrite <- app_assoc. split_and!; [done|done|]. unfold d.
        by intros Hdir ->; destruct (z_is_file file).
      * unfold d, mode_from. destruct iter; rewrite ?andb_true_r, ?andb_false_r; [|by right; left].
        destruct (z_is_file file) eqn:Hf, (z_unix_mode file) as [m|] eqn:Hm; cbn; rewrite ?Hm; cbn;
          [right; right; by exists i, file|by left|right; right; by exists i, file|by right; left].
    + rewrite lookup_app_r, (to_len _ _ _ Ht), Nat.sub_diag; [done|]. by rewrite (to_len _ _ _ Ht).
Qed.

(** The loop over one path keeps the table that of the archive, and leads to
    the path's inode. *)
Lemma add_path_table_of t paths i file (k : nat) p iter t' :
  table_of archive t paths -> (1 <= k)%nat -> paths !! k = Some p ->
  archive !! i = Some (Ok file) -> z_enclosed_name file = Some (p ++ iter) ->
  add_path t i file (Z.of_nat k) iter = Ok t' ->
  ∃ paths', table_of archive t' paths' ∧ extends t t' ∧ is_Some (resolve t' ROOT (p ++ iter)).
Proof.
  revert t paths k p. induction iter as [|name iter IH]; intros t paths k p Ht Hk Hp Hi Hname Hadd.
  - injection Hadd as <-. exists paths. split_and!; [done|reflexivity|]. rewrite app_nil_r.
    eexists. by apply (to_reach _ _ _ Ht k).
  - pose proof Hadd as Hadd'. cbn [add_path] in Hadd'.
    destruct (String.eqb_spec name "..") as [|Hdd]; [done|]. unfold cstring_new in Hadd'.
    destruct (no_char _ name) eqn:Hz; [|done]. rewrite bind_Ok in Hadd'.
    apply bind_inv in Hadd' as (r & Hfind & _).
    destruct (find_inv t k name r Hk Hfind) as (dp & es & Hdp & Hes & _).
    destruct (add_path_step t paths i file k p name iter dp es) as (t1 & paths1 & k1 & Ht1 & Hk1 & Hp1 & Hext & Heq);
      [done..|].
    rewrite Heq in Hadd. destruct (IH t1 paths1 k1 (p ++ [name])) as (paths' & Ht' & Hext' & Hr);
      rewrite <- ?app_assoc; [done..|].
    exists paths'. rewrite <- app_assoc in Hr. split_and!; [done|by etrans|done].
Qed.

Lemma add_entries_table_of t paths i rest t' :
  table_of archive t paths -> drop i archive = rest -> add_entries t i rest = Ok t' ->
  ∃ paths', table_of archive t' paths' ∧ extends t t' ∧
    ∀ zf, Ok zf ∈ rest -> ∃ p x, z_enclosed_name zf = Some p ∧ resolve t' ROOT p = Some x.
Proof.
  revert t paths i. induction rest as [|entry rest IH]; intros t paths i Ht Hrest Hadd.
  - injection Hadd as <-. exists paths. split_and!; [done|reflexivity|]. set_solver.
  - cbn [add_entries] in Hadd. binv Hadd. rename x into file. destruct (z_enclosed_name file) as [p|] eqn:Hp; [|done].
    injection H0 as <-. subst entry.
    pose proof (lookup_drop archive i 0) as Hi. rewrite Nat.add_0_r, Hrest in Hi. symmetry in Hi.
    destruct (add_path_table_of t paths i file 1 [] p x1 Ht) as (paths1 & Ht1 & Hext1 & [x Hx]);
      [lia|apply (to_root _ _ _ Ht)|done|done|done|].
    assert (drop (S i) archive = rest) as Hrest' by (by rewrite <- Nat.add_1_r, <- drop_drop, Hrest).
    destruct (IH _ _ _ Ht1 Hrest' Hadd) as (paths' & Ht' & Hext' & Hall).
    exists paths'. split_and!; [done|by etrans|]. intros zf [?|Hzf]%elem_of_cons; [|by apply Hall].
    simplify_eq. exists p, x. split; [done|]. by eapply resolve_extends.
Qed.

(** *** Totality *)

(** What an archive must be for the table to be built: readable entries with
    good names, no file's path leading on to another entry. *)
Record good_archive : Prop := {
  ga_entries i r : archive !! i = Some r -> ∃ zf p, r = Ok zf ∧ z_enclosed_name zf = Some p ∧ Forall good_name p;
  ga_files i j zf zf' p n q :
    archive !! i = Some (Ok zf) -> z_is_file zf = true -> z_enclosed_name zf = Some p ->
    archive !! j = Some (Ok zf') -> z_enclosed_name zf' <> Some (p ++ n :: q)
}.
Context (Hgood : good_archive).

Lemma add_path_total t paths i file (k : nat) p iter :
  table_of archive t paths -> (1 <= k)%nat -> paths !! k = Some p -> Forall good_name iter ->
  archive !! i = Some (Ok file) -> z_enclosed_name file = Some (p ++ iter) ->
  ∃ t', add_path t i file (Z.of_nat k) iter = Ok t'.
Proof.
  revert t paths k p. induction iter as [|name iter IH]; intros t paths k p Ht Hk Hp Hnames Hi Hname;
    [by eexists|].
  pose proof (lookup_lt_Some _ _ _ Hp) as Hlt. rewrite (to_len _ _ _ Ht) in Hlt.
  destruct (lookup_lt_is_Some_2 _ _ Hlt) as [dp Hdp]. apply Forall_cons in Hnames as [Hgn Hnames].
  destruct (data dp) as [es|zi] eqn:Hes.
  - destruct (add_path_step t paths i file k p name iter dp es) as (t1 & paths1 & k1 & Ht1 & Hk1 & Hp1 & _ & ->);
      [done..|].
    apply (IH t1 paths1 k1 (p ++ [name])); rewrite <- ?app_assoc; done.
  - destruct (to_file _ _ _ Ht k dp zi p Hdp Hes Hp) as (zf & Hzf & Hisf & Hpf & _).
    by destruct (ga_files Hgood zi i zf file p name iter).
Qed.

Lemma add_entries_total t paths i rest :
  table_of archive t paths -> drop i archive = rest -> ∃ t', add_entries t i rest = Ok t'.
Proof.
  revert t paths i. induction rest as [|entry rest IH]; intros t paths i Ht Hrest; [by eexists|].
  pose proof (lookup_drop archive i 0) as Hi. rewrite Nat.add_0_r, Hrest in Hi. symmetry in Hi.
  destruct (ga_entries Hgood i entry Hi) as (file & p & -> & Hp & Hnames). cbn [add_entries].
  rewrite bind_Ok, Hp. cbn [ok_or]. rewrite bind_Ok.
  destruct (add_path_total t paths i file 1 [] p) as [t1 Ht1];
    [done|lia|apply (to_root _ _ _ Ht)|done..|].
  change (Z.of_nat 1) with ROOT in Ht1. rewrite Ht1, bind_Ok.
  destruct (add_path_table_of t paths i file 1 [] p t1 Ht) as (paths1 & Htt1 & _);
    [lia|apply (to_root _ _ _ Ht)|done..|].
  apply (IH t1 paths1); [done|]. by rewrite <- Nat.add_1_r, <- drop_drop, Hrest.
Qed.

Lemma table_of_init : table_of archive {| table := [new_dir 0; new_dir 0] |} [[]; []].
Proof.
  split; try done.
  - intros [|[|i]] d es n e Hi Hes He; cbn in Hi; simplify_eq/=; by rewrite lookup_empty in He.
  - intros [|[|i]] p Hi Hp; cbn in Hp; try lia; by simplify_eq.
  - intros [|[|i]] d zi p Hi Hf Hp; cbn in Hi; by simplify_eq/=.
  - intros [|[|i]] p Hi Hp; cbn in Hp; try lia; by simplify_eq.
  - intros [|[|i]] d es p Hi Hd; try lia; by simplify_eq/=.
  - intros [|[|i]] d p Hi _; cbn in Hi; try done; simplify_eq; by left.
Qed.
End TableOf.

(** *** Entries through a file *)

Lemma add_entries_app t i l1 l2 :
  add_entries t i (l1 ++ l2) = (t' ← add_entries t i l1; add_entries t' (i + length l1)%nat l2).
Proof.
  revert t i. induction l1 as [|entry l1 IH]; intros t i; [by rewrite Nat.add_0_r|]. cbn [app add_entries].
  destruct entry as [file| | |]; [|done..]. rewrite !bind_Ok. destruct (ok_or _ _); [|done..].
  rewrite !bind_Ok. destruct (add_path _ _ _ _ _) as [t1| | |]; [|done..]. rewrite !bind_Ok, IH.
  by replace (S i + length l1)%nat with (i + S (length l1))%nat by lia.
Qed.

(** A path that is already there is walked without a change, up to its last
    component. *)
Lemma add_path_resolved t i file x p n q y :
  resolve t x p = Some y -> Forall good_name p ->
  add_path t i file x (p ++ n :: q) = add_path t i file y (n :: q).
Proof.
  revert x. induction p as [|m p IH]; intros x Hr Hgood; [by injection Hr as ->|].
  apply Forall_cons in Hgood as [[Hdd Hz] Hgood]. cbn [resolve] in Hr.
  destruct (get t x) as [d|] eqn:Hd; [|done]. simpl in Hr.
  destruct (get_directory d) as [es|] eqn:Hes; [|done]. simpl in Hr.
  destruct (es !! m) as [e|] eqn:He; [|done]. simpl in Hr. rewrite <- (IH (de_inode e)) by done.
  cbn [app add_path]. rewrite (proj2 (String.eqb_neq _ _) Hdd). unfold cstring_new, find.
  rewrite Hz, Hd. cbn [unwrap]. rewrite !bind_Ok, Hes. cbn [unwrap]. rewrite !bind_Ok, He. cbn.
  by destruct p, (z_is_file file).
Qed.

(** ** The table is the archive's tree *)

Lemma from_zip_table_of archive t :
  from_zip archive = Ok t ->
  ∃ paths, table_of archive t paths ∧
    ∀ zf, Ok zf ∈ archive -> ∃ p x, z_enclosed_name zf = Some p ∧ resolve t ROOT p = Some x.
Proof.
  intros Hz. destruct (add_entries_table_of archive _ _ 0 archive t (table_of_init archive) (drop_0 _) Hz)
    as (paths & Ht & _ & Hall). by exists paths.
Qed.

Lemma from_zip_ok archive : good_archive archive -> ∃ t, from_zip archive = Ok t.
Proof.
  intros Hgood. exact (add_entries_total archive Hgood _ _ 0 archive (table_of_init archive) (drop_0 _)).
Qed.

(** C8: When [from_zip] succeeds, the table is exactly the archive's tree.
    Every entry of the archive has its path resolved from the root; there is an
    assignment of paths to inodes such that each inode is what its path
    resolves to (so inodes and paths are in bijection), a directory's entries
    are its children with the right kind and a larger number, every file inode
    is the file entry of that path with its size, and every path is a prefix
    of an archive entry's path: nothing is invented. *)
Theorem from_zip_table archive t :
  from_zip archive = Ok t ->
  ∃ paths, table_of archive t paths ∧
    ∀ zf, Ok zf ∈ archive -> ∃ p x, z_enclosed_name zf = Some p ∧ resolve t ROOT p = Some x.
Proof. exact (from_zip_table_of archive t). Qed.

(** C32: The table is built for every archive whose entries are readable, have
    enclosed names without [..] or NUL, and in which no file's path is a proper
    prefix of another entry's path: none of the assertions and unwraps of the
    construction fails. *)
Theorem from_zip_total archive : good_archive archive -> ∃ t, from_zip archive = Ok t.
Proof. exact (from_zip_ok archive). Qed.

(** A hostile archive crashes the construction instead of being rejected:
    once the entries before it have been added, an entry whose path goes on
    below an inode that is a file makes [find] unwrap the directory of a file. *)
Theorem from_zip_through_file_panics pre file rest t p n q x d :
  from_zip pre = Ok t -> resolve t ROOT p = Some x -> get t x = Some d -> is_dir d = false ->
  Forall good_name p -> good_name n -> z_enclosed_name file = Some (p ++ n :: q) ->
  from_zip (pre ++ Ok file :: rest) = Panic.
Proof.
  intros Hpre Hr Hd Hdir Hgood [Hdd Hz] Hname. change (from_zip ?l) with (add_entries {| table := [new_dir 0; new_dir 0] |} 0 l) in *.
  rewrite add_entries_app, Hpre, bind_Ok. cbn [add_entries]. rewrite bind_Ok, Hname. cbn [ok_or].
  rewrite bind_Ok, (add_path_resolved t _ file ROOT p n q x Hr Hgood). cbn [add_path].
  rewrite (proj2 (String.eqb_neq _ _) Hdd). unfold cstring_new, find.
  rewrite Hz, Hd. cbn [unwrap]. rewrite !bind_Ok. unfold is_dir, get_directory in *. by destruct (data d).
Qed.

(** ** Concrete archives (the tests of inode.rs) *)
Module Tests.

Definition start_file (path : list string) (content : bytes) : outcome zip_error zip_file :=
  Ok {| z_name := ""; z_enclosed_name := Some path; z_is_file := true; z_unix_mode := Some 33188;
        z_size := len content; z_read_to_end := Ok content |}.
Definition add_directory (path : list string) : outcome zip_error zip_file :=
  Ok {| z_name := ""; z_enclosed_name := Some path; z_is_file := false; z_unix_mode := Some 16877;
        z_size := 0; z_read_to_end := Ok [] |}.

Definition complex_hierarchy : ZipArchive :=
  [add_directory ["a"; "b1"]; start_file ["a"; "b2"; "c1"] []; start_file ["a"; "b2"; "c2"; "d1"] [];
   start_file ["a"; "b2"; "c2"; "d2"] []; start_file ["a"; "b2"; "c2"; "d3"] []; start_file ["x"; "y1"] [];
   start_file ["x"; "y2"] []; add_directory ["x"; "y3"]; start_file ["foo"] (zeros 10); start_file ["bar"] []]%string.

Definition unwrap_table (r : outcome zip_error InodeTable) : InodeTable :=
  match r with Ok t => t | _ => {| table := [] |} end.

Example complex_hierarchy_inodes :
  len (table (unwrap_table (from_zip complex_hierarchy))) = 16 ∧
  resolve (unwrap_table (from_zip complex_hierarchy)) ROOT ["a"; "b2"; "c2"; "d3"]%string = Some 9 ∧
  (size <$> get (unwrap_table (from_zip complex_hierarchy)) 14) = Some 10.
Proof. vm_compute. done. Qed.
Example rejects_dot_dot : from_zip [start_file ["a"; "b"; ".."; "c"]%string []] = Err DotDot.
Proof. reflexivity. Qed.

Lemma from_zip_table_witness :
  ∃ t paths, from_zip complex_hierarchy = Ok t ∧ table_of complex_hierarchy t paths.
Proof.
  exists (unwrap_table (from_zip complex_hierarchy)).
  destruct (from_zip_table complex_hierarchy (unwrap_table (from_zip complex_hierarchy))) as (paths & Ht & _).
  - vm_compute. reflexivity.
  - exists paths. split; [vm_compute; reflexivity|exact Ht].
Defined.

Lemma from_zip_through_file_panics_witness :
  from_zip ([start_file ["a"]%string []] ++ [start_file ["a"; "b"]%string []]) = Panic.
Proof.
  refine (from_zip_through_file_panics [start_file ["a"]%string []] _ []
    (unwrap_table (from_zip [start_file ["a"]%string []])) ["a"%string] "b" [] 2
    {| size := 0; mode := 33188; data := File 0 |} _ _ _ _ _ _ _).
  - vm_compute. reflexivity.
  - vm_compute. reflexivity.
  - vm_compute. reflexivity.
  - reflexivity.
  - repeat constructor; discriminate.
  - repeat constructor; discriminate.
  - reflexivity.
Defined.

Lemma from_zip_total_witness : ∃ t, from_zip [start_file ["a"; "b"]%string []; add_directory ["a"]%string] = Ok t.
Proof.
  apply from_zip_total. split.
  - intros i r Hi. destruct i as [|[|i]]; cbn in Hi; simplify_eq; eexists _, _; (split; [done|]);
      (split; [done|]); repeat constructor; discriminate.
  - intros i j zf zf' p n q Hi Hf Hp Hj.
    destruct i as [|[|i]], j as [|[|j]]; cbn in Hi, Hj; try discriminate;
      injection Hi as <-; injection Hj as <-; cbn in *; try discriminate; injection Hp as <-; discriminate.
Defined.
End Tests.
