(* ===== verification/ZipFuse.v ===== *)
(** * zipfuse/src/main.rs: the zip file system

    The FUSE handlers over the inode table of ZipInode.v.  The state is the
    [ZipFuse] record, of which only the two maps of open buffers change.  The
    archive's entries, the conversion of the zip library's errors, the size of
    the fuse crate's [Dirent] and the iteration order of a [HashMap] are the
    libraries'. *)

From S2P Require Import Prelude Io Service Parse ZipInode.

(** ** State *)

(** [OpenFileBuf] and [OpenDirBuf]: the same record over bytes and over
    directory entries. *)
Record OpenBuf (A : Type) := { open_count : Z; buf : list A }.
Arguments open_count {A}. Arguments buf {A}.
Abbreviation OpenFileBuf := (OpenBuf Z).
Abbreviation OpenDirBuf := (OpenBuf (string * DirectoryEntry)).

Record ZipFuse := {
  zip_archive : ZipArchive;
  inode_table : InodeTable;
  open_files : gmap Z OpenFileBuf;
  open_dirs : gmap Z OpenDirBuf
}.

(** What the code takes from its libraries. *)
Class ZipEnv := {
  from_zip_error : zip_error -> io_error;
  size_of_dirent : Z;
  hash_iter : gmap string DirectoryEntry -> list (string * DirectoryEntry)
}.
(** A [HashMap] iterates over its entries, each once, in an order of its own. *)
Class ZipEnvOk `{ZipEnv} := {
  size_of_dirent_bound : 0 <= size_of_dirent < 2 ^ 32;
  hash_iter_perm m : hash_iter m ≡ₚ map_to_list m
}.

Definition ebadf : io_error := RawOs EBADF.
Definition timeout_max : Z := u64_MAX * 1000000000 + (1000000000 - 1).

(** [u32::checked_sub]. *)
Definition checked_sub (a b : Z) : option Z := if b <=? a then Some (a - b) else None.
(** [Vec::with_capacity] of bytes: a capacity beyond [isize::MAX] panics. *)
Definition with_capacity {E} (n : Z) : outcome E unit := assert_ (n <=? i64_MAX).

Section Handlers.
Context `{Profile} `{ZipEnv}.

Definition self_ : M ZipFuse io_error ZipFuse := λ fs, (Ok fs, fs).
Definition set_open_files (m : gmap Z OpenFileBuf) : M ZipFuse io_error unit := λ fs,
  (Ok (), {| zip_archive := zip_archive fs; inode_table := inode_table fs; open_files := m;
             open_dirs := open_dirs fs |}).
Definition set_open_dirs (m : gmap Z OpenDirBuf) : M ZipFuse io_error unit := λ fs,
  (Ok (), {| zip_archive := zip_archive fs; inode_table := inode_table fs; open_files := open_files fs;
             open_dirs := m |}).

(** [ZipFuse::new], the archive being the one the library opened. *)
Definition new (z : ZipArchive) : outcome zip_error ZipFuse :=
  it ← from_zip z;
  Ok {| zip_archive := z; inode_table := it; open_files := ∅; open_dirs := ∅ |}.

(** [FileSystem::init]: no optional feature. *)
Definition init (_capable : Z) : outcome io_error Z := Ok 0.

Definition find_inode (self : ZipFuse) (inode : Z) : outcome io_error InodeData :=
  ok_or ebadf (get (inode_table self) inode).

Definition stat_from (self : ZipFuse) (inode : Z) : outcome io_error stat64 :=
  inode_data ← find_inode self inode;
  nlink ← match get_directory inode_data with
          | Some directory => add_u64 2 (Z.of_nat (base.size directory))
          | None => Ok 1
          end;
  Ok {| st_dev := 0; st_nlink := nlink; st_ino := inode;
        st_mode := Z.lor (if is_dir inode_data then S_IFDIR else S_IFREG) (mode inode_data);
        st_uid := 0; st_gid := 0;
        st_size := if ZipInode.size inode_data <=? i64_MAX then ZipInode.size inode_data else i64_MAX;
        st_rdev := 0; st_blksize := 0; st_blocks := 0 |}.

Definition lookup_ (self : ZipFuse) (parent : Z) (name : string) : outcome io_error Entry :=
  inode ← find_inode self parent;
  directory ← ok_or ebadf (get_directory inode);
  match directory !! name with
  | Some e =>
      attr ← stat_from self (de_inode e);
      Ok {| en_inode := de_inode e; en_generation := 0; en_attr := attr;
            en_attr_timeout := timeout_max; en_entry_timeout := timeout_max |}
  | None => Err (RawOs ENOENT)
  end.

Definition getattr (self : ZipFuse) (inode : Z) (_handle : option Z) : outcome io_error (stat64 * Z) :=
  st ← stat_from self inode;
  Ok (st, timeout_max).

Definition open (inode _flags : Z) : M ZipFuse io_error (option Z * Z) :=
  self ← self_;
  let handle := inode in
  _ ← match open_files self !! handle with
      | Some ofb =>
          if open_count ofb =? 0 then fail ebadf
          else
            n ← lift (checked_u 32 (open_count ofb + 1));
            set_open_files (<[handle := {| open_count := n; buf := buf ofb |}]> (open_files self))
      | None =>
          inode_data ← lift (find_inode self inode);
          zip_index ← lift (ok_or ebadf (get_zip_index inode_data));
          zip_file ← lift (map_err from_zip_error (by_index (zip_archive self) zip_index));
          _ ← lift (with_capacity (ZipInode.size inode_data));
          content ← lift (z_read_to_end zip_file);
          set_open_files (<[handle := {| open_count := 1; buf := content |}]> (open_files self))
      end;
  mret (Some handle, 0).

Definition release (inode _flags _handle : Z) (_flush _flock_release : bool) (_lock_owner : option Z)
    : M ZipFuse io_error unit :=
  self ← self_;
  let handle := inode in
  match open_files self !! handle with
  | Some ofb =>
      n ← lift (ok_or ebadf (checked_sub (open_count ofb) 1));
      if n =? 0 then set_open_files (delete handle (open_files self)) else mret ()
  | None => fail ebadf
  end.

(** The state is read only; the reply is the writer's. *)
Definition read {O} `{IoWrite O} (self : ZipFuse) (_inode handle size offset : Z)
    (_lock_owner : option Z) (_flags : Z) : M O io_error Z :=
  ofb ← lift (ok_or ebadf (open_files self !! handle));
  if open_count ofb =? 0 then fail ebadf
  else
    let start := offset in
    end_ ← lift (add_u64 start size);
    let end_ := Z.min end_ (len (buf ofb)) in
    data ← lift (slice (buf ofb) start end_);
    io_write data.

(** [FOPEN_CACHE_DIR]. *)
Definition CACHE_DIR : Z := 8.

Definition opendir (inode _flags : Z) : M ZipFuse io_error (option Z * Z) :=
  self ← self_;
  let handle := inode in
  _ ← match open_dirs self !! handle with
      | Some odb =>
          if open_count odb =? 0 then fail ebadf
          else
            n ← lift (checked_u 32 (open_count odb + 1));
            set_open_dirs (<[handle := {| open_count := n; buf := buf odb |}]> (open_dirs self))
      | None =>
          inode_data ← lift (find_inode self inode);
          directory ← lift (ok_or ebadf (get_directory inode_data));
          entries ← lift (try_map (λ '(name, dir_entry), name ← cstring_new name; Ok (name, dir_entry))
                            (hash_iter directory));
          set_open_dirs (<[handle := {| open_count := 1; buf := entries |}]> (open_dirs self))
      end;
  mret (Some handle, CACHE_DIR).

Definition releasedir (inode _flags _handle : Z) : M ZipFuse io_error unit :=
  self ← self_;
  let handle := inode in
  match open_dirs self !! handle with
  | Some odb =>
      n ← lift (ok_or ebadf (checked_sub (open_count odb) 1));
      if n =? 0 then set_open_dirs (delete handle (open_dirs self)) else mret ()
  | None => fail ebadf
  end.

(** The [while] loop of [readdir]: [rest] is the buffer from [end_] on. *)
Fixpoint readdir_end (size estimate end_ : Z) (rest : list (string * DirectoryEntry))
    : outcome io_error Z :=
  match rest with
  | [] => Ok end_
  | (name, _) :: rest' =>
      if estimate <? size then
        s ← add_u64 size_of_dirent (Z.of_nat (String.length name));
        s ← add_u64 s 7;
        estimate ← add_u64 estimate (Z.ldiff s 7);
        end_ ← add_u64 end_ 1;
        readdir_end size estimate end_ rest'
      else Ok end_
  end.

Record DirIter := { inner : list (string * DirectoryEntry); offset : Z; cur : Z }.

Definition readdir (self : ZipFuse) (inode _handle size offset_ : Z) : outcome io_error DirIter :=
  let handle := inode in
  odb ← ok_or ebadf (open_dirs self !! handle);
  if open_count odb =? 0 then Err ebadf
  else
    let start := offset_ in
    end_ ← readdir_end size 0 start (drop (Z.to_nat start) (buf odb));
    _ ← sub_u64 end_ start;
    new_buf ← slice (buf odb) start end_;
    Ok {| inner := new_buf; offset := offset_; cur := 0 |}.

Record DirEntry := { d_ino : Z; d_offset : Z; d_type : Z; d_name : string }.
Definition DT_DIR : Z := 4.
Definition DT_REG : Z := 8.

Definition DirIter_next (self : DirIter) : outcome io_error (option DirEntry * DirIter) :=
  match zlookup (inner self) (cur self) with
  | None => Ok (None, self)
  | Some (name, entry) =>
      let self := {| inner := inner self; offset := offset self; cur := cur self + 1 |} in
      off ← add_u64 (offset self) (cur self);
      Ok (Some {| d_ino := de_inode entry; d_offset := off;
                  d_type := match de_kind entry with KDirectory => DT_DIR | KFile => DT_REG end;
                  d_name := name |}, self)
  end.
End Handlers.

(** ** Mounting *)
Inductive fuse_error := FuseIo (e : io_error) | FuseZip (e : zip_error).

(** [ZipArchive::new] on the file of that path. *)
Class ZipOpen (W : Type) := open_zip : string -> M W fuse_error ZipArchive.

Definition MAX_READ : Z := Z.shiftl 1 20.
Definition MAX_WRITE : Z := Z.shiftl 1 13.
Definition run_fuse {W} `{FuseLib W ZipFuse} `{ZipOpen W} (zip_file mount_point : string) : M W fuse_error unit :=
  dev_fuse ← map_errM FuseIo open_dev_fuse;
  _ ← map_errM FuseIo (fuse_mount mount_point "zipfuse" (Z.lor (Z.lor MS_NOSUID MS_NODEV) MS_RDONLY)
        [MountFD dev_fuse; RootMode root_mode; AllowOther; UserId 0; GroupId 0; MaxRead MAX_READ]);
  z ← open_zip zip_file;
  fs ← lift (map_err FuseZip (new z));
  map_errM FuseIo (start_message_loop dev_fuse MAX_READ MAX_WRITE fs).
(** [main], with the two required arguments. *)
Definition main {W} `{FuseLib W ZipFuse} `{ZipOpen W} (ZIPFILE MOUNTPOINT : option string) : M W fuse_error unit :=
  zip_file ← lift (unwrap ZIPFILE);
  mount_point ← lift (unwrap MOUNTPOINT);
  run_fuse zip_file mount_point.

(** ** Histories of requests

    The requests that change the state; the others take it unchanged. *)
Inductive op :=
| OpOpen (inode flags : Z)
| OpRelease (inode flags handle : Z)
| OpOpendir (inode flags : Z)
| OpReleasedir (inode flags handle : Z).

Section Histories.
Context `{Profile} `{ZipEnv}.

Definition run_op (o : op) : M ZipFuse io_error unit :=
  match o with
  | OpOpen inode flags => _ ← open inode flags; mret ()
  | OpRelease inode flags handle => release inode flags handle false false None
  | OpOpendir inode flags => _ ← opendir inode flags; mret ()
  | OpReleasedir inode flags handle => releasedir inode flags handle
  end.
(** A history goes on after a request that failed, also after one that
    panicked, where the real one ends. *)
Fixpoint run (ops : list op) (fs : ZipFuse) : ZipFuse :=
  match ops with [] => fs | o :: ops' => run ops' (run_op o fs).2 end.

(** Successful opens of the file less its successful releases. *)
Definition delta (h : Z) (o : op) (r : outcome io_error unit) : Z :=
  match o, r with
  | OpOpen i _, Ok _ => if i =? h then 1 else 0
  | OpRelease i _ _, Ok _ => if i =? h then -1 else 0
  | _, _ => 0
  end.
Fixpoint outstanding (h : Z) (ops : list op) (fs : ZipFuse) : Z :=
  match ops with
  | [] => 0
  | o :: ops' => delta h o (run_op o fs).1 + outstanding h ops' (run_op o fs).2
  end.

(** *** What each request does *)

(** A buffer holds the content of its inode's entry, or its directory. *)
Definition file_content (fs : ZipFuse) (inode : Z) (content : bytes) : Prop :=
  ∃ d zi zf, get (inode_table fs) inode = Some d ∧ data d = File zi ∧
    zip_archive fs !! zi = Some (Ok zf) ∧ z_read_to_end zf = Ok content.
Definition dir_content (fs : ZipFuse) (inode : Z) (entries : list (string * DirectoryEntry)) : Prop :=
  ∃ d es, get (inode_table fs) inode = Some d ∧ data d = Directory es ∧ entries = hash_iter es.

(** The archive and the table never change. *)
Definition same_archive (fs fs' : ZipFuse) : Prop :=
  zip_archive fs' = zip_archive fs ∧ inode_table fs' = inode_table fs.
#[local] Instance same_archive_pre : PreOrder same_archive.
Proof. split; unfold same_archive; [done|]. intros ??? [] []. split; congruence. Qed.

Lemma set_open_files_same m : preserves same_archive (set_open_files m).
Proof. intros fs. done. Qed.
Lemma set_open_dirs_same m : preserves same_archive (set_open_dirs m).
Proof. intros fs. done. Qed.
Lemma self_same : preserves same_archive self_.
Proof. intros fs. done. Qed.
Hint Resolve set_open_files_same set_open_dirs_same self_same : core.

Lemma run_op_same o : preserves same_archive (run_op o).
Proof. destruct o; unfold run_op, open, release, opendir, releasedir; frame. Qed.
Lemma run_same ops fs : same_archive fs (run ops fs).
Proof.
  revert fs. induction ops as [|o ops IH]; intros fs; [done|]. etrans; [apply (run_op_same o fs)|apply IH].
Qed.

Lemma open_spec inode flags fs r fs' :
  open inode flags fs = (r, fs') ->
  match open_files fs !! inode with
  | Some ofb =>
      (∃ n, r = Ok (Some inode, 0) ∧ checked_u (E := io_error) 32 (open_count ofb + 1) = Ok n ∧
        open_files fs' = <[inode := {| open_count := n; buf := buf ofb |}]> (open_files fs)) ∨
      (∀ x, r <> Ok x) ∧ fs' = fs
  | None =>
      (∃ content, r = Ok (Some inode, 0) ∧ file_content fs inode content ∧
        open_files fs' = <[inode := {| open_count := 1; buf := content |}]> (open_files fs)) ∨
      (∀ x, r <> Ok x) ∧ fs' = fs
  end.
Proof.
  unfold open, self_. rewrite M_bind_eq. destruct (open_files fs !! inode) as [ofb|].
  - rewrite M_bind_eq. destruct (open_count ofb =? 0); [intros [= <- <-]; by right|].
    rewrite M_bind_eq. cbn [lift]. destruct (checked_u 32 (open_count ofb + 1)) as [n| | |] eqn:Hn;
      intros [= <- <-]; [left; by exists n|by right..].
  - rewrite M_bind_eq. unfold find_inode, file_content, get_zip_index.
    destruct (get (inode_table fs) inode) as [d|] eqn:Hd; [|intros [= <- <-]; by right].
    erewrite M_bind_lift by done. destruct (data d) as [|zi] eqn:Hzi; [intros [= <- <-]; by right|].
    erewrite M_bind_lift by done. rewrite M_bind_eq. cbn [lift]. unfold by_index.
    destruct (zip_archive fs !! zi) as [[zf| | |]|] eqn:Hzf; cbn; [|intros [= <- <-]; by right..].
    rewrite M_bind_eq. cbn [lift]. destruct (with_capacity _); [|intros [= <- <-]; by right..].
    rewrite M_bind_eq. cbn [lift]. destruct (z_read_to_end zf) as [c| | |] eqn:Hc; intros [= <- <-];
      [left|by right..]. exists c. split; [done|]. split; [by exists d, zi, zf|done].
Qed.

Lemma release_spec inode flags handle fl1 fl2 own fs :
  release inode flags handle fl1 fl2 own fs =
  match open_files fs !! inode with
  | None => (Err ebadf, fs)
  | Some ofb =>
      if open_count ofb <? 1 then (Err ebadf, fs)
      else if open_count ofb =? 1 then set_open_files (delete inode (open_files fs)) fs
      else (Ok (), fs)
  end.
Proof.
  unfold release, self_, checked_sub. rewrite M_bind_eq. destruct (open_files fs !! inode) as [ofb|]; [|done].
  rewrite Z.ltb_antisym. destruct (1 <=? open_count ofb); [|done]. cbn [negb]. erewrite M_bind_lift by done.
  replace (open_count ofb - 1 =? 0) with (open_count ofb =? 1); [by destruct (open_count ofb =? 1)|].
  apply eq_true_iff_eq. rewrite !Z.eqb_eq. lia.
Qed.

(** The directory requests leave the open files alone, and conversely. *)
Definition same_files (fs fs' : ZipFuse) : Prop := open_files fs' = open_files fs.
Definition same_dirs (fs fs' : ZipFuse) : Prop := open_dirs fs' = open_dirs fs.
#[local] Instance same_files_pre : PreOrder same_files.
Proof. split; unfold same_files; [done|]. intros ??? ??. congruence. Qed.
#[local] Instance same_dirs_pre : PreOrder same_dirs.
Proof. split; unfold same_dirs; [done|]. intros ??? ??. congruence. Qed.
Lemma set_open_dirs_files m : preserves same_files (set_open_dirs m).
Proof. intros fs. done. Qed.
Lemma self_files : preserves same_files self_.
Proof. intros fs. done. Qed.
Lemma set_open_files_dirs m : preserves same_dirs (set_open_files m).
Proof. intros fs. done. Qed.
Lemma self_dirs : preserves same_dirs self_.
Proof. intros fs. done. Qed.
Hint Resolve set_open_dirs_files self_files set_open_files_dirs self_dirs : core.

Lemma opendir_files i fl : preserves same_files (run_op (OpOpendir i fl)).
Proof. unfold run_op, opendir. frame. Qed.
Lemma open_dirs_same i fl : preserves same_dirs (run_op (OpOpen i fl)).
Proof. unfold run_op, open. frame. Qed.
Lemma releasedir_files i fl h : preserves same_files (run_op (OpReleasedir i fl h)).
Proof. unfold run_op, releasedir. frame. Qed.

(** *** Handles stay readable *)

(** After [n] requests of which [k] more opens than releases of [h]. *)
Definition handle_inv (h : Z) (k n : Z) (fs : ZipFuse) : Prop :=
  match open_files fs !! h with
  | None => k <= 0
  | Some ofb => k <= open_count ofb ∧ 1 <= open_count ofb <= n ∧ file_content fs h (buf ofb)
  end.

Lemma delta_other (r : outcome io_error unit) : match r with Ok _ => 0 | _ => 0 end = 0.
Proof. by destruct r. Qed.
Lemma run_op_open i flags fs :
  run_op (OpOpen i flags) fs = (r ← fst (open i flags fs); Ok (), snd (open i flags fs)).
Proof. cbn [run_op]. rewrite M_bind_eq. by destruct (open i flags fs) as [[] ?]. Qed.

Lemma file_content_same fs fs' h c :
  same_archive fs fs' -> file_content fs h c -> file_content fs' h c.
Proof. unfold file_content. by intros [-> ->]. Qed.

Lemma handle_inv_frame h k n fs fs' :
  same_archive fs fs' -> open_files fs' !! h = open_files fs !! h ->
  handle_inv h k n fs -> handle_inv h k (n + 1) fs'.
Proof.
  unfold handle_inv. intros Hsame ->. destruct (open_files fs !! h); [|done].
  intros (? & ? & ?). split_and!; [lia..|]. by eapply file_content_same.
Qed.

Lemma handle_inv_open h i flags k n fs :
  0 <= n -> n + 1 < 2 ^ 32 -> handle_inv h k n fs ->
  handle_inv h (k + delta h (OpOpen i flags) (run_op (OpOpen i flags) fs).1) (n + 1)
    (run_op (OpOpen i flags) fs).2.
Proof.
  intros Hn0 Hn Hinv. pose proof (run_op_same (OpOpen i flags) fs) as Hsame. rewrite run_op_open in *.
  destruct (open i flags fs) as [r fs'] eqn:Ho. apply open_spec in Ho. cbn [fst snd delta] in *.
  assert ((∀ x, r <> Ok x) ∧ fs' = fs -> handle_inv h (k + delta h (OpOpen i flags) (r ← r; Ok ())) (n + 1) fs')
    as Hfail.
  { intros [Hr ->]. cbn. destruct r as [x| | |]; [by destruct (Hr x)|..]; cbn; rewrite Z.add_0_r;
      by eapply handle_inv_frame. }
  cbn [delta] in Hfail. destruct (Z.eqb_spec i h) as [->|Hne].
  - unfold handle_inv in Hinv. destruct (open_files fs !! h) as [ofb|].
    + destruct Hinv as (Hk & Hc & Hcont). destruct Ho as [(m & -> & Hm & Hf)|Ho]; [|by apply Hfail].
      rewrite checked_u_ok in Hm by lia. injection Hm as <-. cbn. unfold handle_inv. rewrite Hf, lookup_insert_eq.
      cbn. split_and!; [lia..|]. by eapply file_content_same.
    + destruct Ho as [(c & -> & Hcont & Hf)|Ho]; [|by apply Hfail]. cbn. unfold handle_inv.
      rewrite Hf, lookup_insert_eq. cbn. split_and!; [lia..|]. by eapply file_content_same.
  - rewrite delta_other, Z.add_0_r.
    apply (handle_inv_frame h k n fs); [done| |done].
    destruct (open_files fs !! i); destruct Ho as [(? & _ & _ & ->)|[_ ->]]; rewrite ?lookup_insert_ne by done; done.
Qed.

Lemma handle_inv_release h i flags hd k n fs :
  0 <= n -> handle_inv h k n fs ->
  handle_inv h (k + delta h (OpRelease i flags hd) (run_op (OpRelease i flags hd) fs).1) (n + 1)
    (run_op (OpRelease i flags hd) fs).2.
Proof.
  intros Hn Hinv. pose proof (run_op_same (OpRelease i flags hd) fs) as Hsame. cbn [run_op] in *.
  rewrite release_spec in *. cbn [delta]. destruct (Z.eqb_spec i h) as [->|Hne].
  - unfold handle_inv in Hinv |- *. destruct (open_files fs !! h) as [ofb|] eqn:Hofb.
    + destruct Hinv as (Hk & Hc & Hcont). replace (open_count ofb <? 1) with false by (symmetry; apply Z.ltb_ge; lia).
      destruct (Z.eqb_spec (open_count ofb) 1); cbn.
      * rewrite lookup_delete_eq. lia.
      * rewrite Hofb. split_and!; [lia..|done].
    + cbn. rewrite Hofb. lia.
  - rewrite delta_other, Z.add_0_r. apply (handle_inv_frame h k n fs); [done| |done].
    destruct (open_files fs !! i); [|done]. destruct (_ <? _); [done|]. destruct (_ =? _); [|done].
    cbn. by rewrite lookup_delete_ne.
Qed.

Lemma handle_inv_step h o k n fs :
  0 <= n -> n + 1 < 2 ^ 32 -> handle_inv h k n fs ->
  handle_inv h (k + delta h o (run_op o fs).1) (n + 1) (run_op o fs).2.
Proof.
  intros Hn0 Hn Hinv. destruct o as [i fl|i fl hd|i fl|i fl hd].
  - by apply handle_inv_open.
  - by apply handle_inv_release.
  - cbn [delta]. rewrite Z.add_0_r.
    apply (handle_inv_frame h k n fs); [apply run_op_same| |done]. by rewrite (opendir_files i fl fs).
  - cbn [delta]. rewrite Z.add_0_r.
    apply (handle_inv_frame h k n fs); [apply run_op_same| |done]. by rewrite (releasedir_files i fl hd fs).
Qed.
Lemma handle_inv_run h ops k n fs :
  0 <= n -> n + len ops < 2 ^ 32 -> handle_inv h k n fs ->
  handle_inv h (k + outstanding h ops fs) (n + len ops) (run ops fs).
Proof.
  revert k n fs. induction ops as [|o ops IH]; intros k n fs Hn Hlen Hinv.
  - cbn. by rewrite !Z.add_0_r.
  - cbn [run outstanding length] in *. rewrite Nat2Z.inj_succ in *.
    replace (n + Z.succ (len ops)) with (n + 1 + len ops) by lia. rewrite Z.add_assoc.
    apply IH; [lia..|]. apply handle_inv_step; [lia..|done].
Qed.
End Histories.

(** ** Files *)
Section Files.
Context `{Profile} `{ZipEnv}.

Lemma read_spec fs i h ofb size offset lo fl out :
  open_files fs !! h = Some ofb -> open_count ofb <> 0 -> 0 <= offset <= len (buf ofb) -> 0 <= size ->
  offset + size < 2 ^ 64 ->
  let seg := subrange (buf ofb) offset (Z.min (offset + size) (len (buf ofb))) in
  read fs i h size offset lo fl out = (Ok (len seg), out ++ seg).
Proof.
  intros Hh Hc Ho Hs H64 seg. unfold read. rewrite Hh. erewrite M_bind_lift by done.
  rewrite (proj2 (Z.eqb_neq _ _) Hc). erewrite M_bind_lift by (apply add_u64_ok; lia).
  by erewrite M_bind_lift by (apply slice_ok; lia).
Qed.

(** A buffer's content is that of a file entry with the inode's path. *)
Lemma file_content_entry archive fs0 fs h content :
  new archive = Ok fs0 -> same_archive fs0 fs -> file_content fs h content ->
  ∃ zf p, Ok zf ∈ archive ∧ z_is_file zf = true ∧ z_enclosed_name zf = Some p ∧
    resolve (inode_table fs0) ROOT p = Some h ∧ z_read_to_end zf = Ok content.
Proof.
  unfold new. intros Hnew [Ha Ht] (d & zi & zf & Hd & Hzi & Hzf & Hc).
  apply bind_inv in Hnew as (t & Hz & [= <-]). cbn in Ha, Ht. rewrite Ha in Hzf. rewrite Ht in Hd. cbn.
  destruct (from_zip_table_of archive t Hz) as (paths & Htab & _).
  apply get_inv in Hd as [H1 Hd]. pose proof (lookup_lt_Some _ _ _ Hd) as Hlt.
  rewrite <- (to_len _ _ _ Htab) in Hlt. destruct (lookup_lt_is_Some_2 _ _ Hlt) as [p Hp].
  destruct (to_file _ _ _ Htab _ d zi p Hd Hzi Hp) as (zf' & Hzf' & Hf & Hn & _).
  assert (zf' = zf) as -> by congruence. exists zf, p. split_and!; [|done|done| |done].
  - by eapply list_elem_of_lookup_2.
  - rewrite (to_reach _ _ _ Htab (Z.to_nat h) p); [by rewrite Z2Nat.id by lia|lia|done].
Qed.

(** C9: In every history of fewer than 2^32 requests in which a file has more
    successful opens than releases, its handle is readable: there is a file
    entry of the archive whose path leads to this inode, and every read at an
    offset within the content sends exactly the requested range of that
    entry's decompressed bytes, cut at the end of the file. *)
Theorem zipfuse_handle_serves archive fs0 ops h :
  new archive = Ok fs0 -> len ops < 2 ^ 32 -> 0 < outstanding h ops fs0 ->
  ∃ zf p content, Ok zf ∈ archive ∧ z_is_file zf = true ∧ z_enclosed_name zf = Some p ∧
    resolve (inode_table fs0) ROOT p = Some h ∧ z_read_to_end zf = Ok content ∧
    ∀ i size offset lo fl out,
      0 <= offset <= len content -> 0 <= size <= u32_MAX -> offset + size < 2 ^ 64 ->
      let seg := subrange content offset (Z.min (offset + size) (len content)) in
      read (run ops fs0) i h size offset lo fl out = (Ok (len seg), out ++ seg).
Proof.
  intros Hnew Hlen Hout.
  assert (handle_inv h 0 0 fs0) as Hinit.
  { unfold new in Hnew. apply bind_inv in Hnew as (t & _ & [= <-]). unfold handle_inv. cbn.
    by rewrite lookup_empty. }
  pose proof (handle_inv_run h ops 0 0 fs0 ltac:(lia) ltac:(lia) Hinit) as Hinv. unfold handle_inv in Hinv.
  destruct (open_files (run ops fs0) !! h) as [ofb|] eqn:Hofb; [|lia]. destruct Hinv as (_ & Hc & Hcont).
  destruct (file_content_entry archive fs0 (run ops fs0) h (buf ofb)) as (zf & p & Hin & Hf & Hn & Hr & Hz);
    [done|apply run_same|done|].
  exists zf, p, (buf ofb). split_and!; [done..|]. intros. apply read_spec; (done || lia).
Qed.

(** C33: [release] computes the decremented count but never stores it: once a
    file has been opened twice, no number of releases frees its buffer (each
    succeeds and leaves the state as it was), although the comment says that
    the buffer is released when the file is opened for nobody. *)
Theorem release_leaks fs fs1 fs2 h fl1 fl2 x1 x2 n rfl rh :
  open_files fs !! h = None -> open h fl1 fs = (Ok x1, fs1) -> open h fl2 fs1 = (Ok x2, fs2) ->
  run_op (OpRelease h rfl rh) fs2 = (Ok (), fs2) ∧
  run (replicate n (OpRelease h rfl rh)) fs2 = fs2 ∧ is_Some (open_files fs2 !! h).
Proof.
  intros Hnone H1 H2. apply open_spec in H1. rewrite Hnone in H1.
  destruct H1 as [(c & _ & _ & Hf1)|[Hx _]]; [|by destruct (Hx x1)].
  apply open_spec in H2. rewrite Hf1, lookup_insert_eq in H2. cbn in H2.
  destruct H2 as [(m & _ & Hm & Hf2)|[Hx _]]; [|by destruct (Hx x2)].
  rewrite checked_u_ok in Hm by lia. injection Hm as <-.
  assert (run_op (OpRelease h rfl rh) fs2 = (Ok (), fs2)) as Hrel.
  { cbn [run_op]. rewrite release_spec, Hf2, lookup_insert_eq. done. }
  split_and!; [done| |by rewrite Hf2, lookup_insert_eq].
  induction n as [|n IH]; [done|]. cbn [replicate run]. rewrite Hrel. exact IH.
Qed.

(** A read that starts beyond the end of the decompressed content panics
    in the slice [buf[start..end]], whatever the kernel believed the size to
    be, instead of returning no bytes. *)
Theorem read_past_end_panics {O} `{IoWrite O} fs i h ofb size offset lo fl (out : O) :
  open_files fs !! h = Some ofb -> open_count ofb <> 0 -> len (buf ofb) < offset -> 0 <= size ->
  offset + size < 2 ^ 64 ->
  read fs i h size offset lo fl out = (Panic, out).
Proof.
  intros Hh Hc Ho Hs H64. unfold read. rewrite Hh. erewrite M_bind_lift by done.
  rewrite (proj2 (Z.eqb_neq _ _) Hc). erewrite M_bind_lift by (apply add_u64_ok; lia).
  rewrite M_bind_eq. unfold slice. rewrite (proj2 (Z.leb_gt offset _)) by lia. by rewrite andb_false_r.
Qed.
End Files.

(** ** Directories *)
Section Directories.
Context `{Profile} `{ZipEnvOk}.

(** A client of [readdir]: it asks again from the offset of the last entry it
    took, until there is nothing left.  [consume] is how much of each answer
    fits its buffer. *)
Fixpoint collect (n : nat) (it : DirIter) : outcome io_error (list DirEntry) :=
  match n with
  | O => Ok []
  | S n' =>
      '(e, it) ← DirIter_next it;
      match e with
      | None => Ok []
      | Some e => es ← collect n' it; Ok (e :: es)
      end
  end.
Fixpoint list_directory (consume : list DirEntry -> list DirEntry) (fuel : nat) (fs : ZipFuse)
    (inode size offset_ : Z) : outcome io_error (list DirEntry) :=
  match fuel with
  | O => NoFuel
  | S fuel' =>
      it ← readdir fs inode inode size offset_;
      es ← collect (S (length (inner it))) it;
      match last (consume es) with
      | None => Ok []
      | Some e =>
          more ← list_directory consume fuel' fs inode size (d_offset e);
          Ok (consume es ++ more)
      end
  end.

(** The entries of [l], the first one at index [off]. *)
Fixpoint entries_from (off : Z) (l : list (string * DirectoryEntry)) : list DirEntry :=
  match l with
  | [] => []
  | (name, e) :: l' =>
      {| d_ino := de_inode e; d_offset := off + 1;
         d_type := match de_kind e with KDirectory => DT_DIR | KFile => DT_REG end; d_name := name |}
      :: entries_from (off + 1) l'
  end.
Lemma length_entries_from off l : length (entries_from off l) = length l.
Proof. revert off. induction l as [|[n e] l IH]; intros; simpl; auto. Qed.
Lemma entries_from_app off l1 l2 :
  entries_from off (l1 ++ l2) = entries_from off l1 ++ entries_from (off + len l1) l2.
Proof.
  revert off. induction l1 as [|[n e] l1 IH]; intros off; [by rewrite Z.add_0_r|].
  cbn [app entries_from length]. rewrite IH. do 3 f_equal. lia.
Qed.
Lemma take_entries_from off l k : take k (entries_from off l) = entries_from off (take k l).
Proof.
  revert off l. induction k as [|k IH]; intros off [|[n e] l]; [done..|]. cbn. by rewrite IH.
Qed.
Lemma last_entries_from off l e : last (entries_from off l) = Some e -> d_offset e = off + len l.
Proof.
  destruct l as [|x l _] using rev_ind; [done|]. rewrite entries_from_app, last_app, length_app.
  destruct x as [n d]. cbn. intros [= <-]. cbn. lia.
Qed.

Lemma collect_spec it n :
  0 <= cur it -> 0 <= offset it -> offset it + len (inner it) < 2 ^ 64 ->
  n = S (length (drop (Z.to_nat (cur it)) (inner it))) ->
  collect n it = Ok (entries_from (offset it + cur it) (drop (Z.to_nat (cur it)) (inner it))).
Proof.
  revert it. induction n as [|n IH]; intros it Hc Ho H64 Hn; [done|]. cbn [collect]. unfold DirIter_next.
  rewrite zlookup_nat by done. injection Hn as Hn.
  destruct (inner it !! Z.to_nat (cur it)) as [[name e]|] eqn:Hl.
  - pose proof (lookup_lt_Some _ _ _ Hl). rewrite (drop_S _ _ _ Hl) in *. cbn [length] in Hn.
    cbn [offset cur]. rewrite add_u64_ok by lia. rewrite !bind_Ok.
    replace (S (Z.to_nat (cur it))) with (Z.to_nat (cur it + 1)) in * by lia.
    rewrite IH; cbn [inner offset cur]; [|lia..|done]. rewrite bind_Ok. cbn [entries_from]. by rewrite !Z.add_assoc.
  - apply lookup_ge_None in Hl. rewrite drop_ge by done. done.
Qed.

Definition small_name (x : string * DirectoryEntry) : Prop := Z.of_nat (String.length x.1) < 2 ^ 32.

Lemma ldiff7_bound x : 0 <= x -> 0 <= Z.ldiff x 7 <= x.
Proof.
  intros Hx. change 7 with (Z.ones 3). rewrite Z.ldiff_ones_r, Z.shiftl_mul_pow2, Z.shiftr_div_pow2 by lia.
  change (2 ^ 3) with 8. pose proof (Z.div_mod x 8 ltac:(lia)). pose proof (Z.mod_pos_bound x 8 ltac:(lia)). lia.
Qed.
Lemma readdir_end_spec size est e rest :
  Forall small_name rest -> 0 <= est < 2 ^ 40 -> size <= u32_MAX -> 0 <= e -> e + len rest < 2 ^ 64 ->
  ∃ k, readdir_end size est e rest = Ok (e + k) ∧ 0 <= k <= len rest ∧ (est < size -> rest <> [] -> 1 <= k).
Proof.
  intros Hs. revert est e. induction Hs as [|[name d] rest Hn Hs IH]; intros est e Hest Hsz He H64.
  - exists 0. rewrite Z.add_0_r. split_and!; [done|lia|simpl; lia|done].
  - cbn [readdir_end length] in *. unfold small_name in Hn. cbn [fst] in Hn. unfold u32_MAX in *.
    destruct (Z.ltb_spec est size) as [Hlt|Hge]; [|exists 0; rewrite Z.add_0_r; split_and!; [done|lia..]].
    pose proof size_of_dirent_bound. rewrite (add_u64_ok size_of_dirent), bind_Ok by lia.
    rewrite (add_u64_ok (_ + _) 7), bind_Ok by lia.
    assert (0 <= size_of_dirent + Z.of_nat (String.length name) + 7) as Hs0 by lia.
    pose proof (ldiff7_bound _ Hs0).
    rewrite (add_u64_ok est), bind_Ok, (add_u64_ok e 1), bind_Ok by lia.
    destruct (IH (est + Z.ldiff (size_of_dirent + Z.of_nat (String.length name) + 7) 7) (e + 1))
      as (k & -> & Hk & _); [lia..|].
    exists (k + 1). split_and!; [f_equal; lia|lia..].
Qed.

Section Listing.
Context (fs : ZipFuse) (inode : Z) (odb : OpenDirBuf) (size : Z) (consume : list DirEntry -> list DirEntry).
Context (Hodb : open_dirs fs !! inode = Some odb) (Hcount : open_count odb <> 0)
  (Hnames : Forall small_name (buf odb)) (Hlen : len (buf odb) < 2 ^ 62) (Hsize : 0 < size <= u32_MAX)
  (Hconsume : ∀ l, consume l `prefix_of` l) (Hprogress : ∀ l, l <> [] -> consume l <> []).

Lemma readdir_spec off :
  0 <= off <= len (buf odb) ->
  ∃ k, readdir fs inode inode size off =
      Ok {| inner := take k (drop (Z.to_nat off) (buf odb)); offset := off; cur := 0 |} ∧
    (off < len (buf odb) -> (1 <= k)%nat) ∧ off + Z.of_nat k <= len (buf odb).
Proof.
  intros Ho. unfold readdir. rewrite Hodb. cbn [ok_or]. rewrite bind_Ok, (proj2 (Z.eqb_neq _ _) Hcount).
  destruct (readdir_end_spec size 0 off (drop (Z.to_nat off) (buf odb))) as (k & -> & Hk & Hk1);
    [by apply Forall_drop|lia|lia|lia|rewrite length_drop; lia|].
  rewrite length_drop in Hk. rewrite bind_Ok, sub_u64_ok, bind_Ok, slice_ok, bind_Ok by lia.
  exists (Z.to_nat k). unfold subrange. replace (off + k - off) with k by lia. split_and!; [done| |lia].
  intros Hlt. enough (1 <= k) by lia. apply Hk1; [lia|]. intros Hnil. apply (f_equal length) in Hnil.
  rewrite length_drop in Hnil. simpl in Hnil. lia.
Qed.

Lemma list_directory_spec fuel off :
  0 <= off <= len (buf odb) -> len (buf odb) - off < Z.of_nat fuel ->
  list_directory consume fuel fs inode size off = Ok (entries_from off (drop (Z.to_nat off) (buf odb))).
Proof.
  revert off. induction fuel as [|fuel IH]; intros off Ho Hf; [lia|]. cbn [list_directory].
  destruct (readdir_spec off Ho) as (k & -> & Hk1 & Hk). rewrite bind_Ok. cbn [inner].
  set (l := drop (Z.to_nat off) (buf odb)) in *. assert (len l = len (buf odb) - off) as Hl
    by (unfold l; rewrite length_drop; lia).
  rewrite collect_spec; cbn [cur offset inner]; rewrite ?drop_0, ?length_take; [|lia|lia|lia|done].
  rewrite bind_Ok, Z.add_0_r. destruct (Hconsume (entries_from off (take k l))) as [tl Htl].
  set (c := consume _) in *. assert (c = entries_from off (take (length c) l) ∧ (length c <= k)%nat) as [Hc Hck].
  { pose proof (f_equal length Htl) as Hlen'. rewrite length_entries_from, length_app, length_take in Hlen'.
    split; [|lia]. replace (length c) with (length c `min` k)%nat by lia.
    rewrite <- take_take, <- take_entries_from, Htl. by rewrite take_app_length. }
  destruct (last c) as [e|] eqn:Hlast.
  - pose proof Hlast as Hoff. rewrite Hc in Hoff. apply last_entries_from in Hoff.
    rewrite length_take in Hoff. assert (1 <= length c)%nat by (destruct c; [done|simpl; lia]).
    rewrite Hoff. replace (length c `min` length l)%nat with (length c) by lia.
    rewrite IH by lia. rewrite bind_Ok. f_equal. rewrite Hc at 1.
    replace (Z.to_nat (off + len c)) with (Z.to_nat off + length c)%nat by lia. rewrite <- drop_drop. fold l.
    rewrite <- (take_drop (length c) l) at 3. rewrite entries_from_app, length_take. do 2 f_equal. lia.
  - apply last_None in Hlast. destruct l as [|x l'] eqn:El; [done|]. exfalso.
    apply (Hprogress (entries_from off (take k (x :: l')))); [|exact Hlast].
    destruct k as [|k]; [simpl in Hl; lia|]. cbn. by destruct x.
Qed.
End Listing.

Lemma try_map_names (l l' : list (string * DirectoryEntry)) :
  try_map (E := io_error) (λ '(name, dir_entry), name ← cstring_new name; Ok (name, dir_entry)) l = Ok l' -> l' = l.
Proof.
  revert l'. induction l as [|[n e] l IH]; intros l' Hm; [by injection Hm as <-|]. cbn [try_map] in Hm.
  unfold cstring_new in Hm. destruct (no_char _ n); [|done]. rewrite !bind_Ok in Hm.
  apply bind_inv in Hm as (ys & Hys & [= <-]). by rewrite (IH ys).
Qed.
Lemma opendir_fresh inode flags fs x fs' :
  open_dirs fs !! inode = None -> opendir inode flags fs = (Ok x, fs') ->
  ∃ d es, get (inode_table fs) inode = Some d ∧ data d = Directory es ∧
    open_dirs fs' = <[inode := {| open_count := 1; buf := hash_iter es |}]> (open_dirs fs).
Proof.
  intros Hnone. unfold opendir, self_. rewrite M_bind_eq, Hnone, M_bind_eq. unfold find_inode, get_directory.
  destruct (get (inode_table fs) inode) as [d|]; [|done]. erewrite M_bind_lift by done.
  destruct (data d) as [es|] eqn:Hes; [|done]. erewrite M_bind_lift by done. rewrite M_bind_eq. cbn [lift].
  destruct (try_map _ _) as [l| | |] eqn:Hl; [|done..]. apply try_map_names in Hl as ->.
  intros [= _ <-]. by exists d, es.
Qed.

Definition d_kind (k : InodeKind) : Z := match k with KDirectory => DT_DIR | KFile => DT_REG end.
Lemma entries_from_data off l :
  (λ e, (d_name e, d_ino e, d_type e)) <$> entries_from off l =
    (λ '(n, e), (n, de_inode e, d_kind (de_kind e))) <$> l.
Proof. revert off. induction l as [|[n e] l IH]; intros off; [done|]. cbn. by rewrite <- (IH (off + 1)). Qed.

(** A directory that is opened and listed shows every one of its entries
    exactly once, with its inode and type: a client that calls [readdir] from
    offset 0 and goes on from the offset of the last entry it took, whatever
    non-empty part of each answer it takes and whatever its buffer size,
    terminates with a permutation of the directory's table. *)
Theorem readdir_lists_directory consume inode flags fs x fs' size :
  open_dirs fs !! inode = None -> opendir inode flags fs = (Ok x, fs') -> 0 < size <= u32_MAX ->
  (∀ l, consume l `prefix_of` l) -> (∀ l, l <> [] -> consume l <> []) ->
  ∃ d es, get (inode_table fs) inode = Some d ∧ data d = Directory es ∧
    (Forall small_name (map_to_list es) -> Z.of_nat (base.size es) < 2 ^ 62 ->
     ∃ l, list_directory consume (S (base.size es)) fs' inode size 0 = Ok l ∧
       ((λ e, (d_name e, d_ino e, d_type e)) <$> l) ≡ₚ
         ((λ '(n, e), (n, de_inode e, d_kind (de_kind e))) <$> map_to_list es)).
Proof.
  intros Hnone Hopen Hsize Hpre Hprog. destruct (opendir_fresh _ _ _ _ _ Hnone Hopen) as (d & es & Hd & Hes & Hdirs).
  exists d, es. split_and!; [done..|]. intros Hnames Hlen. pose proof (hash_iter_perm es) as Hperm.
  assert (length (hash_iter es) = base.size es) as Hl by (by rewrite Hperm, length_map_to_list).
  exists (entries_from 0 (hash_iter es)). split; [|by rewrite entries_from_data, Hperm].
  rewrite (list_directory_spec fs' inode {| open_count := 1; buf := hash_iter es |} size consume);
    cbn [open_count buf]; [done|by rewrite Hdirs, lookup_insert_eq|done|by rewrite Hperm|lia..|done|done|lia|lia].
Qed.

(** [readdir] from an offset beyond the last entry panics in the slice
    [buf[start..end]] instead of answering with no entries. *)
Theorem readdir_past_end_panics fs inode h odb size off :
  open_dirs fs !! inode = Some odb -> open_count odb <> 0 -> len (buf odb) < off < 2 ^ 64 ->
  readdir fs inode h size off = Panic.
Proof.
  intros Hodb Hc Ho. unfold readdir. rewrite Hodb. cbn [ok_or]. rewrite bind_Ok, (proj2 (Z.eqb_neq _ _) Hc).
  rewrite drop_ge by lia. cbn [readdir_end]. rewrite bind_Ok, sub_u64_ok, bind_Ok by lia.
  unfold slice. rewrite (proj2 (Z.leb_gt off (len (buf odb)))) by lia. by rewrite andb_false_r.
Qed.

(** ** Lookup *)

(** The kernel's walk along a path, one [lookup] per component. *)
Fixpoint lookup_path (fs : ZipFuse) (inode : Z) (path : list string) : outcome io_error Z :=
  match path with
  | [] => Ok inode
  | name :: path' => e ← lookup_ fs inode name; lookup_path fs (en_inode e) path'
  end.

Lemma lookup_resolve archive fs paths x p :
  table_of archive (inode_table fs) paths ->
  (∀ y d es, get (inode_table fs) y = Some d -> data d = Directory es -> Z.of_nat (base.size es) < 2 ^ 63) ->
  lookup_path fs x p =
    match resolve (inode_table fs) x p with
    | Some y => Ok y
    | None => lookup_path fs x p
    end ∧
  (resolve (inode_table fs) x p = None -> lookup_path fs x p = Err (RawOs ENOENT) ∨ lookup_path fs x p = Err ebadf).
Proof.
  intros Ht Hsz. revert x. induction p as [|n p IH]; intros x; [done|]. cbn [lookup_path resolve].
  unfold lookup_, find_inode. destruct (get (inode_table fs) x) as [d|] eqn:Hd; simpl; [|by auto].
  unfold get_directory. destruct (data d) as [es|] eqn:Hes; simpl; [|by auto].
  destruct (es !! n) as [e|] eqn:He; simpl; [|by auto].
  apply get_inv in Hd as [Hx1 Hd]. destruct (to_entry _ _ _ Ht _ d es n e Hd Hes He) as (d' & q & Hd' & _ & Hy1 & _).
  assert (get (inode_table fs) (de_inode e) = Some d') as Hg
    by (rewrite <- (Z2Nat.id (de_inode e)), get_nat by lia; done).
  assert (∃ st, stat_from fs (de_inode e) = Ok st) as [st Hst].
  { unfold stat_from, find_inode, get_directory. rewrite Hg. cbn [ok_or]. rewrite bind_Ok.
    destruct (data d') as [es'|] eqn:Hes'; [|by eexists]. specialize (Hsz _ _ _ Hg Hes').
    rewrite add_u64_ok by lia. by eexists. }
  rewrite Hst. apply IH.
Qed.

(** Walking a path with [lookup] finds exactly the paths of the archive's
    tree: it answers the inode that the table gives the path, and otherwise
    fails with ENOENT, or EBADF below a file; it never panics. *)
Theorem lookup_path_result archive fs p :
  new archive = Ok fs ->
  (∀ y d es, get (inode_table fs) y = Some d -> data d = Directory es -> Z.of_nat (base.size es) < 2 ^ 63) ->
  match resolve (inode_table fs) ROOT p with
  | Some y => lookup_path fs ROOT p = Ok y
  | None => lookup_path fs ROOT p = Err (RawOs ENOENT) ∨ lookup_path fs ROOT p = Err ebadf
  end.
Proof.
  unfold new. intros Hnew Hsz. apply bind_inv in Hnew as (t & Hz & [= <-]).
  destruct (from_zip_table_of archive t Hz) as (paths & Ht & _).
  destruct (lookup_resolve archive {| zip_archive := archive; inode_table := t; open_files := ∅; open_dirs := ∅ |}
    paths ROOT p Ht Hsz) as [Hok Herr].
  cbn [inode_table] in *. destruct (resolve t ROOT p); [exact Hok|by apply Herr].
Qed.
End Directories.

(** ** Concrete archives *)
Module Tests.
#[local] Instance test_profile : Profile := debug_profile.
#[local] Instance test_env : ZipEnv := {|
  from_zip_error := λ _, IoNew Other "zip error"; size_of_dirent := 24; hash_iter := map_to_list |}.
#[local] Instance test_env_ok : ZipEnvOk.
Proof. split; [done|]. reflexivity. Qed.

(** A directory [a] with the file [b] and the empty directory [c]. *)
Definition archive : ZipArchive :=
  [ZipInode.Tests.start_file ["a"; "b"]%string [1; 2; 3; 4; 5]; ZipInode.Tests.add_directory ["a"; "c"]%string].
Definition fs0 : ZipFuse :=
  {| zip_archive := archive; inode_table := ZipInode.Tests.unwrap_table (from_zip archive);
     open_files := ∅; open_dirs := ∅ |}.

Lemma zipfuse_handle_serves_witness :
  ∃ zf p content, Ok zf ∈ archive ∧ z_is_file zf = true ∧ z_enclosed_name zf = Some p ∧
    resolve (inode_table fs0) ROOT p = Some 3 ∧ z_read_to_end zf = Ok content ∧
    ∀ i size offset lo fl out,
      0 <= offset <= len content -> 0 <= size <= u32_MAX -> offset + size < 2 ^ 64 ->
      let seg := subrange content offset (Z.min (offset + size) (len content)) in
      read (run [OpOpen 3 0; OpOpen 3 0; OpRelease 3 0 3] fs0) i 3 size offset lo fl out =
        (Ok (len seg), out ++ seg).
Proof.
  refine (zipfuse_handle_serves archive fs0 [OpOpen 3 0; OpOpen 3 0; OpRelease 3 0 3] 3 _ _ _).
  - vm_compute. reflexivity.
  - simpl. lia.
  - vm_compute. reflexivity.
Defined.

Lemma release_leaks_witness :
  is_Some (open_files (run (OpOpen 3 0 :: OpOpen 3 0 :: replicate 10 (OpRelease 3 0 3)) fs0) !! 3).
Proof.
  destruct (release_leaks fs0 (run [OpOpen 3 0] fs0) (run [OpOpen 3 0; OpOpen 3 0] fs0) 3 0 0 (Some 3, 0)
    (Some 3, 0) 10 0 3) as (_ & Hr & Hs).
  - vm_compute. reflexivity.
  - vm_compute. reflexivity.
  - vm_compute. reflexivity.
  - change (run _ fs0) with (run (replicate 10 (OpRelease 3 0 3)) (run [OpOpen 3 0; OpOpen 3 0] fs0)).
    rewrite Hr. exact Hs.
Defined.

Lemma read_past_end_panics_witness :
  read (run [OpOpen 3 0] fs0) 3 3 10 6 None 0 ([] : bytes) = (Panic, []).
Proof.
  refine (read_past_end_panics (run [OpOpen 3 0] fs0) 3 3 {| open_count := 1; buf := [1; 2; 3; 4; 5] |}
    10 6 None 0 [] _ _ _ _ _).
  - vm_compute. reflexivity.
  - discriminate.
  - reflexivity.
  - lia.
  - lia.
Defined.

Lemma readdir_lists_directory_witness :
  ∃ d es, get (inode_table fs0) 2 = Some d ∧ data d = Directory es ∧
    (Forall small_name (map_to_list es) -> Z.of_nat (base.size es) < 2 ^ 62 ->
     ∃ l, list_directory (take 1) (S (base.size es)) (run [OpOpendir 2 0] fs0) 2 100 0 = Ok l ∧
       ((λ e, (d_name e, d_ino e, d_type e)) <$> l) ≡ₚ
         ((λ '(n, e), (n, de_inode e, d_kind (de_kind e))) <$> map_to_list es)).
Proof.
  refine (readdir_lists_directory (take 1) 2 0 fs0 (Some 2, CACHE_DIR) _ 100 _ _ _ _ _).
  - reflexivity.
  - vm_compute. reflexivity.
  - unfold u32_MAX. lia.
  - intros l. exists (drop 1 l). by rewrite take_drop.
  - by intros [|x l].
Defined.
Example listing :
  (map d_name <$> list_directory (take 1) 3 (run [OpOpendir 2 0] fs0) 2 100 0) = Ok ["c"; "b"]%string.
Proof. vm_compute. reflexivity. Qed.

Lemma readdir_past_end_panics_witness : readdir (run [OpOpendir 2 0] fs0) 2 2 100 3 = Panic.
Proof.
  refine (readdir_past_end_panics (run [OpOpendir 2 0] fs0) 2 2
    {| open_count := 1; buf := [("c"%string, {| de_inode := 4; de_kind := KDirectory |});
                                ("b"%string, {| de_inode := 3; de_kind := KFile |})] |} 100 3 _ _ _).
  - vm_compute. reflexivity.
  - discriminate.
  - simpl. lia.
Defined.

Lemma lookup_path_result_witness : lookup_path fs0 ROOT ["a"; "b"]%string = Ok 3.
Proof.
  refine (lookup_path_result archive fs0 ["a"; "b"]%string _ _).
  - vm_compute. reflexivity.
  - intros y d es Hd Hes. apply get_inv in Hd as [_ Hd]. apply list_elem_of_lookup_2 in Hd.
    apply Z.lt_trans with 10; [|done].
    revert es Hes. revert d Hd. apply (Forall_forall (λ d, ∀ es, data d = Directory es -> Z.of_nat (base.size es) < 10)).
    vm_compute. repeat constructor; intros es Hes; inversion Hes; vm_compute; reflexivity.
Defined.
End Tests.
