(* ===== verification/ZipTyped.v ===== *)
(** * zipfuse/src/main.rs: the types of the open buffers

    The two maps of open buffers are keyed by inode number and share no lock
    with the inode table.  That a file buffer is always the content of a file
    and a directory buffer the entries of a directory, whatever requests the
    kernel sends, is the invariant of this file. *)

From S2P Require Import Prelude Io Parse ZipInode ZipFuse.

(** Every open file is a file inode with its content, every open directory a
    directory inode with its entries. *)
Definition typed `{ZipEnv} (fs : ZipFuse) : Prop :=
  (∀ h ofb, open_files fs !! h = Some ofb -> file_content fs h (buf ofb)) ∧
  (∀ h odb, open_dirs fs !! h = Some odb ->
     ∃ es, (∃ d, get (inode_table fs) h = Some d ∧ data d = Directory es) ∧ buf odb ≡ₚ map_to_list es).

Section Typing.
Context `{Profile} `{ZipEnvOk}.

Lemma typed_frame fs fs' :
  same_archive fs fs' ->
  (∀ h ofb', open_files fs' !! h = Some ofb' ->
     file_content fs h (buf ofb') ∨ ∃ ofb, open_files fs !! h = Some ofb ∧ buf ofb = buf ofb') ->
  (∀ h odb', open_dirs fs' !! h = Some odb' ->
     (∃ es, (∃ d, get (inode_table fs) h = Some d ∧ data d = Directory es) ∧ buf odb' ≡ₚ map_to_list es) ∨
     ∃ odb, open_dirs fs !! h = Some odb ∧ buf odb = buf odb') ->
  typed fs -> typed fs'.
Proof.
  intros Hsame Hf Hd [Htf Htd]. split.
  - intros h ofb Hh. destruct (Hf h ofb Hh) as [Hc|(ofb0 & Hc & <-)]; eapply file_content_same; eauto.
  - intros h odb Hh. destruct Hsame as [_ ->]. destruct (Hd h odb Hh) as [Hc|(odb0 & Hc & <-)]; [done|by apply Htd].
Qed.

Lemma typed_open i fl fs : typed fs -> typed (run_op (OpOpen i fl) fs).2.
Proof.
  intros Ht. pose proof (run_op_same (OpOpen i fl) fs) as Hsame.
  assert (same_dirs fs (run_op (OpOpen i fl) fs).2) as Hdirs by apply open_dirs_same.
  rewrite run_op_open in *. destruct (open i fl fs) as [r fs'] eqn:Ho. cbn [fst snd] in *.
  apply open_spec in Ho. apply (typed_frame fs fs' Hsame); [| |done].
  - intros h ofb' Hh. destruct (open_files fs !! i) as [ofb|] eqn:Hi.
    + destruct Ho as [(n & _ & _ & Hf)|[_ ->]]; [|right; by exists ofb'].
      rewrite Hf in Hh. apply lookup_insert_Some in Hh as [[<- <-]|[_ Hh]]; right; [by exists ofb|by exists ofb'].
    + destruct Ho as [(c & _ & Hc & Hf)|[_ ->]]; [|right; by exists ofb'].
      rewrite Hf in Hh. apply lookup_insert_Some in Hh as [[<- <-]|[_ Hh]]; [by left|right; by exists ofb'].
  - intros h odb Hh. right. exists odb. by rewrite <- Hdirs.
Qed.
Lemma typed_release i fl hd fs : typed fs -> typed (run_op (OpRelease i fl hd) fs).2.
Proof.
  intros Ht. pose proof (run_op_same (OpRelease i fl hd) fs) as Hsame. cbn [run_op] in *. rewrite release_spec in *.
  destruct (open_files fs !! i) as [ofb|]; [|done]. destruct (_ <? _); [done|]. destruct (_ =? _); [|done].
  cbn in *. apply (typed_frame fs _ Hsame); [| |done]; cbn.
  - intros h ofb' [_ Hh]%lookup_delete_Some. right. by exists ofb'.
  - intros h odb Hh. right. by exists odb.
Qed.

(** [opendir] opens a directory again, or a directory for the first time. *)
Lemma opendir_cases i fl fs r fs' :
  opendir i fl fs = (r, fs') ->
  fs' = fs ∨
  ∃ odb', open_dirs fs' = <[i := odb']> (open_dirs fs) ∧
    ((∃ odb, open_dirs fs !! i = Some odb ∧ buf odb = buf odb') ∨
     ∃ es, (∃ d, get (inode_table fs) i = Some d ∧ data d = Directory es) ∧ buf odb' ≡ₚ map_to_list es).
Proof.
  intros Ho. destruct (open_dirs fs !! i) as [odb|] eqn:Hi.
  - unfold opendir, self_ in Ho. rewrite M_bind_eq, Hi, M_bind_eq in Ho.
    destruct (open_count odb =? 0); [left; by injection Ho|]. rewrite M_bind_eq in Ho. cbn [lift] in Ho.
    destruct (checked_u 32 (open_count odb + 1)) as [n| | |]; cbn in Ho; injection Ho as Hr Hfs; subst fs'; [right|by left..].
    eexists. split; [done|]. left. by exists odb.
  - destruct r as [x|e| |].
    { destruct (opendir_fresh i fl fs x fs' Hi Ho) as (d & es & Hd & Hes & Hdirs). right.
      eexists. split; [exact Hdirs|]. right. exists es. split; [by exists d|]. apply hash_iter_perm. }
    all: left; unfold opendir, self_ in Ho; rewrite M_bind_eq, Hi, M_bind_eq in Ho; unfold find_inode, get_directory in Ho.
    all: destruct (get (inode_table fs) i) as [d|]; [erewrite M_bind_lift in Ho by done|by injection Ho].
    all: destruct (data d) as [es|]; [erewrite M_bind_lift in Ho by done|by injection Ho].
    all: rewrite M_bind_eq in Ho; cbn [lift] in Ho; destruct (try_map _ _); by injection Ho.
Qed.
Lemma typed_opendir i fl fs : typed fs -> typed (run_op (OpOpendir i fl) fs).2.
Proof.
  intros Ht. pose proof (run_op_same (OpOpendir i fl) fs) as Hsame. pose proof (opendir_files i fl fs) as Hfiles.
  assert ((run_op (OpOpendir i fl) fs).2 = (opendir i fl fs).2) as Heq
    by (cbn [run_op]; rewrite M_bind_eq; by destruct (opendir i fl fs) as [[] ?]).
  rewrite Heq in *. destruct (opendir i fl fs) as [r fs'] eqn:Ho. cbn [fst snd] in *.
  apply opendir_cases in Ho as [->|(odb' & Hd & Hcase)]; [done|]. apply (typed_frame fs fs' Hsame); [| |done].
  - intros h ofb Hh. right. exists ofb. by rewrite <- Hfiles.
  - intros h odb Hh. rewrite Hd in Hh. apply lookup_insert_Some in Hh as [[<- <-]|[_ Hh]]; [|right; by exists odb].
    destruct Hcase; [by right|by left].
Qed.
Lemma typed_releasedir i fl hd fs : typed fs -> typed (run_op (OpReleasedir i fl hd) fs).2.
Proof.
  intros Ht. pose proof (run_op_same (OpReleasedir i fl hd) fs) as Hsame.
  cbn [run_op] in *. unfold releasedir, self_, checked_sub in *. rewrite M_bind_eq in *.
  destruct (open_dirs fs !! i) as [odb|]; [|done]. destruct (1 <=? open_count odb); [|done].
  rewrite M_bind_eq in *. cbn [lift ok_or] in *. destruct (_ =? 0); [|done]. cbn in *.
  apply (typed_frame fs _ Hsame); [| |done]; cbn.
  - intros h ofb Hh. right. by exists ofb.
  - intros h odb' [_ Hh]%lookup_delete_Some. right. by exists odb'.
Qed.

Lemma typed_run ops fs : typed fs -> typed (run ops fs).
Proof.
  revert fs. induction ops as [|o ops IH]; intros fs Ht; [done|]. cbn [run]. apply IH.
  destruct o; [by apply typed_open|by apply typed_release|by apply typed_opendir|by apply typed_releasedir].
Qed.

(** C29: The state of zipfuse stays typed, in every history of requests, whatever
    their arguments and results: the buffer of an open file is the
    decompressed content of the file inode it is keyed by, the buffer of an
    open directory lists exactly the entries of the directory inode it is
    keyed by, and no inode is open both as a file and as a directory. *)
Theorem zipfuse_state_typed archive fs0 ops :
  new archive = Ok fs0 ->
  let fs := run ops fs0 in
  typed fs ∧ ∀ h, ¬ (is_Some (open_files fs !! h) ∧ is_Some (open_dirs fs !! h)).
Proof.
  intros Hnew fs. assert (typed fs) as Ht.
  { apply typed_run. unfold new in Hnew. apply bind_inv in Hnew as (t & _ & [= <-]).
    split; intros h ?; cbn; by rewrite lookup_empty. }
  split; [done|]. intros h [[ofb Hf] [odb Hd]]. destruct Ht as [Hfiles Hdirs].
  destruct (Hfiles h ofb Hf) as (d & zi & zf & Hg & Hzi & _). destruct (Hdirs h odb Hd) as (es & (d' & Hg' & Hes) & _).
  congruence.
Qed.
End Typing.

Section Witness.
Import ZipFuse.Tests.
#[local] Existing Instance test_profile.
#[local] Existing Instance test_env.
#[local] Existing Instance test_env_ok.
Lemma zipfuse_state_typed_witness :
  let fs := run [OpOpen 3 0; OpOpendir 2 0; OpOpen 2 0] fs0 in
  typed fs ∧ (∀ h, ¬ (is_Some (open_files fs !! h) ∧ is_Some (open_dirs fs !! h))) ∧
  is_Some (open_files fs !! 3) ∧ is_Some (open_dirs fs !! 2) ∧ open_files fs !! 2 = None.
Proof.
  destruct (zipfuse_state_typed archive fs0 [OpOpen 3 0; OpOpendir 2 0; OpOpen 2 0]) as [Ht Hd].
  - vm_compute. reflexivity.
  - split; [exact Ht|]. split; [exact Hd|]. vm_compute. split; [eauto|]. split; [eauto|reflexivity].
Defined.
End Witness.
