(* ===== verification/ZipTests.v ===== *)
(** * The unit tests of zipfuse/src/inode.rs, on the model

    The tests write an archive with the zip library's writer, read it back and
    check the inode table.  The library is a parameter: a test is a sequence of
    calls on the writer, and [ZipRoundTrip] states what the reader is documented
    to report of what was written.  The tests pass for every library with that
    contract; [plain_zip] is one. *)

From S2P Require Import Prelude Io Parse ZipInode.

(** ** The writer *)
Inductive zip_op :=
| StartFile (name : string)
| AddDirectory (name : string)
| WriteAll (data : bytes).

Definition SLASH : Ascii.ascii := Ascii.ascii_of_nat 47.

(** An entry of the archive: its name, whether it is a file, its content. *)
Record written := { w_path : list string; w_is_file : bool; w_content : bytes }.

(** What has been written, the last entry first; [write_all] adds to it. *)
Definition write_op (entries : list written) (op : zip_op) : list written :=
  match op, entries with
  | StartFile name, _ => {| w_path := split_on SLASH name; w_is_file := true; w_content := [] |} :: entries
  | AddDirectory name, _ => {| w_path := split_on SLASH name; w_is_file := false; w_content := [] |} :: entries
  | WriteAll data, e :: rest =>
      {| w_path := w_path e; w_is_file := w_is_file e; w_content := w_content e ++ data |} :: rest
  | WriteAll _, [] => []
  end.
Definition entries_of (ops : list zip_op) : list written := rev (foldl write_op [] ops).

(** What the reader reports of an entry.  Its mode and its display name are
    the library's; a path with [..] may be refused already by [enclosed_name]. *)
Record reports (e : written) (zf : zip_file) : Prop := {
  rep_name : z_enclosed_name zf = Some (w_path e) ∨
    ".."%string ∈ w_path e ∧ z_enclosed_name zf = None;
  rep_file : z_is_file zf = w_is_file e;
  rep_size : z_size zf = len (w_content e);
  rep_read : z_read_to_end zf = Ok (w_content e)
}.

(** [writer.finish()] and [ZipArchive::new]. *)
Class ZipWriter := finish_and_open : list zip_op -> outcome zip_error ZipArchive.
Class ZipRoundTrip `{ZipWriter} :=
  opened ops : ∃ zfs, finish_and_open ops = Ok (Ok <$> zfs) ∧ Forall2 reports (entries_of ops) zfs.

(** ** The tests *)
Section Tests.
Context `{ZipWriter}.

(** A failed assertion and an error alike fail the test. *)
Definition setup (add : list zip_op) : outcome Empty_set InodeTable :=
  match (zip ← finish_and_open add; from_zip zip) with
  | Ok it => Ok it
  | NoFuel => NoFuel
  | Err _ | Panic => Panic
  end.

Definition check_dir (it : InodeTable) (parent : Z) (name : string) : outcome Empty_set Z :=
  name ← cstring_new name;
  found ← find it parent name;
  inode ← unwrap found;
  inode_data ← unwrap (get it inode);
  _ ← assert_eq 0 (size inode_data);
  _ ← assert_ (is_dir inode_data);
  Ok inode.

Definition check_file (it : InodeTable) (parent : Z) (name : string) : outcome Empty_set InodeData :=
  name ← cstring_new name;
  found ← find it parent name;
  inode ← unwrap found;
  inode_data ← unwrap (get it inode);
  _ ← assert_ (negb (is_dir inode_data));
  Ok inode_data.

Definition empty_zip_has_two_inodes : outcome Empty_set unit :=
  it ← setup [];
  _ ← assert_eq 2 (len (table it));
  _ ← assert_ (match get it INVALID with None => true | Some _ => false end);
  assert_ (match get it ROOT with Some _ => true | None => false end).

Definition ten_digits : bytes := bytes_of_string "0123456789".

Definition one_file : outcome Empty_set unit :=
  it ← setup [StartFile "foo"; WriteAll ten_digits];
  inode_data ← check_file it ROOT "foo";
  assert_eq (len ten_digits) (size inode_data).

Definition one_dir : outcome Empty_set unit :=
  it ← setup [AddDirectory "foo"];
  inode ← check_dir it ROOT "foo";
  d ← unwrap (get it inode);
  directory ← unwrap (get_directory d);
  assert_eq 0 (Z.of_nat (base.size directory)).

Definition one_file_in_subdirs : outcome Empty_set unit :=
  it ← setup [StartFile "a/b/c/d"; WriteAll ten_digits];
  _ ← assert_eq 6 (len (table it));
  a ← check_dir it ROOT "a";
  b ← check_dir it a "b";
  c ← check_dir it b "c";
  d ← check_file it c "d";
  assert_eq 10 (size d).

Definition complex_hierarchy : outcome Empty_set unit :=
  it ← setup [AddDirectory "a/b1"; StartFile "a/b2/c1"; StartFile "a/b2/c2/d1"; StartFile "a/b2/c2/d2";
              StartFile "a/b2/c2/d3"; StartFile "x/y1"; StartFile "x/y2"; AddDirectory "x/y3";
              StartFile "foo"; StartFile "bar"];
  _ ← assert_eq 16 (len (table it));
  a ← check_dir it ROOT "a";
  _ ← check_dir it a "b1";
  b2 ← check_dir it a "b2";
  _ ← check_file it b2 "c1";
  c2 ← check_dir it b2 "c2";
  _ ← check_file it c2 "d1";
  _ ← check_file it c2 "d3";
  _ ← check_file it c2 "d3";
  x ← check_dir it ROOT "x";
  _ ← check_file it x "y1";
  _ ← check_file it x "y2";
  _ ← check_dir it x "y3";
  _ ← check_file it ROOT "foo";
  _ ← check_file it ROOT "bar";
  Ok ().

Definition file_size : outcome Empty_set unit :=
  it ← setup [StartFile "empty"; StartFile "10bytes"; WriteAll (zeros 10); StartFile "1234bytes";
              WriteAll (zeros 1234); StartFile "2^20bytes"; WriteAll (zeros (Z.shiftl 2 20))];
  f ← check_file it ROOT "empty"; _ ← assert_eq 0 (size f);
  f ← check_file it ROOT "10bytes"; _ ← assert_eq 10 (size f);
  f ← check_file it ROOT "1234bytes"; _ ← assert_eq 1234 (size f);
  f ← check_file it ROOT "2^20bytes"; assert_eq (Z.shiftl 2 20) (size f).

Definition invalid_paths : list string := ["a/../../b"; "a/.."; "a/../../b/c"; "a/b/../c"]%string.
Fixpoint rejects (paths : list string) : outcome Empty_set unit :=
  match paths with
  | [] => Ok ()
  | path :: rest =>
      _ ← match finish_and_open [StartFile path] with
          | Ok zip => assert_ (match from_zip zip with Err _ => true | _ => false end)
          | _ => Panic
          end;
      rejects rest
  end.
Definition rejects_invalid_paths : outcome Empty_set unit := rejects invalid_paths.
End Tests.

(** ** They pass *)
Section Pass.
Context `{ZipRoundTrip}.

Lemma reported_name e zf :
  reports e zf -> forallb (λ n, negb (String.eqb n "..")) (w_path e) = true ->
  z_enclosed_name zf = Some (w_path e).
Proof.
  intros [[Hn|[Hin _]] _ _ _] Hf; [done|]. exfalso. rewrite forallb_forall in Hf.
  apply list_elem_of_In, Hf in Hin. discriminate.
Qed.

(** The fields of one reported entry that the table depends on. *)
Lemma reported_fields e zf :
  reports e zf -> forallb (λ n, negb (String.eqb n "..")) (w_path e) = true ->
  ∃ name mode content, zf = {| z_name := name; z_enclosed_name := Some (w_path e); z_is_file := w_is_file e;
    z_unix_mode := mode; z_size := len (w_content e); z_read_to_end := content |}.
Proof.
  intros Hr Hf. pose proof (reported_name _ _ Hr Hf) as Hn. destruct Hr as [_ Hi Hs _].
  destruct zf; cbn in *. subst. by eexists _, _, _.
Qed.
End Pass.

(** Replaces the archive by the entries that the library reports. *)
Ltac reported_entries Hr :=
  first
    [ apply Forall2_nil_inv_l in Hr as ->
    | let zf := fresh "zf" in let H := fresh "Hrep" in
      apply Forall2_cons_inv_l in Hr as (zf & ? & H & Hr & ->);
      apply reported_fields in H as (? & ? & ? & ->); [|reflexivity];
      reported_entries Hr ].
Ltac open_archive :=
  unfold setup;
  match goal with
  | |- context [finish_and_open ?ops] =>
      let zfs := fresh "zfs" in let Hz := fresh "Hz" in let Hr := fresh "Hr" in
      destruct (opened ops) as (zfs & Hz & Hr); rewrite Hz; clear Hz;
      change (entries_of ops) with (rev (foldl write_op [] ops)) in Hr;
      cbn -[zeros split_on SLASH] in Hr; reported_entries Hr
  end.

Section Pass.
Context `{ZipRoundTrip}.

Lemma table_tests_pass :
  empty_zip_has_two_inodes = Ok () ∧ one_file = Ok () ∧ one_dir = Ok () ∧ one_file_in_subdirs = Ok () ∧
  complex_hierarchy = Ok ().
Proof.
  unfold empty_zip_has_two_inodes, one_file, one_dir, one_file_in_subdirs, complex_hierarchy.
  split_and!; open_archive; vm_compute; reflexivity.
Qed.

Lemma file_size_passes : file_size = Ok ().
Proof.
  unfold file_size.
  assert (len (zeros (Z.shiftl 2 20)) = Z.shiftl 2 20) as Hb by (rewrite length_zeros, Z2Nat.id; done).
  revert Hb. generalize (zeros (Z.shiftl 2 20)) as big. intros big Hb.
  open_archive. cbn [w_content]. rewrite Hb.
  vm_compute. reflexivity.
Qed.

Lemma rejects_cons path rest :
  (∀ zf, reports {| w_path := split_on SLASH path; w_is_file := true; w_content := [] |} zf ->
     ∃ e, from_zip [Ok zf] = Err e) ->
  rejects (path :: rest) = rejects rest.
Proof.
  intros Hone. cbn [rejects]. destruct (opened [StartFile path]) as (? & -> & Hr).
  apply Forall2_cons_inv_l in Hr as (zf & ? & Hrep & Hr & ->). apply Forall2_nil_inv_l in Hr as ->.
  destruct (Hone zf Hrep) as [e He]. cbn [fmap list_fmap]. by rewrite He.
Qed.

Lemma rejects_invalid_paths_passes : rejects_invalid_paths = Ok ().
Proof.
  unfold rejects_invalid_paths, invalid_paths.
  rewrite !rejects_cons; [reflexivity|..];
    intros zf [Hn Hf _ _]; destruct zf; cbn -[SLASH split_on] in Hn, Hf; subst;
    destruct Hn as [->|[_ ->]]; eexists; vm_compute; reflexivity.
Qed.

(** The unit tests of inode.rs hold of the model for every zip library that
    reads back what its writer wrote: the sizes of the tables, every directory
    and file at its place with its size, and the refusal of every path with
    [..] in it. *)
Theorem inode_tests_pass :
  empty_zip_has_two_inodes = Ok () ∧ one_file = Ok () ∧ one_dir = Ok () ∧ one_file_in_subdirs = Ok () ∧
  complex_hierarchy = Ok () ∧ file_size = Ok () ∧ rejects_invalid_paths = Ok ().
Proof.
  destruct table_tests_pass as (? & ? & ? & ? & ?). split_and!; try done.
  - exact file_size_passes.
  - exact rejects_invalid_paths_passes.
Qed.
End Pass.

(** ** A library with the contract *)
Definition plain_file (e : written) : zip_file := {|
  z_name := ""; z_enclosed_name := Some (w_path e); z_is_file := w_is_file e; z_unix_mode := None;
  z_size := len (w_content e); z_read_to_end := Ok (w_content e) |}.
#[local] Instance plain_zip : ZipWriter := λ ops, Ok (Ok <$> (plain_file <$> entries_of ops)).
Lemma plain_zip_round_trip : ZipRoundTrip (H := plain_zip).
Proof.
  intros ops. exists (plain_file <$> entries_of ops). split; [done|].
  apply Forall2_fmap_r, Forall_Forall2_diag, Forall_true. intros e. split; [by left|done..].
Qed.

Lemma inode_tests_pass_witness :
  empty_zip_has_two_inodes = Ok () ∧ one_file = Ok () ∧ one_dir = Ok () ∧ one_file_in_subdirs = Ok () ∧
  complex_hierarchy = Ok () ∧ file_size = Ok () ∧ rejects_invalid_paths = Ok ().
Proof. refine (inode_tests_pass (H0 := plain_zip_round_trip)). Defined.
