(* ===== verification/ZipClient.v ===== *)
(** * zipfuse/src/main.rs: the file system as a program sees it

    The tests of main.rs mount an archive and inspect it with the standard
    library.  [check_file] and [check_dir] are those checks, over the requests
    that the kernel makes for them: a path is walked with [lookup],
    [fs::metadata] is [getattr], [fs::read] opens the file, reads until an
    answer is empty and closes it, and [fs::read_dir] lists the opened
    directory.  The theorems: both checks pass for every file and directory of
    every mounted archive, and leave no buffer behind. *)

From S2P Require Import Prelude Io Service Parse ZipInode ZipFuse ZipTests.

Definition S_IFMT : Z := 0xF000.
Definition is_file (st : stat64) : bool := Z.land (st_mode st) S_IFMT =? S_IFREG.
Definition metadata_is_dir (st : stat64) : bool := Z.land (st_mode st) S_IFMT =? S_IFDIR.

(** ** The requests of a program *)
Section Client.
Context `{Profile} `{ZipEnv}.
(** The kernel's read size, the size of its directory buffer, and how much of
    a [readdir] answer fits it. *)
Context (read_size dir_size : Z) (consume : list DirEntry -> list DirEntry).

(** [fs::metadata]. *)
Definition metadata (path : list string) : M ZipFuse io_error stat64 :=
  fs ← self_;
  inode ← lift (lookup_path fs ROOT path);
  '(st, _) ← lift (getattr fs inode None);
  mret st.

(** One read request; the answer is what the handler wrote. *)
Definition read_request (inode handle off : Z) : M ZipFuse io_error bytes :=
  fs ← self_;
  let '(r, out) := read fs inode handle read_size off None 0 ([] : bytes) in
  _ ← lift r;
  mret out.

Fixpoint read_to_end (fuel : nat) (inode handle : Z) (sofar : bytes) : M ZipFuse io_error bytes :=
  match fuel with
  | O => lift NoFuel
  | S fuel' =>
      out ← read_request inode handle (len sofar);
      match out with
      | [] => mret sofar
      | _ => read_to_end fuel' inode handle (sofar ++ out)
      end
  end.

(** [fs::read], every read bringing at least one byte. *)
Definition fs_read (fuel : nat) (path : list string) : M ZipFuse io_error bytes :=
  fs ← self_;
  inode ← lift (lookup_path fs ROOT path);
  '(handle, _) ← open inode 0;
  content ← read_to_end fuel inode (default 0 handle) [];
  _ ← release inode 0 (default 0 handle) false false None;
  mret content.

(** [fs::read_dir], collected. *)
Definition read_dir (fuel : nat) (path : list string) : M ZipFuse io_error (list DirEntry) :=
  fs ← self_;
  inode ← lift (lookup_path fs ROOT path);
  '(handle, _) ← opendir inode 0;
  fs ← self_;
  entries ← lift (list_directory consume fuel fs inode dir_size 0);
  _ ← releasedir inode 0 (default 0 handle);
  mret entries.

(** [Path::is_dir]: false when the metadata cannot be had. *)
Definition path_is_dir (path : list string) : M ZipFuse Empty_set bool :=
  r ← tryM (metadata path);
  mret (match r with inl _ => false | inr st => metadata_is_dir st end).

(** ** The checks of the tests *)
Definition check_file (fuel : nat) (path : list string) (content : bytes) : M ZipFuse Empty_set unit :=
  _ ← expectM (metadata path);
  metadata ← expectM (metadata path);
  _ ← lift (assert_ (is_file metadata));
  _ ← lift (assert_ (len content =? st_size metadata));
  read_data ← expectM (fs_read fuel path);
  lift (assert_ (bool_decide (content = read_data))).

(** The loop over the entries, which sorts their names into two sets. *)
Fixpoint sort_entries (path : list string) (entries : list DirEntry) (files dirs : gset string)
    : M ZipFuse Empty_set (gset string * gset string) :=
  match entries with
  | [] => mret (files, dirs)
  | e :: rest =>
      d ← path_is_dir (path ++ [d_name e]);
      if d : bool then sort_entries path rest files ({[d_name e]} ∪ dirs)
      else sort_entries path rest ({[d_name e]} ∪ files) dirs
  end.

Definition check_dir (fuel : nat) (path : list string) (files dirs : list string) : M ZipFuse Empty_set unit :=
  _ ← expectM (metadata path);
  metadata ← expectM (metadata path);
  _ ← lift (assert_ (metadata_is_dir metadata));
  entries ← expectM (read_dir fuel path);
  '(actual_files, actual_dirs) ← sort_entries path entries ∅ ∅;
  _ ← lift (assert_ (bool_decide (list_to_set files = actual_files)));
  lift (assert_ (bool_decide (list_to_set dirs = actual_dirs))).

(** The file system that [run_fuse] mounts, then the check. *)
Definition run_test `{ZipWriter} (add : list zip_op) (check : M ZipFuse Empty_set unit) : outcome Empty_set unit :=
  match (zip ← finish_and_open add; new zip) with
  | Ok fs => (check fs).1
  | NoFuel => NoFuel
  | Err _ | Panic => Panic
  end.
End Client.

(** ** Every file and directory passes *)
Lemma other_kind (n_is A B P : Prop) : (n_is -> ¬ P) -> A ∨ B ∧ P <-> A ∨ (n_is ∨ B) ∧ P.
Proof. tauto. Qed.
Lemma this_kind (n_is A B P : Prop) : (n_is -> P) -> (n_is ∨ A) ∨ B ∧ P <-> A ∨ (n_is ∨ B) ∧ P.
Proof. tauto. Qed.

Definition type_of (d : InodeData) : Z := if is_dir d then S_IFDIR else S_IFREG.
Lemma names_from off l : map d_name (entries_from off l) = l.*1.
Proof. revert off. induction l as [|[n e] l IH]; intros off; [done|]. cbn. by rewrite IH. Qed.
(** The modes of the archive do not contradict the kinds of the inodes, and
    the directories are of a size that fits in memory. *)
Record sane (t : InodeTable) : Prop := {
  sane_mode x d : get t x = Some d -> Z.land (mode d) S_IFMT = 0 ∨ Z.land (mode d) S_IFMT = type_of d;
  sane_dir x d es : get t x = Some d -> data d = Directory es ->
    Z.of_nat (base.size es) < 2 ^ 62 ∧ Forall small_name (map_to_list es)
}.

(** The same of an archive: a mode says what its entry is, entries of one path
    are of one kind, and names and their number fit in memory. *)
Definition components (archive : ZipArchive) : list string :=
  mjoin (omap (λ r, match r with Ok zf => z_enclosed_name zf | _ => None end) archive).
Record sane_archive (archive : ZipArchive) : Prop := {
  sa_mode zi zf m : archive !! zi = Some (Ok zf) -> z_unix_mode zf = Some m ->
    Z.land m S_IFMT = 0 ∨ Z.land m S_IFMT = if z_is_file zf then S_IFREG else S_IFDIR;
  sa_kind zi zj zf zf' p : archive !! zi = Some (Ok zf) -> archive !! zj = Some (Ok zf') ->
    z_enclosed_name zf = Some p -> z_enclosed_name zf' = Some p -> z_is_file zf = z_is_file zf';
  sa_names n : n ∈ components archive -> Z.of_nat (String.length n) < 2 ^ 32;
  sa_count : len (components archive) < 2 ^ 62
}.

Lemma components_elem archive zi zf p n :
  archive !! zi = Some (Ok zf) -> z_enclosed_name zf = Some p -> n ∈ p -> n ∈ components archive.
Proof.
  intros Hz Hp Hn. apply list_elem_of_join. exists p. split; [done|]. apply list_elem_of_omap.
  exists (Ok zf). split; [by eapply list_elem_of_lookup_2|done].
Qed.
(** The table of a sane archive is sane. *)
Lemma table_sane archive t paths : table_of archive t paths -> sane_archive archive -> sane t.
Proof.
  intros Ht Ha. split.
  - intros x d [Hx Hd]%get_inv. destruct (lookup_lt_is_Some_2 paths (Z.to_nat x)) as [p Hp].
    { rewrite (to_len _ _ _ Ht). by eapply lookup_lt_Some. }
    destruct (to_mode _ _ _ Ht _ d p Hd Hp) as [->|[[_ ->]|(zi & zf & Hz & Hn & Hm & Hdir)]]; [by left|by left|].
    unfold type_of. destruct (is_dir d) eqn:Hk.
    + pose proof (sa_mode _ Ha zi zf _ Hz Hm) as Hs. by rewrite Hdir in Hs.
    + unfold is_dir in Hk. destruct (data d) as [|zj] eqn:Hdat; [done|].
      destruct (to_file _ _ _ Ht _ d zj p Hd Hdat Hp) as (zf' & Hz' & Hf' & Hn' & _).
      pose proof (sa_mode _ Ha zi zf _ Hz Hm) as Hs. by rewrite (sa_kind _ Ha zi zj zf zf' p), Hf' in Hs.
  - intros x d es [Hx Hd]%get_inv Hes.
    assert (∀ n, n ∈ (map_to_list es).*1 -> n ∈ components archive) as Hin.
    { intros n ([n' e] & -> & Hne%elem_of_map_to_list)%list_elem_of_fmap.
      destruct (to_entry _ _ _ Ht _ d es n' e Hd Hes Hne) as (d' & p & _ & _ & H1 & _ & _ & Hp).
      destruct (to_justified _ _ _ Ht (Z.to_nat (de_inode e)) (p ++ [n'])) as (zi & zf & q & Hz & Hq); [lia|done|].
      eapply components_elem; [done|done|]. set_solver. }
    split.
    + rewrite <- length_map_to_list, <- (length_fmap fst). pose proof (sa_count _ Ha).
      assert (length (map_to_list es).*1 <= length (components archive))%nat; [|lia].
      apply submseteq_length, NoDup_submseteq; [apply NoDup_fst_map_to_list|done].
    + apply Forall_forall. intros [n e] Hne. apply (sa_names _ Ha n), Hin.
      apply list_elem_of_fmap. by exists (n, e).
Qed.

Section Serves.
Context `{Profile} `{ZipEnvOk} (read_size dir_size : Z) (consume : list DirEntry -> list DirEntry).
Context (Hread : 0 < read_size <= u32_MAX) (Hdir : 0 < dir_size <= u32_MAX).
Context (Hpre : ∀ l, consume l `prefix_of` l) (Hprog : ∀ l, l <> [] -> consume l <> []).
Context (archive : ZipArchive) (paths : list (list string)) (fs : ZipFuse).
Context (Ht : table_of archive (inode_table fs) paths) (Hz : zip_archive fs = archive) (Hsane : sane (inode_table fs)).
#[local] Abbreviation t := (inode_table fs).

Lemma resolved_path p x : resolve t ROOT p = Some x -> 1 <= x ∧ paths !! Z.to_nat x = Some p.
Proof.
  intros Hr. change ROOT with (Z.of_nat 1) in Hr.
  destruct (resolve_path archive t paths 1 [] p x Ht (le_n 1) (to_root _ _ _ Ht) Hr) as (j & -> & Hj & Hp).
  rewrite Nat2Z.id. split; [lia|done].
Qed.

Lemma resolved_lookup p x : resolve t ROOT p = Some x -> lookup_path fs ROOT p = Ok x.
Proof.
  intros Hr. destruct (lookup_resolve archive fs paths ROOT p Ht) as [Hl _]; [|by rewrite Hr in Hl].
  intros y d es Hy Hes. pose proof (proj1 (sane_dir _ Hsane y d es Hy Hes)). lia.
Qed.

Lemma resolved_stat p x d :
  resolve t ROOT p = Some x -> get t x = Some d ->
  ∃ st, metadata p fs = (Ok st, fs) ∧ is_file st = negb (is_dir d) ∧ metadata_is_dir st = is_dir d ∧
    st_size st = Z.min (ZipInode.size d) i64_MAX.
Proof.
  intros Hr Hd. unfold metadata, self_. rewrite M_bind_eq.
  erewrite M_bind_lift by exact (resolved_lookup p x Hr). unfold getattr, stat_from, find_inode.
  rewrite Hd. cbn [ok_or]. rewrite bind_Ok.
  assert (∃ n, match get_directory d with
               | Some directory => add_u64 (E := io_error) 2 (Z.of_nat (base.size directory))
               | None => Ok 1 end = Ok n) as [n ->].
  { unfold get_directory. destruct (data d) as [es|] eqn:Hes; [|by eexists].
    pose proof (proj1 (sane_dir _ Hsane x d es Hd Hes)). rewrite add_u64_ok by lia. by eexists. }
  rewrite !bind_Ok. erewrite M_bind_lift by reflexivity. cbn [mret M_ret]. eexists. split; [reflexivity|].
  unfold is_file, metadata_is_dir. cbn [st_mode st_size]. rewrite Z.land_lor_distr_l.
  pose proof (sane_mode _ Hsane x d Hd) as Hm. unfold type_of in Hm.
  split_and!; try (by destruct (is_dir d), Hm as [-> | ->]).
  destruct (Z.leb_spec (ZipInode.size d) i64_MAX); lia.
Qed.

(** *** Files *)
Definition with_file (x : Z) (content : bytes) : ZipFuse :=
  {| zip_archive := zip_archive fs; inode_table := t;
     open_files := <[x := {| open_count := 1; buf := content |}]> (open_files fs); open_dirs := open_dirs fs |}.

Lemma open_file x d zi zf content :
  open_files fs !! x = None -> get t x = Some d -> data d = File zi -> archive !! zi = Some (Ok zf) ->
  ZipInode.size d <= i64_MAX -> z_read_to_end zf = Ok content ->
  open x 0 fs = (Ok (Some x, 0), with_file x content).
Proof.
  intros Hx Hd Hzi Hzf Hsz Hc. unfold open, self_. rewrite M_bind_eq, Hx, M_bind_eq.
  unfold find_inode. rewrite Hd. erewrite M_bind_lift by done.
  unfold get_zip_index. rewrite Hzi. erewrite M_bind_lift by done. unfold by_index. rewrite Hz, Hzf.
  erewrite M_bind_lift by done. unfold with_capacity. rewrite (proj2 (Z.leb_le _ _) Hsz).
  erewrite M_bind_lift by done. by erewrite M_bind_lift by exact Hc.
Qed.
Lemma release_file x content :
  open_files fs !! x = None -> release x 0 x false false None (with_file x content) = (Ok (), fs).
Proof.
  intros Hx. rewrite release_spec. unfold with_file. cbn [open_files]. rewrite lookup_insert_eq. cbn.
  unfold set_open_files. cbn [zip_archive inode_table open_files open_dirs].
  rewrite delete_insert_id by done. by destruct fs.
Qed.

Lemma read_request_file x content k :
  len content <= i64_MAX -> (k <= length content)%nat ->
  read_request read_size x x (Z.of_nat k) (with_file x content) =
    (Ok (take (Z.to_nat read_size) (drop k content)), with_file x content).
Proof.
  intros Hmax Hk. pose proof Hread as Hsz. unfold i64_MAX, u32_MAX in Hmax, Hsz.
  unfold read_request, self_. rewrite M_bind_eq.
  rewrite (read_spec (with_file x content) x x {| open_count := 1; buf := content |} read_size);
    [|by apply lookup_insert_eq|done|cbn [buf]; lia..].
  cbn [buf]. rewrite M_bind_eq. cbn [lift]. rewrite app_nil_l.
  enough (subrange content (Z.of_nat k) ((Z.of_nat k + read_size) `min` len content) =
    take (Z.to_nat read_size) (drop k content)) as -> by done.
  unfold subrange. rewrite Nat2Z.id. pose proof (length_drop content k).
  destruct (decide (Z.of_nat k + read_size <= len content)); [f_equal; lia|].
  rewrite !take_ge by lia. done.
Qed.

Lemma read_to_end_file x content fuel k :
  len content <= i64_MAX -> (k <= length content < fuel + k)%nat ->
  read_to_end read_size fuel x x (take k content) (with_file x content) = (Ok content, with_file x content).
Proof.
  intros Hmax. revert k. induction fuel as [|fuel IH]; intros k Hk; [lia|]. cbn [read_to_end].
  rewrite length_take, Nat.min_l by lia. erewrite M_bind_Ok by (apply read_request_file; [done|lia]).
  set (out := take (Z.to_nat read_size) (drop k content)).
  assert (take k content ++ out = take (k + length out) content ∧
    length out = Z.to_nat read_size `min` (length content - k))%nat as [Happ Hout].
  { unfold out. rewrite length_take, length_drop. split; [|done].
    rewrite <- take_take_drop. f_equal. by rewrite <- length_drop, <- take_take, firstn_all. }
  destruct out as [|b out'] eqn:Eout; [|rewrite <- Eout, Happ in *; apply IH; rewrite Eout in *; simpl in *; lia].
  simpl in Hout. rewrite take_ge by lia. done.
Qed.

Lemma served_file p x d zi :
  resolve t ROOT p = Some x -> get t x = Some d -> data d = File zi -> open_files fs !! x = None ->
  ∃ zf, archive !! zi = Some (Ok zf) ∧ z_is_file zf = true ∧ z_enclosed_name zf = Some p ∧
    ∀ content fuel, z_read_to_end zf = Ok content -> z_size zf = len content -> len content <= i64_MAX ->
      (length content < fuel)%nat -> check_file read_size fuel p content fs = (Ok (), fs).
Proof.
  intros Hr Hd Hzi Hx. destruct (resolved_path p x Hr) as [_ Hp].
  pose proof (get_inv _ _ _ Hd) as [_ Hd'].
  destruct (to_file _ _ _ Ht _ d zi p Hd' Hzi Hp) as (zf & Hzf & Hf & Hn & Hs).
  exists zf. split_and!; [done..|]. intros content fuel Hc Hsz Hmax Hfuel.
  destruct (resolved_stat p x d Hr Hd) as (st & Hst & Hisf & _ & Hstsz).
  assert (is_dir d = false) as Hnd by (unfold is_dir; by rewrite Hzi).
  unfold check_file, expectM. do 2 (erewrite M_bind_Ok by (rewrite Hst; reflexivity)).
  rewrite Hisf, Hnd. erewrite M_bind_lift by done.
  rewrite Hstsz, Hs, Hsz, Z.min_l, Z.eqb_refl by done. erewrite M_bind_lift by done.
  assert (fs_read read_size fuel p fs = (Ok content, fs)) as Hread'.
  { unfold fs_read, self_. rewrite M_bind_eq.
    erewrite M_bind_lift by exact (resolved_lookup p x Hr).
    erewrite M_bind_Ok by (eapply open_file; try done; lia). cbn [default].
    erewrite M_bind_Ok by (apply (read_to_end_file x content fuel 0); [done|lia]).
    by erewrite M_bind_Ok by (by apply release_file). }
  erewrite M_bind_Ok by (rewrite Hread'; reflexivity). by rewrite bool_decide_true.
Qed.

(** *** Directories *)
Context (Hgood : good_archive archive).

Definition with_dir (x : Z) (entries : list (string * DirectoryEntry)) : ZipFuse :=
  {| zip_archive := zip_archive fs; inode_table := t; open_files := open_files fs;
     open_dirs := <[x := {| open_count := 1; buf := entries |}]> (open_dirs fs) |}.

(** The child of a directory, with the kind that the entry records. *)
Lemma child p x d es n e :
  resolve t ROOT p = Some x -> get t x = Some d -> data d = Directory es -> es !! n = Some e ->
  resolve t ROOT (p ++ [n]) = Some (de_inode e) ∧
  (∃ d', get t (de_inode e) = Some d' ∧ de_kind e = kind_of d') ∧ no_char (Ascii.ascii_of_nat 0) n = true.
Proof.
  intros Hr Hd Hes He. destruct (resolved_path p x Hr) as [_ Hp].
  pose proof (get_inv _ _ _ Hd) as [Hx Hd'].
  destruct (to_entry _ _ _ Ht _ d es n e Hd' Hes He) as (d' & q & Hd1 & _ & Hy & Hk & Hq & Hpn).
  assert (q = p) as -> by congruence. split_and!.
  - rewrite resolve_app, Hr. cbn. rewrite Hd. cbn. unfold get_directory. rewrite Hes. cbn. by rewrite He.
  - exists d'. split; [|done]. by rewrite <- (Z2Nat.id (de_inode e)), get_nat by lia.
  - destruct (to_justified _ _ _ Ht (Z.to_nat (de_inode e)) (p ++ [n])) as (zi & zf & q & Hzf & Hname); [lia|done|].
    destruct (ga_entries _ Hgood zi _ Hzf) as (zf' & names & [= <-] & Hname' & Hall).
    rewrite Hname in Hname'. injection Hname' as <-. rewrite <- app_assoc, Forall_app in Hall.
    destruct Hall as [_ Hall]. apply Forall_cons in Hall as [[_ Hnul] _]. exact Hnul.
Qed.

Lemma try_map_good (l : list (string * DirectoryEntry)) :
  Forall (λ x, no_char (Ascii.ascii_of_nat 0) x.1 = true) l ->
  try_map (E := io_error) (λ '(name, dir_entry), name ← cstring_new name; Ok (name, dir_entry)) l = Ok l.
Proof.
  induction 1 as [|[n e] l Hn _ IH]; [done|]. cbn [try_map fst] in *.
  assert (cstring_new (E := io_error) n = Ok n) as -> by (unfold cstring_new; by rewrite Hn).
  by rewrite !bind_Ok, IH.
Qed.

Lemma open_dir p x d es :
  resolve t ROOT p = Some x -> get t x = Some d -> data d = Directory es -> open_dirs fs !! x = None ->
  opendir x 0 fs = (Ok (Some x, CACHE_DIR), with_dir x (hash_iter es)).
Proof.
  intros Hr Hd Hes Hx. unfold opendir, self_. rewrite M_bind_eq, Hx, M_bind_eq.
  unfold find_inode. rewrite Hd. erewrite M_bind_lift by done. unfold get_directory. rewrite Hes.
  erewrite M_bind_lift by done. erewrite M_bind_lift; [reflexivity|]. apply try_map_good.
  rewrite hash_iter_perm. apply Forall_forall. intros [n e] Hin. apply elem_of_map_to_list in Hin.
  by destruct (child p x d es n e Hr Hd Hes Hin) as (_ & _ & Hn).
Qed.
Lemma release_dir x entries :
  open_dirs fs !! x = None -> releasedir x 0 x (with_dir x entries) = (Ok (), fs).
Proof.
  intros Hx. unfold releasedir, self_. rewrite M_bind_eq. unfold with_dir. cbn [open_dirs].
  rewrite lookup_insert_eq. erewrite M_bind_lift by reflexivity. cbn. unfold set_open_dirs.
  cbn [zip_archive inode_table open_files open_dirs]. rewrite delete_insert_id by done. by destruct fs.
Qed.

Lemma path_is_dir_ok p x d :
  resolve t ROOT p = Some x -> get t x = Some d -> path_is_dir p fs = (Ok (is_dir d), fs).
Proof.
  intros Hr Hd. destruct (resolved_stat p x d Hr Hd) as (st & Hst & _ & <- & _).
  unfold path_is_dir, tryM. by rewrite M_bind_eq, Hst.
Qed.

Lemma sort_entries_ok p x d es l files dirs :
  resolve t ROOT p = Some x -> get t x = Some d -> data d = Directory es ->
  Forall (λ e, is_Some (es !! d_name e)) l ->
  ∃ files' dirs', sort_entries p l files dirs fs = (Ok (files', dirs'), fs) ∧
    (∀ n, n ∈ files' <-> n ∈ files ∨ n ∈ map d_name l ∧ ∃ e, es !! n = Some e ∧ de_kind e = KFile) ∧
    (∀ n, n ∈ dirs' <-> n ∈ dirs ∨ n ∈ map d_name l ∧ ∃ e, es !! n = Some e ∧ de_kind e = KDirectory).
Proof.
  intros Hr Hd Hes Hl. revert files dirs.
  induction Hl as [|de l [e He] _ IH]; intros files dirs.
  { exists files, dirs. split; [done|]. cbn [map]. split; intros n; rewrite elem_of_nil; tauto. }
  destruct (child p x d es _ e Hr Hd Hes He) as (Hr' & (d' & Hd' & Hk) & _).
  cbn [sort_entries]. erewrite M_bind_Ok by exact (path_is_dir_ok _ _ d' Hr' Hd').
  unfold kind_of in Hk. destruct (is_dir d') eqn:Hkind.
  - destruct (IH files ({[d_name de]} ∪ dirs)) as (f' & g' & -> & Hf & Hg).
    exists f', g'. split; [done|]. cbn [map]. split; intros n.
    + rewrite Hf, elem_of_cons. apply other_kind. intros -> (e' & He' & Hk'). congruence.
    + rewrite Hg, elem_of_union, elem_of_singleton, elem_of_cons. apply this_kind. intros ->. by exists e.
  - destruct (IH ({[d_name de]} ∪ files) dirs) as (f' & g' & -> & Hf & Hg).
    exists f', g'. split; [done|]. cbn [map]. split; intros n.
    + rewrite Hf, elem_of_union, elem_of_singleton, elem_of_cons. apply this_kind. intros ->. by exists e.
    + rewrite Hg, elem_of_cons. apply other_kind. intros -> (e' & He' & Hk'). congruence.
Qed.

Lemma read_dir_ok p x d es fuel :
  resolve t ROOT p = Some x -> get t x = Some d -> data d = Directory es -> open_dirs fs !! x = None ->
  (base.size es < fuel)%nat ->
  read_dir dir_size consume fuel p fs = (Ok (entries_from 0 (hash_iter es)), fs).
Proof.
  intros Hr Hd Hes Hx Hfuel. pose proof (hash_iter_perm es) as Hperm.
  destruct (sane_dir _ Hsane x d es Hd Hes) as [Hsz Hnames].
  assert (length (hash_iter es) = base.size es) as Hlen by (by rewrite Hperm, length_map_to_list).
  unfold read_dir, self_. rewrite M_bind_eq. erewrite M_bind_lift by exact (resolved_lookup p x Hr).
  erewrite M_bind_Ok by (by eapply open_dir). cbn [default]. rewrite M_bind_eq.
  erewrite M_bind_lift; [by erewrite M_bind_Ok by (by apply release_dir)|].
  rewrite (list_directory_spec (with_dir x (hash_iter es)) x {| open_count := 1; buf := hash_iter es |});
    cbn [open_count buf]; [by rewrite drop_0|by apply lookup_insert_eq|done|by rewrite Hperm|lia|done|done|done|lia|lia].
Qed.

Lemma listed_names es n (P : DirectoryEntry -> Prop) :
  n ∈ (∅ : gset string) ∨ n ∈ map d_name (entries_from 0 (hash_iter es)) ∧ (∃ e, es !! n = Some e ∧ P e) <->
  ∃ e, es !! n = Some e ∧ P e.
Proof.
  rewrite names_from, hash_iter_perm. split; [intros [[]%not_elem_of_empty|[_ ?]]; done|].
  intros (e & He & HP). right. split; [|by exists e].
  apply list_elem_of_fmap. exists (n, e). by rewrite elem_of_map_to_list.
Qed.

Lemma served_dir p x d es fuel files dirs :
  resolve t ROOT p = Some x -> get t x = Some d -> data d = Directory es -> open_dirs fs !! x = None ->
  (base.size es < fuel)%nat ->
  (∀ n, n ∈ files <-> ∃ e, es !! n = Some e ∧ de_kind e = KFile) ->
  (∀ n, n ∈ dirs <-> ∃ e, es !! n = Some e ∧ de_kind e = KDirectory) ->
  check_dir dir_size consume fuel p files dirs fs = (Ok (), fs).
Proof.
  intros Hr Hd Hes Hx Hfuel Hfiles Hdirs.
  destruct (resolved_stat p x d Hr Hd) as (st & Hst & _ & Hisd & _).
  assert (is_dir d = true) as Hdd by (unfold is_dir; by rewrite Hes).
  unfold check_dir, expectM. do 2 (erewrite M_bind_Ok by (rewrite Hst; reflexivity)).
  rewrite Hisd, Hdd. erewrite M_bind_lift by done.
  erewrite M_bind_Ok by (erewrite read_dir_ok by done; reflexivity).
  destruct (sort_entries_ok p x d es (entries_from 0 (hash_iter es)) ∅ ∅ Hr Hd Hes) as (f' & g' & Hs & Hf & Hg).
  { apply Forall_map with (P := λ n, is_Some (es !! n)). change (d_name <$> ?l) with (map d_name l).
    rewrite names_from, hash_iter_perm. apply Forall_forall. intros n Hn.
    apply list_elem_of_fmap in Hn as ([n' e'] & -> & Hin). apply elem_of_map_to_list in Hin. by exists e'. }
  erewrite M_bind_Ok by exact Hs. cbv beta iota.
  assert (list_to_set files = f') as Heqf
    by (apply set_eq; intros n; rewrite elem_of_list_to_set, Hfiles, Hf; by rewrite listed_names).
  assert (list_to_set dirs = g') as Heqd
    by (apply set_eq; intros n; rewrite elem_of_list_to_set, Hdirs, Hg; by rewrite listed_names).
  rewrite !bool_decide_true by done. done.
Qed.
End Serves.

(** C15: In every state that requests lead a mounted archive to, a program sees
    exactly the archive: for every path of the tree that is a file, not open at
    the moment, the check of the tests passes with the content of its entry (it
    exists, is a regular file of that length, and reading it to its end, with
    whatever read size, gives the content); for every directory, not open at the
    moment, it passes with the names of its files and of its directories; and
    both leave the state of the file system as it was. *)
Theorem mounted_archive_serves `{Profile} `{ZipEnvOk} archive fs0 ops read_size dir_size consume :
  new archive = Ok fs0 -> good_archive archive -> sane_archive archive ->
  0 < read_size <= u32_MAX -> 0 < dir_size <= u32_MAX ->
  (∀ l, consume l `prefix_of` l) -> (∀ l, l <> [] -> consume l <> []) ->
  let fs := run ops fs0 in
  ∀ p x d, resolve (inode_table fs0) ROOT p = Some x -> get (inode_table fs0) x = Some d ->
  match data d with
  | File zi =>
      open_files fs !! x = None ->
      ∃ zf, archive !! zi = Some (Ok zf) ∧ z_is_file zf = true ∧ z_enclosed_name zf = Some p ∧
        ∀ content fuel, z_read_to_end zf = Ok content -> z_size zf = len content -> len content <= i64_MAX ->
          (length content < fuel)%nat -> check_file read_size fuel p content fs = (Ok (), fs)
  | Directory es =>
      open_dirs fs !! x = None ->
      ∀ fuel files dirs, (base.size es < fuel)%nat ->
        (∀ n, n ∈ files <-> ∃ e, es !! n = Some e ∧ de_kind e = KFile) ->
        (∀ n, n ∈ dirs <-> ∃ e, es !! n = Some e ∧ de_kind e = KDirectory) ->
        check_dir dir_size consume fuel p files dirs fs = (Ok (), fs)
  end.
Proof.
  intros Hnew Hgood Hsane Hread Hdir Hpre Hprog fs p x d Hr Hd.
  destruct (run_same ops fs0) as [Ha Ht]. fold fs in Ha, Ht. rewrite <- Ht in Hr, Hd.
  unfold new in Hnew. apply bind_inv in Hnew as (t & Hz & [= <-]). cbn [zip_archive inode_table] in Ha, Ht.
  destruct (from_zip_table_of archive t Hz) as (paths & Htab & _). rewrite <- Ht in Htab.
  apply (table_sane _ _ _ Htab) in Hsane. destruct (data d) as [es|zi] eqn:Hdata.
  - intros Hx fuel files dirs. by eapply served_dir.
  - intros Hx. by eapply served_file.
Qed.

(** ** The tests of main.rs

    With the library of ZipTests.v, requests of the sizes that zipfuse asks
    for, and a kernel that takes every entry it is given. *)
Module MountTests.
#[local] Instance test_profile : Profile := debug_profile.
#[local] Instance test_env : ZipEnv := ZipFuse.Tests.test_env.
#[local] Existing Instance plain_zip.
Definition page : Z := 4096.
Definition check_file := check_file MAX_READ.
Definition check_dir := check_dir page id 20.
Definition both (a b : M ZipFuse Empty_set unit) : M ZipFuse Empty_set unit := _ ← a; b.
#[local] Infix ";;;" := both (at level 60, right associativity).
#[local] Open Scope string_scope.

Definition empty : outcome Empty_set unit := run_test [] (check_dir [] [] []).

Definition single_file : outcome Empty_set unit :=
  run_test [StartFile "foo"; WriteAll ten_digits]
    (check_dir [] ["foo"] [] ;;; check_file 20 ["foo"] ten_digits).

Definition single_dir : outcome Empty_set unit :=
  run_test [AddDirectory "dir"] (check_dir [] [] ["dir"] ;;; check_dir ["dir"] [] []).

Definition complex_hierarchy : outcome Empty_set unit :=
  run_test [AddDirectory "a/b1"; StartFile "a/b2/c1"; StartFile "a/b2/c2/d1"; StartFile "a/b2/c2/d2";
            StartFile "a/b2/c2/d3"; StartFile "x/y1"; StartFile "x/y2"; AddDirectory "x/y3";
            StartFile "foo"; StartFile "bar"]
    (check_dir [] ["foo"; "bar"] ["a"; "x"] ;;;
     check_dir ["a"] [] ["b1"; "b2"] ;;;
     check_dir ["a"; "b1"] [] [] ;;;
     check_dir ["a"; "b2"] ["c1"] ["c2"] ;;;
     check_dir ["a"; "b2"; "c2"] ["d1"; "d2"; "d3"] [] ;;;
     check_dir ["x"] ["y1"; "y2"] ["y3"] ;;;
     check_dir ["x"; "y3"] [] [] ;;;
     check_file 1 ["a"; "b2"; "c1"] [] ;;;
     check_file 1 ["a"; "b2"; "c2"; "d1"] [] ;;;
     check_file 1 ["a"; "b2"; "c2"; "d2"] [] ;;;
     check_file 1 ["a"; "b2"; "c2"; "d3"] [] ;;;
     check_file 1 ["x"; "y1"] [] ;;;
     check_file 1 ["x"; "y2"] [] ;;;
     check_file 1 ["foo"] [] ;;;
     check_file 1 ["bar"] []).

(** The test writes [vec![10; 2 << 20]]. *)
Definition large_file_with (data : bytes) : outcome Empty_set unit :=
  run_test [StartFile "foo"; WriteAll data] (check_file (S (length data)) ["foo"] data).
Definition large_file : outcome Empty_set unit := large_file_with (replicate (Z.to_nat (Z.shiftl 2 20)) 10).

Lemma mount_tests_pass :
  empty = Ok () ∧ single_file = Ok () ∧ single_dir = Ok () ∧ complex_hierarchy = Ok ().
Proof. split_and!; vm_compute; reflexivity. Qed.

(** An archive of one file, of any content, and its file system. *)
Definition one_file (data : bytes) : ZipArchive :=
  [Ok (plain_file {| w_path := ["foo"]; w_is_file := true; w_content := data |})].
Definition mounted (data : bytes) : ZipFuse := {|
  zip_archive := one_file data;
  inode_table := {| table := [new_dir 0;
    {| size := 0; mode := 0; data := Directory {["foo" := {| de_inode := 2; de_kind := KFile |}]} |};
    {| size := len data; mode := 0; data := File 0 |}] |};
  open_files := ∅; open_dirs := ∅ |}.
Lemma mounted_new data : new (one_file data) = Ok (mounted data).
Proof. reflexivity. Qed.
Lemma mounted_good data : good_archive (one_file data).
Proof.
  split.
  - intros [|i] r Hi; [|done]. injection Hi as <-. eexists _, _. split_and!; [done..|]. repeat constructor; discriminate.
  - intros [|i] [|j] zf zf' p n q Hi _ Hp Hj; try done. injection Hi as <-. injection Hj as <-.
    injection Hp as <-. discriminate.
Qed.
Lemma mounted_sane data : sane_archive (one_file data).
Proof.
  split.
  - by intros [|zi] zf m [= <-].
  - intros [|zi] [|zj] zf zf' p [= <-] [= <-]; done.
  - by intros n ->%list_elem_of_singleton.
  - done.
Qed.

Lemma large_file_any data : len data <= i64_MAX -> large_file_with data = Ok ().
Proof.
  intros Hmax. unfold large_file_with, run_test.
  change (zip ← finish_and_open [StartFile "foo"; WriteAll data]; new zip) with (new (one_file data)).
  rewrite mounted_new. destruct (from_zip_table_of (one_file data) (inode_table (mounted data))) as (paths & Ht & _);
    [reflexivity|].
  destruct (served_file MAX_READ ltac:(done) (one_file data) paths (mounted data) Ht ltac:(done)
    (table_sane _ _ _ Ht (mounted_sane data))
    ["foo"] 2 {| size := len data; mode := 0; data := File 0 |} 0) as (zf & Hzf & _ & _ & Hserve); [done..|].
  injection Hzf as <-. unfold check_file. by rewrite Hserve by (done || lia).
Qed.
Lemma large_file_passes : large_file = Ok ().
Proof. apply large_file_any. rewrite length_replicate, Z2Nat.id by done. done. Qed.

(** A directory of any files. *)
Section Directory.
Context (names : list string) (Hne : names <> []).
Context (Hslash : Forall (λ n, no_char SLASH n = true) names) (Hnames : Forall good_name names).
Context (Hlong : Forall (λ n, Z.of_nat (String.length n) < 2 ^ 32) names) (Hmany : len names < 2 ^ 61).

Definition in_dir (n : string) : zip_file := plain_file {| w_path := ["dir"; n]; w_is_file := true; w_content := [] |}.
Definition flat : ZipArchive := Ok <$> (in_dir <$> names).

Lemma flat_written : finish_and_open ((λ n, StartFile (String.append "dir/" n)) <$> names) = Ok flat.
Proof.
  assert (∀ acc, foldl write_op acc ((λ n, StartFile (String.append "dir/" n)) <$> names) =
    (rev ((λ n, {| w_path := ["dir"; n]; w_is_file := true; w_content := [] |}) <$> names) ++ acc)%list) as Hfold.
  { clear -Hslash. revert Hslash. generalize names. induction 1 as [|n l Hn _ IH]; intros acc; [done|].
    cbn [fmap list_fmap foldl rev]. rewrite IH, <- app_assoc. f_equal. cbn [write_op app]. f_equal. f_equal.
    change (String.append "dir/" n) with (join SLASH ["dir"; n]). apply split_join; [done|]. repeat constructor; done. }
  unfold finish_and_open, plain_zip, entries_of. rewrite Hfold, app_nil_r, rev_involutive, <- !list_fmap_compose.
  unfold flat. by rewrite <- list_fmap_compose.
Qed.
Lemma flat_lookup zi r : flat !! zi = Some r -> ∃ n, r = Ok (in_dir n) ∧ n ∈ names.
Proof.
  intros (zf & -> & (n & -> & Hn)%list_elem_of_fmap)%list_elem_of_lookup_2%list_elem_of_fmap. by exists n.
Qed.
Lemma flat_good : good_archive flat.
Proof.
  split.
  - intros zi r (n & -> & Hn)%flat_lookup. eexists _, ["dir"; n]. split_and!; [done|done|].
    rewrite Forall_forall in Hnames. repeat constructor; [discriminate|by apply Hnames..].
  - intros i j zf zf' p n q (a & [= ->] & _)%flat_lookup _ [= <-] (b & [= ->] & _)%flat_lookup. discriminate.
Qed.
Lemma flat_components : components flat = mjoin ((λ n, ["dir"; n]) <$> names).
Proof. unfold components, flat. f_equal. clear. induction names as [|n l IH]; [done|]. cbn. by rewrite IH. Qed.
Lemma flat_sane : sane_archive flat.
Proof.
  split.
  - by intros zi zf m (n & [= ->] & _)%flat_lookup.
  - by intros zi zj zf zf' p (n & [= ->] & _)%flat_lookup (m & [= ->] & _)%flat_lookup.
  - intros n. rewrite flat_components. intros (l & Hn & (m & -> & Hm)%list_elem_of_fmap)%list_elem_of_join.
    rewrite Forall_forall in Hlong. apply elem_of_cons in Hn as [-> | ->%list_elem_of_singleton]; [done|by apply Hlong].
  - rewrite flat_components. assert (length (mjoin ((λ n, ["dir"; n]) <$> names)) = 2 * length names)%nat as ->; [|lia].
    clear. induction names as [|n l IH]; [done|]. etrans; [exact (f_equal (λ k, S (S k)) IH)|cbn [length]; lia].
Qed.

(** What the table holds: the directory, and in it a file per name. *)
Context (t : InodeTable) (paths : list (list string)) (Ht : table_of flat t paths).
Context (Hall : ∀ zf, Ok zf ∈ flat -> ∃ p x, z_enclosed_name zf = Some p ∧ resolve t ROOT p = Some x).
Lemma flat_resolves n : n ∈ names -> ∃ x, resolve t ROOT ["dir"; n] = Some x.
Proof.
  intros Hn. destruct (Hall (in_dir n)) as (p & x & [= <-] & Hx); [|by exists x].
  unfold flat. rewrite <- list_fmap_compose. by apply (list_elem_of_fmap_2 (Ok ∘ in_dir)).
Qed.
Lemma flat_dir :
  ∃ x d es, resolve t ROOT ["dir"] = Some x ∧ get t x = Some d ∧ data d = Directory es.
Proof.
  assert (∃ n, n ∈ names) as (n & [y Hy]%flat_resolves) by (clear -Hne; destruct names; [done|eexists; by left]).
  change ["dir"; n] with (["dir"] ++ [n])%list in Hy. rewrite resolve_app in Hy.
  destruct (resolve t ROOT ["dir"]) as [x|]; [|done]. cbn in Hy. destruct (get t x) as [d|] eqn:Hd; [|done]. cbn in Hy.
  unfold get_directory in Hy. destruct (data d) as [es|] eqn:Hes; [|done]. by exists x, d, es.
Qed.
Lemma flat_entries x d es n :
  resolve t ROOT ["dir"] = Some x -> get t x = Some d -> data d = Directory es ->
  (∀ e, es !! n = Some e -> n ∈ names ∧ de_kind e = KFile) ∧ (n ∈ names -> is_Some (es !! n)).
Proof.
  intros Hx Hd Hes. split.
  - intros e He. destruct (get_inv _ _ _ Hd) as [H1 Hdx].
    destruct (resolved_path _ _ {| zip_archive := flat; inode_table := t; open_files := ∅; open_dirs := ∅ |} Ht _ x Hx)
      as [_ Hp].
    destruct (to_entry _ _ _ Ht _ d es n e Hdx Hes He) as (d' & p & Hd' & _ & H2 & -> & Hp' & Hpn).
    assert (p = ["dir"]) as -> by congruence. cbn [app] in Hpn. split.
    + destruct (to_justified _ _ _ Ht (Z.to_nat (de_inode e)) _ ltac:(lia) Hpn) as (zi & zf & q & (m & [= ->] & Hm)%flat_lookup & [= -> _]). done.
    + unfold kind_of, is_dir. destruct (data d') as [es'|] eqn:Hes'; [|done].
      destruct (to_dir _ _ _ Ht (Z.to_nat (de_inode e)) d' es' _ ltac:(lia) Hd' Hes' Hpn)
        as (zi & zf & q & (m & [= ->] & Hm)%flat_lookup & [= _ <-] & Hq). by specialize (Hq eq_refl).
  - intros [y Hy]%flat_resolves. change ["dir"; n] with (["dir"] ++ [n])%list in Hy. rewrite resolve_app, Hx in Hy.
    cbn in Hy. rewrite Hd in Hy. cbn in Hy. unfold get_directory in Hy. rewrite Hes in Hy. cbn in Hy.
    by destruct (es !! n).
Qed.
End Directory.

(** The test mounts 1024 files whose names have a hundred digits; the kernel's
    buffer takes 32 entries, each a header of 24 bytes and the name, padded to
    128. *)
Definition zero_padded (width i : nat) : string :=
  let digits := pretty (N.of_nat i) in
  String.append (String.concat EmptyString (replicate (width - String.length digits) "0")) digits.
Definition NUM_FILES : nat := Z.to_nat (Z.shiftl 1 10).
Definition large_dir_with (names : list string) : outcome Empty_set unit :=
  run_test ((λ n, StartFile (String.append "dir/" n)) <$> names)
    (ZipClient.check_dir page (take 32) (S (length names)) ["dir"] names []).
Definition large_dir : outcome Empty_set unit := large_dir_with (zero_padded 100 <$> seq 0 NUM_FILES).

#[local] Existing Instance ZipFuse.Tests.test_env_ok.
Lemma large_dir_any names :
  names <> [] -> Forall (λ n, no_char SLASH n = true) names -> Forall good_name names ->
  Forall (λ n, Z.of_nat (String.length n) < 2 ^ 32) names -> len names < 2 ^ 61 -> large_dir_with names = Ok ().
Proof.
  intros Hne Hslash Hgood Hlong Hmany. unfold large_dir_with, run_test. rewrite flat_written by done.
  destruct (from_zip_ok _ (flat_good _ Hgood)) as [t Hz]. rewrite bind_Ok. unfold new. rewrite Hz, bind_Ok.
  destruct (from_zip_table_of _ _ Hz) as (paths & Ht & Hall).
  destruct (flat_dir _ Hne t Hall) as (x & d & es & Hx & Hd & Hes).
  pose proof (λ n, flat_entries names t paths Ht Hall x d es n Hx Hd Hes) as He.
  rewrite (served_dir MAX_READ page (take 32) ltac:(done) ltac:(done) (λ l, prefix_take l 32) ltac:(by intros [])
    (flat names) paths {| zip_archive := flat names; inode_table := t; open_files := ∅; open_dirs := ∅ |} Ht eq_refl
    (table_sane _ _ _ Ht (flat_sane _ Hlong Hmany)) (flat_good _ Hgood) ["dir"] x d es); try done.
  - rewrite <- length_map_to_list, <- (length_fmap fst).
    assert (length (map_to_list es).*1 <= length names)%nat; [|lia].
    apply submseteq_length, NoDup_submseteq; [apply NoDup_fst_map_to_list|].
    intros n ([n' e] & -> & Hin%elem_of_map_to_list)%list_elem_of_fmap. by apply (He n') in Hin as [? _].
  - intros n. destruct (He n) as [H1 H2]. split; [|intros (e & [Hn _]%H1 & _); done].
    intros [e Hn]%H2. exists e. split; [done|]. by apply H1.
  - intros n. split; [by intros ?%elem_of_nil|]. intros (e & [_ Hk]%(He n) & Hk'). congruence.
Qed.

Definition digits_only (n : string) : bool :=
  no_char SLASH n && no_char (Ascii.ascii_of_nat 46) n && no_char (Ascii.ascii_of_nat 0) n && (Z.of_nat (String.length n) <? 2 ^ 32)%Z.
Lemma padded_digits : forallb digits_only (zero_padded 100 <$> seq 0 NUM_FILES) = true.
Proof. vm_compute. reflexivity. Qed.
Lemma large_dir_passes : large_dir = Ok ().
Proof.
  unfold large_dir. pose proof padded_digits as Hd. rewrite forallb_forall in Hd.
  apply large_dir_any; [done|..|by rewrite length_fmap, length_seq];
    (apply Forall_forall; intros n Hn%list_elem_of_In; apply Hd in Hn; unfold digits_only in Hn;
     apply andb_prop in Hn as [[[Hs Hdot]%andb_prop Hz]%andb_prop Hl%Z.ltb_lt]; try done).
  split; [by intros ->|done].
Qed.

Lemma mounted_archive_serves_witness :
  let fs := run [OpOpen 2 0; OpOpendir 1 0; OpRelease 2 0 2; OpReleasedir 1 0 1] (mounted [1; 2; 3]) in
  ZipClient.check_file 2 4 ["foo"] [1; 2; 3] fs = (Ok (), fs) ∧
  ZipClient.check_dir page id 2 [] ["foo"] [] fs = (Ok (), fs).
Proof.
  pose proof (λ (p : list string) (x : Z) (d : InodeData), mounted_archive_serves (one_file [1; 2; 3]) (mounted [1; 2; 3])
    [OpOpen 2 0; OpOpendir 1 0; OpRelease 2 0 2; OpReleasedir 1 0 1] 2 page id (mounted_new _) (mounted_good _)
    (mounted_sane _) ltac:(done) ltac:(done) (λ l, reflexivity l) (λ l H, H) p x d) as Hserve.
  split.
  - destruct (Hserve ["foo"] 2 {| size := 3; mode := 0; data := File 0 |} eq_refl eq_refl) as (zf & Hzf & _ & _ & Hs).
    + vm_compute. reflexivity.
    + injection Hzf as <-. apply Hs; [reflexivity|reflexivity|done|simpl; lia].
  - apply (Hserve [] 1 {| size := 0; mode := 0; data := Directory {["foo" := {| de_inode := 2; de_kind := KFile |}]} |}
      eq_refl eq_refl).
    + vm_compute. reflexivity.
    + simpl. rewrite map_size_singleton. lia.
    + intros n. rewrite list_elem_of_singleton. split; [intros ->; by eexists|].
      by intros (e & [<- _]%lookup_singleton_Some & _).
    + intros n. split; [by intros ?%elem_of_nil|]. by intros (e & [_ <-]%lookup_singleton_Some & [=]).
Defined.
End MountTests.
