(* ===== verification/VmSync.v ===== *)
(** * vm/src/sync.rs: the flag that [vm run] waits on

    [AtomicFlag] is a [Mutex<bool>] with a [Condvar].  [wait] and [raise] are
    the sequences of operations of the source, run by any number of threads
    under every interleaving; the mutex and the condition variable are those
    of the standard library (waiting releases the mutex and parks the thread
    in one step, a woken thread locks again and tests its condition again,
    a parked thread may also wake for no reason).  The theorems: a wait
    returns only after a raise, no wake-up is lost, and every wait ends. *)

From S2P Require Import Prelude.

(** ** The operations *)
Inductive instr :=
| Lock | WaitWhileUnset | SetFlag | NotifyAll
| Unlock (** the guard is dropped *).

(** [wait_while(lock, |flag| !*flag)], and the guard it returns is dropped. *)
Definition wait : list instr := [Lock; WaitWhileUnset; Unlock].
Definition raise : list instr := [Lock; SetFlag; NotifyAll; Unlock].

(** Running or ready; parked in the condition variable; woken, to lock again. *)
Inductive status := Running | Parked | Woken.
Record thread := { code : list instr; at_ : status }.

(** The value behind the mutex and the thread that holds it; the threads that
    share the flag. *)
Record AtomicFlag := { flag : bool; owner : option nat }.
Definition AtomicFlag_default : AtomicFlag := {| flag := false; owner := None |}.
Record sys := { state : AtomicFlag; threads : list thread }.

Definition start (progs : list (list instr)) : sys :=
  {| state := AtomicFlag_default; threads := (λ p, {| code := p; at_ := Running |}) <$> progs |}.

Definition wake (t : thread) : thread :=
  match at_ t with Parked => {| code := code t; at_ := Woken |} | _ => t end.

(** One operation of thread [i]; [None] when it is blocked or has finished. *)
Definition exec (i : nat) (s : sys) : option sys :=
  t ← threads s !! i;
  let goto o f rest st ts :=
    Some {| state := {| flag := f; owner := o |}; threads := <[i := {| code := rest; at_ := st |}]> ts |} in
  match at_ t, code t with
  | Running, Lock :: rest =>
      match owner (state s) with
      | None => goto (Some i) (flag (state s)) rest Running (threads s)
      | Some _ => None
      end
  | Running, WaitWhileUnset :: rest =>
      if flag (state s) then goto (owner (state s)) true rest Running (threads s)
      else goto None false (code t) Parked (threads s)
  | Woken, WaitWhileUnset :: rest =>
      match owner (state s) with
      | None => goto (Some i) (flag (state s)) (code t) Running (threads s)
      | Some _ => None
      end
  | Running, SetFlag :: rest => goto (owner (state s)) true rest Running (threads s)
  | Running, NotifyAll :: rest => goto (owner (state s)) (flag (state s)) rest Running (wake <$> threads s)
  | Running, Unlock :: rest => goto None (flag (state s)) rest Running (threads s)
  | _, _ => None
  end.

(** What the scheduler does: a thread runs, or a parked one wakes spuriously. *)
Inductive action := Run (i : nat) | Spurious (i : nat).
Definition act (a : action) (s : sys) : option sys :=
  match a with
  | Run i => exec i s
  | Spurious i =>
      t ← threads s !! i;
      match at_ t with
      | Parked => Some {| state := state s; threads := <[i := wake t]> (threads s) |}
      | _ => None
      end
  end.
Fixpoint schedule (acts : list action) (s : sys) : option sys :=
  match acts with
  | [] => Some s
  | a :: acts' => s' ← act a s; schedule acts' s'
  end.
Fixpoint spurious (acts : list action) : nat :=
  match acts with
  | [] => 0
  | Run _ :: acts' => spurious acts'
  | Spurious _ :: acts' => S (spurious acts')
  end.

(** No thread can run. *)
Definition stuck (s : sys) : Prop := ∀ i, exec i s = None.
Definition finished (s : sys) : Prop := Forall (λ t, code t = []) (threads s).

(** ** The invariant *)

(** Where a thread of program [p] can be. *)
Inductive legal : list instr -> thread -> Prop :=
| w_start : legal wait {| code := wait; at_ := Running |}
| w_test st : legal wait {| code := [WaitWhileUnset; Unlock]; at_ := st |}
| w_unlock : legal wait {| code := [Unlock]; at_ := Running |}
| w_done : legal wait {| code := []; at_ := Running |}
| r_start : legal raise {| code := raise; at_ := Running |}
| r_set : legal raise {| code := [SetFlag; NotifyAll; Unlock]; at_ := Running |}
| r_notify : legal raise {| code := [NotifyAll; Unlock]; at_ := Running |}
| r_unlock : legal raise {| code := [Unlock]; at_ := Running |}
| r_done : legal raise {| code := []; at_ := Running |}.

(** Whether a thread is inside the critical section. *)
Definition holds (t : thread) : bool :=
  match at_ t, code t with
  | Running, [] | Running, Lock :: _ => false
  | Running, _ => true
  | _, _ => false
  end.
(** Whether a thread is past the store or the test of the flag. *)
Definition past (t : thread) : bool :=
  match code t with [] | [Unlock] | [NotifyAll; Unlock] => true | _ => false end.

Record inv (progs : list (list instr)) (s : sys) : Prop := {
  inv_legal : Forall2 legal progs (threads s);
  inv_holds i t : threads s !! i = Some t -> holds t = true <-> owner (state s) = Some i;
  inv_owner i : owner (state s) = Some i -> is_Some (threads s !! i);
  inv_past i t : threads s !! i = Some t -> past t = true -> flag (state s) = true;
  inv_woken i t : threads s !! i = Some t -> at_ t = Parked -> flag (state s) = true ->
    ∃ j tj, threads s !! j = Some tj ∧ code tj = [NotifyAll; Unlock]
}.

Section Invariant.
Context (progs : list (list instr)).

Lemma inv_start : Forall (λ p, p = wait ∨ p = raise) progs -> inv progs (start progs).
Proof.
  intros Hp. split; cbn.
  - apply Forall2_fmap_r, Forall_Forall2_diag. eapply Forall_impl; [exact Hp|].
    intros p [->| ->]; constructor.
  - intros i t Ht. rewrite list_lookup_fmap in Ht. apply fmap_Some in Ht as (p & Hi & ->).
    by apply (Forall_lookup_1 _ _ _ _ Hp) in Hi as [->| ->].
  - done.
  - intros i t Ht. rewrite list_lookup_fmap in Ht. apply fmap_Some in Ht as (p & Hi & ->).
    by apply (Forall_lookup_1 _ _ _ _ Hp) in Hi as [->| ->].
  - done.
Qed.

Lemma thread_legal s i t : inv progs s -> threads s !! i = Some t -> ∃ p, progs !! i = Some p ∧ legal p t.
Proof.
  intros Hinv Ht. destruct (Forall2_lookup_r _ _ _ _ _ (inv_legal _ _ Hinv) Ht) as (p & ? & ?). eauto.
Qed.
(** The mutex excludes: two threads in the critical section are the same. *)
Lemma holds_unique s i j ti tj :
  inv progs s -> threads s !! i = Some ti -> threads s !! j = Some tj -> holds ti = true -> holds tj = true -> i = j.
Proof.
  intros Hinv Hi Hj Hhi Hhj. apply (inv_holds _ _ Hinv i ti Hi) in Hhi. apply (inv_holds _ _ Hinv j tj Hj) in Hhj.
  congruence.
Qed.

(** A step of thread [i] from [t] to [t'] that leaves the other threads alone. *)
Lemma inv_set s i p t t' f o :
  inv progs s -> progs !! i = Some p -> threads s !! i = Some t -> legal p t' ->
  o = (if holds t' then Some i else if holds t then None else owner (state s)) ->
  (holds t' = true -> holds t = true ∨ owner (state s) = None) ->
  (flag (state s) = true -> f = true) -> (past t' = true -> f = true) -> (at_ t' = Parked -> f = false) ->
  (f = true -> flag (state s) = true ∧ code t <> [NotifyAll; Unlock] ∨ code t' = [NotifyAll; Unlock]) ->
  inv progs {| state := {| flag := f; owner := o |}; threads := <[i := t']> (threads s) |}.
Proof.
  intros Hinv Hp Ht Hl -> Hh Hf Hpast Hpark Hn. apply lookup_lt_Some in Ht as Hlt.
  assert (∀ j u, <[i := t']> (threads s) !! j = Some u -> j = i ∧ u = t' ∨ j <> i ∧ threads s !! j = Some u) as Hlk.
  { intros j u Hj. destruct (decide (j = i)) as [->|Hne]; [left|right; by rewrite list_lookup_insert_ne in Hj].
    rewrite list_lookup_insert_eq in Hj by done. split; congruence. }
  split; cbn [state threads flag owner].
  - replace progs with (<[i := p]> progs) by (by apply list_insert_id). apply Forall2_insert; [|done]. apply (inv_legal _ _ Hinv).
  - intros j u [[-> ->]|[Hne Hj]]%Hlk.
    + pose proof (inv_holds _ _ Hinv i t Ht). destruct (holds t'); [done|]. destruct (holds t); [split; congruence|]. done.
    + pose proof (inv_holds _ _ Hinv i t Ht) as Hi. pose proof (inv_holds _ _ Hinv j u Hj) as Hu.
      destruct (holds t') eqn:E'; [destruct (Hh eq_refl) as [Ht'|Ho]|destruct (holds t) eqn:Et]; rewrite Hu.
      * rewrite (proj1 Hi Ht'). split; congruence.
      * rewrite Ho. split; congruence.
      * rewrite (proj1 Hi eq_refl). split; congruence.
      * done.
  - intros j Hj. apply lookup_lt_is_Some. rewrite length_insert.
    destruct (holds t'); [by simplify_eq|]. destruct (holds t); [done|].
    by apply lookup_lt_is_Some, (inv_owner _ _ Hinv).
  - intros j u [[-> ->]|[Hne Hj]]%Hlk Hpu; [auto|]. by eapply Hf, (inv_past _ _ Hinv j).
  - intros j u [[-> ->]|[Hne Hj]]%Hlk Hpu Hft; [by rewrite Hpark in Hft|].
    destruct (Hn Hft) as [[Hflag Hc]|Hc].
    + destruct (inv_woken _ _ Hinv j u Hj Hpu Hflag) as (k & tk & Hk & Hck). exists k, tk. split; [|done].
      rewrite list_lookup_insert_ne; [done|]. intros ->. congruence.
    + exists i, t'. by rewrite list_lookup_insert_eq.
Qed.

(** [notify_all]: nobody stays parked. *)
Lemma inv_notify s i :
  inv progs s -> threads s !! i = Some {| code := [NotifyAll; Unlock]; at_ := Running |} ->
  inv progs {| state := state s; threads := <[i := {| code := [Unlock]; at_ := Running |}]> (wake <$> threads s) |}.
Proof.
  intros Hinv Ht. apply lookup_lt_Some in Ht as Hlt. destruct (thread_legal s i _ Hinv Ht) as (p & Hp & Hl).
  set (t' := {| code := [Unlock]; at_ := Running |}).
  assert (∀ j u, <[i := t']> (wake <$> threads s) !! j = Some u ->
    j = i ∧ u = t' ∨ j <> i ∧ ∃ u0, threads s !! j = Some u0 ∧ u = wake u0) as Hlk.
  { intros j u Hj. destruct (decide (j = i)) as [->|Hne]; [left|right].
    - rewrite list_lookup_insert_eq in Hj by (by rewrite length_fmap). split; congruence.
    - rewrite list_lookup_insert_ne, list_lookup_fmap in Hj by done. apply fmap_Some in Hj as (u0 & ? & ->). eauto. }
  assert (∀ u, holds (wake u) = holds u ∧ past (wake u) = past u ∧ at_ (wake u) <> Parked) as Hwake
    by (intros [c []]; by destruct c).
  split; cbn [state threads].
  - replace progs with (<[i := p]> progs) by (by apply list_insert_id). apply Forall2_insert.
    + apply Forall2_fmap_r. eapply Forall2_impl; [apply (inv_legal _ _ Hinv)|].
      intros q u Hq. destruct Hq as [|[]| | | | | | |]; constructor.
    + inversion Hl. constructor.
  - intros j u [[-> ->]|[Hne (u0 & Hj & ->)]]%Hlk.
    + exact (inv_holds _ _ Hinv i _ Ht).
    + destruct (Hwake u0) as [-> _]. by apply (inv_holds _ _ Hinv).
  - intros j Hj. apply lookup_lt_is_Some. rewrite length_insert, length_fmap.
    by apply lookup_lt_is_Some, (inv_owner _ _ Hinv).
  - intros j u [[-> ->]|[Hne (u0 & Hj & ->)]]%Hlk; [intros _; by eapply (inv_past _ _ Hinv i)|].
    destruct (Hwake u0) as (_ & -> & _). by apply (inv_past _ _ Hinv j).
  - intros j u [[-> ->]|[Hne (u0 & Hj & ->)]]%Hlk; [done|]. by destruct (Hwake u0) as (_ & _ & ?).
Qed.

Lemma inv_exec i s s' : inv progs s -> exec i s = Some s' -> inv progs s'.
Proof.
  intros Hinv Hs. unfold exec in Hs. destruct (threads s !! i) as [t|] eqn:Ht; [cbn in Hs|done].
  destruct (thread_legal s i t Hinv Ht) as (p & Hp & Hl).
  pose proof (inv_holds _ _ Hinv i t Ht) as Hh. pose proof (inv_past _ _ Hinv i t Ht) as Hpast.
  destruct Hl; cbn in Hs, Hh, Hpast; repeat case_match; simplify_eq.
  all: try (apply (inv_notify s i Hinv) in Ht; by destruct s as [[] ?]).
  all: try rewrite (proj1 Hh eq_refl).
  all: eapply (inv_set s i _ _ _ _ _ Hinv Hp Ht); [constructor|done|cbn; auto..].
  all: cbn in *; first [done|congruence].
Qed.
Lemma inv_act a s s' : inv progs s -> act a s = Some s' -> inv progs s'.
Proof.
  destruct a as [i|i]; [apply inv_exec|]. cbn [act]. intros Hinv Hs.
  destruct (threads s !! i) as [t|] eqn:Ht; [cbn in Hs|done]. case_match eqn:Hst; simplify_eq.
  destruct (thread_legal s i t Hinv Ht) as (p & Hp & Hl). destruct s as [[f o] ts]. cbn [state].
  pose proof (inv_holds _ _ Hinv i t Ht) as Hh.
  destruct Hl; cbn in Hst, Hh; simplify_eq.
  eapply (inv_set _ i _ _ _ _ _ Hinv Hp Ht); [constructor|done|done|done|done|done|].
  intros Hf. left. by split.
Qed.
Lemma inv_schedule acts s s' : inv progs s -> schedule acts s = Some s' -> inv progs s'.
Proof.
  revert s. induction acts as [|a acts IH]; intros s Hinv Hs; cbn [schedule] in Hs; [by simplify_eq|].
  apply bind_Some in Hs as (s1 & H1 & Hs). eapply IH; [|exact Hs]. by eapply inv_act.
Qed.

(** A state without a step: everything is done, unless nobody raises the flag. *)
Lemma stuck_finished s : inv progs s -> raise ∈ progs -> stuck s -> finished s.
Proof.
  intros Hinv Hr Hs.
  assert (owner (state s) = None) as Ho.
  { destruct (owner (state s)) as [j|] eqn:Ho; [|done]. exfalso.
    destruct (inv_owner _ _ Hinv j Ho) as [t Ht]. pose proof (Hs j) as Hj. unfold exec in Hj. rewrite Ht in Hj.
    pose proof (proj2 (inv_holds _ _ Hinv j t Ht) Ho) as Hh.
    destruct (thread_legal s j t Hinv Ht) as (p & _ & Hl).
    destruct Hl as [|[]| | | | | | |]; cbn in Hj, Hh; try done. by case_match. }
  assert (∀ i p t, progs !! i = Some p -> threads s !! i = Some t -> code t = [] ∨ at_ t = Parked ∧ p = wait) as Hall.
  { intros i p t Hp Ht. pose proof (Hs i) as Hi. unfold exec in Hi. rewrite Ht in Hi.
    pose proof (Forall2_lookup_lr _ _ _ _ _ _ (inv_legal _ _ Hinv) Hp Ht) as Hl.
    destruct Hl as [|[]| | | | | | |]; cbn in Hi; rewrite ?Ho in Hi; try done; [by case_match|by right|by left..]. }
  assert (flag (state s) = true) as Hf.
  { apply list_elem_of_lookup in Hr as [i Hi].
    destruct (Forall2_lookup_l _ _ _ _ _ (inv_legal _ _ Hinv) Hi) as (t & Ht & _).
    destruct (Hall i raise t Hi Ht) as [Hc|[_ Hw]]; [|done].
    apply (inv_past _ _ Hinv i t Ht). unfold past. by rewrite Hc. }
  apply Forall_lookup. intros i t Ht. destruct (thread_legal s i t Hinv Ht) as (p & Hp & _).
  destruct (Hall i p t Hp Ht) as [Hc|[Hpark _]]; [done|].
  destruct (inv_woken _ _ Hinv i t Ht Hpark Hf) as (j & tj & Hj & Hcj).
  destruct (thread_legal s j tj Hinv Hj) as (q & Hq & _). destruct (Hall j q tj Hq Hj) as [Hc|[Hpj ->]]; [congruence|].
  pose proof (Forall2_lookup_lr _ _ _ _ _ _ (inv_legal _ _ Hinv) Hq Hj) as Hl. inversion Hl; subst; done.
Qed.
End Invariant.

(** ** Termination *)

(** The steps a thread has left, without spurious wake-ups; a test of an
    unset flag may park, a test of a set one may not. *)
Definition work (f : bool) (t : thread) : nat :=
  match at_ t, code t with
  | Running, Lock :: WaitWhileUnset :: _ => 6
  | Running, WaitWhileUnset :: _ => if f then 2 else 5
  | Parked, _ => 4
  | Woken, _ => if f then 3 else 6
  | _, c => length c
  end.
Definition total (s : sys) : nat := sum_list (work (flag (state s)) <$> threads s).

Lemma work_le_6 p t f : legal p t -> (work f t <= 6)%nat.
Proof. intros [|[]| | | | | | |]; destruct f; cbn; lia. Qed.
Lemma work_flag p t : legal p t -> (work true t <= work false t)%nat.
Proof. intros [|[]| | | | | | |]; cbn; lia. Qed.
Lemma work_wake p t : legal p t -> (work true (wake t) <= work true t)%nat.
Proof. intros [|[]| | | | | | |]; cbn; lia. Qed.

Lemma sum_list_le {A} (g h : A -> nat) l : (∀ x, x ∈ l -> (g x <= h x)%nat) -> (sum_list (g <$> l) <= sum_list (h <$> l))%nat.
Proof.
  induction l as [|x l IH]; intros Hle; [done|]. cbn.
  pose proof (Hle x (list_elem_of_here x l)). assert (sum_list (g <$> l) <= sum_list (h <$> l))%nat; [|lia].
  apply IH. intros y Hy. by apply Hle, list_elem_of_further.
Qed.
(** Replacing one element changes the sum by the difference. *)
Lemma sum_list_insert {A} (g : A -> nat) l i x y :
  l !! i = Some x -> (sum_list (g <$> <[i := y]> l) + g x = sum_list (g <$> l) + g y)%nat.
Proof.
  revert i. induction l as [|z l IH]; intros [|i] Hi; cbn in *; simplify_eq; [lia|].
  rewrite <- !Nat.add_assoc. f_equal. by apply IH.
Qed.

Section Measure.
Context (progs : list (list instr)).

Lemma total_flag s : inv progs s -> (sum_list (work true <$> threads s) <= total s)%nat.
Proof.
  intros Hinv. apply sum_list_le. intros t Ht. apply list_elem_of_lookup in Ht as [i Ht].
  destruct (thread_legal progs s i t Hinv Ht) as (p & _ & Hl).
  destruct (flag (state s)); [done|by eapply work_flag].
Qed.

(** A step of a thread decreases the total. *)
Lemma total_exec i s s' : inv progs s -> exec i s = Some s' -> (total s' < total s)%nat.
Proof.
  intros Hinv Hs. unfold exec in Hs. destruct (threads s !! i) as [t|] eqn:Ht; [cbn in Hs|done].
  destruct (thread_legal progs s i t Hinv Ht) as (p & Hp & Hl).
  pose proof (inv_past _ _ Hinv i t Ht) as Hpast. pose proof (total_flag s Hinv) as Hf.
  assert (∀ f t', (sum_list (work f <$> <[i := t']> (threads s)) + work f t
      = sum_list (work f <$> threads s) + work f t')%nat) as Hsum by (intros; by apply sum_list_insert).
  unfold total in *.
  destruct Hl; cbn in Hs, Hpast; repeat case_match; simplify_eq/=.
  all: try match goal with |- context [<[_ := ?u]> (threads _)] =>
    pose proof (Hsum (flag (state s)) u) as Hu; pose proof (Hsum true u) as Hu'; cbn in Hu, Hu' end.
  all: try (destruct (flag (state s)); lia).
  rewrite (Hpast eq_refl) in *.
  assert ((wake <$> threads s) !! i = Some {| code := [NotifyAll; Unlock]; at_ := Running |}) as Hw
    by (by rewrite list_lookup_fmap, Ht).
  pose proof (sum_list_insert (work true) _ _ _ {| code := [Unlock]; at_ := Running |} Hw) as Hn. cbn in Hn.
  assert (sum_list (work true <$> (wake <$> threads s)) <= sum_list (work true <$> threads s))%nat; [|lia].
  rewrite <- list_fmap_compose. apply sum_list_le. intros t Hin. apply list_elem_of_lookup in Hin as [j Hj].
  destruct (thread_legal progs s j t Hinv Hj) as (q & _ & Hl). by eapply work_wake.
Qed.

Lemma schedule_bound acts s s' :
  inv progs s -> schedule acts s = Some s' -> (length acts + total s' <= total s + 3 * spurious acts)%nat.
Proof.
  revert s. induction acts as [|a acts IH]; intros s Hinv Hs; cbn [schedule] in Hs; [simplify_eq; cbn; lia|].
  apply bind_Some in Hs as (s1 & H1 & Hs). pose proof (inv_act progs a s s1 Hinv H1) as Hinv1.
  specialize (IH s1 Hinv1 Hs). destruct a as [i|i]; cbn [act] in H1.
  - pose proof (total_exec i s s1 Hinv H1). cbn [length spurious]. lia.
  - destruct (threads s !! i) as [t|] eqn:Ht; [cbn in H1|done]. case_match eqn:Hst; simplify_eq.
    pose proof (sum_list_insert (work (flag (state s))) _ _ _ (wake t) Ht) as Hsum.
    assert (work (flag (state s)) t = 4%nat) as Hw by (unfold work; by rewrite Hst).
    assert (work (flag (state s)) (wake t) <= 6)%nat by (unfold wake, work; rewrite Hst; cbn; case_match; lia).
    cbn [length spurious]. unfold total in *. cbn [state threads] in *. lia.
Qed.
Lemma total_start : Forall (λ p, p = wait ∨ p = raise) progs -> (total (start progs) <= 6 * length progs)%nat.
Proof.
  unfold total. cbn. induction 1 as [|p l Hp Hl IH]; [done|]. cbn.
  assert (work false {| code := p; at_ := Running |} <= 6)%nat by (destruct Hp as [->| ->]; cbn; lia).
  cbn in *. lia.
Qed.
End Measure.

(** ** Claims *)

(** a wait returns only when the flag has been raised, and the critical
    sections exclude each other: in every interleaving of any number of waits
    and raises, with spurious wake-ups, a thread that got past its wait finds
    the flag set, and at most one thread is between lock and unlock. *)
Theorem wait_only_after_raise progs acts s i t :
  Forall (λ p, p = wait ∨ p = raise) progs -> schedule acts (start progs) = Some s -> threads s !! i = Some t ->
  (code t = [] -> flag (state s) = true) ∧
  (∀ j u, threads s !! j = Some u -> holds t = true -> holds u = true -> i = j).
Proof.
  intros Hp Hs Ht. pose proof (inv_schedule progs acts _ s (inv_start progs Hp) Hs) as Hinv. split.
  - intros Hc. apply (inv_past _ _ Hinv i t Ht). unfold past. by rewrite Hc.
  - intros j u Hj Hi Hu. by eapply holds_unique.
Qed.

(** no wake-up is lost: once some thread raises the flag, every wait returns.
    Every run is finite, of at most six steps a thread and three for each
    spurious wake-up, and when no thread can run any more all of them have
    finished, so no schedule leaves a waiter parked. *)
Theorem raise_wakes_all progs acts s :
  Forall (λ p, p = wait ∨ p = raise) progs -> raise ∈ progs -> schedule acts (start progs) = Some s ->
  (length acts <= 6 * length progs + 3 * spurious acts)%nat ∧ (stuck s -> finished s).
Proof.
  intros Hp Hr Hs. pose proof (inv_start progs Hp) as Hi0.
  pose proof (inv_schedule progs acts _ s Hi0 Hs) as Hinv. split.
  - pose proof (schedule_bound progs acts _ s Hi0 Hs). pose proof (total_start progs Hp). lia.
  - by apply stuck_finished with progs.
Qed.

Section Witness.
(** Two waiters park, one wakes spuriously and parks again, then a raise. *)
Definition sample_progs : list (list instr) := [wait; wait; raise].
Definition sample_acts : list action :=
  [Run 0; Run 0; Run 1; Run 1; Spurious 0; Run 0; Run 0; Run 2; Run 2; Run 2; Run 2;
   Run 1; Run 1; Run 1; Run 0; Run 0; Run 0].
Definition sample_end : sys :=
  {| state := {| flag := true; owner := None |};
     threads := replicate 3 {| code := []; at_ := Running |} |}.
Lemma sample_progs_ok : Forall (λ p, p = wait ∨ p = raise) sample_progs.
Proof. by repeat first [apply Forall_nil | apply Forall_cons; split; [auto|]]. Qed.
Lemma sample_run : schedule sample_acts (start sample_progs) = Some sample_end.
Proof. reflexivity. Qed.

Lemma wait_only_after_raise_witness :
  flag (state sample_end) = true.
Proof.
  refine (proj1 (wait_only_after_raise sample_progs sample_acts sample_end 0 {| code := []; at_ := Running |}
    sample_progs_ok sample_run _) _); reflexivity.
Defined.
Lemma raise_wakes_all_witness :
  (length sample_acts <= 6 * length sample_progs + 3 * spurious sample_acts)%nat ∧
  (stuck sample_end -> finished sample_end).
Proof.
  refine (raise_wakes_all sample_progs sample_acts sample_end sample_progs_ok _ sample_run).
  do 2 apply list_elem_of_further. apply list_elem_of_here.
Defined.
End Witness.
