(* ===== verification/VirtManager.v ===== *)
(** * virtmanager/src: starting, sharing and stopping virtual machines

    [VirtManager] is the Binder service ([VmTool.v] is its command line client).  The
    state [Sys] is the manager's [State] together with the heap of
    [VmInstance]s it points into: an address stands for an [Arc<VmInstance>]
    and for the one [VirtualMachine] Binder object that [startVm] wraps around
    it.  The service's methods are the code; the other events of the system
    (a client copies or drops its reference, crosvm exits, the monitor thread
    runs) are steps of their own, interleaved freely. *)

From S2P Require Import Prelude Io Service Parse.

(** ** config.rs *)
Record DiskImage := { image : string; writable : bool }.
Record VmConfig := {
  kernel : option string; initrd : option string; params : option string;
  bootloader : option string; disks : list DiskImage
}.

Inductive error := NoBootSource | TwoBootSources | SpawnError | LoadError.

Definition is_some {A} (o : option A) : bool := match o with Some _ => true | None => false end.

Definition validate (self : VmConfig) : outcome error unit :=
  if negb (is_some (bootloader self)) && negb (is_some (kernel self)) then Err NoBootSource
  else if is_some (bootloader self) && (is_some (kernel self) || is_some (initrd self)) then Err TwoBootSources
  else Ok ().

(** ** crosvm.rs: the command *)
Definition CROSVM_PATH : string := "/apex/com.android.virt/bin/crosvm".
Record Command := { program : string; args : list string; stdout : option Z }.

(** [if let Some(x) = o { command.arg(flag).arg(x) }]. *)
Definition opt_arg (flag : string) (o : option string) : list string :=
  match o with Some x => [flag; x] | None => [] end.
Definition disk_args (disks : list DiskImage) : list string :=
  flat_map (λ disk, [if writable disk then "--rwdisk" else "--disk"; image disk]%string) disks.

(** The command that [run_vm] builds and spawns. *)
Definition run_vm_command (config : VmConfig) (cid : Z) (log_fd : option Z) : Command :=
  {| program := CROSVM_PATH;
     args := ["run"; "--disable-sandbox"; "--cid"; pretty (Z.to_N cid)]%string
             ++ (if is_some log_fd then [] else ["--serial=type=sink"%string])
             ++ opt_arg "--bios" (bootloader config)
             ++ opt_arg "--initrd" (initrd config)
             ++ opt_arg "--params" (params config)
             ++ disk_args (disks config)
             ++ match kernel config with Some kernel => [kernel] | None => [] end;
     stdout := log_fd |}.

(** [SharedChild::spawn] is the operating system's: the process, or an error. *)
Definition run_vm (spawn : Command -> option Z) (config : VmConfig) (cid : Z) (log_fd : option Z)
    : outcome error Z :=
  _ ← validate config;
  ok_or SpawnError (spawn (run_vm_command config cid log_fd)).

(** ** The state *)
Definition FIRST_GUEST_CID : Z := 10.

Record VmInstance := {
  child : Z; cid : Z; requester_uid : Z; requester_sid : string; requester_debug_pid : Z;
  running : bool; callbacks : list Z
}.
(** Where the thread of [monitor] is: waiting for the child, between its store
    to [running] and its calls, or finished. *)
Inductive Monitor := Waiting | Stored | Finished.
(** An instance with what the system keeps of it: whether the child process is
    alive and was killed by [kill], the monitor thread, the references of the
    clients to its Binder object, whether that object was dropped, the strong
    count of the [Arc], and the [onDied] calls made. *)
Record Vm := {
  instance : VmInstance; child_alive : bool; killed : bool; monitor_at : Monitor;
  client_refs : nat; dropped : bool; strong_count : nat; died_calls : list (Z * Z)
}.
Record Sys := {
  next_cid : Z; vms : list nat; debug_held_vms : list nat; heap : list Vm
}.
Definition default_sys : Sys := {| next_cid := FIRST_GUEST_CID; vms := []; debug_held_vms := []; heap := [] |}.

Definition as_instance (f : VmInstance -> VmInstance) (v : Vm) : Vm :=
  {| instance := f (instance v); child_alive := child_alive v; killed := killed v; monitor_at := monitor_at v;
     client_refs := client_refs v; dropped := dropped v; strong_count := strong_count v; died_calls := died_calls v |}.
Definition set_heap (s : Sys) (h : list Vm) : Sys :=
  {| next_cid := next_cid s; vms := vms s; debug_held_vms := debug_held_vms s; heap := h |}.
Definition update (a : nat) (f : Vm -> Vm) (s : Sys) : Sys := set_heap s (alter f a (heap s)).

(** The strong references to the Binder object of [a]. *)
Definition held (s : Sys) (a : nat) : nat := count_occ Nat.eq_dec (debug_held_vms s) a.

(** ** crosvm.rs: the instance *)
Definition VmInstance_new (child cid requester_uid : Z) (requester_sid : string) (requester_debug_pid : Z)
    : VmInstance :=
  {| child := child; cid := cid; requester_uid := requester_uid; requester_sid := requester_sid;
     requester_debug_pid := requester_debug_pid; running := true; callbacks := [] |}.

(** [VmInstance::start]: one reference is returned, the clone is the monitor's. *)
Definition VmInstance_start (spawn : Command -> option Z) (config : VmConfig) (cid : Z) (log_fd : option Z)
    (requester_uid : Z) (requester_sid : string) (requester_debug_pid : Z) : M Sys error nat := λ s,
  match run_vm spawn config cid log_fd with
  | Ok child =>
      (Ok (length (heap s)),
       set_heap s (heap s ++ [{|
         instance := VmInstance_new child cid requester_uid requester_sid requester_debug_pid;
         child_alive := true; killed := false; monitor_at := Waiting; client_refs := 0; dropped := false;
         strong_count := 2; died_calls := [] |}]))
  | Err e => (Err e, s)
  | Panic => (Panic, s)
  | NoFuel => (NoFuel, s)
  end.

(** [kill], the child being the operating system's to end: [kill_ok] is whether
    the signal could be sent (an error is only logged). *)
Definition kill (kill_ok : bool) (v : Vm) : Vm :=
  {| instance := instance v; child_alive := child_alive v && negb kill_ok; killed := true;
     monitor_at := monitor_at v; client_refs := client_refs v; dropped := dropped v;
     strong_count := strong_count v; died_calls := died_calls v |}.

(** ** aidl.rs *)
Inductive StatusCode := UNKNOWN_ERROR | BAD_VALUE | PERMISSION_DENIED.

(** What Binder tells of a call, and what the system answers to [startVm]. *)
Record Caller := { calling_uid : Z; calling_sid : option (option string); calling_pid : Z }.
Record StartEnv := {
  dup_log_fd : option Z; config_json : option VmConfig; spawn_child : Command -> option Z
}.

Definition DEBUG_ALLOWED_UIDS : list Z := [0; 2000].
Definition debug_access_allowed (c : Caller) : bool := bool_decide (calling_uid c ∈ DEBUG_ALLOWED_UIDS).

Definition allocate_cid : M Sys StatusCode Z := λ s,
  let cid := next_cid s in
  if next_cid s + 1 <=? u32_MAX then
    (Ok cid, {| next_cid := next_cid s + 1; vms := vms s; debug_held_vms := debug_held_vms s; heap := heap s |})
  else (Err UNKNOWN_ERROR, s).

Definition alive (s : Sys) (a : nat) : bool :=
  match heap s !! a with Some v => (0 <? strong_count v)%nat | None => false end.

(** [State::vms]: the weak references that can be upgraded. *)
Definition state_vms (s : Sys) : list nat := filter (λ a, alive s a = true) (vms s).

Definition add_vm (vm : nat) : M Sys StatusCode unit := λ s,
  (Ok (), {| next_cid := next_cid s; vms := filter (λ a, alive s a = true) (vms s) ++ [vm];
             debug_held_vms := debug_held_vms s; heap := heap s |}).

(** [VmConfig::load]: what serde_json reads from the file. *)
Definition VmConfig_load (from_reader : option VmConfig) : outcome error VmConfig :=
  ok_or LoadError from_reader.

Definition start_vm (env : StartEnv) (cid : Z) (log_fd : option Z) (requester_uid : Z)
    (requester_sid : string) (requester_debug_pid : Z) : M Sys StatusCode nat :=
  config ← map_errM (λ _, BAD_VALUE) (lift (VmConfig_load (config_json env)));
  map_errM (λ _, UNKNOWN_ERROR)
    (VmInstance_start (spawn_child env) config cid log_fd requester_uid requester_sid requester_debug_pid).

(** [VirtualMachine::create]: the reference that is returned to the client. *)
Definition VirtualMachine_create (a : nat) : M Sys StatusCode nat := λ s,
  (Ok a, update a (λ v, {| instance := instance v; child_alive := child_alive v; killed := killed v;
     monitor_at := monitor_at v; client_refs := 1; dropped := false; strong_count := strong_count v;
     died_calls := died_calls v |}) s).

Definition startVm (env : StartEnv) (c : Caller) (log_fd : option Z) : M Sys StatusCode nat :=
  log_fd ← lift (match log_fd with
                 | Some _ => fd ← ok_or UNKNOWN_ERROR (dup_log_fd env); Ok (Some fd)
                 | None => Ok None
                 end);
  requester_sid ← lift (match calling_sid c with
                        | Some (Some sid) => Ok sid
                        | Some None => Err BAD_VALUE
                        | None => Err UNKNOWN_ERROR
                        end);
  cid ← allocate_cid;
  instance ← start_vm env cid log_fd (calling_uid c) requester_sid (calling_pid c);
  _ ← add_vm instance;
  VirtualMachine_create instance.

Record VirtualMachineDebugInfo := {
  info_cid : Z; requesterUid : Z; requesterSid : string; requesterPid : Z; info_running : bool
}.
Definition debug_info (v : VmInstance) : VirtualMachineDebugInfo :=
  {| info_cid := as_i32 (cid v); requesterUid := as_i32 (requester_uid v); requesterSid := requester_sid v;
     requesterPid := requester_debug_pid v; info_running := running v |}.

Definition debugListVms (c : Caller) : M Sys StatusCode (list VirtualMachineDebugInfo) := λ s,
  if negb (debug_access_allowed c) then (Err PERMISSION_DENIED, s)
  else (Ok (omap (λ a, debug_info ∘ instance <$> heap s !! a) (state_vms s)), s).

Definition debug_hold_vm (vm : nat) : M Sys StatusCode unit := λ s,
  (Ok (), {| next_cid := next_cid s; vms := vms s; debug_held_vms := debug_held_vms s ++ [vm]; heap := heap s |}).
(** The reference is to an object of this manager; Binder would let an allowed
    caller pass an object of its own as well. *)
Definition debugHoldVmRef (c : Caller) (vmref : nat) : M Sys StatusCode unit := λ s,
  if negb (debug_access_allowed c) then (Err PERMISSION_DENIED, s) else debug_hold_vm vmref s.

Definition getCid (s : Sys) (a : nat) : option Z := as_i32 ∘ cid ∘ instance <$> heap s !! a.
(** [VmInstance::running]: the flag that [monitor] clears. *)
Definition VmInstance_running (v : VmInstance) : bool := running v.
Definition isRunning (s : Sys) (a : nat) : option bool := VmInstance_running ∘ instance <$> heap s !! a.

(** [Vec::swap_remove]. *)
Definition swap_remove {A} (l : list A) (i : nat) : list A :=
  match last l with
  | Some x => take (length l - 1) (<[i := x]> l)
  | None => l
  end.

(** The reference goes from the manager's list to the caller. *)
Definition debug_drop_vm (cid : Z) : M Sys StatusCode (option nat) := λ s,
  match list_find (λ a, getCid s a = Some cid) (debug_held_vms s) with
  | Some (pos, a) =>
      (Ok (Some a), update a (λ v, {| instance := instance v; child_alive := child_alive v; killed := killed v;
          monitor_at := monitor_at v; client_refs := S (client_refs v); dropped := dropped v;
          strong_count := strong_count v; died_calls := died_calls v |})
        {| next_cid := next_cid s; vms := vms s; debug_held_vms := swap_remove (debug_held_vms s) pos;
           heap := heap s |})
  | None => (Ok None, s)
  end.
Definition debugDropVmRef (c : Caller) (cid : Z) : M Sys StatusCode (option nat) :=
  if negb (debug_access_allowed c) then fail PERMISSION_DENIED else debug_drop_vm cid.

(** [VirtualMachineCallbacks::add]. *)
Definition callbacks_add (callbacks : list Z) (callback : Z) : list Z := callbacks ++ [callback].
Definition registerCallback (a : nat) (callback : Z) : M Sys StatusCode unit := λ s,
  (Ok (), update a (as_instance (λ i, {| child := child i; cid := cid i; requester_uid := requester_uid i;
     requester_sid := requester_sid i; requester_debug_pid := requester_debug_pid i; running := running i;
     callbacks := callbacks_add (callbacks i) callback |})) s).

(** A client drops a reference; with the last one the object is dropped
    ([impl Drop for VirtualMachine]), which kills the child and gives up its
    [Arc]. *)
Definition VirtualMachine_drop (kill_ok : bool) (v : Vm) : Vm :=
  let v := kill kill_ok v in
  {| instance := instance v; child_alive := child_alive v; killed := killed v; monitor_at := monitor_at v;
     client_refs := client_refs v; dropped := true; strong_count := strong_count v - 1; died_calls := died_calls v |}.
Definition drop_ref (kill_ok : bool) (a : nat) (s : Sys) : Sys :=
  update a (λ v,
    let v := {| instance := instance v; child_alive := child_alive v; killed := killed v; monitor_at := monitor_at v;
                client_refs := client_refs v - 1; dropped := dropped v; strong_count := strong_count v;
                died_calls := died_calls v |} in
    if (client_refs v + held s a =? 0)%nat then VirtualMachine_drop kill_ok v else v) s.

(** [child.wait()] returns a status when the child has ended, or an error,
    which is only logged. *)
Definition wait_returns (wait_ok : bool) (v : Vm) : Prop := wait_ok = true -> child_alive v = false.
(** [monitor], in its two steps: the store once [wait] has returned, then the
    calls to every callback registered by then, after which the thread's
    reference goes. *)
Definition monitor_store (v : Vm) : Vm :=
  {| instance := {| child := child (instance v); cid := cid (instance v); requester_uid := requester_uid (instance v);
        requester_sid := requester_sid (instance v); requester_debug_pid := requester_debug_pid (instance v);
        running := false; callbacks := callbacks (instance v) |};
     child_alive := child_alive v; killed := killed v; monitor_at := Stored; client_refs := client_refs v;
     dropped := dropped v; strong_count := strong_count v; died_calls := died_calls v |}.
Definition callback_on_died (cid : Z) (callbacks : list Z) : list (Z * Z) :=
  (λ callback, (callback, as_i32 cid)) <$> callbacks.
Definition monitor_notify (v : Vm) : Vm :=
  {| instance := instance v; child_alive := child_alive v; killed := killed v; monitor_at := Finished;
     client_refs := client_refs v; dropped := dropped v; strong_count := strong_count v - 1;
     died_calls := died_calls v ++ callback_on_died (cid (instance v)) (callbacks (instance v)) |}.
Definition child_exit (v : Vm) : Vm :=
  {| instance := instance v; child_alive := false; killed := killed v; monitor_at := monitor_at v;
     client_refs := client_refs v; dropped := dropped v; strong_count := strong_count v; died_calls := died_calls v |}.
Definition copy_ref (v : Vm) : Vm :=
  {| instance := instance v; child_alive := child_alive v; killed := killed v; monitor_at := monitor_at v;
     client_refs := S (client_refs v); dropped := dropped v; strong_count := strong_count v; died_calls := died_calls v |}.

(** [main]: the service is registered, a failure being a panic, and its
    threads run the methods above. *)
Definition BINDER_SERVICE_IDENTIFIER : string := "android.system.virtmanager".
Definition main {W} `{ServiceManager W Sys} : M W Z unit :=
  let virt_manager := default_sys in
  _ ← expectM (add_service BINDER_SERVICE_IDENTIFIER virt_manager);
  join_thread_pool.

(** ** The system's steps

    A method is called with references that the caller has. *)
Inductive step : Sys -> Sys -> Prop :=
| step_start env c log_fd s : step s (startVm env c log_fd s).2
| step_list c s : step s (debugListVms c s).2
| step_hold c a v s : heap s !! a = Some v -> (0 < client_refs v)%nat -> step s (debugHoldVmRef c a s).2
| step_drop_held c n s : step s (debugDropVmRef c n s).2
| step_register a v cb s : heap s !! a = Some v -> (0 < client_refs v)%nat -> step s (registerCallback a cb s).2
| step_copy a v s : heap s !! a = Some v -> (0 < client_refs v)%nat -> step s (update a copy_ref s)
| step_drop kill_ok a v s : heap s !! a = Some v -> (0 < client_refs v)%nat -> step s (drop_ref kill_ok a s)
| step_exit a s : step s (update a child_exit s)
| step_store wait_ok a v s :
    heap s !! a = Some v -> monitor_at v = Waiting -> wait_returns wait_ok v -> step s (update a monitor_store s)
| step_notify a v s : heap s !! a = Some v -> monitor_at v = Stored -> step s (update a monitor_notify s).

Definition reachable (s : Sys) : Prop := rtc step default_sys s.

(** ** The invariant *)
Record vm_ok (nc : Z) (h : nat) (v : Vm) : Prop := {
  vo_cid : FIRST_GUEST_CID <= cid (instance v) < nc;
  vo_strong : strong_count v = ((if dropped v then 0 else 1) + (match monitor_at v with Finished => 0 | _ => 1 end))%nat;
  vo_refs : dropped v = true <-> (client_refs v + h = 0)%nat;
  vo_killed : killed v = dropped v;
  vo_running : running (instance v) = match monitor_at v with Waiting => true | _ => false end;
  vo_calls : monitor_at v <> Finished -> died_calls v = []
}.
Record inv (s : Sys) : Prop := {
  inv_next : FIRST_GUEST_CID <= next_cid s <= u32_MAX;
  inv_heap a v : heap s !! a = Some v -> vm_ok (next_cid s) (held s a) v;
  inv_cids a b va vb : heap s !! a = Some va -> heap s !! b = Some vb -> (a < b)%nat ->
    cid (instance va) < cid (instance vb);
  inv_vms : state_vms s = filter (λ a, alive s a = true) (seq 0 (length (heap s)));
  inv_vms_lt a : a ∈ vms s -> (a < length (heap s))%nat;
  inv_held a : a ∈ debug_held_vms s -> (a < length (heap s))%nat
}.

Lemma inv_default : inv default_sys.
Proof. split; try done; try (unfold u32_MAX; cbn; lia); cbn; set_solver. Qed.

Lemma alive_spec s a : alive s a = true <-> ∃ v, heap s !! a = Some v ∧ (0 < strong_count v)%nat.
Proof.
  unfold alive. destruct (heap s !! a) as [v|]; [rewrite Nat.ltb_lt|]; split.
  - intros Hv. by exists v.
  - by intros (w & [= ->] & Hw).
  - done.
  - by intros (w & ? & _).
Qed.
(** Dropping further elements from a filtered list. *)
Lemma filter_weaken {A} (P Q : A -> Prop) `{∀ x, Decision (P x)} `{∀ x, Decision (Q x)} (l : list A) :
  (∀ x, Q x -> P x) -> filter Q (filter P l) = filter Q l.
Proof.
  intros Hw. induction l as [|x l IH]; [done|]. rewrite !filter_cons.
  destruct (decide (P x)) as [HP|HP].
  - rewrite filter_cons. destruct (decide (Q x)); by rewrite IH.
  - destruct (decide (Q x)) as [HQ|]; [by destruct (HP (Hw x HQ))|done].
Qed.
Lemma state_vms_shrink s s' :
  vms s' = vms s -> length (heap s') = length (heap s) ->
  (∀ a, alive s' a = true -> alive s a = true) ->
  state_vms s = filter (λ a, alive s a = true) (seq 0 (length (heap s))) ->
  state_vms s' = filter (λ a, alive s' a = true) (seq 0 (length (heap s'))).
Proof.
  unfold state_vms. intros -> -> Hsh Heq.
  rewrite <- (filter_weaken (λ a, alive s a = true) _ (vms s)) by done.
  by rewrite Heq, filter_weaken.
Qed.

(** *** Updating one instance *)
Lemma update_lookup a f s b :
  heap (update a f s) !! b = if decide (b = a) then f <$> heap s !! a else heap s !! b.
Proof.
  cbn. case_decide; [subst; apply list_lookup_alter_eq|by apply list_lookup_alter_ne].
Qed.
Lemma update_length a f s : length (heap (update a f s)) = length (heap s).
Proof. apply length_alter. Qed.
Lemma update_inv a f s b w :
  heap (update a f s) !! b = Some w -> ∃ v, heap s !! b = Some v ∧ w = if decide (b = a) then f v else v.
Proof.
  rewrite update_lookup. case_decide; [subst|naive_solver]. intros (v & -> & ->)%fmap_Some. eauto.
Qed.

(** Changing references and one instance together keeps the invariant. *)
Lemma inv_change s a f hs v :
  inv s -> heap s !! a = Some v ->
  cid (instance (f v)) = cid (instance v) -> (strong_count (f v) <= strong_count v)%nat ->
  (∀ b, b ∈ hs -> (b < length (heap s))%nat) ->
  (∀ b, b <> a -> count_occ Nat.eq_dec hs b = held s b) ->
  vm_ok (next_cid s) (count_occ Nat.eq_dec hs a) (f v) ->
  inv (update a f {| next_cid := next_cid s; vms := vms s; debug_held_vms := hs; heap := heap s |}).
Proof.
  intros Hinv Ha Hcid Hsc Hhs Hocc Hok.
  set (s' := update a f _). assert (∀ b w, heap s' !! b = Some w ->
    ∃ v0, heap s !! b = Some v0 ∧ w = if decide (b = a) then f v0 else v0) as Hup
    by (intros b w Hb; by apply update_inv in Hb).
  assert (∀ b w, heap s' !! b = Some w -> ∃ v0, heap s !! b = Some v0 ∧ cid (instance w) = cid (instance v0)) as Hc.
  { intros b w (v0 & Hv0 & ->)%Hup. exists v0. split; [done|]. case_decide; [|done]. by simplify_eq. }
  split.
  - apply (inv_next _ Hinv).
  - intros b w (v0 & Hv0 & ->)%Hup. unfold held. cbn [debug_held_vms s' update set_heap next_cid].
    case_decide; [by simplify_eq|]. rewrite Hocc by done. by apply (inv_heap _ Hinv).
  - intros b1 b2 w1 w2 H1 H2 Hlt. destruct (Hc _ _ H1) as (v1 & Hv1 & ->), (Hc _ _ H2) as (v2 & Hv2 & ->).
    by apply (inv_cids _ Hinv b1 b2).
  - apply (state_vms_shrink s); [done|cbn; apply length_alter| |apply (inv_vms _ Hinv)].
    intros b (w & (v0 & Hv0 & ->)%Hup & Hw)%alive_spec. apply alive_spec. exists v0. split; [done|].
    case_decide; [|done]. simplify_eq. lia.
  - cbn. rewrite length_alter. apply (inv_vms_lt _ Hinv).
  - cbn. rewrite length_alter. exact Hhs.
Qed.
Lemma inv_update s a f v :
  inv s -> heap s !! a = Some v ->
  cid (instance (f v)) = cid (instance v) -> (strong_count (f v) <= strong_count v)%nat ->
  vm_ok (next_cid s) (held s a) (f v) -> inv (update a f s).
Proof.
  intros Hinv Ha Hcid Hsc Hok. destruct s as [nc vs hs hp].
  apply (inv_change {| next_cid := nc; vms := vs; debug_held_vms := hs; heap := hp |} a f hs v); try done.
  apply (inv_held _ Hinv).
Qed.
Lemma update_none s a f : heap s !! a = None -> update a f s = s.
Proof.
  intros Ha. destruct s. unfold update, set_heap. cbn in *. f_equal. apply list_eq. intros b.
  destruct (decide (b = a)) as [->|]; [by rewrite list_lookup_alter_eq, Ha|by rewrite list_lookup_alter_ne].
Qed.

(** *** Starting a VM *)
Definition fresh_vm (i : VmInstance) : Vm :=
  {| instance := i; child_alive := true; killed := false; monitor_at := Waiting; client_refs := 1;
     dropped := false; strong_count := 2; died_calls := [] |}.
Definition bump (s : Sys) : Sys :=
  {| next_cid := next_cid s + 1; vms := vms s; debug_held_vms := debug_held_vms s; heap := heap s |}.
Definition started (s : Sys) (i : VmInstance) : Sys :=
  {| next_cid := next_cid s + 1; vms := state_vms s ++ [length (heap s)];
     debug_held_vms := debug_held_vms s; heap := heap s ++ [fresh_vm i] |}.

Lemma alive_app s nc vs hs v a :
  (a < length (heap s))%nat ->
  alive {| next_cid := nc; vms := vs; debug_held_vms := hs; heap := heap s ++ [v] |} a = alive s a.
Proof. intros Ha. unfold alive. cbn. by rewrite lookup_app_l. Qed.
Lemma filter_ext_in {A} (P Q : A -> Prop) `{∀ x, Decision (P x)} `{∀ x, Decision (Q x)} (l : list A) :
  (∀ x, x ∈ l -> P x <-> Q x) -> filter P l = filter Q l.
Proof.
  induction l as [|x l IH]; intros Hpq; [done|].
  rewrite !filter_cons, IH by (intros y Hy; by apply Hpq, list_elem_of_further).
  pose proof (Hpq x (list_elem_of_here _ _)). destruct (decide (P x)), (decide (Q x)); tauto.
Qed.

(** [startVm] starts a VM with the next CID, or fails; a failure after the CID
    was allocated has used it up. *)
Lemma startVm_cases env c log_fd s r s' :
  inv s -> startVm env c log_fd s = (r, s') ->
  (∃ i config log, r = Ok (length (heap s)) ∧ next_cid s + 1 <= u32_MAX ∧ s' = started s i ∧
     config_json env = Some config ∧ validate config = Ok () ∧
     spawn_child env (run_vm_command config (next_cid s) log) = Some (child i) ∧
     calling_sid c = Some (Some (requester_sid i)) ∧ cid i = next_cid s ∧ running i = true ∧ callbacks i = [] ∧
     requester_uid i = calling_uid c ∧ requester_debug_pid i = calling_pid c) ∨
  (∃ e, r = Err e) ∧ (s' = s ∨ next_cid s + 1 <= u32_MAX ∧ s' = bump s).
Proof.
  intros Hinv. unfold startVm. rewrite M_bind_eq. cbn [lift].
  destruct (match log_fd with Some _ => _ | None => _ end) as [log|e0| |] eqn:Hlog;
    [|intros [= <- <-]; right; eauto 6|destruct log_fd; [destruct (dup_log_fd env)|]; done..].
  rewrite M_bind_eq. cbn [lift]. destruct (calling_sid c) as [[sid|]|] eqn:Hsid; [|intros [= <- <-]; right; eauto 6..].
  rewrite M_bind_eq. unfold allocate_cid. destruct (Z.leb_spec (next_cid s + 1) u32_MAX) as [Hmax|];
    [|intros [= <- <-]; right; eauto 6]. fold (bump s).
  rewrite M_bind_eq. unfold start_vm. rewrite M_bind_eq. unfold VmConfig_load, map_errM at 1. cbn [lift].
  destruct (config_json env) as [config|] eqn:Hcfg; cbn [ok_or map_err]; [|intros [= <- <-]; right; eauto 6].
  unfold map_errM, VmInstance_start, run_vm. destruct (validate config) as [[]|e0| |] eqn:Hval;
    [|intros [= <- <-]; right; eauto 6|unfold validate in Hval; by repeat case_match..].
  rewrite bind_Ok. destruct (spawn_child env _) as [ch|] eqn:Hsp; cbn [ok_or map_err]; [|intros [= <- <-]; right; eauto 6].
  rewrite M_bind_eq. unfold add_vm, VirtualMachine_create. intros [= <- <-]. left.
  eexists (VmInstance_new ch (next_cid s) (calling_uid c) sid (calling_pid c)), config, log.
  split_and!; try done; try lia.
  unfold started, update, set_heap, state_vms. cbn. f_equal.
  - f_equal. apply filter_ext_in. intros a Ha. by rewrite (alive_app s) by (by apply (inv_vms_lt _ Hinv)).
  - by rewrite alter_app_r_alt, Nat.sub_diag by done.
Qed.

Lemma inv_bump s : inv s -> next_cid s + 1 <= u32_MAX -> inv (bump s).
Proof.
  intros Hinv Hmax. pose proof (inv_next _ Hinv). destruct Hinv as [_ Hh Hc Hv Hvl Hhl].
  split; [cbn; lia| |exact Hc|exact Hv|exact Hvl|exact Hhl].
  intros a v Ha. destruct (Hh a v Ha). split; try done. cbn. lia.
Qed.
Lemma held_lt s a : inv s -> (length (heap s) <= a)%nat -> held s a = 0%nat.
Proof.
  intros Hinv Ha. unfold held. apply count_occ_not_In. intros Hin%list_elem_of_In.
  pose proof (inv_held _ Hinv a Hin). lia.
Qed.
Lemma alive_started s i a : (a < length (heap s))%nat -> alive (started s i) a = alive s a.
Proof. apply alive_app. Qed.
Lemma inv_started s i :
  inv s -> next_cid s + 1 <= u32_MAX -> cid i = next_cid s -> running i = true -> inv (started s i).
Proof.
  intros Hinv Hmax Hcid Hrun. pose proof (inv_next _ Hinv).
  assert (∀ a v, heap (started s i) !! a = Some v ->
    (a < length (heap s))%nat ∧ heap s !! a = Some v ∨ a = length (heap s) ∧ v = fresh_vm i) as Hcases.
  { intros a v [Ha|[Hge Ha]]%lookup_app_Some; [left; split; [by eapply lookup_lt_Some|done]|right].
    apply list_lookup_singleton_Some in Ha as [Ha <-]. split; [lia|done]. }
  split.
  - cbn. lia.
  - intros a v [[Hlt Ha]|[-> ->]]%Hcases.
    + destruct (inv_heap _ Hinv a v Ha). split; try done. cbn. lia.
    + unfold held. cbn. change (count_occ _ _ _) with (held s (length (heap s))). rewrite (held_lt s) by done.
      split; cbn; try done. lia.
  - intros a b va vb [[Hla Ha]|[-> ->]]%Hcases [[Hlb Hb]|[-> ->]]%Hcases Hlt; try lia.
    + by apply (inv_cids _ Hinv a b).
    + cbn. rewrite Hcid. pose proof (vo_cid _ _ _ (inv_heap _ Hinv a va Ha)). lia.
  - unfold state_vms at 1. cbn [vms started heap]. rewrite length_app, seq_app, !filter_app. f_equal.
    rewrite (filter_ext_in _ (λ a, alive s a = true) (state_vms s)).
    + rewrite (inv_vms _ Hinv), filter_weaken by done. apply filter_ext_in.
      intros a Ha%elem_of_seq. by rewrite (alive_started s i) by lia.
    + intros a Ha. rewrite (alive_started s i); [done|]. apply list_elem_of_filter in Ha as [_ Ha].
      by apply (inv_vms_lt _ Hinv).
  - cbn. intros a [Ha%list_elem_of_filter|Ha%list_elem_of_singleton]%elem_of_app; rewrite length_app; cbn; [|lia].
    destruct Ha as [_ Ha%(inv_vms_lt _ Hinv)]. lia.
  - cbn. intros a Ha%(inv_held _ Hinv). rewrite length_app. lia.
Qed.

(** *** The other steps *)
Lemma swap_remove_perm {A} (l : list A) i a : l !! i = Some a -> l ≡ₚ a :: swap_remove l i.
Proof.
  intros Hi. unfold swap_remove. destruct l as [|x l _] using rev_ind; [done|].
  rewrite last_snoc, length_app, Nat.add_sub. destruct (decide (i = length l)) as [->|Hne].
  - rewrite lookup_app_r, Nat.sub_diag in Hi by done. injection Hi as ->.
    rewrite insert_app_r_alt, Nat.sub_diag by done. cbn. rewrite take_app_length. apply Permutation_app_comm.
  - apply lookup_app_Some in Hi as [Hi|[Hge Hi]];
      [|apply list_lookup_singleton_Some in Hi as [Hz _]; lia].
    pose proof (lookup_lt_Some _ _ _ Hi). rewrite insert_app_l, take_app_length' by (done || by rewrite length_insert).
    rewrite <- (take_drop_middle l i a Hi) at 1. rewrite insert_take_drop by done.
    rewrite <- app_assoc. cbn. rewrite <- !Permutation_middle. constructor.
    by rewrite app_assoc, Permutation_app_comm.
Qed.

Lemma vm_ok_refs nc h v k h' :
  vm_ok nc h v -> (k + h' = 0 <-> client_refs v + h = 0)%nat ->
  vm_ok nc h' {| instance := instance v; child_alive := child_alive v; killed := killed v;
    monitor_at := monitor_at v; client_refs := k; dropped := dropped v; strong_count := strong_count v;
    died_calls := died_calls v |}.
Proof. intros [] Hk. split; cbn; try done. by rewrite Hk. Qed.

Lemma inv_hold s c a v :
  inv s -> heap s !! a = Some v -> (0 < client_refs v)%nat -> inv (debugHoldVmRef c a s).2.
Proof.
  intros Hinv Ha Hc. unfold debugHoldVmRef. destruct (negb _); [done|]. cbn [snd].
  pose proof (inv_change s a (λ v, v) (debug_held_vms s ++ [a]) v Hinv Ha) as Hch.
  unfold update, set_heap in Hch. cbn in Hch. rewrite list_alter_id in Hch by done.
  apply Hch; [done|done| | |].
  - intros b [Hb%(inv_held _ Hinv)|Hb%list_elem_of_singleton]%elem_of_app; [done|subst].
    by eapply lookup_lt_Some.
  - intros b Hb. unfold held. rewrite count_occ_app. cbn. destruct (Nat.eq_dec a b); [done|lia].
  - destruct (inv_heap _ Hinv a v Ha) as [? ? Hr]. split; try done. rewrite Hr. lia.
Qed.
Lemma inv_drop_held s c n : inv s -> inv (debugDropVmRef c n s).2.
Proof.
  intros Hinv. unfold debugDropVmRef. destruct (negb _); [done|]. unfold debug_drop_vm.
  destruct (list_find _ _) as [[pos a]|] eqn:Hfind; [|done]. cbn [snd].
  apply list_find_Some in Hfind as (Hpos & _ & _). pose proof (swap_remove_perm _ _ _ Hpos) as Hperm.
  assert (a < length (heap s))%nat as Hlt by (by apply (inv_held _ Hinv), list_elem_of_lookup_2 with pos).
  destruct (lookup_lt_is_Some_2 _ _ Hlt) as [v Hv].
  assert (∀ b, held s b = count_occ Nat.eq_dec (a :: swap_remove (debug_held_vms s) pos) b) as Hocc
    by (intros b; unfold held; by apply Permutation_count_occ).
  eapply inv_change; [done|done|done|done| | |].
  - intros b Hb. apply (inv_held _ Hinv). rewrite Hperm. set_solver.
  - intros b Hb. rewrite Hocc. by rewrite count_occ_cons_neq.
  - apply (vm_ok_refs _ (held s a)); [by apply (inv_heap _ Hinv)|]. rewrite Hocc, count_occ_cons_eq by done. lia.
Qed.
Lemma inv_drop s k a v :
  inv s -> heap s !! a = Some v -> (0 < client_refs v)%nat -> inv (drop_ref k a s).
Proof.
  intros Hinv Ha Hc. pose proof (inv_heap _ Hinv a v Ha) as [H1 H2 H3 H4 H5 H6].
  assert (dropped v = false) as Hd by (apply not_true_is_false; intros Hd%H3; lia).
  unfold drop_ref. eapply inv_update; [done|done| | |]; cbn.
  - by destruct (_ =? _)%nat.
  - destruct (_ =? _)%nat; cbn; lia.
  - destruct (Nat.eqb_spec (client_refs v - 1 + held s a) 0); split; cbn; try done.
    + rewrite H2, Hd. by destruct (monitor_at v).
    + rewrite Hd. split; [done|]. lia.
Qed.

Lemma inv_step s s' : step s s' -> inv s -> inv s'.
Proof.
  destruct 1 as [env c log s|c s|c a v s Ha Hc|c n s|a v cb s Ha Hc|a v s Ha Hc|k a v s Ha Hc|a s|ok a v s Ha Hm Hal|a v s Ha Hm];
    intros Hinv.
  - destruct (startVm env c log s) as [r s'] eqn:Hs.
    destruct (startVm_cases _ _ _ _ _ _ Hinv Hs) as [(i & cfg & lg & H)|[_ [->|[Hmax ->]]]]; cbn.
    + destruct H as (_ & Hmax & -> & _ & _ & _ & _ & Hcid & Hrun & _). by apply inv_started.
    + done.
    + by apply inv_bump.
  - unfold debugListVms. by destruct (negb _).
  - by eapply inv_hold.
  - by apply inv_drop_held.
  - eapply inv_update; [done|done|done|done|]. destruct (inv_heap _ Hinv a v Ha). by split.
  - eapply inv_update; [done|done|done|done|]. apply (vm_ok_refs _ (held s a)); [by apply (inv_heap _ Hinv)|]. lia.
  - by eapply inv_drop.
  - destruct (heap s !! a) as [v|] eqn:Ha; [|by rewrite update_none].
    eapply inv_update; [done|done|done|done|]. destruct (inv_heap _ Hinv a v Ha). by split.
  - eapply inv_update; [done|done|done|done|]. destruct (inv_heap _ Hinv a v Ha) as [H1 H2 H3 H4 H5 H6].
    rewrite Hm in *. split; cbn; try done. intros _. by apply H6.
  - destruct (inv_heap _ Hinv a v Ha) as [H1 H2 H3 H4 H5 H6]. rewrite Hm in *.
    eapply inv_update; [done|done|done|cbn; lia|]. split; cbn; try done.
    rewrite H2. destruct (dropped v); lia.
Qed.
Lemma inv_run s s' : rtc step s s' -> inv s -> inv s'.
Proof. induction 1 as [|s1 s2 s3 H12 H23 IH]; [done|]. intros Hinv. apply IH. by eapply inv_step. Qed.
Lemma inv_reachable s : reachable s -> inv s.
Proof. intros Hr. exact (inv_run _ _ Hr inv_default). Qed.

(** ** Evolution of one VM *)
Definition evolves (v v' : Vm) : Prop :=
  cid (instance v') = cid (instance v) ∧ callbacks (instance v) `prefix_of` callbacks (instance v') ∧
  match monitor_at v, monitor_at v' with
  | Stored, Finished =>
      died_calls v' = died_calls v ++ callback_on_died (cid (instance v)) (callbacks (instance v))
  | Waiting, Finished => False
  | Finished, Waiting | Finished, Stored => False
  | _, _ => died_calls v' = died_calls v
  end.
Lemma evolves_same v v' :
  cid (instance v') = cid (instance v) -> callbacks (instance v) `prefix_of` callbacks (instance v') ->
  monitor_at v' = monitor_at v -> died_calls v' = died_calls v -> evolves v v'.
Proof. unfold evolves. intros -> ? -> ->. split_and!; [done..|]. by destruct (monitor_at v). Qed.

Lemma update_evolves s a f b v :
  (∀ w, heap s !! a = Some w -> evolves w (f w)) -> heap s !! b = Some v ->
  ∃ v', heap (update a f s) !! b = Some v' ∧ evolves v v'.
Proof.
  intros Hf Hb. rewrite update_lookup. case_decide; [subst; rewrite Hb; eexists; split; [done|by apply Hf]|].
  exists v. split; [done|]. by apply evolves_same.
Qed.
Ltac same := by apply evolves_same.

Lemma step_evolves s s' b v :
  step s s' -> inv s -> heap s !! b = Some v -> ∃ v', heap s' !! b = Some v' ∧ evolves v v'.
Proof.
  destruct 1 as [env c log s|c s|c a w s Ha Hc|c n s|a w cb s Ha Hc|a w s Ha Hc|k a w s Ha Hc|a s|ok a w s Ha Hm Hal|a w s Ha Hm];
    intros Hinv Hb.
  - destruct (startVm env c log s) as [r s'] eqn:Hs. exists v. split; [|same].
    destruct (startVm_cases _ _ _ _ _ _ Hinv Hs) as [(i & cfg & lg & _ & _ & -> & _)|[_ [->|[_ ->]]]]; [|done..].
    cbn. by apply lookup_app_l_Some.
  - exists v. unfold debugListVms. destruct (negb _); (split; [done|same]).
  - exists v. unfold debugHoldVmRef. destruct (negb _); (split; [done|same]).
  - unfold debugDropVmRef, debug_drop_vm. destruct (negb _); [exists v; split; [done|same]|].
    destruct (list_find _ _) as [[pos a]|]; [|exists v; split; [done|same]]. cbn [snd].
    apply update_evolves; [|done]. intros w _. same.
  - apply update_evolves; [|done]. intros w' _. apply evolves_same; [done| |done|done]. cbn. by eexists.
  - apply update_evolves; [|done]. intros w' _. same.
  - apply update_evolves; [|done]. intros w' _. cbn. destruct (_ =? _)%nat; same.
  - apply update_evolves; [|done]. intros w' _. same.
  - apply update_evolves; [|done]. intros w' Hw'. simplify_eq. unfold evolves. rewrite Hm. by cbn.
  - apply update_evolves; [|done]. intros w' Hw'. simplify_eq. unfold evolves. rewrite Hm. by cbn.
Qed.
(** A property of a VM that its evolution keeps, along any run. *)
Lemma run_evolves (P : Vm -> Prop) s s' b v v' :
  (∀ w w', evolves w w' -> P w -> P w') -> inv s -> rtc step s s' ->
  heap s !! b = Some v -> P v -> heap s' !! b = Some v' -> P v'.
Proof.
  intros HP Hinv Hr. revert Hinv v. induction Hr as [s|s1 s2 s3 H12 H23 IH]; intros Hinv v Hb Hv Hb';
    [by simplify_eq|].
  destruct (step_evolves _ _ b v H12 Hinv Hb) as (w & Hw & Hev).
  apply (IH (inv_step _ _ H12 Hinv) w Hw); [by eapply HP|done].
Qed.

(** ** Command lines *)
Lemma disk_args_inj ds1 ds2 (k1 k2 : option string) :
  disk_args ds1 ++ option_list k1 = disk_args ds2 ++ option_list k2 -> ds1 = ds2 ∧ k1 = k2.
Proof.
  revert ds2. induction ds1 as [|[i1 w1] ds1 IH]; intros [|[i2 w2] ds2]; cbn.
  - by destruct k1, k2; intros; simplify_eq/=.
  - by destruct k1; intros [=].
  - by destruct k2; intros [=].
  - intros [= Hw -> Hrest]. destruct (IH _ Hrest) as [-> ->]. by destruct w1, w2.
Qed.
(** The tail after an optional flag does not begin with that flag, unless it is
    a single word. *)
Definition no_flag (flag : string) (l : list string) : Prop := ∀ x l', l <> flag :: x :: l'.
Lemma opt_arg_inj flag (o1 o2 : option string) l1 l2 :
  no_flag flag l1 -> no_flag flag l2 -> opt_arg flag o1 ++ l1 = opt_arg flag o2 ++ l2 -> o1 = o2 ∧ l1 = l2.
Proof.
  intros H1 H2. destruct o1 as [x1|], o2 as [x2|]; cbn; intros Heq.
  - by simplify_eq.
  - by destruct (H2 x1 l1).
  - by destruct (H1 x2 l2).
  - done.
Qed.
Lemma no_flag_opt flag flag' o l : flag <> flag' -> no_flag flag l -> no_flag flag (opt_arg flag' o ++ l).
Proof. intros Hne Hl x l'. destruct o; cbn; [congruence|by apply Hl]. Qed.
Lemma no_flag_disks flag ds (k : option string) :
  flag <> "--rwdisk" -> flag <> "--disk" -> no_flag flag (disk_args ds ++ option_list k).
Proof.
  intros Hr Hd x l'. destruct ds as [|[i w] ds]; cbn; [by destruct k|]. destruct w; congruence.
Qed.
#[local] Hint Resolve no_flag_opt no_flag_disks : core.

Lemma config_args_inj (c1 c2 : VmConfig) :
  opt_arg "--bios" (bootloader c1) ++ opt_arg "--initrd" (initrd c1) ++ opt_arg "--params" (params c1)
    ++ disk_args (disks c1) ++ option_list (kernel c1) =
  opt_arg "--bios" (bootloader c2) ++ opt_arg "--initrd" (initrd c2) ++ opt_arg "--params" (params c2)
    ++ disk_args (disks c2) ++ option_list (kernel c2) -> c1 = c2.
Proof.
  intros Heq. apply opt_arg_inj in Heq as [Hb Heq]; [|auto 6..]. apply opt_arg_inj in Heq as [Hi Heq]; [|auto 6..].
  apply opt_arg_inj in Heq as [Hp Heq]; [|auto 6..]. apply disk_args_inj in Heq as [Hd Hk].
  destruct c1, c2; cbn in *. congruence.
Qed.

(** The crosvm command line loses nothing: two configurations, CIDs and log
    descriptors that give the same command are the same, so no field of a VM's
    configuration can be taken for another one, whatever strings it holds. *)
Theorem run_vm_command_inj c1 c2 n1 n2 log1 log2 :
  0 <= n1 -> 0 <= n2 -> run_vm_command c1 n1 log1 = run_vm_command c2 n2 log2 ->
  c1 = c2 ∧ n1 = n2 ∧ log1 = log2.
Proof.
  intros Hn1 Hn2 [= Hn Hargs ->]. apply (inj pretty) in Hn. split_and!; [|lia|done].
  apply app_inv_head in Hargs. by apply config_args_inj.
Qed.

(** ** The manager's promises *)
Lemma as_i32_inj x y : 0 <= x < 2 ^ 32 -> 0 <= y < 2 ^ 32 -> as_i32 x = as_i32 y -> x = y.
Proof.
  intros Hx Hy. unfold as_i32, as_signed. rewrite !Z.mod_small by done.
  destruct (x <? _) eqn:?, (y <? _) eqn:?; lia.
Qed.
Lemma getCid_inj s a b va vb :
  inv s -> heap s !! a = Some va -> heap s !! b = Some vb -> getCid s a = getCid s b -> a = b.
Proof.
  intros Hinv Ha Hb. unfold getCid. rewrite Ha, Hb. cbn. intros [= Heq].
  pose proof (vo_cid _ _ _ (inv_heap _ Hinv a va Ha)). pose proof (vo_cid _ _ _ (inv_heap _ Hinv b vb Hb)).
  pose proof (inv_next _ Hinv). unfold FIRST_GUEST_CID, u32_MAX in *. apply as_i32_inj in Heq; [|lia..].
  destruct (Nat.lt_trichotomy a b) as [Hlt|[->|Hlt]]; [|done|].
  - pose proof (inv_cids _ Hinv a b va vb Ha Hb Hlt). lia.
  - pose proof (inv_cids _ Hinv b a vb va Hb Ha Hlt). lia.
Qed.

(** C16: A CID is never given to two VMs, alive or dead, in any history of
    calls and failures, also as the signed number that [getCid] answers; every
    CID is at least the first guest CID and below 2^32 - 1. *)
Theorem cids_unique s a b va vb :
  reachable s -> heap s !! a = Some va -> heap s !! b = Some vb ->
  FIRST_GUEST_CID <= cid (instance va) < u32_MAX ∧ (getCid s a = getCid s b -> a = b).
Proof.
  intros Hr Ha Hb. apply inv_reachable in Hr as Hinv. split; [|by eapply getCid_inj].
  pose proof (vo_cid _ _ _ (inv_heap _ Hinv a va Ha)). pose proof (inv_next _ Hinv). lia.
Qed.

Lemma omap_filter_seq {B} (P : Vm -> Prop) `{∀ v, Decision (P v)} (f : Vm -> B) (al : nat -> bool) k (h : list Vm) :
  (∀ a v, h !! a = Some v -> al (k + a)%nat = true <-> P v) ->
  omap (λ a, f <$> h !! (a - k)%nat) (filter (λ a, al a = true) (seq k (length h))) = f <$> filter P h.
Proof.
  revert k. induction h as [|v h IH]; intros k Hal; [done|]. cbn [length seq]. rewrite !filter_cons.
  assert (omap (λ a, f <$> (v :: h) !! (a - k)%nat) (filter (λ a, al a = true) (seq (S k) (length h))) =
    f <$> filter P h) as Htl.
  { rewrite <- (IH (S k)) by (intros a w Ha; rewrite Nat.add_succ_comm; by apply Hal).
    apply list_omap_ext, Forall_Forall2_diag, Forall_forall. intros a [_ Ha%elem_of_seq]%list_elem_of_filter.
    by replace (a - k)%nat with (S (a - S k)) by lia. }
  pose proof (Hal 0%nat v eq_refl) as Hv. rewrite Nat.add_0_r in Hv.
  destruct (decide (al k = true)), (decide (P v)); [|tauto..|done].
  cbn [omap list_omap]. rewrite Nat.sub_diag. cbn. by rewrite <- Htl.
Qed.

Definition listed (v : Vm) : bool :=
  negb (dropped v) || match monitor_at v with Finished => false | _ => true end.

(** [debugListVms] lists, for an allowed caller, exactly the VMs whose
    Binder object has not been dropped or whose monitor thread has not finished,
    each once and in the order they were started: the clean-up of dead weak
    references in [add_vm] never loses a live VM. *)
Theorem list_vms_complete s c :
  reachable s -> debug_access_allowed c = true ->
  debugListVms c s = (Ok (debug_info ∘ instance <$> filter (λ v, listed v = true) (heap s)), s).
Proof.
  intros Hr Hc. apply inv_reachable in Hr as Hinv. unfold debugListVms. rewrite Hc. cbn [negb]. do 2 f_equal.
  rewrite (inv_vms _ Hinv).
  rewrite <- (omap_filter_seq (λ v, listed v = true) (debug_info ∘ instance) (alive s) 0).
  - apply list_omap_ext, Forall_Forall2_diag, Forall_forall. intros a _. by rewrite Nat.sub_0_r.
  - intros a v Ha. unfold alive, listed. cbn [Nat.add]. rewrite Ha, (vo_strong _ _ _ (inv_heap _ Hinv a v Ha)).
    by destruct (dropped v), (monitor_at v).
Qed.

(** C12: The manager kills a VM exactly when nobody refers to it: in every
    reachable state [kill] has been called for a VM if and only if no client
    holds a reference to its Binder object and none is held for debugging. *)
Theorem killed_iff_unreferenced s a v :
  reachable s -> heap s !! a = Some v -> killed v = true <-> client_refs v = 0%nat ∧ a ∉ debug_held_vms s.
Proof.
  intros Hr Ha. apply inv_reachable in Hr as Hinv. pose proof (inv_heap _ Hinv a v Ha) as Hok.
  rewrite (vo_killed _ _ _ Hok), (vo_refs _ _ _ Hok). unfold held. rewrite list_elem_of_In, (count_occ_not_In Nat.eq_dec). lia.
Qed.

(** The debug methods are refused to every caller but root and shell, and
    a refused call changes nothing. *)
Theorem debug_methods_protected s c a n :
  calling_uid c <> 0 -> calling_uid c <> 2000 ->
  debugListVms c s = (Err PERMISSION_DENIED, s) ∧ debugHoldVmRef c a s = (Err PERMISSION_DENIED, s) ∧
  debugDropVmRef c n s = (Err PERMISSION_DENIED, s).
Proof.
  intros H0 H2. unfold debugListVms, debugHoldVmRef, debugDropVmRef, debug_access_allowed.
  rewrite bool_decide_false; [done|]. unfold DEBUG_ALLOWED_UIDS. rewrite !elem_of_cons, elem_of_nil. tauto.
Qed.

Lemma died_call_made s s' a v v' cb :
  inv s -> heap s !! a = Some v -> monitor_at v <> Finished -> cb ∈ callbacks (instance v) ->
  rtc step s s' -> heap s' !! a = Some v' -> monitor_at v' = Finished ->
  (cb, as_i32 (cid (instance v))) ∈ died_calls v'.
Proof.
  intros Hinv Ha Hm Hcb Hrun Ha' Hm'.
  set (P := λ w, cid (instance w) = cid (instance v) ∧ cb ∈ callbacks (instance w) ∧
    (monitor_at w = Finished -> (cb, as_i32 (cid (instance v))) ∈ died_calls w)).
  destruct (run_evolves P s s' a v v') as (_ & _ & Hd); [|done|done|done| |done|by apply Hd].
  - intros w w' (Hc & [l Hl] & Hcalls) (HPc & HPcb & HPd). split_and!; [congruence|rewrite Hl; set_solver|].
    intros Hfin. rewrite Hfin in Hcalls. destruct (monitor_at w); [done| |rewrite Hcalls; by apply HPd].
    rewrite Hcalls. apply elem_of_app. right. unfold callback_on_died. rewrite HPc.
    apply list_elem_of_fmap. by exists cb.
  - done.
Qed.

(** A callback registered before the monitor thread has made its calls is
    called: in any interleaving, once the thread has finished, [onDied] was
    called on it with the VM's CID. *)
Theorem died_callback_called s s' a v v' cb :
  reachable s -> heap s !! a = Some v -> monitor_at v <> Finished -> cb ∈ callbacks (instance v) ->
  rtc step s s' -> heap s' !! a = Some v' -> monitor_at v' = Finished ->
  (cb, as_i32 (cid (instance v))) ∈ died_calls v'.
Proof.
  intros Hr. apply inv_reachable in Hr. by apply died_call_made.
Qed.

(** ** A concrete run *)
Module Run.
Definition shell : Caller := {| calling_uid := 2000; calling_sid := Some (Some "u:r:shell:s0"%string); calling_pid := 77 |}.
Definition app : Caller := {| calling_uid := 10001; calling_sid := Some (Some "u:r:app:s0"%string); calling_pid := 78 |}.
Definition config : VmConfig :=
  {| kernel := None; initrd := None; params := None; bootloader := Some "/boot"%string;
     disks := [{| image := "/disk"; writable := false |}]%string |}.
Definition env : StartEnv := {| dup_log_fd := Some 5; config_json := Some config; spawn_child := λ _, Some 1000 |}.

(** Two VMs; the first one dies, then its monitor thread runs to its end. *)
Definition s1 : Sys := (startVm env app (Some 1) (startVm env shell (Some 1) default_sys).2).2.
Definition s2 : Sys := (registerCallback 0 42 s1).2.
Definition s3 : Sys := update 0 monitor_notify (update 0 monitor_store (update 0 child_exit s2)).
Definition vm0 (s : Sys) : Vm := default (fresh_vm (VmInstance_new 0 0 0 "" 0)) (heap s !! 0%nat).
Definition vm1 (s : Sys) : Vm := default (fresh_vm (VmInstance_new 0 0 0 "" 0)) (heap s !! 1%nat).

Lemma s1_reachable : reachable s1.
Proof.
  unfold reachable. eapply rtc_l; [apply (step_start env shell (Some 1))|].
  apply rtc_once. apply (step_start env app (Some 1)).
Qed.
Lemma s2_s3 : rtc step s2 s3.
Proof.
  eapply rtc_l; [apply (step_exit 0)|]. eapply rtc_l; [by eapply (step_store true 0)|].
  apply rtc_once. eapply (step_notify 0); reflexivity.
Qed.
Lemma s2_reachable : reachable s2.
Proof.
  eapply rtc_r; [apply s1_reachable|]. eapply (step_register 0 _ 42); [reflexivity|vm_compute; lia].
Qed.
Lemma s3_reachable : reachable s3.
Proof. unfold reachable. etrans; [apply s2_reachable|apply s2_s3]. Qed.

Lemma cids_unique_witness :
  FIRST_GUEST_CID <= cid (instance (vm0 s1)) < u32_MAX ∧ (getCid s1 0 = getCid s1 1 -> 0%nat = 1%nat).
Proof.
  refine (cids_unique s1 0 1 (vm0 s1) (vm1 s1) s1_reachable _ _); reflexivity.
Defined.
Lemma list_vms_complete_witness :
  debugListVms shell s1 = (Ok (debug_info ∘ instance <$> filter (λ v, listed v = true) (heap s1)), s1).
Proof. refine (list_vms_complete s1 shell s1_reachable _). reflexivity. Defined.
Lemma killed_iff_unreferenced_witness :
  killed (vm0 s1) = true <-> client_refs (vm0 s1) = 0%nat ∧ 0%nat ∉ debug_held_vms s1.
Proof. refine (killed_iff_unreferenced s1 0 (vm0 s1) s1_reachable _). reflexivity. Defined.
Lemma debug_methods_protected_witness :
  debugListVms app s1 = (Err PERMISSION_DENIED, s1) ∧ debugHoldVmRef app 0 s1 = (Err PERMISSION_DENIED, s1) ∧
  debugDropVmRef app 10 s1 = (Err PERMISSION_DENIED, s1).
Proof. apply (debug_methods_protected s1 app 0 10); discriminate. Defined.
Lemma died_callback_called_witness : (42, as_i32 (cid (instance (vm0 s2)))) ∈ died_calls (vm0 s3).
Proof.
  refine (died_callback_called s2 s3 0 (vm0 s2) (vm0 s3) 42 s2_reachable _ _ _ s2_s3 _ _).
  - reflexivity.
  - discriminate.
  - apply list_elem_of_here.
  - reflexivity.
  - reflexivity.
Defined.
Lemma run_vm_command_inj_witness : config = config ∧ 10 = 10 ∧ Some 5 = Some 5.
Proof. apply (run_vm_command_inj config config 10 10 (Some 5) (Some 5)); [lia|lia|reflexivity]. Defined.
End Run.
