(* ===== verification/VirtSpec.v ===== *)
(** * virtmanager: what the service promises

    An abstract specification of the manager: the VMs in the order they were
    started, each with its owner, the number of references to it and how far
    its end has been told.  There are no addresses, weak references, strong
    counts, processes or threads in it.  The system of [VirtManager], with
    what its methods answer as labels, refines it: every history has the very
    answers, kills and notifications of the specification. *)

From S2P Require Import Prelude Io Service Parse VirtManager.

(** ** The specification *)
Inductive phase := Up | Ended | Told.
Record entry := {
  e_cid : Z; e_uid : Z; e_sid : string; e_pid : Z; e_clients : nat; e_held : nat; e_phase : phase; e_watchers : list Z
}.
Record registry := { issued : Z; entries : list entry }.
Definition empty_registry : registry := {| issued := FIRST_GUEST_CID; entries := [] |}.

Definition info (e : entry) : VirtualMachineDebugInfo :=
  {| info_cid := as_i32 (e_cid e); requesterUid := as_i32 (e_uid e); requesterSid := e_sid e; requesterPid := e_pid e;
     info_running := match e_phase e with Up => true | _ => false end |}.
(** Listed as long as somebody refers to it or its end has not been told. *)
Definition visible (e : entry) : bool :=
  negb (e_clients e + e_held e =? 0)%nat || match e_phase e with Told => false | _ => true end.

Definition with_refs (clients held : nat) (e : entry) : entry :=
  {| e_cid := e_cid e; e_uid := e_uid e; e_sid := e_sid e; e_pid := e_pid e; e_clients := clients; e_held := held;
     e_phase := e_phase e; e_watchers := e_watchers e |}.
Definition with_phase (p : phase) (e : entry) : entry :=
  {| e_cid := e_cid e; e_uid := e_uid e; e_sid := e_sid e; e_pid := e_pid e; e_clients := e_clients e;
     e_held := e_held e; e_phase := p; e_watchers := e_watchers e |}.
Definition with_watcher (cb : Z) (e : entry) : entry :=
  {| e_cid := e_cid e; e_uid := e_uid e; e_sid := e_sid e; e_pid := e_pid e; e_clients := e_clients e;
     e_held := e_held e; e_phase := e_phase e; e_watchers := e_watchers e ++ [cb] |}.
Definition set_entry (r : registry) (a : nat) (e : entry) : registry :=
  {| issued := issued r; entries := <[a := e]> (entries r) |}.

(** What is seen of the manager: the answers of its methods, the copies and
    drops of references with whether the VM is killed, the end of a VM, and the
    [onDied] calls. *)
Inductive event :=
| Start (c : Caller) (answer : outcome StatusCode nat)
| ListVms (c : Caller) (answer : outcome StatusCode (list VirtualMachineDebugInfo))
| Hold (c : Caller) (a : nat) (answer : outcome StatusCode unit)
| DropHeld (c : Caller) (n : Z) (answer : outcome StatusCode (option nat))
| GetCid (a : nat) (answer : Z)
| IsRunning (a : nat) (answer : bool)
| Register (a : nat) (cb : Z)
| Copy (a : nat)
| Drop (a : nat) (kills : bool)
| End (a : nat)
| Tell (a : nat) (calls : list (Z * Z)).

Definition denied (e : event) : Prop :=
  match e with
  | ListVms c r => debug_access_allowed c = false ∧ r = Err PERMISSION_DENIED
  | Hold c _ r => debug_access_allowed c = false ∧ r = Err PERMISSION_DENIED
  | DropHeld c _ r => debug_access_allowed c = false ∧ r = Err PERMISSION_DENIED
  | _ => False
  end.

Inductive registry_step (r : registry) : event -> registry -> Prop :=
| sp_start c sid :
    calling_sid c = Some (Some sid) -> issued r < u32_MAX ->
    registry_step r (Start c (Ok (length (entries r))))
      {| issued := issued r + 1;
         entries := entries r ++ [{| e_cid := issued r; e_uid := calling_uid c; e_sid := sid; e_pid := calling_pid c;
                                     e_clients := 1; e_held := 0; e_phase := Up; e_watchers := [] |}] |}
(** a failed start may have used a number up *)
| sp_start_failed c e used :
    (used = 0 ∨ used = 1 ∧ issued r < u32_MAX) ->
    registry_step r (Start c (Err e)) {| issued := issued r + used; entries := entries r |}
| sp_denied ev : denied ev -> registry_step r ev r
| sp_list c :
    debug_access_allowed c = true ->
    registry_step r (ListVms c (Ok (info <$> filter (λ e, visible e = true) (entries r)))) r
| sp_hold c a e :
    debug_access_allowed c = true -> entries r !! a = Some e -> (0 < e_clients e)%nat ->
    registry_step r (Hold c a (Ok ())) (set_entry r a (with_refs (e_clients e) (S (e_held e)) e))
(** a reference goes from the manager to the caller *)
| sp_drop_held c n a e :
    debug_access_allowed c = true -> entries r !! a = Some e -> (0 < e_held e)%nat -> as_i32 (e_cid e) = n ->
    registry_step r (DropHeld c n (Ok (Some a))) (set_entry r a (with_refs (S (e_clients e)) (e_held e - 1) e))
| sp_none_held c n :
    debug_access_allowed c = true ->
    (∀ a e, entries r !! a = Some e -> (0 < e_held e)%nat -> as_i32 (e_cid e) <> n) ->
    registry_step r (DropHeld c n (Ok None)) r
| sp_cid a e : entries r !! a = Some e -> registry_step r (GetCid a (as_i32 (e_cid e))) r
| sp_running a e :
    entries r !! a = Some e -> registry_step r (IsRunning a match e_phase e with Up => true | _ => false end) r
| sp_register a e cb :
    entries r !! a = Some e -> (0 < e_clients e)%nat ->
    registry_step r (Register a cb) (set_entry r a (with_watcher cb e))
| sp_copy a e :
    entries r !! a = Some e -> (0 < e_clients e)%nat ->
    registry_step r (Copy a) (set_entry r a (with_refs (S (e_clients e)) (e_held e) e))
(** the last reference kills the VM *)
| sp_drop a e :
    entries r !! a = Some e -> (0 < e_clients e)%nat ->
    registry_step r (Drop a (e_clients e + e_held e =? 1)%nat) (set_entry r a (with_refs (e_clients e - 1) (e_held e) e))
| sp_end a e :
    entries r !! a = Some e -> e_phase e = Up -> registry_step r (End a) (set_entry r a (with_phase Ended e))
(** every watcher so far is told, once *)
| sp_tell a e :
    entries r !! a = Some e -> e_phase e = Ended ->
    registry_step r (Tell a ((λ cb, (cb, as_i32 (e_cid e))) <$> e_watchers e)) (set_entry r a (with_phase Told e)).

Inductive registry_history : list event -> registry -> Prop :=
| spec_new : registry_history [] empty_registry
| spec_next es r e r' : registry_history es r -> registry_step r e r' -> registry_history (es ++ [e]) r'.

(** ** The system, with what is seen of its steps *)
Inductive labelled (s : Sys) : option event -> Sys -> Prop :=
| lb_start env c log r s' : startVm env c log s = (r, s') -> labelled s (Some (Start c r)) s'
| lb_list c r s' : debugListVms c s = (r, s') -> labelled s (Some (ListVms c r)) s'
| lb_hold c a v r s' :
    heap s !! a = Some v -> (0 < client_refs v)%nat -> debugHoldVmRef c a s = (r, s') -> labelled s (Some (Hold c a r)) s'
| lb_drop_held c n r s' : debugDropVmRef c n s = (r, s') -> labelled s (Some (DropHeld c n r)) s'
| lb_cid a n : getCid s a = Some n -> labelled s (Some (GetCid a n)) s
| lb_running a b : isRunning s a = Some b -> labelled s (Some (IsRunning a b)) s
| lb_register a v cb r s' :
    heap s !! a = Some v -> (0 < client_refs v)%nat -> registerCallback a cb s = (r, s') ->
    labelled s (Some (Register a cb)) s'
| lb_copy a v : heap s !! a = Some v -> (0 < client_refs v)%nat -> labelled s (Some (Copy a)) (update a copy_ref s)
| lb_drop kill_ok a v v' :
    heap s !! a = Some v -> (0 < client_refs v)%nat -> heap (drop_ref kill_ok a s) !! a = Some v' ->
    labelled s (Some (Drop a (killed v'))) (drop_ref kill_ok a s)
| lb_exit a : labelled s None (update a child_exit s)
| lb_end wait_ok a v :
    heap s !! a = Some v -> monitor_at v = Waiting -> wait_returns wait_ok v ->
    labelled s (Some (End a)) (update a monitor_store s)
| lb_tell a v :
    heap s !! a = Some v -> monitor_at v = Stored ->
    labelled s (Some (Tell a (callback_on_died (cid (instance v)) (callbacks (instance v))))) (update a monitor_notify s).

Inductive history : list event -> Sys -> Prop :=
| history_new : history [] default_sys
| history_next es s e s' : history es s -> labelled s e s' -> history (es ++ option_list e) s'.

(** The labels leave out no step and add none. *)
Lemma labelled_step s e s' : labelled s e s' -> rtc step s s'.
Proof.
  destruct 1; try reflexivity; apply rtc_once;
    try match goal with Hr : ?f s = (_, ?s') |- _ => replace s' with (f s).2 by (by rewrite Hr) end;
    econstructor; eassumption.
Qed.
Lemma step_labelled s s' : step s s' -> ∃ e, labelled s e s'.
Proof.
  destruct 1 as [env c log s|c s|c a v s Ha Hc|c n s|a v cb s Ha Hc|a v s Ha Hc|k a v s Ha Hc|a s|ok a v s Ha Hm Hal|a v s Ha Hm].
  - destruct (startVm env c log s) eqn:Hr. eexists. by eapply lb_start.
  - destruct (debugListVms c s) eqn:Hr. eexists. by eapply lb_list.
  - destruct (debugHoldVmRef c a s) eqn:Hr. eexists. by eapply lb_hold.
  - destruct (debugDropVmRef c n s) eqn:Hr. eexists. by eapply lb_drop_held.
  - destruct (registerCallback a cb s) eqn:Hr. eexists. by eapply lb_register.
  - eexists. by eapply lb_copy.
  - eexists. eapply lb_drop; [done|done|]. unfold drop_ref. by rewrite update_lookup, decide_True, Ha.
  - eexists. by eapply lb_exit.
  - eexists. by eapply lb_end.
  - eexists. by eapply lb_tell.
Qed.
Lemma history_reachable es s : history es s -> reachable s.
Proof.
  induction 1 as [|es s e s' _ IH Hl]; [constructor|]. unfold reachable. etrans; [exact IH|by eapply labelled_step].
Qed.

(** ** The refinement *)
Definition phase_of (m : Monitor) : phase := match m with Waiting => Up | Stored => Ended | Finished => Told end.
Definition entry_of (s : Sys) (a : nat) (v : Vm) : entry :=
  {| e_cid := cid (instance v); e_uid := requester_uid (instance v); e_sid := requester_sid (instance v);
     e_pid := requester_debug_pid (instance v); e_clients := client_refs v; e_held := held s a;
     e_phase := phase_of (monitor_at v); e_watchers := callbacks (instance v) |}.
Definition registry_of (s : Sys) : registry := {| issued := next_cid s; entries := imap (entry_of s) (heap s) |}.

Lemma entry_lookup s a : entries (registry_of s) !! a = entry_of s a <$> heap s !! a.
Proof. apply list_lookup_imap. Qed.
Lemma entry_some s a v : heap s !! a = Some v -> entries (registry_of s) !! a = Some (entry_of s a v).
Proof. intros Ha. by rewrite entry_lookup, Ha. Qed.

(** A change of one VM is a change of its entry. *)
Lemma registry_change s a f hs v :
  heap s !! a = Some v -> (∀ b, b <> a -> count_occ Nat.eq_dec hs b = held s b) ->
  let s' := update a f {| next_cid := next_cid s; vms := vms s; debug_held_vms := hs; heap := heap s |} in
  registry_of s' = set_entry (registry_of s) a (entry_of s' a (f v)).
Proof.
  intros Ha Hhs s'. unfold registry_of at 1, set_entry. f_equal. apply list_eq. intros b.
  rewrite list_lookup_imap. change (heap s') with (alter f a (heap s)). destruct (decide (b = a)) as [->|Hne].
  - rewrite list_lookup_alter_eq, Ha. cbn [fmap option_fmap option_map]. rewrite list_lookup_insert_eq; [done|].
    apply lookup_lt_is_Some. rewrite entry_lookup, Ha. by eexists.
  - rewrite list_lookup_alter_ne, list_lookup_insert_ne, entry_lookup by done.
    destruct (heap s !! b) as [w|]; [|done]. cbn. unfold entry_of, held at 1. cbn. by rewrite Hhs.
Qed.
Lemma registry_update s a f v :
  heap s !! a = Some v ->
  registry_of (update a f s) = set_entry (registry_of s) a (entry_of s a (f v)).
Proof. intros Ha. destruct s as [nc vs hs hp]. by apply (registry_change {| next_cid := nc; vms := vs; debug_held_vms := hs; heap := hp |} a f hs v). Qed.

Lemma refine_start env c log s r s' :
  inv s -> startVm env c log s = (r, s') -> registry_step (registry_of s) (Start c r) (registry_of s').
Proof.
  intros Hinv Hs. destruct (startVm_cases _ _ _ _ _ _ Hinv Hs)
    as [(i & cfg & lg & -> & Hmax & -> & _ & _ & _ & Hsid & Hcid & _ & Hcb & Huid & Hpid)|[[e ->] Hf]].
  - assert (registry_of (started s i) = {| issued := issued (registry_of s) + 1;
      entries := entries (registry_of s) ++ [entry_of s (length (heap s)) (fresh_vm i)] |}) as ->.
    { unfold registry_of, started. cbn. f_equal. rewrite imap_app. f_equal. cbn. by rewrite Nat.add_0_r. }
    unfold entry_of. cbn [fresh_vm instance client_refs monitor_at phase_of]. rewrite (held_lt s) by done.
    rewrite Hcid, Huid, Hpid, Hcb.
    replace (length (heap s)) with (length (entries (registry_of s))) by apply length_imap.
    apply sp_start; [done|cbn; lia].
  - destruct Hf as [->|[Hmax ->]].
    + replace (registry_of s) with {| issued := issued (registry_of s) + 0; entries := entries (registry_of s) |} at 2
        by (unfold registry_of; cbn; f_equal; lia).
      apply sp_start_failed. by left.
    + apply (sp_start_failed (registry_of s) c e 1). right. cbn. split; [done|lia].
Qed.

(** Filtering and printing the entries, or the instances they stand for. *)
Lemma filter_imap {A B C} (f : nat -> A -> B) (P : A -> Prop) (Q : B -> Prop) `{∀ x, Decision (P x)}
    `{∀ y, Decision (Q y)} (g : A -> C) (h : B -> C) l :
  (∀ i x, l !! i = Some x -> (Q (f i x) <-> P x) ∧ h (f i x) = g x) ->
  h <$> filter Q (imap f l) = g <$> filter P l.
Proof.
  revert f. induction l as [|x l IH]; intros f Hf; [done|]. cbn [imap]. rewrite !filter_cons.
  destruct (Hf O x eq_refl) as [Hx Hg]. pose proof (IH (f ∘ S) (λ i y Hy, Hf (S i) y Hy)) as Htl.
  destruct (decide (Q (f O x))), (decide (P x)); [|tauto..|exact Htl]. cbn. by rewrite Hg, <- Htl.
Qed.
Lemma refine_list c s r s' :
  reachable s -> debugListVms c s = (r, s') -> registry_step (registry_of s) (ListVms c r) (registry_of s').
Proof.
  intros Hr Hl. apply inv_reachable in Hr as Hinv. destruct (debug_access_allowed c) eqn:Hc.
  2: { unfold debugListVms in Hl. rewrite Hc in Hl. injection Hl as <- <-. by apply sp_denied. }
  rewrite list_vms_complete in Hl by done. injection Hl as <- <-.
  rewrite <- (filter_imap (entry_of s) (λ v, listed v = true) (λ e, visible e = true) (debug_info ∘ instance) info);
    [by apply sp_list|].
  intros a v Ha. pose proof (inv_heap _ Hinv a v Ha) as [_ _ Hd _ Hrun _]. split.
  - unfold visible, listed. cbn. assert ((client_refs v + held s a =? 0)%nat = dropped v) as ->.
    { apply eq_true_iff_eq. by rewrite Nat.eqb_eq, Hd. }
    by destruct (monitor_at v).
  - unfold info, debug_info. cbn. rewrite Hrun. by destruct (monitor_at v).
Qed.

Lemma refine_hold c a v s r s' :
  heap s !! a = Some v -> (0 < client_refs v)%nat -> debugHoldVmRef c a s = (r, s') ->
  registry_step (registry_of s) (Hold c a r) (registry_of s').
Proof.
  intros Ha Hc. unfold debugHoldVmRef. destruct (debug_access_allowed c) eqn:Hacc; cbn [negb].
  2: { intros [= <- <-]. by apply sp_denied. }
  intros [= <- <-]. pose proof (registry_change s a (λ v, v) (debug_held_vms s ++ [a]) v Ha) as Hch.
  unfold update, set_heap in Hch. cbn [heap vms debug_held_vms next_cid] in Hch. rewrite list_alter_id in Hch by done.
  rewrite Hch.
  - eassert (entry_of _ a v = with_refs _ (S (held s a)) (entry_of s a v)) as ->;
      [|by apply sp_hold; [done|apply entry_some|]].
    unfold entry_of, with_refs, held. cbn [debug_held_vms e_cid e_uid e_sid e_pid e_clients e_held e_phase e_watchers].
    by rewrite count_occ_app, count_occ_cons_eq, count_occ_nil, Nat.add_1_r.
  - intros b Hb. unfold held. rewrite count_occ_app. cbn. destruct (Nat.eq_dec a b); [done|lia].
Qed.

Lemma refine_drop_held c n s r s' :
  inv s -> debugDropVmRef c n s = (r, s') -> registry_step (registry_of s) (DropHeld c n r) (registry_of s').
Proof.
  intros Hinv. unfold debugDropVmRef. destruct (debug_access_allowed c) eqn:Hacc; cbn [negb].
  2: { intros [= <- <-]. by apply sp_denied. }
  unfold debug_drop_vm. destruct (list_find _ _) as [[pos a]|] eqn:Hfind.
  - intros [= <- <-]. apply list_find_Some in Hfind as (Hpos & Hcid & _).
    pose proof (swap_remove_perm _ _ _ Hpos) as Hperm. unfold getCid in Hcid. apply fmap_Some in Hcid as (v & Ha & ->).
    assert (∀ b, held s b = count_occ Nat.eq_dec (a :: swap_remove (debug_held_vms s) pos) b) as Hocc
      by (intros b; unfold held; by apply Permutation_count_occ).
    rewrite (registry_change s a _ (swap_remove (debug_held_vms s) pos) v Ha)
      by (intros b Hb; by rewrite Hocc, count_occ_cons_neq).
    pose proof (Hocc a) as Hoa. rewrite count_occ_cons_eq in Hoa by done.
    eassert (entry_of _ a _ = with_refs (S (client_refs v)) (held s a - 1) (entry_of s a v)) as ->.
    + unfold entry_of, with_refs. cbn. f_equal. unfold held in *. cbn. lia.
    + apply sp_drop_held; [done|by apply entry_some|cbn; lia|done].
  - intros [= <- <-]. apply sp_none_held; [done|]. intros a e He Hheld Hn. apply list_find_None in Hfind.
    rewrite entry_lookup in He. apply fmap_Some in He as (v & Ha & ->). cbn in Hheld, Hn.
    assert (a ∈ debug_held_vms s) as Hin by (apply list_elem_of_In, (count_occ_In Nat.eq_dec); exact Hheld).
    rewrite Forall_forall in Hfind. apply (Hfind a Hin). unfold getCid. rewrite Ha. cbn. by rewrite Hn.
Qed.

Lemma refine_drop kill_ok a v v' s :
  inv s -> heap s !! a = Some v -> (0 < client_refs v)%nat -> heap (drop_ref kill_ok a s) !! a = Some v' ->
  registry_step (registry_of s) (Drop a (killed v')) (registry_of (drop_ref kill_ok a s)).
Proof.
  intros Hinv Ha Hc Hv'. unfold drop_ref in *. rewrite update_lookup, decide_True, Ha in Hv' by done.
  injection Hv' as Hv'. rewrite (registry_update s a _ v Ha). pose proof (inv_heap _ Hinv a v Ha) as [_ _ Hd Hk _ _].
  assert (dropped v = false) as Hnd by (apply not_true_is_false; intros Hdr%Hd; lia).
  assert (killed v' = (client_refs v + held s a =? 1)%nat) as ->.
  { subst v'. cbn. destruct (Nat.eqb_spec (client_refs v - 1 + held s a) 0); cbn.
    - symmetry. apply Nat.eqb_eq. lia.
    - rewrite Hk, Hnd. symmetry. apply Nat.eqb_neq. lia. }
  match goal with |- registry_step _ _ (set_entry _ _ ?e) =>
    assert (e = with_refs (client_refs v - 1) (held s a) (entry_of s a v)) as -> by (cbn; by destruct (_ =? _)%nat) end.
  apply (sp_drop _ a (entry_of s a v)); [by apply entry_some|done].
Qed.

Lemma labelled_refines s e s' :
  reachable s -> labelled s (Some e) s' -> registry_step (registry_of s) e (registry_of s').
Proof.
  intros Hr Hl. apply inv_reachable in Hr as Hinv. inversion Hl; subst.
  - by eapply refine_start.
  - by eapply refine_list.
  - by eapply refine_hold.
  - by eapply refine_drop_held.
  - match goal with Hg : getCid _ _ = _ |- _ => unfold getCid in Hg; apply fmap_Some in Hg as (v & Ha & ->) end.
    apply (sp_cid _ a (entry_of s' a v)). by apply entry_some.
  - match goal with Hg : isRunning _ _ = _ |- _ => unfold isRunning in Hg; apply fmap_Some in Hg as (v & Ha & ->) end.
    pose proof (vo_running _ _ _ (inv_heap _ Hinv a v Ha)) as Hrun. cbn. unfold VmInstance_running. rewrite Hrun.
    pose proof (sp_running (registry_of s') a (entry_of s' a v) (entry_some _ _ _ Ha)) as Hsp.
    cbn in Hsp. by destruct (monitor_at v).
  - match goal with Hg : registerCallback _ _ _ = _ |- _ => injection Hg as <- <- end.
    rewrite (registry_update s a _ v) by done. apply (sp_register _ a (entry_of s a v)); [by apply entry_some|done].
  - rewrite (registry_update s a _ v) by done. apply (sp_copy _ a (entry_of s a v)); [by apply entry_some|done].
  - by eapply refine_drop.
  - rewrite (registry_update s a _ v) by done. apply (sp_end _ a (entry_of s a v)); [by apply entry_some|].
    cbn. by match goal with Hm : monitor_at v = _ |- _ => rewrite Hm end.
  - rewrite (registry_update s a _ v) by done. apply (sp_tell _ a (entry_of s a v)); [by apply entry_some|].
    cbn. by match goal with Hm : monitor_at v = _ |- _ => rewrite Hm end.
Qed.
(** The exit of a child is not seen. *)
Lemma silent_same s s' : labelled s None s' -> registry_of s' = registry_of s.
Proof.
  inversion 1; subst. destruct (heap s !! a) as [v|] eqn:Ha; [|by rewrite update_none].
  rewrite (registry_update s a _ v Ha). unfold set_entry, registry_of. cbn. f_equal. apply list_insert_id.
  by rewrite list_lookup_imap, Ha.
Qed.
Lemma manager_history_refines es s : history es s -> registry_history es (registry_of s).
Proof.
  induction 1 as [|es s [e|] s' Hh IH Hl]; [constructor| |].
  - eapply spec_next; [exact IH|]. apply labelled_refines; [by eapply history_reachable|done].
  - cbn. by rewrite app_nil_r, (silent_same _ _ Hl).
Qed.

(** ** Consequences, from the specification alone *)

(** The events that use a reference to the VM. *)
Definition refers (a : nat) (ev : event) : Prop :=
  match ev with
  | Hold _ b (Ok _) | DropHeld _ _ (Ok (Some b)) | Register b _ | Copy b | Drop b _ => b = a
  | _ => False
  end.

(** What an entry keeps for ever, and what it then excludes. *)
Definition unreferenced (e : entry) : Prop := e_clients e = 0%nat ∧ e_held e = 0%nat.
Definition ended (e : entry) : Prop := e_phase e <> Up.
Definition told (e : entry) : Prop := e_phase e = Told.
Definition at_entry (P : entry -> Prop) (a : nat) (r : registry) : Prop := ∃ e, entries r !! a = Some e ∧ P e.

Lemma set_entry_lookup r a e b :
  is_Some (entries r !! a) -> entries (set_entry r a e) !! b = if decide (b = a) then Some e else entries r !! b.
Proof.
  intros Ha%lookup_lt_is_Some. cbn. case_decide; [subst; by apply list_lookup_insert_eq|by apply list_lookup_insert_ne].
Qed.
(** A step leaves an entry as it is, or replaces it as its event says. *)
Lemma registry_step_entry r ev r' b e :
  registry_step r ev r' -> entries r !! b = Some e ->
  entries r' !! b = Some e ∨
  ∃ e', entries r' !! b = Some e' ∧
    (refers b ev ∧ e_phase e' = e_phase e ∧ ((0 < e_clients e)%nat ∨ (0 < e_held e)%nat) ∨
     ev = End b ∧ e_phase e = Up ∧ e' = with_phase Ended e ∨
     (∃ calls, ev = Tell b calls) ∧ e_phase e = Ended ∧ e' = with_phase Told e).
Proof.
  intros Hs He. destruct Hs; try (by left); try (left; cbn; by apply lookup_app_l_Some).
  all: rewrite set_entry_lookup by (by eexists); (case_decide; [subst b; simplify_eq; right; eexists; split; [done|]|by left]).
  all: try (left; split; [done|split; [done|auto]]; fail).
  - right. left. done.
  - right. right. split; [by eexists|done].
Qed.
Lemma unreferenced_step r ev r' a :
  registry_step r ev r' -> at_entry unreferenced a r -> ¬ refers a ev ∧ at_entry unreferenced a r'.
Proof.
  intros Hs (e & He & Hc & Hh). split.
  - intros Href. destruct Hs; cbn in Href; try done; subst; simplify_eq; try lia.
    by destruct ev as [| |? ? []|? ? []| | | | | | |]; cbn in *; naive_solver.
  - destruct (registry_step_entry _ _ _ _ _ Hs He) as [He'|(e' & He' & [(_ & _ & ?)|[(_ & _ & ->)|(_ & _ & ->)]])];
      [by exists e|lia|by eexists..].
Qed.
Lemma ended_step r ev r' a :
  registry_step r ev r' -> at_entry ended a r -> (ev <> End a ∧ ev <> IsRunning a true) ∧ at_entry ended a r'.
Proof.
  intros Hs (e & He & Hp). split.
  - unfold ended in Hp. split; intros ->; inversion Hs as [| |? Hd| | | | | |? e0 He0 Hrun| | | |? e0 He0|]; subst;
      try done.
    + congruence.
    + assert (e0 = e) as -> by congruence. by destruct (e_phase e).
  - destruct (registry_step_entry _ _ _ _ _ Hs He) as [He'|(e' & He' & [(_ & Hph & _)|[(_ & _ & ->)|(_ & _ & ->)]])];
      [by exists e|exists e'; split; [done|unfold ended; by rewrite Hph]|by eexists..].
Qed.
Lemma told_step r ev r' a :
  registry_step r ev r' -> at_entry told a r -> (∀ calls, ev <> Tell a calls) ∧ at_entry told a r'.
Proof.
  intros Hs (e & He & Hp). unfold told in Hp. split.
  - intros calls ->. inversion Hs; subst; simplify_eq; try done. congruence.
  - destruct (registry_step_entry _ _ _ _ _ Hs He) as [He'|(e' & He' & [(_ & Hph & _)|[(_ & ? & _)|(_ & ? & ->)]])];
      [by exists e|exists e'; split; [done|unfold told; congruence]|congruence|congruence].
Qed.

(** What holds of an entry after one event, and is kept, excludes for the rest
    of the history what it excludes in a step. *)
Lemma spec_rest (I : registry -> Prop) (bad : event -> Prop) ev :
  (∀ r r', registry_step r ev r' -> I r') -> (∀ r e r', registry_step r e r' -> I r -> ¬ bad e ∧ I r') ->
  ∀ es1 es2 r, registry_history (es1 ++ ev :: es2) r -> (∀ e, e ∈ es2 -> ¬ bad e) ∧ I r.
Proof.
  intros Hev Hstep es1 es2. induction es2 as [|e es2 IH] using rev_ind; intros r Hh.
  - split; [by intros e ?%elem_of_nil|]. inversion Hh as [Hnil|es r0 e r1 Hh0 Hs Heq]; subst; [by destruct es1|].
    apply app_inj_2 in Heq as [_ [= ->]]; [|done]. by eapply Hev.
  - rewrite app_comm_cons, app_assoc in Hh. inversion Hh as [Hnil|es r0 e1 r1 Hh0 Hs Heq]; subst; [by destruct es1|].
    apply app_inj_2 in Heq as [-> [= ->]]; [|done]. destruct (IH _ Hh0) as [Hb Hi].
    destruct (Hstep _ _ _ Hs Hi) as [Hn Hi']. split; [|done].
    intros e' [He'|He'%list_elem_of_singleton]%elem_of_app; [by apply Hb|by subst].
Qed.

Lemma kill_unreferences r a r' : registry_step r (Drop a true) r' -> at_entry unreferenced a r'.
Proof.
  inversion 1 as [| |ev Hd| | | | | | | | |b e He Hc| |]; subst; [done|].
  exists (with_refs (e_clients e - 1) (e_held e) e). rewrite set_entry_lookup, decide_True by (done || by eexists).
  split; [done|]. unfold unreferenced. cbn.
  match goal with Hk : (_ =? 1)%nat = true |- _ => apply Nat.eqb_eq in Hk end. lia.
Qed.
Lemma end_ends r a r' : registry_step r (End a) r' -> at_entry ended a r'.
Proof.
  inversion 1 as [| |ev Hd| | | | | | | | | |b e He Hp|]; subst; [done|].
  exists (with_phase Ended e). by rewrite set_entry_lookup, decide_True by (done || by eexists).
Qed.
Lemma tell_tells r a calls r' : registry_step r (Tell a calls) r' -> at_entry told a r'.
Proof.
  inversion 1 as [| |ev Hd| | | | | | | | | | |b e He Hp]; subst; [done|].
  exists (with_phase Told e). by rewrite set_entry_lookup, decide_True by (done || by eexists).
Qed.

(** ** Claims *)

(** C10: the manager implements its specification.  In every history of calls,
    copies and drops of references, exits and monitor threads, the answers of
    the methods, the kills and the [onDied] calls are those of the
    specification, which goes through the states that the system stands for:
    new CIDs in order, a kill with the last reference and not before, one
    round of calls to every callback registered until then, and listings of
    what is referred to or not yet told. *)
Theorem virtmanager_refines es s : history es s -> registry_history es (registry_of s).
Proof. apply manager_history_refines. Qed.

(** C17: endings are final.  Once a drop has killed a VM, no later event of the
    history uses a reference to it; once it has ended, it is never again
    reported as running and does not end again; once its callbacks have been
    called, they are not called again. *)
Theorem vm_ends_once es1 ev es2 s a :
  history (es1 ++ ev :: es2) s ->
  (ev = Drop a true -> ∀ e, e ∈ es2 -> ¬ refers a e) ∧
  (ev = End a -> ∀ e, e ∈ es2 -> e <> End a ∧ e <> IsRunning a true) ∧
  (∀ calls, ev = Tell a calls -> ∀ calls', Tell a calls' ∉ es2).
Proof.
  intros Hh%manager_history_refines. split_and!.
  - intros ->. eapply (spec_rest (at_entry unreferenced a) (refers a)); [|by intros; eapply unreferenced_step|exact Hh].
    intros; by eapply kill_unreferences.
  - intros -> e He. split; intros ->.
    + eapply (spec_rest (at_entry ended a) (λ e, e = End a)); [| |exact Hh|exact He|done].
      * intros; by eapply end_ends.
      * intros r e r' Hs Hi. destruct (ended_step _ _ _ _ Hs Hi) as [[? ?] ?]. done.
    + eapply (spec_rest (at_entry ended a) (λ e, e = IsRunning a true)); [| |exact Hh|exact He|done].
      * intros; by eapply end_ends.
      * intros r e r' Hs Hi. destruct (ended_step _ _ _ _ Hs Hi) as [[? ?] ?]. done.
  - intros calls -> calls' Hin.
    eapply (spec_rest (at_entry told a) (λ e, ∃ cs, e = Tell a cs)); [| |exact Hh|exact Hin|by eexists].
    + intros; by eapply tell_tells.
    + intros r e r' Hs Hi. destruct (told_step _ _ _ _ Hs Hi) as [Hn ?]. split; [|done]. by intros [cs ?%Hn].
Qed.

(** The listing is not of the VMs that have references: a VM that nobody refers
    to is listed until its monitor thread, which has a reference of its own,
    has finished; with a child that could not be killed, for ever. *)
Theorem unreferenced_vm_listed s a v c :
  reachable s -> debug_access_allowed c = true -> heap s !! a = Some v ->
  client_refs v = 0%nat -> a ∉ debug_held_vms s -> monitor_at v <> Finished ->
  ∃ l, debugListVms c s = (Ok l, s) ∧ debug_info (instance v) ∈ l.
Proof.
  intros Hr Hc Ha _ _ Hm. rewrite list_vms_complete by done. eexists. split; [done|].
  apply list_elem_of_fmap. exists v. split; [done|]. apply list_elem_of_filter.
  split; [|by eapply list_elem_of_lookup_2]. unfold listed. destruct (dropped v); [|done]. by destruct (monitor_at v).
Qed.

(** ** A concrete history *)
Module Lifetime.
Import VirtManager.Run.

(** Started, then dropped by its only client; listed as long as it runs. *)
Definition t1 : Sys := (startVm env shell (Some 1) default_sys).2.
Definition t2 : Sys := drop_ref true 0 t1.
Definition t3 : Sys := update 0 monitor_notify (update 0 monitor_store t2).
Definition shell_vm : VirtualMachineDebugInfo :=
  {| info_cid := 10; requesterUid := 2000; requesterSid := "u:r:shell:s0"; requesterPid := 77; info_running := true |}.

Lemma dropped_history : history [Start shell (Ok 0%nat); Drop 0 true] t2.
Proof.
  eapply (history_next [Start shell (Ok 0%nat)] t1 (Some (Drop 0 true))).
  - eapply (history_next [] default_sys (Some (Start shell (Ok 0%nat)))); [constructor|].
    apply (lb_start _ env shell (Some 1)). vm_compute. reflexivity.
  - eapply (lb_drop _ true 0 (vm0 t1) (vm0 t2)); [reflexivity|vm_compute; lia|reflexivity].
Qed.
Definition t3_events : list event :=
  [Start shell (Ok 0%nat); Drop 0 true; ListVms shell (Ok [shell_vm]); End 0; Tell 0 []; ListVms shell (Ok [])].
Lemma t3_history : history t3_events t3.
Proof.
  eapply (history_next (take 5 t3_events) t3 (Some (ListVms shell (Ok []))));
    [|apply lb_list; vm_compute; reflexivity].
  eapply (history_next (take 4 t3_events) (update 0 monitor_store t2) (Some (Tell 0 [])));
    [|eapply (lb_tell _ 0 (vm0 (update 0 monitor_store t2))); reflexivity].
  eapply (history_next (take 3 t3_events) t2 (Some (End 0))); [|by eapply (lb_end _ true 0 (vm0 t2))].
  eapply (history_next (take 2 t3_events) t2 (Some (ListVms shell (Ok [shell_vm]))));
    [apply dropped_history|apply lb_list; vm_compute; reflexivity].
Qed.

Lemma virtmanager_refines_witness : registry_history t3_events (registry_of t3).
Proof. exact (virtmanager_refines t3_events t3 t3_history). Defined.
Lemma vm_ends_once_witness :
  (¬ refers 0 (ListVms shell (Ok [shell_vm])) ∧ ¬ refers 0 (End 0)) ∧ Tell 0 [] ∉ [ListVms shell (Ok [])].
Proof.
  pose proof (vm_ends_once [Start shell (Ok 0%nat)] (Drop 0 true)
    [ListVms shell (Ok [shell_vm]); End 0; Tell 0 []; ListVms shell (Ok [])] t3 0 t3_history) as [Hdrop _].
  pose proof (vm_ends_once (take 4 t3_events) (Tell 0 []) [ListVms shell (Ok [])] t3 0 t3_history) as (_ & _ & Htell).
  split; [split; apply (Hdrop eq_refl)|exact (Htell [] eq_refl [])].
  - apply list_elem_of_here.
  - apply list_elem_of_further, list_elem_of_here.
Defined.
Lemma unreferenced_vm_listed_witness : ∃ l, debugListVms shell t2 = (Ok l, t2) ∧ debug_info (instance (vm0 t2)) ∈ l.
Proof.
  refine (unreferenced_vm_listed t2 0 (vm0 t2) shell (history_reachable _ _ dropped_history) _ _ _ _ _);
    [reflexivity|reflexivity|reflexivity|apply not_elem_of_nil|discriminate].
Defined.
End Lifetime.
