(* ===== verification/VmTool.v ===== *)
(** * vm/src: the command line tool

    The [vm] tool as a client of [VirtManager.v]: its commands run on the
    manager's state, and what it waits on is the flag of [VmSync.v], which the
    binder threads of the process raise when [onDied] is called or the manager
    dies.  The results of the tool's own system calls are a record; [println!]
    is left out. *)

From S2P Require Import Prelude Io Parse VmSync VirtManager.

(** ** run.rs and main.rs *)
Inductive vm_error :=
| ConfigPathError | ConfigFileError | DuplicateError | BinderError (e : StatusCode) | LinkError | NotBackground
| NoService.

(** What the system answers to the tool: whether the path is valid UTF-8 and
    the configuration file can be opened, the result of dup(2), and whether
    the binder can be linked to its death. *)
Record ToolEnv := { path_is_str : bool; config_opened : bool; dup_stdout : Z; link_to_death : bool }.

Definition duplicate_stdout (dup_fd : Z) : outcome vm_error Z :=
  if dup_fd <? 0 then Err DuplicateError else Ok dup_fd.

(** A reference goes out of scope whatever the result. *)
Definition then_drop {E A} (kill_ok : bool) (a : nat) (m : M Sys E A) : M Sys E A :=
  λ s, let '(r, s') := m s in (r, drop_ref kill_ok a s').

(** What [command_run] comes to: done, or waiting on the flag, with its
    reference still held. *)
Inductive run_result := RunDone | WaitingFor (a : nat) (callback : Z).

(** [wait_for_death]: the recipient raises the flag when the manager dies. *)
Definition wait_for_death (tool : ToolEnv) : outcome vm_error (list instr) :=
  if link_to_death tool then Ok raise else Err LinkError.
(** [VirtualMachineCallback::onDied]. *)
Definition onDied (_cid : Z) : list instr := raise.

(** [wait_for_vm], up to [dead.wait()]; an error drops the reference. *)
Definition wait_for_vm (kill_ok : bool) (tool : ToolEnv) (a : nat) (callback : Z) : M Sys vm_error run_result := λ s,
  match (_ ← map_errM BinderError (registerCallback a callback); lift (wait_for_death tool)) s with
  | (Ok _, s') => (Ok (WaitingFor a callback), s')
  | (Err e, s') => (Err e, drop_ref kill_ok a s')
  | (Panic, s') => (Panic, drop_ref kill_ok a s')
  | (NoFuel, s') => (NoFuel, s')
  end.
(** After the wait: the death recipient and the reference are dropped. *)
Definition wait_over (kill_ok : bool) (a : nat) : M Sys vm_error run_result :=
  then_drop kill_ok a (mret RunDone).

Definition command_run (kill_ok : bool) (env : StartEnv) (tool : ToolEnv) (c : Caller) (callback : Z)
    (daemonize : bool) : M Sys vm_error run_result :=
  _ ← lift (if path_is_str tool then Ok () else Err ConfigPathError);
  _ ← lift (if config_opened tool then Ok () else Err ConfigFileError);
  stdout_file ← lift (duplicate_stdout (dup_stdout tool));
  let stdout := if daemonize then None else Some stdout_file in
  vm ← map_errM BinderError (startVm env c stdout);
  if daemonize then
    then_drop kill_ok vm (_ ← map_errM BinderError (debugHoldVmRef c vm); mret RunDone)
  else wait_for_vm kill_ok tool vm callback.

Definition command_stop (kill_ok : bool) (c : Caller) (cid : Z) : M Sys vm_error unit :=
  found ← map_errM BinderError (debugDropVmRef c (as_i32 cid));
  vm ← lift (ok_or NotBackground found);
  then_drop kill_ok vm (mret ()).

Definition command_list (c : Caller) : M Sys vm_error (list VirtualMachineDebugInfo) :=
  map_errM BinderError (debugListVms c).

(** [enum Opt] and [main]; the manager may not be registered. *)
Inductive Opt := OptRun (daemonize : bool) | OptStop (cid : Z) | OptList.
Definition main (registered : bool) (kill_ok : bool) (env : StartEnv) (tool : ToolEnv) (c : Caller) (callback : Z)
    (opt : Opt) : M Sys vm_error (option run_result) :=
  _ ← lift (if registered then Ok () else Err NoService);
  match opt with
  | OptRun daemonize => r ← command_run kill_ok env tool c callback daemonize; mret (Some r)
  | OptStop cid => _ ← command_stop kill_ok c cid; mret None
  | OptList => _ ← command_list c; mret None
  end.

(** The threads of a waiting tool that use the flag: the main thread, a binder
    thread for every [onDied] call of its callback, and the death recipient
    once the manager has died. *)
Definition flag_threads (calls : list (Z * Z)) (callback : Z) (manager_died : bool) : list (list instr) :=
  wait :: ((λ call, onDied call.2) <$> filter (λ call, call.1 = callback) calls)
    ++ (if manager_died then [raise] else []).

Lemma flag_threads_ok calls cb died : Forall (λ p, p = wait ∨ p = raise) (flag_threads calls cb died).
Proof.
  unfold flag_threads. apply Forall_cons. split; [by left|]. apply Forall_app. split.
  - apply Forall_fmap, Forall_forall. by right.
  - destruct died; [apply Forall_singleton; by right|done].
Qed.
Lemma flag_threads_raise calls cb n died : (cb, n) ∈ calls -> raise ∈ flag_threads calls cb died.
Proof.
  intros Hin. apply list_elem_of_further, elem_of_app. left. apply list_elem_of_fmap.
  exists (cb, n). split; [done|]. by apply list_elem_of_filter.
Qed.

(** ** Stopping a VM *)
Lemma update_eq s a f v : heap s !! a = Some v -> heap (update a f s) !! a = Some (f v).
Proof. intros Ha. by rewrite update_lookup, decide_True, Ha. Qed.

Lemma update_insert s a f v : heap s !! a = Some v -> heap (update a f s) = <[a := f v]> (heap s).
Proof.
  intros Ha. apply list_eq. intros b. apply lookup_lt_Some in Ha as Hlt. rewrite update_lookup. case_decide as Hb.
  - subst b. by rewrite Ha, list_lookup_insert_eq.
  - by rewrite list_lookup_insert_ne.
Qed.

(** [command_stop] ends a VM that only the manager refers to, and nothing else:
    the other VMs and the other references stay. *)
Definition ended_by_stop (v : Vm) : Vm :=
  {| instance := instance v; child_alive := false; killed := true; monitor_at := monitor_at v; client_refs := 0;
     dropped := true; strong_count := strong_count v - 1; died_calls := died_calls v |}.
Lemma stop_kills s c a v :
  inv s -> debug_access_allowed c = true -> heap s !! a = Some v -> client_refs v = 0%nat -> held s a = 1%nat ->
  ∃ s', command_stop true c (cid (instance v)) s = (Ok (), s') ∧
    heap s' = <[a := ended_by_stop v]> (heap s) ∧ debug_held_vms s ≡ₚ a :: debug_held_vms s' ∧
    vms s' = vms s ∧ next_cid s' = next_cid s.
Proof.
  intros Hinv Hc Ha Href Hheld. unfold command_stop. rewrite M_bind_eq. unfold map_errM, debugDropVmRef, debug_drop_vm.
  rewrite Hc. cbn [negb]. assert (a ∈ debug_held_vms s) as Hin.
  { apply list_elem_of_In, (count_occ_In Nat.eq_dec). change (count_occ _ _ _) with (held s a). lia. }
  assert (getCid s a = Some (as_i32 (cid (instance v)))) as Hg by (unfold getCid; by rewrite Ha).
  destruct (list_find_elem_of (λ b, getCid s b = Some (as_i32 (cid (instance v)))) _ a Hin Hg) as [[pos b] Hf].
  rewrite Hf. apply list_find_Some in Hf as (Hpos & Hgb & _).
  assert (∃ vb, heap s !! b = Some vb) as [vb Hvb] by (unfold getCid in Hgb; apply fmap_Some in Hgb as (? & ? & _); eauto).
  assert (b = a) as -> by (eapply getCid_inj; [done|done|done|congruence]).
  assert (vb = v) as -> by congruence.
  cbn [map_err]. erewrite M_bind_lift by done. unfold then_drop, mret, M_ret.
  pose proof (swap_remove_perm _ _ _ Hpos) as Hperm.
  pose proof (proj1 (Permutation_count_occ Nat.eq_dec _ _) Hperm a) as Hocc. rewrite count_occ_cons_eq in Hocc by done.
  change (count_occ _ (debug_held_vms s) a) with (held s a) in Hocc.
  eexists. split; [done|]. split_and!; [|exact Hperm|done|done].
  unfold drop_ref. erewrite update_insert by (by apply update_eq). erewrite update_insert by done.
  cbn [heap]. rewrite list_insert_insert_eq. f_equal. unfold held. cbn. rewrite Href.
  assert (count_occ Nat.eq_dec (swap_remove (debug_held_vms s) pos) a = 0%nat) as -> by lia.
  unfold VirtualMachine_drop, kill, ended_by_stop. cbn. by rewrite andb_false_r.
Qed.

(** ** Claims *)

(** C30: the tool returns once its VM has died: if [vm run] registered its callback
    before the monitor thread of the VM made its calls then, once that thread
    has finished, every schedule of the threads of the tool ends with the main
    thread past its wait, and the reference it then drops is its own. *)
Theorem vm_run_returns s s' a v v' cb manager_died acts fs :
  reachable s -> heap s !! a = Some v -> monitor_at v <> Finished -> cb ∈ callbacks (instance v) ->
  rtc step s s' -> heap s' !! a = Some v' -> monitor_at v' = Finished ->
  let threads := flag_threads (died_calls v') cb manager_died in
  schedule acts (start threads) = Some fs ->
  (length acts <= 6 * length threads + 3 * spurious acts)%nat ∧ (stuck fs -> finished fs).
Proof.
  intros Hr Ha Hm Hcb Hrun Ha' Hm' threads Hs. apply inv_reachable in Hr as Hinv.
  assert (raise ∈ threads) as Hraise by (by eapply flag_threads_raise, died_call_made).
  pose proof (inv_start threads (flag_threads_ok _ _ _)) as Hi0.
  pose proof (inv_schedule threads acts _ fs Hi0 Hs) as Hfs. split.
  - pose proof (schedule_bound threads acts _ fs Hi0 Hs).
    pose proof (total_start threads (flag_threads_ok _ _ _)). lia.
  - by apply stuck_finished with threads.
Qed.

(** C40: A callback registered after the VM has died is never called, and
    registering it is not an error: [vm run] on a VM that dies before its
    callback is registered waits for ever, whatever happens afterwards short of
    the death of the manager itself. *)
Theorem late_callback_never_called kill_ok tool s s' a v v' cb n :
  reachable s -> link_to_death tool = true -> heap s !! a = Some v -> monitor_at v = Finished ->
  (cb, n) ∉ died_calls v ->
  wait_for_vm kill_ok tool a cb s = (Ok (WaitingFor a cb), (registerCallback a cb s).2) ∧
  (rtc step (registerCallback a cb s).2 s' -> (0 < client_refs v)%nat -> heap s' !! a = Some v' ->
   (cb, n) ∉ died_calls v').
Proof.
  intros Hr Hlink Ha Hm Hcb. split; [unfold wait_for_vm, wait_for_death; by rewrite Hlink|]. intros Hrun Hrefs Ha'. apply inv_reachable in Hr as Hinv.
  pose proof (step_register a v cb s Ha Hrefs) as Hstep.
  apply (run_evolves (λ w, monitor_at w = Finished ∧ (cb, n) ∉ died_calls w) s s' a v v'); [|done| |done|done|done].
  - intros w w' (_ & _ & Hcalls) [HPm HPd]. rewrite HPm in Hcalls. destruct (monitor_at w'); [done..|].
    by rewrite Hcalls.
  - by eapply rtc_l.
Qed.

(** The state after [vm run --daemonize]: the new VM at the end of the heap,
    without a client and once in the manager's list. *)
Definition background_vm (i : VmInstance) : Vm :=
  {| instance := i; child_alive := true; killed := false; monitor_at := Waiting; client_refs := 0;
     dropped := false; strong_count := 2; died_calls := [] |}.
Lemma daemonize_state s s1 env tool c cb :
  inv s -> debug_access_allowed c = true ->
  command_run true env tool c cb true s = (Ok RunDone, s1) ->
  ∃ i, cid i = next_cid s ∧ running i = true ∧ heap s1 = heap s ++ [background_vm i] ∧
    debug_held_vms s1 = debug_held_vms s ++ [length (heap s)] ∧ inv s1.
Proof.
  intros Hinv Hc. unfold command_run.
  destruct (path_is_str tool); [erewrite M_bind_lift by done|done].
  destruct (config_opened tool); [erewrite M_bind_lift by done|done].
  unfold duplicate_stdout. destruct (dup_stdout tool <? 0); [done|erewrite M_bind_lift by done].
  rewrite M_bind_eq. unfold map_errM at 1.
  destruct (startVm env c None s) as [r s0] eqn:Hs.
  destruct (startVm_cases _ _ _ _ _ _ Hinv Hs) as [(i & cfg & lg & -> & Hmax & -> & _ & _ & _ & _ & Hcid & Hrun & _)|[[e ->] _]];
    cbn [map_err]; [|done].
  pose proof (inv_started s i Hinv Hmax Hcid Hrun) as Hinv0. set (a := length (heap s)) in *.
  assert (heap (started s i) !! a = Some (fresh_vm i)) as Ha
    by (cbn; rewrite lookup_app_r by done; by rewrite Nat.sub_diag).
  unfold then_drop. rewrite M_bind_eq. unfold map_errM, debugHoldVmRef, debug_hold_vm. rewrite Hc. cbn [negb map_err mret M_ret].
  set (sh := {| next_cid := _; vms := _; debug_held_vms := _; heap := _ |}).
  assert (inv sh) as Hinvh.
  { pose proof (inv_hold (started s i) c a (fresh_vm i) Hinv0 Ha ltac:(cbn; lia)) as Hh.
    unfold debugHoldVmRef, debug_hold_vm in Hh. by rewrite Hc in Hh. }
  assert (held sh a = 1%nat) as Hheld.
  { unfold held. cbn. rewrite count_occ_app. change (count_occ _ (debug_held_vms s) a) with (held s a).
    rewrite (held_lt s) by done. cbn. by destruct (Nat.eq_dec a a). }
  pose proof (inv_drop sh true a (fresh_vm i) Hinvh Ha ltac:(cbn; lia)) as Hinv1.
  intros [= <-]. exists i. split_and!; [done|done| |done|done].
  unfold drop_ref. erewrite update_insert by exact Ha. rewrite Hheld. cbn.
  by rewrite insert_app_r_alt, Nat.sub_diag by done.
Qed.

(** C31: A VM started in the background survives the tool that started it and
    is stopped by its CID.  After [vm run --daemonize] by an allowed user there
    is one VM more, which runs, has the next CID, no client refers to and the
    manager holds once; the other VMs and the other references are as they were.
    In every later state in which it is still the manager's alone, [vm stop]
    with its CID succeeds, kills it, takes its one reference off the manager's
    list and changes nothing else: every other VM and reference stays. *)
Theorem daemonize_then_stop s s1 env tool c cb :
  reachable s -> debug_access_allowed c = true ->
  command_run true env tool c cb true s = (Ok RunDone, s1) ->
  let a := length (heap s) in
  (∃ v1, heap s1 = heap s ++ [v1] ∧ cid (instance v1) = next_cid s ∧ running (instance v1) = true ∧
     child_alive v1 = true ∧ killed v1 = false ∧ client_refs v1 = 0%nat ∧
     held s1 a = 1%nat ∧ debug_held_vms s1 = debug_held_vms s ++ [a]) ∧
  ∀ s2 v2, rtc step s1 s2 -> heap s2 !! a = Some v2 -> client_refs v2 = 0%nat -> held s2 a = 1%nat ->
    ∃ s3 v3, command_stop true c (next_cid s) s2 = (Ok (), s3) ∧ heap s3 = <[a := v3]> (heap s2) ∧
      instance v3 = instance v2 ∧ killed v3 = true ∧ child_alive v3 = false ∧ client_refs v3 = 0%nat ∧
      debug_held_vms s2 ≡ₚ a :: debug_held_vms s3 ∧ vms s3 = vms s2 ∧ next_cid s3 = next_cid s2.
Proof.
  intros Hr Hc Hrun a. apply inv_reachable in Hr as Hinv.
  destruct (daemonize_state s s1 env tool c cb Hinv Hc Hrun) as (i & Hcid & Hup & Hheap & Hheld & Hinv1). split.
  - exists (background_vm i). split_and!; try done. unfold held. rewrite Hheld, count_occ_app.
    change (count_occ _ (debug_held_vms s) a) with (held s a). rewrite (held_lt s) by done.
    unfold a. cbn. by destruct (Nat.eq_dec _ _).
  - intros s2 v2 Hstep Ha2 Href Hh. assert (inv s2) as Hinv2 by (by eapply inv_run).
    assert (heap s1 !! a = Some (background_vm i)) as Ha1 by (rewrite Hheap; by apply list_lookup_middle).
    assert (cid (instance v2) = next_cid s) as Hcid2.
    { eapply (run_evolves (λ w, cid (instance w) = next_cid s)); [|exact Hinv1|exact Hstep|exact Ha1|done|exact Ha2].
      by intros w w' (-> & _ & _). }
    destruct (stop_kills s2 c a v2 Hinv2 Hc Ha2 Href Hh) as (s3 & Hstop & Hheap3 & Hperm & Hv & Hn).
    exists s3, (ended_by_stop v2). rewrite <- Hcid2. done.
Qed.

Section Witness.
Import Run.
Definition tool_env : ToolEnv :=
  {| path_is_str := true; config_opened := true; dup_stdout := 1; link_to_death := true |}.

Lemma late_callback_never_called_witness :
  wait_for_vm true tool_env 0 43 s3 = (Ok (WaitingFor 0 43), (registerCallback 0 43 s3).2) ∧
  ∀ s' v', rtc step (registerCallback 0 43 s3).2 s' -> heap s' !! 0%nat = Some v' -> (43, 10) ∉ died_calls v'.
Proof.
  split; [reflexivity|]. intros s' v' Hrun Hv'.
  refine (proj2 (late_callback_never_called true tool_env s3 s' 0 (vm0 s3) v' 43 10 s3_reachable eq_refl _ _ _) Hrun _ Hv').
  - reflexivity.
  - reflexivity.
  - vm_compute. intros Hin. inversion Hin as [|x1 x2 x3 Hin']; inversion Hin'.
  - vm_compute. lia.
Defined.
(** In the background beside another VM, which goes on running. *)
Definition with_background : Sys := (command_run true env tool_env shell 42 true s1).2.
Lemma daemonize_then_stop_witness :
  held with_background 2 = 1%nat ∧
  ∃ s3 v3, command_stop true shell 12 with_background = (Ok (), s3) ∧
    heap s3 = <[2%nat := v3]> (heap with_background) ∧ killed v3 = true ∧ child_alive v3 = false.
Proof.
  destruct (daemonize_then_stop s1 with_background env tool_env shell 42) as [(v1 & _ & _ & _ & _ & _ & _ & Hheld & _) Hstop].
  - exact s1_reachable.
  - reflexivity.
  - vm_compute. reflexivity.
  - split; [exact Hheld|].
    destruct (Hstop with_background (default (vm0 s1) (heap with_background !! 2%nat))) as (s3 & v3 & Hs & Hh & _ & Hk & Hd & _).
    + apply rtc_refl.
    + vm_compute. reflexivity.
    + vm_compute. reflexivity.
    + exact Hheld.
    + exists s3, v3. exact (conj Hs (conj Hh (conj Hk Hd))).
Defined.

(** The main thread parks, the callback's thread raises the flag. *)
Definition sample_schedule : list action := [Run 0; Run 0; Run 1; Run 1; Run 1; Run 1; Run 0; Run 0; Run 0].
Lemma vm_run_returns_witness :
  ∃ fs, schedule sample_schedule (start (flag_threads (died_calls (vm0 s3)) 42 false)) = Some fs ∧
    finished fs ∧ (stuck fs -> finished fs).
Proof.
  eexists. split; [reflexivity|]. split; [repeat constructor|].
  refine (proj2 (vm_run_returns s2 s3 0 (vm0 s2) (vm0 s3) 42 false sample_schedule _ s2_reachable _ _ _ s2_s3 _ _ _)).
  - reflexivity.
  - discriminate.
  - apply list_elem_of_here.
  - reflexivity.
  - reflexivity.
  - reflexivity.
Defined.
End Witness.
