(* ===== verification/UnitTests.v ===== *)
(** * The unit tests of authfs, on the model

    The test modules of common.rs, crypto.rs, builder.rs, editor.rs,
    local_file.rs and verifier.rs, translated like the code they test: [assert!] and
    [assert_eq!] panic, [?] returns the error, and a test passes when it
    returns [Ok].  The files under testdata are any files of the size that the
    test relies on; the tests of the editor that need no digest hold for every
    hash function, where the code never compares two hashes. *)

From Stdlib Require Import Ascii.
From S2P Require Import Prelude Io Parse Common Crypto FsverityCommon MerkleSpec Content Builder File Verifier VerifierFaults Editor Sha256Ref.

(** [assert!(r.is_err())]. *)
Definition assert_err {W E E' A} (m : M W E A) : M W E' unit :=
  r ← tryM m; lift (assert_ (match r with inl _ => true | inr _ => false end)).
(** [assert!(r.is_ok())]. *)
Definition assert_ok {W E E' A} (m : M W E A) : M W E' unit :=
  r ← tryM m; lift (assert_ (match r with inl _ => false | inr _ => true end)).

(** ** common.rs *)
Module CommonTests.
#[local] Existing Instance debug_profile.

(** The fuel is the largest number of chunks of a range of [remaining] bytes. *)
Definition collect_chunk_read_iter (remaining offset : Z) : outcome Empty_set (list (Z * Z)) :=
  csi_collect (S (S (S (Z.to_nat (remaining / 4096))))) (csi_new remaining offset 4096).

Definition test_chunk_read_iter : outcome Empty_set unit :=
  l ← collect_chunk_read_iter 4096 0; _ ← assert_eq l [(0, 4096)];
  l ← collect_chunk_read_iter 8192 0; _ ← assert_eq l [(0, 4096); (4096, 4096)];
  l ← collect_chunk_read_iter 8192 4096; _ ← assert_eq l [(4096, 4096); (8192, 4096)];
  l ← collect_chunk_read_iter 16384 1;
  _ ← assert_eq l [(1, 4095); (4096, 4096); (8192, 4096); (12288, 4096); (16384, 1)];
  l ← collect_chunk_read_iter 0 0; _ ← assert_eq l [];
  l ← collect_chunk_read_iter 0 100; assert_eq l [].

Lemma test_chunk_read_iter_passes : test_chunk_read_iter = Ok ().
Proof. vm_compute. reflexivity. Qed.
End CommonTests.

(** ** Hexadecimal digests *)
Definition hex_digit (c : Ascii.ascii) : option Z :=
  let n := Z.of_nat (Ascii.nat_of_ascii c) in
  if (48 <=? n) && (n <=? 57) then Some (n - 48)
  else if (97 <=? n) && (n <=? 102) then Some (n - 87)
  else if (65 <=? n) && (n <=? 70) then Some (n - 55) else None.

(** [to_u8_vec]: an odd length fails the assertion. *)
Fixpoint to_u8_vec {E} (hex_str : string) : outcome E bytes :=
  match hex_str with
  | EmptyString => Ok []
  | String a (String b rest) =>
      x ← unwrap (hex_digit a); y ← unwrap (hex_digit b); l ← to_u8_vec rest; Ok (16 * x + y :: l)
  | String _ EmptyString => Panic
  end.

Definition hex_char (x : Z) : Ascii.ascii := Ascii.ascii_of_nat (Z.to_nat (if x <? 10 then 48 + x else 87 + x)).
Definition to_hex_string (data : bytes) : string :=
  foldr (λ b s, String (hex_char (b / 16)) (String (hex_char (b mod 16)) s)) EmptyString data.

Lemma hex_digit_char x : 0 <= x < 16 -> hex_digit (hex_char x) = Some x.
Proof.
  intros Hx. assert (∃ n : nat, x = Z.of_nat n ∧ (n < 16)%nat) as (n & -> & Hn)
    by (exists (Z.to_nat x); lia).
  do 16 (destruct n as [|n]; [reflexivity|]). lia.
Qed.
(** The two helpers are inverse to each other on bytes. *)
Lemma to_u8_vec_hex {E} data :
  Forall (λ b, 0 <= b < 256) data -> to_u8_vec (E := E) (to_hex_string data) = Ok data.
Proof.
  induction 1 as [|b data Hb _ IH]; [done|]. cbn [to_hex_string foldr to_u8_vec].
  rewrite !hex_digit_char by (Z.div_mod_to_equations; lia). fold (to_hex_string data).
  rewrite IH. cbn. do 2 f_equal. Z.div_mod_to_equations. lia.
Qed.

(** ** crypto.rs *)
Module CryptoTests.
Definition verify_hash_values `{Sha256Ffi} : outcome CryptoError unit :=
  h ← hasher_new; h ← hasher_update [] h; hash ← hasher_finalize h;
  let s := to_hex_string hash in
  _ ← assert_eq s "e3b0c44298fc1c149afbf4c8996fb92427ae41e4649b934ca495991b7852b855"%string;
  h ← hasher_new; h ← hasher_update [1] h; h ← hasher_update [2] h; h ← hasher_update [3] h;
  hash ← hasher_finalize h;
  let s := to_hex_string hash in
  assert_eq s "039058c6f2c0cb492c533b0a4d14ef77cc0f78abccced5287d84a1a2011cfb81"%string.

Definition sha256_of_4096_zeros `{Sha256Ffi} : outcome CryptoError unit :=
  h ← hasher_new; h ← hasher_update (zeros 4096) h; hash ← hasher_finalize h;
  assert_eq hash HASH_OF_4096_ZEROS.

Lemma verify_hash_values_passes : verify_hash_values = Ok ().
Proof. vm_compute. reflexivity. Qed.
Lemma sha256_of_4096_zeros_passes : sha256_of_4096_zeros = Ok ().
Proof.
  unfold sha256_of_4096_zeros. cbn [hasher_new hasher_update hasher_finalize ref_ffi SHA256_Init
    SHA256_Update SHA256_Final ctx mbind outcome_bind]. cbn -[Sha256.digest zeros].
  rewrite ref_zeros. vm_compute. reflexivity.
Qed.
End CryptoTests.

(** ** builder.rs *)
Module BuilderTests.
Definition fake_hash : Sha256Hash := replicate HASH 42.

Definition merkle_tree_empty_file `{Profile} `{Sha256Ffi} : outcome FsverityError unit :=
  expected ← to_u8_vec "3d248ca542a24fc62d1c43b916eae5016878e2533c88238480b26128a1f1af95";
  digest ← Builder.Tests.generate_fsverity_digest_sequentially [];
  assert_eq expected digest.

Definition merkle_tree_grow_leaves `{Profile} : outcome FsverityError unit :=
  let tree := ml_new in
  tree ← update_hash tree 0 fake_hash CHUNK_SIZE;
  tree ← ml_resize tree (4096 * 3 - 100);
  _ ← assert_ (is_index_valid tree 0);
  _ ← assert_ (is_index_valid tree 1);
  _ ← assert_ (is_index_valid tree 2);
  _ ← assert_ (negb (is_index_valid tree 3));
  _ ← assert_ (is_consistent tree 1 HASH_OF_4096_ZEROS);
  assert_ (is_consistent tree 2 HASH_OF_4096_ZEROS).

Definition merkle_tree_shrink_leaves `{Profile} : outcome FsverityError unit :=
  let tree := ml_new in
  tree ← update_hash tree 0 fake_hash CHUNK_SIZE;
  tree ← update_hash tree 0 fake_hash (CHUNK_SIZE * 3);
  tree ← ml_resize tree (CHUNK_SIZE * 2 - 100);
  _ ← assert_ (is_index_valid tree 0);
  _ ← assert_ (is_index_valid tree 1);
  _ ← assert_ (negb (is_index_valid tree 2));
  assert_ (is_consistent tree 1 HASH_OF_4096_ZEROS).

Lemma merkle_tree_empty_file_passes `{P : Profile} : merkle_tree_empty_file = Ok ().
Proof. destruct P as [[] []]; vm_compute; reflexivity. Qed.
Lemma merkle_tree_grow_leaves_passes `{P : Profile} : merkle_tree_grow_leaves = Ok ().
Proof. destruct P as [[] []]; vm_compute; reflexivity. Qed.
Lemma merkle_tree_shrink_leaves_passes `{P : Profile} : merkle_tree_shrink_leaves = Ok ().
Proof. destruct P as [[] []]; vm_compute; reflexivity. Qed.
End BuilderTests.

(** ** editor.rs *)
Module EditorUnitTests.
(** [VerifiedFileEditor::new(InMemoryEditor::new())], and with [fail_read]. *)
Definition state : Type := MerkleLeaves * InMemoryEditor.
Definition new_file : state := (ml_new, InMemoryEditor_new).
Definition failing_file : state := (ml_new, {| im_data := []; im_fail_read := true |}).
Definition file : VerifiedFileEditor unit := {| ve_file := () |}.
(** [write_at] of the test, with fuel for the writes of one chunk. *)
Definition write `{Profile} `{Sha256Ffi} (buf : bytes) (offset : Z) : M state io_error Z :=
  VerifiedFileEditor_write_at 4097 file buf offset.
Definition ones (n : Z) : bytes := replicate (Z.to_nat n) 1.
Definition tens (n : Z) : bytes := replicate (Z.to_nat n) 10.

Definition test_writer `{Profile} : M InMemoryEditor io_error unit :=
  let buf := ones 4096 in
  w ← get; _ ← lift (assert_eq (len (im_data w)) 0);
  n ← InMemoryEditor_write_at () buf 16384; _ ← lift (assert_eq n 4096);
  w ← get; l ← lift (slice (im_data w) 16384 (16384 + 4096)); _ ← lift (assert_eq l buf);
  n ← InMemoryEditor_write_at () buf 2048; _ ← lift (assert_eq n 4096);
  w ← get; l ← lift (slice (im_data w) 2048 (2048 + 4096)); _ ← lift (assert_eq l buf);
  lift (assert_eq (len (im_data w)) (16384 + 4096)).

Definition test_verified_writer_no_write `{Profile} `{Sha256Ffi} : M state io_error unit :=
  digest ← VerifiedFileEditor_calculate_fsverity_digest file;
  expected ← lift (to_u8_vec "3d248ca542a24fc62d1c43b916eae5016878e2533c88238480b26128a1f1af95");
  lift (assert_eq digest expected).

(** The block that takes the lock and replaces a hash. *)
Definition override_hash `{Profile} (index : Z) : M state io_error unit :=
  '(tree, w) ← get;
  tree ← lift (update_hash tree index (replicate HASH 42) 8192);
  put (tree, w).

Definition test_verified_writer_inconsistent_read `{Profile} `{Sha256Ffi} : M state io_error unit :=
  n ← write (ones 8192) 0; _ ← lift (assert_eq n 8192);
  _ ← override_hash 0;
  _ ← assert_err (write (ones 1) 2048);
  n ← write (ones 4096) 4096; _ ← lift (assert_eq n 4096);
  _ ← override_hash 1;
  n ← write (tens 8000) 0; _ ← lift (assert_eq n 4096);
  assert_err (write (tens (8000 - 4096)) 4096).

Definition test_verified_writer_failed_read_back `{Profile} `{Sha256Ffi} : M state io_error unit :=
  n ← write (ones 8192) 0; _ ← lift (assert_eq n 8192);
  assert_err (write (ones 1) 2048).

Definition test_resize_to_shrink_with_read_failure `{Profile} `{Sha256Ffi} : M state io_error unit :=
  n ← write (ones 4096) 0; _ ← lift (assert_eq n 4096);
  assert_err (VerifiedFileEditor_resize file 2048).

Lemma test_writer_passes `{P : Profile} : (test_writer InMemoryEditor_new).1 = Ok ().
Proof. destruct P as [[] []]; vm_compute; reflexivity. Qed.
Lemma test_verified_writer_no_write_passes `{P : Profile} : (test_verified_writer_no_write new_file).1 = Ok ().
Proof. destruct P as [[] []]; vm_compute; reflexivity. Qed.

(** Every hash function that absorbs what it is given. *)
Definition hash_with (h : bytes -> bytes) : Sha256Ffi := {|
  SHA256_CTX := bytes; SHA256_Init := ([], 1);
  SHA256_Update c d := (c ++ d, 1); SHA256_Final c := (h c, c, 1) |}.

(** A failing read fails the write or the truncation, whatever the hash. *)
Lemma test_verified_writer_failed_read_back_passes `{P : Profile} (h : bytes -> bytes) :
  (test_verified_writer_failed_read_back (H0 := hash_with h) failing_file).1 = Ok ().
Proof. destruct P as [[] []]; vm_compute; reflexivity. Qed.
Lemma test_resize_to_shrink_with_read_failure_passes `{P : Profile} (h : bytes -> bytes) :
  (test_resize_to_shrink_with_read_failure (H0 := hash_with h) failing_file).1 = Ok ().
Proof. destruct P as [[] []]; vm_compute; reflexivity. Qed.
(** With a hash that keeps the first bytes of the block. *)
Lemma test_verified_writer_inconsistent_read_passes `{P : Profile} :
  (test_verified_writer_inconsistent_read (H0 := hash_with (take HASH)) new_file).1 = Ok ().
Proof. destruct P as [[] []]; vm_compute; reflexivity. Qed.
End EditorUnitTests.

(** ** local_file.rs *)
Module LocalFileTests.
Section Tests.
Context `{Profile} {W File : Type} `{PosixFile W File}.

(** [read_chunk] of the test and the size it returns. *)
Definition read_size (reader : LocalFileReader File) (index : Z) : M W io_error Z :=
  '(size, _) ← LocalFileReader_read_chunk reader index (zeros 4096); mret size.

Definition test_read_4k_file (input_4k : File) : M W io_error unit :=
  file_reader ← LocalFileReader_new input_4k;
  size ← read_size file_reader 0; lift (assert_eq size 4096).

Definition test_read_4k1_file (input_4k1 : File) : M W io_error unit :=
  file_reader ← LocalFileReader_new input_4k1;
  size ← read_size file_reader 0; _ ← lift (assert_eq size 4096);
  size ← read_size file_reader 1; lift (assert_eq size 1).

(** The loop [for index in 0..file_reader.len() / 4096]. *)
Fixpoint read_all_full (file_reader : LocalFileReader File) (indices : list Z) : M W io_error unit :=
  match indices with
  | [] => mret ()
  | index :: rest =>
      size ← read_size file_reader index; _ ← lift (assert_eq size 4096);
      read_all_full file_reader rest
  end.
Definition test_read_4m_file (input_4m : File) : M W io_error unit :=
  file_reader ← LocalFileReader_new input_4m;
  read_all_full file_reader (seqZ 0 (LocalFileReader_len file_reader / 4096)).

Definition test_read_beyond_file_size (input_4k : File) : M W io_error unit :=
  file_reader ← LocalFileReader_new input_4k;
  size ← read_size file_reader 1; lift (assert_eq size 0).

Definition test_read_empty_file (created : File) : M W io_error unit :=
  file_reader ← LocalFileReader_new created;
  size ← read_size file_reader 0; lift (assert_eq size 0).

Lemma assert_eq_refl {E A} `{EqDecision A} (a : A) : assert_eq (E := E) a a = Ok ().
Proof. unfold assert_eq. by rewrite bool_decide_true. Qed.

Lemma LocalFileReader_new_ok (f : File) (w : W) :
  LocalFileReader_new f w = (Ok {| lf_file := f; lf_size := len (file_content w f) |}, w).
Proof. unfold LocalFileReader_new. by erewrite M_bind_Ok by apply posix_len. Qed.

(** Any regular file: a chunk inside it is read with its length, one beyond
    its end has size zero. *)
Lemma read_size_ok (f : File) (w : W) (index : Z) :
  let data := file_content w f in
  len data <= i64_MAX -> 0 <= index -> index * 4096 < 2 ^ 64 ->
  read_size {| lf_file := f; lf_size := len data |} index w =
    (Ok (Z.max 0 (Z.min 4096 (len data - index * 4096))), w).
Proof.
  intros data Hmax Hi H64. unfold read_size. destruct (decide (index * 4096 < len data)) as [Hin|Hout].
  - erewrite M_bind_Ok by (apply (LocalFileReader_reads {| lf_file := f; lf_size := len data |} w);
      [done|done|lia|exact Hin|done]). cbn [lf_file]. by rewrite len_chunk_of by lia.
  - unfold LocalFileReader_read_chunk. erewrite M_bind_Ok.
    2: { erewrite M_bind_lift by (apply mul_u64_ok; unfold CHUNK_SIZE; lia). cbn [lf_size].
         replace (index * CHUNK_SIZE >=? len data) with true by (unfold CHUNK_SIZE; lia). reflexivity. }
    replace (Z.max _ _) with 0 by lia. reflexivity.
Qed.

Lemma read_all_full_ok (f : File) (w : W) indices :
  len (file_content w f) <= i64_MAX ->
  Forall (λ i, 0 <= i ∧ (i + 1) * 4096 <= len (file_content w f)) indices ->
  read_all_full {| lf_file := f; lf_size := len (file_content w f) |} indices w = (Ok (), w).
Proof.
  intros Hmax. induction 1 as [|i l [Hi Hl] _ IH]; [done|]. cbn [read_all_full].
  erewrite M_bind_Ok by (apply read_size_ok; unfold i64_MAX in *; lia).
  replace (Z.max _ _) with 4096 by lia. erewrite M_bind_lift by apply assert_eq_refl. exact IH.
Qed.

(** The tests pass on every file of the size their input has, and the one of
    the 4 MiB input on every file. *)
Lemma local_file_tests_pass (w : W) (f4k f4k1 f4m empty : File) :
  len (file_content w f4k) = 4096 -> len (file_content w f4k1) = 4097 ->
  len (file_content w f4m) <= i64_MAX -> file_content w empty = [] ->
  test_read_4k_file f4k w = (Ok (), w) ∧ test_read_4k1_file f4k1 w = (Ok (), w) ∧
  test_read_4m_file f4m w = (Ok (), w) ∧ test_read_beyond_file_size f4k w = (Ok (), w) ∧
  test_read_empty_file empty w = (Ok (), w).
Proof.
  intros H4k H4k1 H4m Hemp.
  unfold test_read_4k_file, test_read_4k1_file, test_read_4m_file, test_read_beyond_file_size, test_read_empty_file.
  split_and!; erewrite M_bind_Ok by apply LocalFileReader_new_ok.
  - erewrite M_bind_Ok by (apply read_size_ok; rewrite ?H4k; unfold i64_MAX; lia). by rewrite H4k.
  - erewrite M_bind_Ok by (apply read_size_ok; rewrite ?H4k1; unfold i64_MAX; lia). rewrite H4k1 at 1.
    erewrite M_bind_lift by (vm_compute; reflexivity).
    erewrite M_bind_Ok by (apply read_size_ok; rewrite ?H4k1; unfold i64_MAX; lia). by rewrite H4k1.
  - apply read_all_full_ok; [done|]. cbn [LocalFileReader_len lf_size].
    apply Forall_forall. intros i Hi. apply elem_of_seqZ in Hi. Z.div_mod_to_equations. lia.
  - erewrite M_bind_Ok by (apply read_size_ok; rewrite ?H4k; unfold i64_MAX; lia). by rewrite H4k.
  - erewrite M_bind_Ok by (apply read_size_ok; rewrite ?Hemp; unfold i64_MAX; simpl; lia). by rewrite Hemp.
Qed.
End Tests.
End LocalFileTests.

(** ** verifier.rs *)
Module VerifierTests.
Section Tests.
Context `{Profile} `{Sha256Spec} {W File : Type} `{PosixFile W File}.
(** [read_to_end] of [std::fs::File], and [std::fs::read]: the whole file. *)
Context (read_to_end : File -> M W io_error bytes)
  (Hread : ∀ f w, read_to_end f w = (Ok (file_content w f), w)).

Definition total_chunk_number {E} (file_size : Z) : outcome E Z :=
  s ← add_u64 file_size 4095; div_u64 s 4096.

(** The errors of the test are anyhow's; an [io::Error] is kept as [FsIo]. *)
Definition new_reader_with_fsverity (content_file merkle_tree_file signature_file : File)
    : M W FsverityError (VerifiedFileReader (LocalFileReader File) (LocalFileReader File) * Z) :=
  file_reader ← map_errM FsIo (LocalFileReader_new content_file);
  let file_size := LocalFileReader_len file_reader in
  merkle_tree ← map_errM FsIo (LocalFileReader_new merkle_tree_file);
  sig ← map_errM FsIo (read_to_end signature_file);
  let authenticator := always_succeed in
  reader ← VerifiedFileReader_new authenticator file_reader file_size sig merkle_tree;
  mret (reader, file_size).

(** The body of a loop over chunk indices. *)
Fixpoint for_each (indices : list Z) (body : Z -> M W FsverityError unit) : M W FsverityError unit :=
  match indices with
  | [] => mret ()
  | i :: rest => _ ← body i; for_each rest body
  end.

Definition fsverity_verify_full_read_4k (input_4k merkle_dump fsv_sig : File) : M W FsverityError unit :=
  '(file_reader, file_size) ← new_reader_with_fsverity input_4k merkle_dump fsv_sig;
  total ← lift (total_chunk_number file_size);
  for_each (seqZ 0 total) (λ i, assert_ok (read_chunk file_reader i (zeros 4096))).

Definition fsverity_verify_full_read_4k1 (input_4k1 merkle_dump fsv_sig : File) : M W FsverityError unit :=
  '(file_reader, file_size) ← new_reader_with_fsverity input_4k1 merkle_dump fsv_sig;
  total ← lift (total_chunk_number file_size);
  for_each (seqZ 0 total) (λ i, assert_ok (read_chunk file_reader i (zeros 4096))).

Definition fsverity_verify_full_read_4m (input_4m merkle_dump fsv_sig : File) : M W FsverityError unit :=
  '(file_reader, file_size) ← new_reader_with_fsverity input_4m merkle_dump fsv_sig;
  total ← lift (total_chunk_number file_size);
  for_each (seqZ 0 total) (λ i, assert_ok (read_chunk file_reader i (zeros 4096))).

(** One buffer serves all reads; [left i] is what it holds before read [i]. *)
Definition fsverity_verify_bad_merkle_tree (left : Z -> ChunkBuffer)
    (input_4m bad_merkle_dump fsv_sig : File) : M W FsverityError unit :=
  '(file_reader, _) ← new_reader_with_fsverity input_4m bad_merkle_dump fsv_sig;
  let num_hashes := 4096 / 32 in
  let last_index := num_hashes in
  _ ← for_each (seqZ 0 last_index) (λ i, assert_err (read_chunk file_reader i (left i)));
  assert_ok (read_chunk file_reader last_index (left last_index)).

Definition invalid_signature (input_4m merkle_dump fsv_sig : File) : M W FsverityError unit :=
  let authenticator := always_fail in
  file_reader ← map_errM FsIo (LocalFileReader_new input_4m);
  let file_size := LocalFileReader_len file_reader in
  merkle_tree ← map_errM FsIo (LocalFileReader_new merkle_dump);
  sig ← map_errM FsIo (read_to_end fsv_sig);
  assert_err (VerifiedFileReader_new authenticator file_reader file_size sig merkle_tree).

Lemma for_each_ok indices body (w : W) :
  Forall (λ i, body i w = (Ok (), w)) indices -> for_each indices body w = (Ok (), w).
Proof. induction 1 as [|i l Hi _ IH]; [done|]. cbn [for_each]. by erewrite M_bind_Ok by exact Hi. Qed.
Lemma assert_ok_ok {E E' A} (m : M W E A) (w : W) a :
  m w = (Ok a, w) -> assert_ok (E' := E') m w = (Ok (), w).
Proof. intros Hm. unfold assert_ok, tryM. rewrite M_bind_eq. by rewrite Hm. Qed.
Lemma assert_err_ok {E E' A} (m : M W E A) (w : W) e :
  m w = (Err e, w) -> assert_err (E' := E') m w = (Ok (), w).
Proof. intros Hm. unfold assert_err, tryM. rewrite M_bind_eq. by rewrite Hm. Qed.

Definition local (w : W) (f : File) : LocalFileReader File := {| lf_file := f; lf_size := len (file_content w f) |}.
Lemma local_reads (w : W) f : len (file_content w f) <= i64_MAX -> reads_content (local w f) w (file_content w f).
Proof. intros Hl. by apply (LocalFileReader_reads (local w f) w). Qed.
Lemma local_new (w : W) f : map_errM FsIo (LocalFileReader_new f) w = (Ok (local w f), w).
Proof. unfold map_errM. by rewrite LocalFileTests.LocalFileReader_new_ok. Qed.

(** Opening, over any file of a tree that has the root page. *)
Lemma new_reader_ok (w : W) f t s :
  let data := file_content w f in
  0 < len data <= MAX_VERIFIED_SIZE ->
  (∀ p, pages (level (height_of data) (leaf_hashes data)) !! O = Some p ->
     read_chunk (local w t) 0 (zeros CHUNK_SIZE) w = (Ok (CHUNK_SIZE, p), w)) ->
  new_reader_with_fsverity f t s w =
    (Ok ({| vf_chunked_file := local w f; vf_file_size := len data; vf_merkle_tree := local w t;
            vf_root_hash := verifier_root data |}, len data), w).
Proof.
  intros data Hn Hr. unfold new_reader_with_fsverity. erewrite M_bind_Ok by apply local_new.
  erewrite M_bind_Ok by apply local_new. erewrite M_bind_Ok by (unfold map_errM; by rewrite Hread).
  erewrite M_bind_Ok by (by apply (new_root _ _ _ _ _ data true)). done.
Qed.

(** Any file with its tree is read in full. *)
Lemma full_read_passes (w : W) f t s :
  let data := file_content w f in
  0 < len data <= MAX_VERIFIED_SIZE -> file_content w t = dump_of data ->
  fsverity_verify_full_read_4k f t s w = (Ok (), w) ∧ fsverity_verify_full_read_4k1 f t s w = (Ok (), w) ∧
  fsverity_verify_full_read_4m f t s w = (Ok (), w).
Proof.
  intros data Hn Ht. pose proof (len_dump data Hn) as Hl. unfold MAX_VERIFIED_SIZE in Hn.
  assert (reads_content (local w t) w (dump_of data)) as Htree by (rewrite <- Ht; apply local_reads; by rewrite Ht).
  assert (fsverity_verify_full_read_4k f t s w = (Ok (), w)) as Hp; [|by split_and!].
  unfold fsverity_verify_full_read_4k. erewrite M_bind_Ok.
  2: { apply new_reader_ok; [done|]. intros p Hp. by apply (reads_root_page _ data). }
  cbv beta iota. fold data. erewrite M_bind_lift.
  2: { unfold total_chunk_number. rewrite add_u64_ok, bind_Ok by lia. by apply div_u64_ok. }
  apply for_each_ok, Forall_forall. intros i Hi%elem_of_seqZ. eapply assert_ok_ok, (reader_serves _ data); try done; cbn.
  - apply local_reads. fold data. unfold i64_MAX. lia.
  - lia.
  - fold data. unfold CHUNK_SIZE. Z.div_mod_to_equations. lia.
Qed.

(** With the first leaf page of the tree of a 4 MiB file replaced, the 128
    chunks below it cannot be read and the next one can, unless the replacement
    collides with the page. *)
Lemma bad_merkle_tree_passes (w : W) left f t s p bad :
  let data := file_content w f in
  len data = 4 * 2 ^ 20 -> (∀ i, length (left i) = CHUNK) ->
  pages (leaf_hashes data) !! O = Some p -> length bad = CHUNK -> bad <> p ->
  file_content w t = damaged_dump data 0 0 bad ->
  fsverity_verify_bad_merkle_tree left f t s w = (Ok (), w) ∨ collision [bad] [p].
Proof.
  intros data Hsz Hleft Hp Hbad Hne Ht.
  destruct (decide (sha256 bad = sha256 p)) as [Hcol|Hdiff].
  { right. exists bad, p. by rewrite !list_elem_of_singleton. }
  left. assert (0 < len data <= MAX_VERIFIED_SIZE) as Hn by (unfold MAX_VERIFIED_SIZE; lia).
  assert (height_of data = 1%nat) as Hh by (unfold height_of; by rewrite Hsz).
  assert (len (file_content w t) <= i64_MAX) as Hl.
  { rewrite Ht, length_damaged_dump by done. by apply len_dump. }
  pose proof (local_reads w t Hl) as Htree. rewrite Ht in Htree.
  assert (reads_content (local w f) w data) as Hfile by (apply local_reads; fold data; unfold i64_MAX; lia).
  unfold fsverity_verify_bad_merkle_tree. erewrite M_bind_Ok.
  2: { apply new_reader_ok; [done|]. fold data. intros q Hq.
       pose proof (damaged_read (local w t) data w 0 0 p bad Hn ltac:(lia) Hp Hbad Htree (height_of data) 0 q ltac:(lia) Hq) as Hr.
       rewrite decide_False in Hr by lia. cbn [level_start] in Hr. rewrite Nat.eqb_refl in Hr. exact Hr. }
  cbv beta iota. fold data. set (r := {| vf_chunked_file := _ |}).
  assert (∀ i : nat, (i <= 128)%nat ->
    if decide (i / 128 ^ 1 = 0)%nat then read_chunk r (Z.of_nat i) (left (Z.of_nat i)) w = (Err (RawOs EIO), w)
    else ∃ a, read_chunk r (Z.of_nat i) (left (Z.of_nat i)) w = (Ok a, w)) as Hrd.
  { intros i Hi. pose proof (damaged_reader r data w 0 0 i p bad (left (Z.of_nat i)) Hn eq_refl eq_refl Hfile
      ltac:(lia) Hp Hbad Hne Htree ltac:(clia) (Hleft _)) as Hd.
    case_decide; [|by eexists]. destruct Hd as [?|(a & b & Ha & Hb & Hab & Hc)]; [done|].
    apply list_elem_of_singleton in Ha as ->. apply list_elem_of_singleton in Hb as ->. done. }
  erewrite M_bind_Ok; [|apply for_each_ok, Forall_forall; intros i Hi%elem_of_seqZ].
  - specialize (Hrd 128%nat ltac:(lia)). rewrite decide_False in Hrd by (vm_compute; lia).
    destruct Hrd as [a Ha]. by eapply assert_ok_ok.
  - change (4096 / 32) with 128 in Hi. specialize (Hrd (Z.to_nat i) ltac:(lia)). rewrite Z2Nat.id in Hrd by lia. rewrite decide_True in Hrd by (apply Nat.div_small; rewrite Nat.pow_1_r; lia).
    by eapply assert_err_ok.
Qed.

Lemma invalid_signature_passes (w : W) f t s :
  let data := file_content w f in
  0 < len data <= MAX_VERIFIED_SIZE -> file_content w t = dump_of data -> invalid_signature f t s w = (Ok (), w).
Proof.
  intros data Hn Ht. pose proof (len_dump data Hn) as Hl.
  assert (reads_content (local w t) w (dump_of data)) as Htree by (rewrite <- Ht; apply local_reads; by rewrite Ht).
  unfold invalid_signature. erewrite M_bind_Ok by apply local_new. erewrite M_bind_Ok by apply local_new.
  erewrite M_bind_Ok by (unfold map_errM; by rewrite Hread). eapply assert_err_ok, (new_root _ _ _ _ _ data false); [done| |done].
  intros p Hp. by apply (reads_root_page _ data).
Qed.
End Tests.
End VerifierTests.
