(* ===== verification/DigestTests.v ===== *)
(** * The digest tests of editor.rs and builder.rs

    The tests that compare a digest with one that the fsverity tool printed,
    translated like the other tests.  In a build without debug assertions, a
    test passes exactly when the hexadecimal strings in it are the fs-verity
    digests of the contents that it names: the rest of what it checks, counts,
    sizes and contents, always holds.  [digests_match] states that much about
    the strings. *)

From S2P Require Import Prelude Io Common Crypto FsverityCommon MerkleSpec Content Builder File Verifier Editor EditorRace UnitTests.

Import EditorUnitTests.

(** A content and the digest that the tool printed for it. *)
Definition digests_match `{Sha256Spec} {E} (l : list (bytes * string)) : Prop :=
  Forall (λ c, to_u8_vec (E := E) c.2 = Ok (fsverity_digest c.1)) l.

(** ** The tests of editor.rs *)
Module EditorDigestTests.
Section Tests.
Context `{Profile} `{Sha256Ffi}.

(** [assert_eq!(file.write_at(buf, offset)?, n)]. *)
Definition assert_write (buf : bytes) (offset n : Z) : M state io_error unit :=
  size ← write buf offset; lift (assert_eq size n).
(** [assert_eq!(file.size(), n)]. *)
Definition assert_size (n : Z) : M state io_error unit :=
  size ← VerifiedFileEditor_size file; lift (assert_eq size n).
(** [assert_eq!(file.calculate_fsverity_digest()?, to_u8_vec(hex).as_slice())]. *)
Definition assert_digest (hex : string) : M state io_error unit :=
  digest ← VerifiedFileEditor_calculate_fsverity_digest file;
  expected ← lift (to_u8_vec hex);
  lift (assert_eq digest expected).

Definition test_verified_writer_from_zero : M state io_error unit :=
  _ ← put new_file;
  _ ← assert_write (ones 4096) 0 4096;
  _ ← assert_digest "cd0875ca59c7d37e962c5e8f5acd3770750ac80225e2df652ce5672fd34500af";
  _ ← put new_file;
  _ ← assert_write (ones 4097) 0 4097;
  _ ← assert_digest "2901b849fda2d91e3929524561c4a47e77bb64734319759507b2029f18b9cc52";
  _ ← put new_file;
  _ ← assert_write (ones 10000) 0 10000;
  _ ← assert_digest "7545409b556071554d18973a29b96409588c7cda4edd00d5586b27a11e1a523b";
  mret ().

Definition test_verified_writer_unaligned : M state io_error unit :=
  _ ← put new_file;
  _ ← assert_write (ones 5) 3 5;
  _ ← assert_digest "a23fc5130d3d7b3323fc4b4a5e79d5d3e9ddf3a3f5872639e867713512c6702f";
  _ ← put new_file;
  _ ← assert_write (ones 6000) 4000 6000;
  _ ← assert_digest "d16d4c1c186d757e646f76208b21254f50d7f07ea07b1505ff48b2a6f603f989";
  mret ().

Definition test_verified_writer_with_hole : M state io_error unit :=
  _ ← put new_file;
  _ ← assert_write (ones 4096) 4096 4096;
  _ ← assert_digest "4df2aefd8c2a9101d1d8770dca3ede418232eabce766bb8e020395eae2e97103";
  _ ← put new_file;
  _ ← assert_write (ones 5000) 6000 5000;
  _ ← assert_digest "47d5da26f6934484e260630a69eb2eebb21b48f69bc8fbf8486d1694b7dba94f";
  _ ← put new_file;
  _ ← assert_write (ones 5) 16381 5;
  _ ← assert_digest "8bd118821fb4aff26bb4b51d485cc481a093c68131b7f4f112e9546198449752";
  mret ().

Definition test_verified_writer_various_writes : M state io_error unit :=
  _ ← put new_file;
  _ ← assert_write (ones 2048) 0 2048;
  _ ← assert_write (ones 2048) (4096 + 2048) 2048;
  _ ← assert_digest "4c433d8640c888b629dc673d318cbb8d93b1eebcc784d9353e07f09f0dcfe707";
  _ ← assert_write (ones 2048) 2048 2048;
  _ ← assert_write (ones 2048) 4096 2048;
  _ ← assert_digest "2a476d58eb80394052a3a783111e1458ac3ecf68a7878183fed86ca0ff47ec0d";
  _ ← assert_write (zeros 2048) 2048 2048;
  _ ← assert_write (zeros 2048) 4096 2048;
  _ ← assert_digest "4c433d8640c888b629dc673d318cbb8d93b1eebcc784d9353e07f09f0dcfe707";
  _ ← assert_write (ones 4096) 2048 4096;
  _ ← assert_digest "2a476d58eb80394052a3a783111e1458ac3ecf68a7878183fed86ca0ff47ec0d";
  _ ← assert_write (ones 2048) 8192 2048;
  _ ← assert_write (ones 2048) (8192 + 2048) 2048;
  _ ← assert_digest "23cbac08371e6ee838ebcc7ae6512b939d2226e802337be7b383c3e046047d24";
  mret ().

Definition test_resize_to_same_size : M state io_error unit :=
  _ ← put new_file;
  _ ← assert_write (ones 2048) 0 2048;
  _ ← assert_ok (VerifiedFileEditor_resize file 2048);
  _ ← assert_size 2048;
  _ ← assert_digest "fef1b4f19bb7a2cd944d7cdee44d1accb12726389ca5b0f61ac0f548ae40876f";
  mret ().

Definition test_resize_to_grow : M state io_error unit :=
  _ ← put new_file;
  _ ← assert_write (ones 2048) 0 2048;
  _ ← assert_ok (VerifiedFileEditor_resize file 4096);
  _ ← assert_size 4096;
  _ ← assert_digest "9e0e2745c21e4e74065240936d2047340d96a466680c3c9d177b82433e7a0bb1";
  mret ().

Definition test_resize_to_shrink : M state io_error unit :=
  _ ← put new_file;
  _ ← assert_write (ones 4096) 0 4096;
  _ ← VerifiedFileEditor_resize file 2048;
  _ ← assert_size 2048;
  _ ← assert_digest "fef1b4f19bb7a2cd944d7cdee44d1accb12726389ca5b0f61ac0f548ae40876f";
  mret ().

Definition test_resize_to_shirink_to_chunk_boundary : M state io_error unit :=
  _ ← put failing_file;
  _ ← assert_write (ones 8192) 0 8192;
  _ ← VerifiedFileEditor_resize file 4096;
  _ ← assert_size 4096;
  _ ← assert_digest "cd0875ca59c7d37e962c5e8f5acd3770750ac80225e2df652ce5672fd34500af";
  mret ().
End Tests.

(** *** Running a test on a plain file *)
Section Run.
Context `{Profile} `{Sha256Spec} (Hrelease : debug_assertions = false).

(** The editor holds the content [d] and its tree; [fail] says that reads fail. *)
Definition holds (fail : bool) (d : bytes) (st : state) : Prop :=
  represents st.1 d ∧ st.2 = {| im_data := d; im_fail_read := fail |} ∧ len d <= 2 ^ 40.
Definition passes (test : M state io_error unit) (st : state) (l : list (bytes * string)) : Prop :=
  (test st).1 = Ok () <-> digests_match (E := io_error) l.

Lemma passes_end st : passes (mret ()) st [].
Proof. split; [intros _; apply Forall_nil_2|done]. Qed.
Lemma passes_new k fail l :
  (∀ st, holds fail [] st -> passes k st l) ->
  ∀ st, passes (_ ← put (ml_new, {| im_data := []; im_fail_read := fail |}); k) st l.
Proof. intros Hk st. apply (Hk (ml_new, _)). split_and!; [apply represents_new|done|simpl; lia]. Qed.

Lemma passes_write k d st buf off n l :
  holds false d st -> 0 <= off -> off + len buf <= 2 ^ 40 -> n = len buf ->
  (∀ st', holds false (write_bytes d (Z.to_nat off) buf) st' -> passes k st' l) ->
  passes (_ ← assert_write buf off n; k) st l.
Proof.
  destruct st as [t w]. intros (Hrep & Hw & Hd) Hoff Hb -> Hk. cbn [fst snd] in *.
  destruct (write_at_honest 4097 file d buf (Z.to_nat off) t w) as (t' & w' & Hwr & Hrep' & Hok' & Hc');
    [clia|unfold stored_max; cbn; unfold i64_MAX; lia..|lia|done|by rewrite Hw|by rewrite Hw|].
  rewrite Z2Nat.id in Hwr by done. unfold passes. rewrite M_bind_eq. unfold assert_write, write.
  rewrite M_bind_eq, Hwr. cbn [lift]. rewrite LocalFileTests.assert_eq_refl. apply Hk. cbn in Hok', Hc'.
  split_and!; [done|destruct w'; cbn in *; congruence|].
  destruct (decide (buf = [])) as [->|Hne]; [done|]. rewrite length_write_bytes by done. lia.
Qed.
Lemma passes_resize k d st n l :
  holds false d st -> 0 <= n <= 2 ^ 40 ->
  (∀ st', holds false (resize_bytes d (Z.to_nat n)) st' -> passes k st' l) ->
  passes (_ ← VerifiedFileEditor_resize file n; k) st l ∧
  passes (_ ← assert_ok (VerifiedFileEditor_resize file n); k) st l.
Proof.
  destruct st as [t w]. intros (Hrep & Hw & Hd) Hn Hk. cbn [fst snd] in *.
  destruct (resize_honest file n d t w) as (t' & w' & Hr & Hrep' & Hok' & Hc');
    [unfold stored_max; cbn; unfold i64_MAX; lia..|clia|clia|done|by rewrite Hw|by rewrite Hw|].
  assert (holds false (resize_bytes d (Z.to_nat n)) (t', w')) as Hh.
  { cbn in Hok', Hc'. split_and!; [done|destruct w'; cbn in *; congruence|]. rewrite length_resize_bytes. lia. }
  unfold passes. rewrite !M_bind_eq. unfold assert_ok, tryM. rewrite !M_bind_eq, Hr. split; by apply Hk.
Qed.
Lemma passes_size k fail d st n l :
  holds fail d st -> n = len d -> passes k st l -> passes (_ ← assert_size n; k) st l.
Proof.
  destruct st as [t w]. intros ([_ Hs] & _ & _) -> Hk. cbn [fst] in Hs.
  assert (assert_size (len d) (t, w) = (Ok (), (t, w))) as Ha.
  { unfold assert_size. erewrite M_bind_Ok by reflexivity. unfold file_size, lift. cbn [fst].
    by rewrite Hs, LocalFileTests.assert_eq_refl. }
  unfold passes. by rewrite M_bind_eq, Ha.
Qed.
Lemma passes_digest k fail d st c hex l :
  holds fail d st -> c = d -> passes k st l -> passes (_ ← assert_digest hex; k) st ((c, hex) :: l).
Proof.
  intros (Hrep & _ & Hd) -> Hk. unfold passes in *. unfold digests_match in *. rewrite Forall_cons. rewrite <- Hk. cbn [fst snd].
  assert (VerifiedFileEditor_calculate_fsverity_digest file st = (Ok (fsverity_digest d), st)) as Hdig.
  { unfold VerifiedFileEditor_calculate_fsverity_digest. erewrite M_bind_Ok by reflexivity.
    unfold lift. by rewrite (calculate_digest_ok st.1 d) by (done || lia). }
  rewrite M_bind_eq. unfold assert_digest. rewrite M_bind_eq, Hdig, M_bind_eq. unfold lift.
  destruct (to_u8_vec hex) as [e| | |]; [|by split; [|intros [? _]]..].
  unfold assert_eq, assert_. case_bool_decide as He; [|split; [done|intros [[= ->] _]; done]].
  rewrite He. split; [done|]. by intros [_ ?].
Qed.

(** One complete chunk goes to the file without a read. *)
Lemma full_chunk_step fail d t (i k : nat) buf :
  leaves_of t d -> k = (i * CHUNK)%nat -> (k + CHUNK <= length buf)%nat -> len buf <= 2 ^ 40 ->
  let d' := write_bytes d k (take CHUNK (drop k buf)) in
  ∃ t', write_at_iteration 4097 file buf (Z.of_nat 0) (Z.of_nat k, CHUNK_SIZE) (t, {| im_data := d; im_fail_read := fail |})
          = (Ok None, (t', {| im_data := d'; im_fail_read := fail |})) ∧
    leaves_of t' d' ∧ ml_file_size t' = Z.max (ml_file_size t) (len buf).
Proof.
  intros Hlo -> Hk Hb d'. set (k := (i * CHUNK)%nat) in *. set (src := take CHUNK (drop k buf)) in *.
  assert (length src = CHUNK) as Hl by (unfold src; rewrite length_take, length_drop; lia).
  assert (src <> []) as Hne by (intros He; rewrite He in Hl; simpl in Hl; clia).
  pose proof (iteration_eq 4097 file buf 0 k CHUNK i 0 t {| im_data := d; im_fail_read := fail |}) as Hit.
  cbn [Nat.add] in Hit. change (Z.of_nat CHUNK) with CHUNK_SIZE in Hit. rewrite Hit by (unfold piece; clia). cbv zeta.
  fold src. unfold new_chunk_hash. replace (len src =? CHUNK_SIZE) with true by clia.
  hash_run. cbn [map_err lift app].
  assert (∀ fuel, write_all_at (S (S fuel)) (ve_file file) src (Z.of_nat k) {| im_data := d; im_fail_read := fail |} =
    (Ok (), {| im_data := d'; im_fail_read := fail |})) as Hw.
  { intros fuel. unfold write_all_at. cbn [write_all_loop]. replace (0 <? len src) with true by clia. unfold slice_from.
    erewrite M_bind_lift by (apply slice_ok; lia). rewrite subrange_full by lia.
    erewrite M_bind_Ok by (apply InMemoryEditor_writes; [done|lia|unfold i64_MAX; clia]).
    erewrite M_bind_lift by (apply add_u64_ok; clia). erewrite M_bind_lift by (apply add_u64_ok; clia).
    cbn [write_all_loop]. replace (0 + len src <? len src) with false by lia. by rewrite Nat2Z.id. }
  rewrite M_bind_eq. cbn [on_snd]. rewrite (Hw 4095%nat). cbv beta iota.
  destruct (update_hash_leaves (E := io_error) d k i src t (sha256 src) (saturating_add_u64 (Z.of_nat 0) (len buf)))
    as (t' & Hu & Hlo' & Hsz'); [done|done|lia|lia|clia| |].
  { unfold k. rewrite <- (Nat.add_0_r (i * CHUNK)), <- block_write_same by lia. cbn [take app Nat.add].
    by rewrite drop_ge, app_nil_r by (rewrite length_block; lia). }
  erewrite M_bind_lift by exact Hu. exists t'. split_and!; [done|done|]. rewrite Hsz'.
  unfold saturating_add_u64, u64_MAX. lia.
Qed.

(** A write of two complete chunks to a new file, whether or not reads fail. *)
Lemma passes_write_chunks k fail st buf n l :
  holds fail [] st -> length buf = (2 * CHUNK)%nat -> n = len buf ->
  (∀ st', holds fail buf st' -> passes k st' l) -> passes (_ ← assert_write buf 0 n; k) st l.
Proof.
  destruct st as [t w]. intros ([Hlo Hsz]%leaves_of_represents & Hw & _) Hl -> Hk. cbn [fst snd] in *. subst w.
  destruct (full_chunk_step fail [] t 0 0 buf) as (t1 & Hit1 & Hlo1 & Hsz1); [done|lia|clia|clia|].
  destruct (full_chunk_step fail (write_bytes [] 0 (take CHUNK (drop 0 buf))) t1 1 CHUNK buf)
    as (t2 & Hit2 & Hlo2 & Hsz2); [done|lia|clia|clia|].
  assert (write_bytes (write_bytes [] 0 (take CHUNK (drop 0 buf))) CHUNK (take CHUNK (drop CHUNK buf)) = buf) as Hc.
  { rewrite drop_0. pose proof (write_bytes_take_snoc [] 0 buf CHUNK CHUNK) as Hs. cbn [Nat.add] in Hs.
    rewrite Hs by clia. rewrite take_ge by clia. apply byte_at_ext.
    - rewrite length_write_bytes by (intros ->; simpl in Hl; clia). simpl. lia.
    - intros p. rewrite byte_at_write. case_decide; [f_equal; lia|]. rewrite !byte_at_ge; [done|lia|simpl; lia]. }
  rewrite Hc in Hit2, Hlo2.
  assert (VerifiedFileEditor_write_at 4097 file buf (Z.of_nat 0) (t, {| im_data := []; im_fail_read := fail |})
    = (Ok (len buf), (t2, {| im_data := buf; im_fail_read := fail |}))) as Hwr.
  { rewrite write_at_eq by clia.
    assert (plan (len buf) (Z.of_nat 0) CHUNK_SIZE = [(Z.of_nat 0, CHUNK_SIZE); (Z.of_nat CHUNK, CHUNK_SIZE)]) as ->
      by (rewrite Hl; vm_compute; reflexivity).
    cbn [for_list]. rewrite M_bind_eq. erewrite M_bind_Ok by exact Hit1. cbv beta iota.
    erewrite M_bind_Ok by exact Hit2. done. }
  unfold passes. rewrite M_bind_eq. unfold assert_write, write. change 0 with (Z.of_nat 0). rewrite M_bind_eq, Hwr.
  cbn [lift]. rewrite LocalFileTests.assert_eq_refl. apply Hk. split_and!; [|done|clia].
  apply leaves_of_represents. split; [done|]. cbn [fst]. rewrite Hsz2, Hsz1, Hsz. simpl. lia.
Qed.
Lemma passes_resize_boundary k fail d st n l :
  holds fail d st -> 0 <= n <= 2 ^ 40 -> n mod CHUNK_SIZE = 0 ->
  (∀ st', holds fail (resize_bytes d (Z.to_nat n)) st' -> passes k st' l) ->
  passes (_ ← VerifiedFileEditor_resize file n; k) st l.
Proof.
  destruct st as [t w]. intros (Hrep & Hw & Hd) Hn Hm Hk. cbn [fst snd] in *. subst w.
  destruct (resize_at_boundary file n t d {| im_data := d; im_fail_read := fail |}
    {| im_data := resize_bytes d (Z.to_nat n); im_fail_read := fail |}) as (t' & Hr & Hrep'); [done|lia|clia|by right|done|].
  unfold passes. rewrite M_bind_eq, Hr. apply Hk. split_and!; [done|done|]. rewrite length_resize_bytes. lia.
Qed.

(** Runs a test statement by statement on the plain file. *)
Ltac run_test := intros ?; lazymatch goal with |- passes ?test _ _ => let body := eval red in test in change test with body end; repeat
  match goal with
  | |- passes (mret ()) _ _ => apply passes_end
  | |- passes (put _ ≫= _) _ _ => apply (passes_new _ false); intros ? ?
  | |- passes (assert_write _ _ _ ≫= _) _ _ =>
      eapply passes_write; [eassumption|lia|vm_compute; discriminate|vm_compute; reflexivity|intros ? ?]
  | |- passes (assert_ok _ ≫= _) _ _ =>
      eapply passes_resize; [eassumption|lia|intros ? ?]
  | |- passes (VerifiedFileEditor_resize _ _ ≫= _) _ _ =>
      eapply passes_resize; [eassumption|lia|intros ? ?]
  | |- passes (assert_size _ ≫= _) _ _ => eapply passes_size; [eassumption|vm_compute; reflexivity|]
  | |- passes (assert_digest _ ≫= _) _ _ => eapply passes_digest; [eassumption|vm_compute; reflexivity|]
  end.

Lemma test_verified_writer_from_zero_passes : ∀ st, passes test_verified_writer_from_zero st
  [(ones 4096, "cd0875ca59c7d37e962c5e8f5acd3770750ac80225e2df652ce5672fd34500af"%string);
   (ones 4097, "2901b849fda2d91e3929524561c4a47e77bb64734319759507b2029f18b9cc52"%string);
   (ones 10000, "7545409b556071554d18973a29b96409588c7cda4edd00d5586b27a11e1a523b"%string)].
Proof. run_test. Qed.
Lemma test_verified_writer_unaligned_passes : ∀ st, passes test_verified_writer_unaligned st
  [(zeros 3 ++ ones 5, "a23fc5130d3d7b3323fc4b4a5e79d5d3e9ddf3a3f5872639e867713512c6702f"%string);
   (zeros 4000 ++ ones 6000, "d16d4c1c186d757e646f76208b21254f50d7f07ea07b1505ff48b2a6f603f989"%string)].
Proof. run_test. Qed.
Lemma test_verified_writer_with_hole_passes : ∀ st, passes test_verified_writer_with_hole st
  [(zeros 4096 ++ ones 4096, "4df2aefd8c2a9101d1d8770dca3ede418232eabce766bb8e020395eae2e97103"%string);
   (zeros 6000 ++ ones 5000, "47d5da26f6934484e260630a69eb2eebb21b48f69bc8fbf8486d1694b7dba94f"%string);
   (zeros 16381 ++ ones 5, "8bd118821fb4aff26bb4b51d485cc481a093c68131b7f4f112e9546198449752"%string)].
Proof. run_test. Qed.
Lemma test_verified_writer_various_writes_passes : ∀ st, passes test_verified_writer_various_writes st
  [(ones 2048 ++ zeros 4096 ++ ones 2048, "4c433d8640c888b629dc673d318cbb8d93b1eebcc784d9353e07f09f0dcfe707"%string);
   (ones 8192, "2a476d58eb80394052a3a783111e1458ac3ecf68a7878183fed86ca0ff47ec0d"%string);
   (ones 2048 ++ zeros 4096 ++ ones 2048, "4c433d8640c888b629dc673d318cbb8d93b1eebcc784d9353e07f09f0dcfe707"%string);
   (ones 8192, "2a476d58eb80394052a3a783111e1458ac3ecf68a7878183fed86ca0ff47ec0d"%string);
   (ones 12288, "23cbac08371e6ee838ebcc7ae6512b939d2226e802337be7b383c3e046047d24"%string)].
Proof. run_test. Qed.
Lemma test_resize_to_same_size_passes : ∀ st, passes test_resize_to_same_size st
  [(ones 2048, "fef1b4f19bb7a2cd944d7cdee44d1accb12726389ca5b0f61ac0f548ae40876f"%string)].
Proof. run_test. Qed.
Lemma test_resize_to_grow_passes : ∀ st, passes test_resize_to_grow st
  [(ones 2048 ++ zeros 2048, "9e0e2745c21e4e74065240936d2047340d96a466680c3c9d177b82433e7a0bb1"%string)].
Proof. run_test. Qed.
Lemma test_resize_to_shrink_passes : ∀ st, passes test_resize_to_shrink st
  [(ones 2048, "fef1b4f19bb7a2cd944d7cdee44d1accb12726389ca5b0f61ac0f548ae40876f"%string)].
Proof. run_test. Qed.
Lemma test_resize_to_shirink_to_chunk_boundary_passes : ∀ st, passes test_resize_to_shirink_to_chunk_boundary st
  [(ones 4096, "cd0875ca59c7d37e962c5e8f5acd3770750ac80225e2df652ce5672fd34500af"%string)].
Proof.
  apply (passes_new _ true). intros st Hst.
  eapply passes_write_chunks; [exact Hst|apply length_replicate|vm_compute; reflexivity|]. intros st1 Hst1.
  eapply passes_resize_boundary; [exact Hst1|lia|reflexivity|]. intros st2 Hst2.
  eapply passes_size; [exact Hst2|vm_compute; reflexivity|].
  eapply passes_digest; [exact Hst2|vm_compute; reflexivity|apply passes_end].
Qed.
End Run.
End EditorDigestTests.

(** ** The tests of builder.rs *)
Module BuilderDigestTests.
Import Builder.Tests.

Section Tests.
Context `{Profile} `{Sha256Ffi}.

(** [assert_eq!(to_u8_vec(hex), generate_fsverity_digest_sequentially(data)?)]. *)
Definition assert_sequential (hex : string) (test_data : bytes) : outcome FsverityError unit :=
  expected ← to_u8_vec hex;
  digest ← generate_fsverity_digest_sequentially test_data;
  assert_eq expected digest.

Definition merkle_tree_file_size_less_than_or_equal_to_4k : outcome FsverityError unit :=
  _ ← assert_sequential "cd0875ca59c7d37e962c5e8f5acd3770750ac80225e2df652ce5672fd34500af" (ones 4096);
  Ok ().

Definition merkle_tree_more_sizes : outcome FsverityError unit :=
  _ ← assert_sequential "2901b849fda2d91e3929524561c4a47e77bb64734319759507b2029f18b9cc52" (ones 4097);
  _ ← assert_sequential "2a476d58eb80394052a3a783111e1458ac3ecf68a7878183fed86ca0ff47ec0d" (ones 8192);
  _ ← assert_sequential "26b7c190a34e19f420808ee7ec233b09fa6c34543b5a9d2950530114c205d14f" (ones 524288);
  _ ← assert_sequential "316835d9be1c95b5cd55d07ae7965d651689efad186e26cbf680e40b683a3262" (ones 524289);
  Ok ().

Definition merkle_tree_non_sequential : outcome FsverityError unit :=
  let tree := ml_new in
  hash ← map_err UnexpectedCryptoError
    (h ← hasher_new; h ← hasher_update (ones CHUNK_SIZE) h; hasher_finalize h);
  tree ← update_hash tree 1 hash (CHUNK_SIZE * 2);
  tree ← update_hash tree 3 hash (CHUNK_SIZE * 4);
  tree ← update_hash tree 0 hash CHUNK_SIZE;
  tree ← update_hash tree 2 hash (CHUNK_SIZE * 3);
  expected ← to_u8_vec "7d3c0d2e1dc54230b20ed875f5f3a4bd3f9873df601936b3ca8127d4db3548f3";
  digest ← calculate_fsverity_digest tree;
  assert_eq expected digest.
End Tests.

Section Run.
Context `{Profile} `{Sha256Spec} (Hrelease : debug_assertions = false).

Lemma write_bytes_end d b : b <> [] -> write_bytes d (length d) b = d ++ b.
Proof.
  intros Hb. unfold write_bytes. destruct b as [|x b]; [done|].
  by rewrite take_app_length, (drop_ge d), app_nil_r by lia.
Qed.

(** The tree of the chunks so far, chunk by chunk. *)
Lemma fill_ok data l : ∀ (index : nat) t,
  len data + CHUNK_SIZE < 2 ^ 64 -> represents t (take (index * CHUNK) data) ->
  (∀ j, l !! j = if decide ((index + j) * CHUNK < length data)%nat
                 then Some (take CHUNK (drop ((index + j) * CHUNK) data)) else None) ->
  ∃ t', fill (Z.of_nat index) l t = Ok t' ∧ represents t' data.
Proof.
  induction l as [|c l IH]; intros index t H64 Hrep Hl.
  { exists t. split; [done|]. specialize (Hl O). rewrite Nat.add_0_r in Hl. case_decide as Hd; [done|].
    by rewrite take_ge in Hrep by lia. }
  pose proof (Hl O) as Hc. rewrite Nat.add_0_r in Hc. case_decide as Hd; [|done]. injection Hc as Hc.
  set (k := (index * CHUNK)%nat) in *.
  assert (length c = Nat.min CHUNK (length data - k)) as Hlc by (by rewrite Hc, length_take, length_drop).
  assert (c <> []) as Hne by (intros ->; cbn [length] in Hlc; clia).
  assert (write_bytes (take k data) k c = take (S index * CHUNK) data) as Hw.
  { rewrite <- (length_take_le data k) at 2 by lia. rewrite write_bytes_end, Hc, take_take_drop by done.
    f_equal. lia. }
  pose proof (proj1 (leaves_of_represents _ _) Hrep) as [Hlo Hsz]. cbn [fill].
  hash_run. cbn [map_err app]. rewrite bind_Ok. change (c ++ zeros (CHUNK_SIZE - len c)) with (pad_chunk c).
  destruct (update_hash_leaves (E := FsverityError) (take k data) k index c t (sha256 (pad_chunk c))
    (CHUNK_SIZE * Z.of_nat index + len c)) as (t' & Hu & Hlo' & Hsz'); [done|done|lia|lia|clia| |].
  { rewrite Hw, Hc. unfold k. rewrite pad_chunk_block. f_equal. apply block_ext. intros j Hj.
    rewrite byte_at_take, decide_True by lia. done. }
  rewrite Hu, bind_Ok. rewrite Hw in Hlo'. replace (Z.of_nat index + 1) with (Z.of_nat (S index)) by lia.
  apply IH; [done| |].
  - apply leaves_of_represents. split; [done|]. rewrite Hsz', Hsz, !length_take. clia.
  - intros j. specialize (Hl (S j)). cbn in Hl. by rewrite Nat.add_succ_r in Hl.
Qed.
Lemma sequential_digest data :
  len data + 2 ^ 20 < 2 ^ 64 -> generate_fsverity_digest_sequentially data = Ok (fsverity_digest data).
Proof.
  intros H64. unfold generate_fsverity_digest_sequentially.
  destruct (fill_ok data (chunks CHUNK data) 0 ml_new) as (t & Hf & Hrep); [clia|apply represents_new| |].
  { intros j. by rewrite chunks_lookup by clia. }
  change (Z.of_nat 0) with 0 in Hf. rewrite Hf, bind_Ok. by apply calculate_digest_ok.
Qed.

Lemma assert_sequential_ok hex data r :
  len data + 2 ^ 20 < 2 ^ 64 ->
  (_ ← assert_sequential hex data; r) = Ok () <-> to_u8_vec (E := FsverityError) hex = Ok (fsverity_digest data) ∧ r = Ok ().
Proof.
  intros H64. unfold assert_sequential. rewrite sequential_digest by done.
  destruct (to_u8_vec hex) as [e| | |]; [|by split; [|intros [? _]]..]. cbn. unfold assert_eq, assert_.
  case_bool_decide as He; cbn; [|split; [done|intros [[= ->] _]; done]]. rewrite He. split; [done|]. by intros [_ ?].
Qed.

(** One whole chunk of ones, at any index. *)
Lemma ones_chunk {E} t d (i : nat) size :
  leaves_of t d -> Z.of_nat (S i * CHUNK) < 2 ^ 64 ->
  ∃ t', update_hash (E := E) t (Z.of_nat i) (sha256 (ones CHUNK_SIZE)) size = Ok t' ∧
    leaves_of t' (write_bytes d (i * CHUNK) (ones CHUNK_SIZE)) ∧ ml_file_size t' = Z.max (ml_file_size t) size.
Proof.
  intros Hlo H64. assert (length (ones CHUNK_SIZE) = CHUNK) as Hl by apply length_replicate.
  apply update_hash_leaves; [done|by intros He; rewrite He in Hl|lia|lia|lia|].
  rewrite <- (Nat.add_0_r (i * CHUNK)), <- block_write_same by lia. cbn [take app Nat.add].
  by rewrite drop_ge, app_nil_r by (rewrite length_block; lia).
Qed.

(** The three tests; the tree does not depend on the order of its updates. *)
Lemma builder_digest_tests_pass :
  (merkle_tree_file_size_less_than_or_equal_to_4k = Ok () <->
   digests_match (E := FsverityError)
     [(ones 4096, "cd0875ca59c7d37e962c5e8f5acd3770750ac80225e2df652ce5672fd34500af"%string)]) ∧
  (merkle_tree_more_sizes = Ok () <->
   digests_match (E := FsverityError)
     [(ones 4097, "2901b849fda2d91e3929524561c4a47e77bb64734319759507b2029f18b9cc52"%string);
      (ones 8192, "2a476d58eb80394052a3a783111e1458ac3ecf68a7878183fed86ca0ff47ec0d"%string);
      (ones 524288, "26b7c190a34e19f420808ee7ec233b09fa6c34543b5a9d2950530114c205d14f"%string);
      (ones 524289, "316835d9be1c95b5cd55d07ae7965d651689efad186e26cbf680e40b683a3262"%string)]) ∧
  (merkle_tree_non_sequential = Ok () <->
   digests_match (E := FsverityError)
     [(ones 16384, "7d3c0d2e1dc54230b20ed875f5f3a4bd3f9873df601936b3ca8127d4db3548f3"%string)]).
Proof.
  unfold digests_match. rewrite !Forall_cons, Forall_nil. cbn [fst snd].
  assert (∀ n, 0 <= n < 2 ^ 40 -> len (ones n) + 2 ^ 20 < 2 ^ 64) as Hb
    by (intros n Hn; unfold ones; rewrite length_replicate; lia).
  split_and!.
  - unfold merkle_tree_file_size_less_than_or_equal_to_4k. rewrite assert_sequential_ok by (apply Hb; lia). tauto.
  - unfold merkle_tree_more_sizes. rewrite !assert_sequential_ok by (apply Hb; lia). tauto.
  - unfold merkle_tree_non_sequential. hash_run. cbn [map_err app]. rewrite bind_Ok.
    destruct (proj1 (leaves_of_represents _ _) represents_new) as [Hlo0 _].
    destruct (ones_chunk (E := FsverityError) ml_new [] 1 (CHUNK_SIZE * 2) Hlo0 ltac:(clia)) as (t1 & Hu1 & Hlo1 & Hs1).
    destruct (ones_chunk (E := FsverityError) t1 _ 3 (CHUNK_SIZE * 4) Hlo1 ltac:(clia)) as (t2 & Hu2 & Hlo2 & Hs2).
    destruct (ones_chunk (E := FsverityError) t2 _ 0 CHUNK_SIZE Hlo2 ltac:(clia)) as (t3 & Hu3 & Hlo3 & Hs3).
    destruct (ones_chunk (E := FsverityError) t3 _ 2 (CHUNK_SIZE * 3) Hlo3 ltac:(clia)) as (t4 & Hu4 & Hlo4 & Hs4).
    change (Z.of_nat 1) with 1 in Hu1. change (Z.of_nat 3) with 3 in Hu2. change (Z.of_nat 0) with 0 in Hu3.
    change (Z.of_nat 2) with 2 in Hu4. rewrite Hu1, bind_Ok, Hu2, bind_Ok, Hu3, bind_Ok, Hu4, bind_Ok.
    set (d := write_bytes _ _ _) in Hlo4. replace d with (ones 16384) in Hlo4 by (vm_compute; reflexivity).
    rewrite (calculate_digest_ok t4 (ones 16384)); [|done| |by apply Hb].
    2: { apply leaves_of_represents. split; [done|]. rewrite Hs4, Hs3, Hs2, Hs1. unfold ones.
         rewrite length_replicate. cbn [ml_file_size ml_new]. clia. }
    destruct (to_u8_vec _) as [e| | |]; [|split; [done|by intros [? _]]..]. cbn. unfold assert_eq, assert_.
    case_bool_decide as He; [rewrite He; tauto|]. split; [done|]. by intros [[= ->] _].
Qed.
End Run.
End BuilderDigestTests.
